(* ===== verification/_CoqProject ===== *)
-Q . S2P
Prelude.v
GoStrings.v
Base64.v
Sha256.v
Json.v
Types.v
EngineTypes.v
Env.v
Texts.v
Principal.v
Router.v
Shard.v
Routing.v
GoFloat.v
GoTime.v
Temporal.v
GoDuration.v
Channel.v
Coroutine.v
Waits.v
Worker.v
Dispatch.v
Events.v
World.v
WorldFacts.v
Manager.v
ManagerSpec.v
Failure.v
Workflow.v
Durable.v
Commands.v
Visibility.v
Activities.v
Schedules.v
Deployments.v
Admin.v
Retention.v
Surface.v
Zap.v
Client.v
QueueSpec.v
Frames.v
RunInv.v
Creates.v
Upkeep.v
PurgeSpec.v
PurgeLive.v
Reach.v
Serves.v
Mcp.v
Migration.v
SurfaceSpec.v
ZapSpec.v
ClientSpec.v
Rows.v
RowSpec.v
System.v
Lifecycle.v
Machine.v
DurableSpec.v
StoreSpec.v
ReplaySpec.v
Rounds.v
Stub.v
Cluster.v
WorkerWire.v
Pool.v
Quasar.v
TaskClient.v
Auth.v
Embedded.v
