(* ===== verification/Prelude.v ===== *)
(** * Hanzo Tasks: a verification library

    Hanzo Tasks is a durable workflow engine: tenants start, signal, cancel, reset
    and query workflow runs; workers subscribe to task queues, decide workflows and
    run activities; every fact that must survive a restart is a JSON row of a
    per-tenant, per-namespace table. This library is a shallow embedding of the
    engine, of the surfaces it is served on, of the SDK its workers and clients are
    written with, and of what runs it on several nodes ([src/pkg/tasks],
    [src/pkg/sdk], [src/pkg/auth], the mux of [src/cmd/tasksd]), with the theorems
    that make it correct.

    ** The program and its model

    A Go method that mutates shared state and returns an error is a computation
    [W A]: a function from the world to the new world and either an error or a
    value ([Prelude], [World]). A failing call keeps what it wrote before it failed,
    so a crash between two writes and a failing disk are the same thing: the
    environment ([Env]) says which operation on a database fails, what the clock and
    the random source answer, which pushes a transport accepts, and what the external
    packages ([robfig/cron], [hanzoai/namespace]) compute. What the code relies on in
    code of other modules is a named hypothesis with an instance: the names of paths
    ([SegmentRule], [LayoutRule]), the text of JSON documents ([JsonText]), the edge
    that reads tokens and owns the identity headers ([EdgeRule]), a consensus engine
    ([Engine]). [NoFaults] is the environment in which no operation fails.

    Files, in the order they are compiled, and the source each is written from:

    - [Prelude], [GoStrings], [Base64], [Sha256], [Json], [Texts]: the monad and its
      weakest preconditions; [strings], byte order, decimal and hexadecimal text; the
      standard library's base64 and SHA-256; JSON values, the codec class and its
      round-trip laws; a printing of JSON documents, for the witnesses.
    - [Types] ([types.go]) and [EngineTypes] ([durable.go], [failure.go]): every
      persisted record with its JSON codec, field by field, [omitempty] included.
    - [Principal], [Router], [Shard] ([store/principal.go], [store/router.go],
      [store/shard_db.go]): tenants, the key grammar, tables scanned in key order.
    - [Routing] ([routing/routing.go]): the leader of a queue among the nodes.
    - [GoFloat], [GoTime], [Temporal], [GoDuration]: [fmt.Sprint] of a JSON value,
      RFC 3339, [time.ParseDuration], retry policies with 64-bit durations and
      binary64 coefficients, and the failure envelope ([sdk/temporal]).
    - [Channel] ([sdk/workflow/channel.go]): workflow channels, each critical section
      one step, goroutines around them as labels.
    - [Coroutine] ([sdk/workflow]): options, futures, selectors, versions, side
      effects. A workflow function is a tree of calls ([prog]); [exec] runs it over
      any instance of [CoroutineEnv], the interface of the source.
    - [Waits] ([timer.go], [selector.go] of [sdk/workflow], [sdk/worker/env.go]): the
      goroutines of a select and of a timer, step by step, and cancel scopes.
    - [Worker] ([sdk/worker]): the replay environment (an instance), decoding of
      histories and arguments, workflow and activity dispatch, the registry.
    - [Dispatch] ([dispatch.go]): subscriptions, queues, task tokens, queries.
    - [Events] ([events.go]): the broker of live events.
    - [World] ([store.go], [store/shard.go], [replication/local.go]): the state of
      the process and the operations of the store; [WorldFacts] reasons about it.
    - [Manager], [ManagerSpec] ([store/shard.go], [store/shard_db.go]): open shards,
      sealed files, idle eviction, checkpoints and directory walks, and their
      refinement of the tables of [World].
    - [Failure] ([failure.go]): failure streaks and their throttled reporting.
    - [Workflow] ([engine.go]): namespaces, runs, history, cancel, reset, query.
    - [Durable] ([durable.go]) and [Commands] ([engine_commands.go], the worker
      handlers of [embed.go]): activities of workflows, recovery, decisions.
    - [Visibility] ([engine.go]): the query language of listings.
    - [Activities] ([activities.go]): standalone activities and their leases.
    - [Schedules] ([engine.go], [engine_extras.go]), [Deployments], [Admin],
      [Retention] ([retention.go]): the other rows of a namespace and the purge.
    - [Surface] ([answer.go], [surface.go], the handlers of [embed.go]): HTTP calls,
      the mux and the table of routes. [Zap] ([embed.go]): opcodes, tokens, frames of
      workers. [Client] ([sdk/client]): the calls of a client over a [Transport], an
      interface; the server of [Zap] behind a connection is an instance.
    - [QueueSpec]: the next fire of a schedule, the order of claims.
    - [Frames], [RunInv], [Creates], [Upkeep], [PurgeSpec], [PurgeLive]: what each
      operation may touch, and the invariant of the run rows across each of them.
    - [Reach]: the system as a transition relation: requests of any tenant, answers
      of workers, timers, sweeps, ticks, purges, recoveries, restarts, in any order.
    - [Serves]: what a handler does to the engine, a read or one request of [Reach];
      both surfaces are built from its wrapped calls. [SurfaceSpec], [ZapSpec],
      [ClientSpec]: the surfaces and the client against the engine.
    - [Mcp] ([mcp.go]): the engine as tools of an agent. [Migration]
      ([migration/migration.go]): the barrier, the copy of a shard, the jobs.
    - [Rows], [RowSpec]: invariants of the rows of one kind, in every reachable
      world. [System], [Lifecycle], [Machine], [DurableSpec], [StoreSpec]: the
      properties of the system, of runs, of activities and of the store.
    - [ReplaySpec], [Rounds]: the direct execution a replay must agree with, and the
      rounds of worker and server. [Stub] ([sdk/workflow/stub.go]): the environment
      of tests, another instance of [CoroutineEnv]. [Cluster]
      ([sdk/client/worker_transport.go]): what crosses the wire, and the engine and
      a worker run against each other. [WorkerWire] (the same file and
      [sdk/inproc/inproc.go]): the calls of a worker, the callbacks of pushes, and the
      call that starts a child workflow.
    - [Pool] ([sdk/worker/worker.go], [pollers.go]): the life of a worker, a goroutine
      per task around a semaphore, as a transition system.
    - [Quasar] ([replication/quasar/quasar.go]): replication by consensus, over the
      interface of an engine, nodes joined by the in-process hub.
    - [TaskClient] ([client.go] of [pkg/tasks]): recurring and one-shot tasks, durable
      where a server takes them and local otherwise.
    - [Auth] ([pkg/auth], the mux of [cmd/tasksd/main.go]): the identity of a request
      and the routes that have one. [Embedded] ([embed.go]): the process, its
      listeners, the calls of a host, the migration route.

    ** What the theorems show

    - Refinement: served without faults, a start, signal, terminate or cancel moves
      its run as an abstract machine of statuses and events says, and no other run
      ([Machine]). The manager of shard files answers as one table per tenant and
      namespace would ([ManagerSpec]).
    - Surfaces: whatever an HTTP caller, a frame of ZAP or an agent sends, the engine
      takes at most one request of the tenant the caller was identified as; the mux
      and the table of routes serve the same; without an identity nothing is served
      where one is required, and the identity headers a client sends are worth nothing
      ([SurfaceSpec], [ZapSpec], [Mcp], [Auth]). A call of the client, of a worker or
      of the embedded task client is the operation it names, with its arguments
      ([ClientSpec], [WorkerWire], [TaskClient]); the schedule calls whose opcodes the
      two sides number differently are shown to be another operation.
    - Nodes: validators agree on one leader of a queue without messages ([Routing]); a
      released migration has copied the rows it locked ([Migration]); replicas that
      receive the same frames apply the same writes, and with a threshold above one
      vote no write is ever decided ([Quasar]); a start recovers the root tenant only
      ([Embedded]).
    - Invariants of every reachable world, whatever failed on the way: open runs are
      in the index recovery reads; histories have no gaps; every row decodes as its
      kind promises; attempts stay within their maximum ([System], [RowSpec]).
    - Safety: a closed run stays closed; a tenant's requests and a worker's answers
      touch the rows of their tenant only; an activity is scheduled once and
      completed once; the purge spares what has not expired.
    - Workers: replay against a history that grows ends as the direct execution
      does, does not depend on the order of the events, and schedules nothing twice;
      a test environment predicts the run; channels lose, reorder and strand nothing;
      a select ends, sleeps only while none of its cases is ready, and leaves no goroutine;
      every task a worker takes is running, dropped or answered, and those that run
      stay within the semaphore ([Rounds], [Stub], [Channel], [Waits], [Pool]). What the worker
      does not do is shown too: a selector over a pending activity and a receive of a
      signal give the server nothing.
    - Function: the outcome of an activity, the fair and lossless delivery of tasks,
      the removal of an expired run; among the lemmas, the order of claims, the
      earliest fire, complete pages of listings, the throttle of the failure log.
    - Round trips: the commands of a worker, visibility queries; among the lemmas,
      records, principals, failures, stamps. Termination: a select; among the lemmas,
      delivery to a queue and the parser of visibility queries.

    ** Bounds

    Loops whose end is not structural carry fuel with a proof that it is enough:
    delivery tries each subscriber once ([deliver_terminates]), the walk of the index
    reads as many pages as there are rows, the parser consumes its input
    ([visibility_terminates]); a run of [n] activities needs at most [n + 1] rounds,
    for sequence numbers below [2^53], which JSON numbers carry; [ScheduleMatchingTimes] has the
    bound of the source. Looking at a consensus engine has the number of looks its
    timeout leaves as an argument. Counters that Go keeps in 32 bits are wrapped where
    they are read ([wrap32]); durations are 64-bit and saturate or wrap as in Go.

    ** Idealizations

    A request is one step: the source serializes the steps of a run by a lock per
    run. Standalone activities take no such lock; [RowSpec] shows what a completion
    between the listing and the write of the reaper loses. The history of a run and
    its counter are separate writes, as in the source, and may be separated by a
    failure. Calls of the shard manager and of the migration coordinator, proposals to
    the consensus driver and looks at its engine come one at a time, and the time of a
    block is not seen. [sort.Slice] keeps the order of rows that compare equal. Case
    folding and blanks are those of ASCII. The text of error messages is not modelled
    where it wraps another error.

    A body, a frame and a payload are JSON documents, or the fact that they are none;
    members are matched by their exact names, a number decoded into an interface stays
    the number it is, and a header has one value. A frame of the zap package is one of
    the two objects the code builds. A connection loses nothing, and a client makes
    one call at a time. A running function of a worker does not look at the context a
    stop cancels. A workflow function as a tree of calls waits on activities, signals and
    the root scope; timers, derived scopes and child workflows, which other goroutines
    settle, are modelled beside it in [Waits] and [WorkerWire] and are no calls of the tree.

    ** Not modelled

    Input and output: sockets, TLS, flags and environment variables, opening a store
    from the environment, tickers (the sweeps they call are steps), the user interface,
    the text of the event stream, and the build scripts under [.github]. Code of other
    modules: SQLite and its encryption, the consensus engine, the verification of
    tokens, the router of the zip package, the bytes of zap frames; they are parameters
    where the code depends on them. Of the SDK: the stream of events of a client, heartbeat
    tickers, logging and metrics. Of the embedded task client: the moment a local timer
    fires. Of the routers and hubs: accessors and forwards of one line. *)

From Stdlib Require Import ZArith Lia.
From stdpp Require Import prelude strings gmap.

Declare Scope tasks_scope.
Delimit Scope tasks_scope with tasks.
#[export] Set Default Goal Selector "!".
#[export] Set Warnings "-clear-no-such-hyp".

(** ** Stateful, fallible code

    A Go method that mutates its receiver and returns [(A, error)] is a
    function from the state to the new state and either an error or a value.
    The new state survives an error: what was written before the failing
    statement stays written. *)

Definition M (S E A : Type) : Type := S → S * (E + A).

Definition throw {S E A} (e : E) : M S E A := λ s, (s, inl e).
Definition gets {S E A} (f : S → A) : M S E A := λ s, (s, inr (f s)).
Definition modify {S E} (f : S → S) : M S E unit := λ s, (f s, inr tt).

(** Go's [v, err := m()]: the error becomes a value the caller inspects. *)
Definition attempt {S E A} (m : M S E A) : M S E (E + A) :=
  λ s, let (s', r) := m s in (s', inr r).

(** Go's [_ = m()]: the error is dropped. *)
Definition ignore {S E A} (m : M S E A) : M S E unit :=
  λ s, let (s', _) := m s in (s', inr tt).

#[export] Instance M_ret S E : MRet (M S E) := λ A a s, (s, inr a).
#[export] Instance M_bind S E : MBind (M S E) := λ A B f m s,
  match m s with
  | (s', inr a) => f a s'
  | (s', inl e) => (s', inl e)
  end.

(** [for _, x := range l { f(x) }], stopping at the first error. *)
Fixpoint for_each {S E A} (f : A → M S E unit) (l : list A) : M S E unit :=
  match l with
  | [] => mret tt
  | x :: l => f x ;; for_each f l
  end.

(** ** Reasoning about runs

    [wp m Q s] says that running [m] from [s] ends in a state and an outcome
    (error or value) that satisfy [Q]. *)

Definition wp {S E A} (m : M S E A) (Q : E + A → S → Prop) (s : S) : Prop :=
  let (s', r) := m s in Q r s'.

Definition ok {A E S : Type} (Q : A → S → Prop) (F : S → Prop) : E + A → S → Prop :=
  λ r s, match r with inr a => Q a s | inl _ => F s end.

Section wp_rules.
Context {S E : Type}.
Implicit Types (s : S) (e : E).

Lemma wp_ret {A} (a : A) (Q : E + A → S → Prop) s : Q (inr a) s → wp (mret a) Q s.
Proof. done. Qed.

Lemma wp_throw {A} e (Q : E + A → S → Prop) s : Q (inl e) s → wp (throw e) Q s.
Proof. done. Qed.

Lemma wp_bind {A B} (m : M S E A) (f : A → M S E B) (Q : E + B → S → Prop) s :
  wp m (λ r s', match r with inr a => wp (f a) Q s' | inl e => Q (inl e) s' end) s →
  wp (m ≫= f) Q s.
Proof. unfold wp, mbind, M_bind. destruct (m s) as [s' [e|a]]; done. Qed.

Lemma wp_attempt {A} (m : M S E A) (Q : E + (E + A) → S → Prop) s :
  wp m (λ r, Q (inr r)) s → wp (attempt m) Q s.
Proof. unfold wp, attempt. by destruct (m s). Qed.

Lemma wp_ignore {A} (m : M S E A) (Q : E + unit → S → Prop) s :
  wp m (λ _, Q (inr tt)) s → wp (ignore m) Q s.
Proof. unfold wp, ignore. by destruct (m s). Qed.

Lemma wp_gets {A} (f : S → A) (Q : E + A → S → Prop) s :
  Q (inr (f s)) s → wp (gets f) Q s.
Proof. done. Qed.

Lemma wp_modify (f : S → S) (Q : E + unit → S → Prop) s :
  Q (inr tt) (f s) → wp (modify f) Q s.
Proof. done. Qed.

Lemma wp_mono {A} (m : M S E A) (Q R : E + A → S → Prop) s :
  wp m Q s → (∀ r s', Q r s' → R r s') → wp m R s.
Proof. unfold wp. destruct (m s). auto. Qed.

Lemma wp_and {A} (m : M S E A) (Q R : E + A → S → Prop) s :
  wp m Q s → wp m R s → wp m (λ r s', Q r s' ∧ R r s') s.
Proof. unfold wp. by destruct (m s). Qed.

Lemma wp_elim {A} (m : M S E A) (Q : E + A → S → Prop) s :
  wp m Q s → Q (m s).2 (m s).1.
Proof. unfold wp. by destruct (m s). Qed.

Lemma wp_intro {A} (m : M S E A) (Q : E + A → S → Prop) s :
  Q (m s).2 (m s).1 → wp m Q s.
Proof. unfold wp. by destruct (m s). Qed.

(** A loop keeps what every iteration keeps. *)
Lemma wp_for_each {A} (I : S → Prop) (f : A → M S E unit) l s :
  (∀ x s, x ∈ l → I s → wp (f x) (λ _, I) s) →
  I s → wp (for_each f l) (λ _, I) s.
Proof.
  revert s. induction l as [|x l IH]; intros s Hf HI; simpl; [done|].
  apply wp_bind. eapply wp_mono; [apply Hf; [set_solver|done]|].
  intros [e|[]] s' HI'; [done|]. apply IH; [|done]. intros; apply Hf; set_solver.
Qed.

End wp_rules.

Create HintDb tasks.

(** [wp_step] runs one primitive of the monad; [wp_use H] runs a call through
    its specification. *)
Ltac wp_step :=
  lazymatch goal with
  | |- wp (mret _) _ _ => apply wp_ret
  | |- wp (throw _) _ _ => apply wp_throw
  | |- wp (_ ≫= _) _ _ => apply wp_bind
  | |- wp (attempt _) _ _ => apply wp_attempt
  | |- wp (ignore _) _ _ => apply wp_ignore
  | |- wp (gets _) _ _ => apply wp_gets
  | |- wp (modify _) _ _ => apply wp_modify
  end; cbv beta iota.

Tactic Notation "wp_use" uconstr(H) := eapply wp_mono; [eapply H|].

(** Decides a closed statement, such as one about the kinds of keys. *)
Ltac kinds := first [done | lazymatch goal with |- ?P => exact (bool_decide_eq_true_1 P (eq_refl true)) end].

(** ** Lists *)

Lemma filter_all {A} (P : A → Prop) `{∀ x, Decision (P x)} l : Forall P l → filter P l = l.
Proof. induction 1 as [|x l Hx _ IH]; [done|]. by rewrite filter_cons_True, IH. Qed.
Lemma filter_none {A} (P : A → Prop) `{∀ x, Decision (P x)} l : Forall (λ x, ¬ P x) l → filter P l = [].
Proof. induction 1 as [|x l Hx _ IH]; [done|]. by rewrite filter_cons_False, IH. Qed.
Lemma sum_insert {A} (f : A → nat) l i x y : l !! i = Some x → (sum_list_with f (<[i := y]> l) + f x = sum_list_with f l + f y)%nat.
Proof. revert i. induction l as [|a l IH]; intros [|i] Hx; simplify_eq/=; [lia|]. specialize (IH i Hx). lia. Qed.
