(* ===== verification/GoStrings.v ===== *)
(** Go strings as byte strings: the operations of package [strings] and the
    decimal formatting the engine builds its keys with, and the order on
    strings that Go's [<] and SQLite's BINARY collation share. *)

From Stdlib Require Import Ascii ZArith Lia.
From stdpp Require Import prelude strings gmap.
From S2P Require Import Prelude.

#[local] Arguments String.append : simpl nomatch.

(** ** Order *)

(** [a < b] and [a <= b] on Go strings: bytewise, a proper prefix is smaller. *)
Fixpoint slt (a b : string) : bool :=
  match a, b with
  | _, EmptyString => false
  | EmptyString, String _ _ => true
  | String x a, String y b =>
      (N_of_ascii x <? N_of_ascii y)%N || ((N_of_ascii x =? N_of_ascii y)%N && slt a b)
  end.

Definition sle (a b : string) : bool := negb (slt b a).

(** ** Package [strings] *)

Fixpoint strip_prefix (p s : string) : option string :=
  match p, s with
  | EmptyString, _ => Some s
  | String x p, String y s => if Ascii.eqb x y then strip_prefix p s else None
  | String _ _, EmptyString => None
  end.

Definition has_prefix (s p : string) : bool :=
  match strip_prefix p s with Some _ => true | None => false end.

Definition trim_prefix (s p : string) : string := default s (strip_prefix p s).

(** [strings.IndexByte] followed by the two slices around the byte. *)
Fixpoint cut (c : ascii) (s : string) : option (string * string) :=
  match s with
  | EmptyString => None
  | String x s' =>
      if Ascii.eqb x c then Some (EmptyString, s')
      else match cut c s' with
           | Some (a, b) => Some (String x a, b)
           | None => None
           end
  end.

Fixpoint str_split_go (fuel : nat) (c : ascii) (s : string) : list string :=
  match fuel with
  | 0%nat => [s]
  | S n => match cut c s with
           | None => [s]
           | Some (a, b) => a :: str_split_go n c b
           end
  end.

(** [strings.Split(s, c)]: every separator cuts. *)
Definition str_split (c : ascii) (s : string) : list string := str_split_go (String.length s) c s.
(** [strings.SplitN(s, c, n)]: at most [n] pieces. *)
Definition str_split_n (c : ascii) (s : string) (n : nat) : list string := str_split_go (pred n) c s.

Fixpoint str_join (sep : string) (l : list string) : string :=
  match l with
  | [] => ""
  | [a] => a
  | a :: l => a +:+ sep +:+ str_join sep l
  end.

Fixpoint map_bytes (f : ascii → ascii) (s : string) : string :=
  match s with
  | EmptyString => EmptyString
  | String c s => String (f c) (map_bytes f s)
  end.

Definition in_range (lo hi c : ascii) : bool :=
  (N_of_ascii lo <=? N_of_ascii c)%N && (N_of_ascii c <=? N_of_ascii hi)%N.

(** [strings.ToUpper] and [strings.ToLower] on ASCII letters. *)
Definition to_upper : string → string :=
  map_bytes (λ c, if in_range "a" "z" c then ascii_of_N (N_of_ascii c - 32) else c).
Definition to_lower : string → string :=
  map_bytes (λ c, if in_range "A" "Z" c then ascii_of_N (N_of_ascii c + 32) else c).

Fixpoint contains_byte (c : ascii) (s : string) : bool :=
  match s with
  | EmptyString => false
  | String x s => Ascii.eqb x c || contains_byte c s
  end.

(** [strings.TrimSpace] on ASCII white space. *)
Definition is_space (c : ascii) : bool :=
  existsb (λ n, N.eqb (N_of_ascii c) n) [9; 10; 11; 12; 13; 32]%N.
Fixpoint trim_left (s : string) : string :=
  match s with
  | String c s' => if is_space c then trim_left s' else s
  | EmptyString => EmptyString
  end.
Fixpoint trim_right (s : string) : string :=
  match s with
  | EmptyString => EmptyString
  | String c s' => match trim_right s' with
                   | EmptyString => if is_space c then EmptyString else String c EmptyString
                   | r => String c r
                   end
  end.
Definition trim_space (s : string) : string := trim_right (trim_left s).

(** ** Decimal and hexadecimal *)

Definition digit (n : Z) : ascii := ascii_of_N (48 + Z.to_N (n mod 10)).

(** [w] low decimal digits of [n]: what [%0wd] prints of [0 <= n < 10^w]. *)
Fixpoint digits (w : nat) (n : Z) : string :=
  match w with
  | 0%nat => EmptyString
  | S w => digits w (n / 10) +:+ String (digit n) EmptyString
  end.

Fixpoint dec_len (fuel : nat) (n : Z) : nat :=
  match fuel with
  | 0%nat => 1%nat
  | S f => if (n <? 10)%Z then 1%nat else S (dec_len f (n / 10))
  end.

(** The number of decimal digits of [n >= 0]. *)
Definition width (n : Z) : nat := dec_len (Z.to_nat (Z.log2 n)) n.

(** [strconv.Itoa] and [%0wd]. *)
Definition itoa (n : Z) : string :=
  if (n <? 0)%Z then String "-" (digits (width (- n)) (- n)) else digits (width n) n.
Definition pad (w : nat) (n : Z) : string :=
  if (n <? 0)%Z then String "-" (digits (Nat.max (pred w) (width (- n))) (- n))
  else digits (Nat.max w (width n)) n.

Definition hexdigit (n : Z) : ascii :=
  let d := Z.to_N (n mod 16) in
  if (d <? 10)%N then ascii_of_N (48 + d) else ascii_of_N (87 + d).
(** [hex.EncodeToString] of the [w]/2 low bytes of [n]. *)
Fixpoint hex (w : nat) (n : Z) : string :=
  match w with
  | 0%nat => EmptyString
  | S w => hex w (n / 16) +:+ String (hexdigit n) EmptyString
  end.

Fixpoint find_byte (n : N) (l : list (N * ascii)) : option ascii :=
  match l with
  | [] => None
  | (m, c) :: l => if (m =? n)%N then Some c else find_byte n l
  end.

(** [strconv.Quote] ([%q]) on ASCII: bytes from 128 on are taken as they are. *)
Definition quote_byte (c : ascii) : string :=
  let n := N_of_ascii c in
  if (n =? 34)%N then String "092" (String c "")
  else if (n =? 92)%N then String c (String c "")
  else match find_byte n [(7%N, "a"%char); (8%N, "b"%char); (9%N, "t"%char); (10%N, "n"%char); (11%N, "v"%char); (12%N, "f"%char); (13%N, "r"%char)] with
       | Some l => String "092" (String l "")
       | None => if (n <? 32)%N || (n =? 127)%N then String "092" (String "x" (hex 2 (Z.of_N n))) else String c ""
       end.
Fixpoint quote_bytes (s : string) : string :=
  match s with
  | EmptyString => EmptyString
  | String c s => quote_byte c +:+ quote_bytes s
  end.
Definition quote (s : string) : string := String "034" (quote_bytes s +:+ String "034" "").

(** [strings.Contains]. *)
Fixpoint contains (s sub : string) : bool :=
  has_prefix s sub || match s with EmptyString => false | String _ s => contains s sub end.

(** ** Lemmas: append *)

Lemma sapp_nil_r s : s +:+ "" = s.
Proof. induction s; simpl; congruence. Qed.
Lemma sapp_assoc a b c : (a +:+ b) +:+ c = a +:+ (b +:+ c).
Proof. induction a; simpl; congruence. Qed.
Lemma sapp_inv_l a b c : a +:+ b = a +:+ c → b = c.
Proof. induction a; simpl; intros H; [done|]. injection H. auto. Qed.
Lemma slen_app a b : String.length (a +:+ b) = (String.length a + String.length b)%nat.
Proof. induction a; simpl; congruence. Qed.

Lemma sapp_inv_len a b c d :
  String.length a = String.length c → a +:+ b = c +:+ d → a = c ∧ b = d.
Proof.
  revert c. induction a as [|x a IH]; intros [|y c] Hl H; simpl in *; try done.
  injection H as -> H. injection Hl as Hl. destruct (IH _ Hl H). by subst.
Qed.

(** ** Lemmas: order *)

Lemma slt_irrefl a : slt a a = false.
Proof. induction a as [|x a IH]; simpl; [done|]. rewrite N.ltb_irrefl, N.eqb_refl, IH. done. Qed.

Lemma slt_trans a b c : slt a b = true → slt b c = true → slt a c = true.
Proof.
  revert b c. induction a as [|x a IH]; intros [|y b] [|z c]; simpl; try done.
  rewrite !orb_true_iff, !andb_true_iff, !N.ltb_lt, !N.eqb_eq.
  intros [H1|[H1 H1']] [H2|[H2 H2']]; try (left; lia). right. split; [lia|eauto].
Qed.

Lemma N_of_ascii_inj x y : N_of_ascii x = N_of_ascii y → x = y.
Proof. intros H. rewrite <-(ascii_N_embedding x), <-(ascii_N_embedding y). congruence. Qed.

Lemma slt_total a b : slt a b = false → slt b a = false → a = b.
Proof.
  revert b. induction a as [|x a IH]; intros [|y b]; simpl; try done.
  rewrite !orb_false_iff, !andb_false_iff, !N.ltb_ge, !N.eqb_neq.
  intros [H1 H2] [H3 H4]. assert (x = y) as -> by (apply N_of_ascii_inj; lia).
  f_equal. apply IH; [destruct H2 as [H2|H2]|destruct H4 as [H4|H4]]; try done; lia.
Qed.

Lemma slt_asym a b : slt a b = true → slt b a = false.
Proof.
  intros H. destruct (slt b a) eqn:E; [|done].
  pose proof (slt_trans _ _ _ H E) as F. by rewrite slt_irrefl in F.
Qed.

Lemma slt_ne a b : slt a b = true → a ≠ b.
Proof. intros H ->. by rewrite slt_irrefl in H. Qed.

Lemma sle_refl a : sle a a = true.
Proof. unfold sle. by rewrite slt_irrefl. Qed.

Lemma sle_slt_trans a b c : sle a b = true → slt b c = true → slt a c = true.
Proof.
  unfold sle. rewrite negb_true_iff. intros H1 H2.
  destruct (slt a b) eqn:E; [by eapply slt_trans|]. by rewrite (slt_total a b).
Qed.

Lemma slt_sle_trans a b c : slt a b = true → sle b c = true → slt a c = true.
Proof.
  unfold sle. rewrite negb_true_iff. intros H1 H2.
  destruct (slt b c) eqn:E; [by eapply slt_trans|]. by rewrite <-(slt_total b c).
Qed.

(** Comparison is decided at the first difference: a common prefix cancels. *)
Lemma slt_app a b c : slt (a +:+ b) (a +:+ c) = slt b c.
Proof. induction a as [|x a IH]; simpl; [done|]. by rewrite N.ltb_irrefl, N.eqb_refl, IH. Qed.

(** ** Lemmas: prefixes *)

Lemma strip_prefix_spec p s r : strip_prefix p s = Some r ↔ s = p +:+ r.
Proof.
  revert s. induction p as [|x p IH]; intros s; simpl; [by split; intros [= ->]|].
  destruct s as [|y s]; [done|].
  destruct (Ascii.eqb_spec x y) as [->|Hne].
  - rewrite IH. split; [by intros ->|by intros [= ->]].
  - split; [done|]. intros [= <- _]. done.
Qed.

Lemma has_prefix_spec p s : has_prefix s p = true ↔ ∃ r, s = p +:+ r.
Proof.
  unfold has_prefix. destruct (strip_prefix p s) as [r|] eqn:E.
  - apply strip_prefix_spec in E. split; eauto.
  - split; [done|]. intros [r Hr]. apply strip_prefix_spec in Hr. congruence.
Qed.

Lemma has_prefix_app p r : has_prefix (p +:+ r) p = true.
Proof. apply has_prefix_spec. eauto. Qed.

(** A string without the separator: what the engine calls a path segment. *)
Definition segment (s : string) : Prop := contains_byte "/" s = false.

Lemma cut_app a b : segment a → cut "/" (a +:+ "/" +:+ b) = Some (a, b).
Proof.
  unfold segment. induction a as [|x a IH]; [done|]. cbn [contains_byte].
  rewrite orb_false_iff. intros [H1 H2].
  change (cut "/" (String x a +:+ "/" +:+ b)) with
    (if Ascii.eqb x "/" then Some (EmptyString, a +:+ "/" +:+ b)
     else match cut "/" (a +:+ "/" +:+ b) with
          | Some (a, b) => Some (String x a, b) | None => None end).
  by rewrite H1, IH.
Qed.

Lemma cut_none a : segment a → cut "/" a = None.
Proof.
  unfold segment. induction a as [|x a IH]; simpl; [done|].
  rewrite orb_false_iff. intros [H1 H2]. by rewrite H1, IH.
Qed.

Lemma cut_some c s a b : cut c s = Some (a, b) → s = a +:+ String c b.
Proof.
  revert a b. induction s as [|x s IH]; simpl; [done|]. intros a b.
  destruct (Ascii.eqb_spec x c) as [->|Hne]; [by intros [= <- <-]|].
  destruct (cut c s) as [[a' b']|]; [|done]. intros [= <- <-]. simpl. by rewrite <-IH.
Qed.

(** Segments before the separator are recovered from the joined key. *)
Lemma segment_inj a b c d :
  segment a → segment c → a +:+ "/" +:+ b = c +:+ "/" +:+ d → a = c ∧ b = d.
Proof.
  intros Ha Hc H. pose proof (cut_app a b Ha) as E. rewrite H, (cut_app c d Hc) in E.
  by injection E as -> ->.
Qed.

(** ** Lemmas: numbers *)

Lemma slt_app_lt a b u v :
  String.length a = String.length b → slt a b = true → slt (a +:+ u) (b +:+ v) = true.
Proof.
  revert b. induction a as [|x a IH]; intros [|y b]; simpl; try done.
  intros [= Hl]. rewrite !orb_true_iff, !andb_true_iff. intros [H|[H1 H2]]; auto.
Qed.

Lemma digits_length w n : String.length (digits w n) = w.
Proof. revert n. induction w as [|w IH]; intros n; simpl; [done|]. rewrite slen_app, IH. simpl. lia. Qed.

Lemma digit_code n : N_of_ascii (digit n) = (48 + Z.to_N (n mod 10))%N.
Proof. unfold digit. apply N_ascii_embedding. pose proof (Z.mod_pos_bound n 10 ltac:(lia)). lia. Qed.

(** Zero-padded decimals of one width sort in numeric order. *)
Lemma digits_mono w a b :
  (0 ≤ a < b)%Z → (b < 10 ^ Z.of_nat w)%Z → slt (digits w a) (digits w b) = true.
Proof.
  revert a b. induction w as [|w IH]; intros a b Hab Hb; [simpl in Hb; lia|].
  rewrite Nat2Z.inj_succ, Z.pow_succ_r in Hb by lia. cbn [digits].
  pose proof (Z.div_mod a 10 ltac:(lia)). pose proof (Z.div_mod b 10 ltac:(lia)).
  pose proof (Z.mod_pos_bound a 10 ltac:(lia)). pose proof (Z.mod_pos_bound b 10 ltac:(lia)).
  destruct (decide (a / 10 = b / 10)%Z) as [Heq|Hne].
  - rewrite Heq, slt_app. cbn [slt]. rewrite !digit_code. apply orb_true_iff. left. apply N.ltb_lt. lia.
  - apply slt_app_lt; [by rewrite !digits_length|]. apply IH; [split; [lia|]|lia]. lia.
Qed.

Lemma digits_inj w a b :
  (0 ≤ a < 10 ^ Z.of_nat w)%Z → (0 ≤ b < 10 ^ Z.of_nat w)%Z → digits w a = digits w b → a = b.
Proof.
  intros Ha Hb E. destruct (Z.lt_trichotomy a b) as [H|[H|H]]; [|done|].
  - pose proof (slt_ne _ _ (digits_mono w a b ltac:(lia) ltac:(lia))). done.
  - pose proof (slt_ne _ _ (digits_mono w b a ltac:(lia) ltac:(lia))). congruence.
Qed.

Lemma dec_len_bound f n w :
  (0 ≤ n < 10 ^ Z.of_nat w)%Z → (0 < w)%nat → (dec_len f n ≤ w)%nat.
Proof.
  revert n w. induction f as [|f IH]; intros n w Hn Hw; simpl; [lia|].
  destruct (Z.ltb_spec n 10); [lia|].
  destruct w as [|[|w]]; [lia|simpl in Hn; lia|].
  rewrite Nat2Z.inj_succ, Z.pow_succ_r in Hn by lia.
  apply le_n_S, IH; [|lia]. pose proof (Z.div_mod n 10 ltac:(lia)). pose proof (Z.mod_pos_bound n 10 ltac:(lia)). lia.
Qed.

(** A number that fits is printed in exactly [w] digits. *)
Lemma pad_digits w n : (0 ≤ n < 10 ^ Z.of_nat w)%Z → (0 < w)%nat → pad w n = digits w n.
Proof.
  intros Hn Hw. unfold pad. destruct (Z.ltb_spec n 0); [lia|].
  f_equal. pose proof (dec_len_bound (Z.to_nat (Z.log2 n)) n w Hn Hw). unfold width. lia.
Qed.

Lemma pad_mono w a b :
  (0 ≤ a < b)%Z → (b < 10 ^ Z.of_nat w)%Z → (0 < w)%nat → slt (pad w a) (pad w b) = true.
Proof. intros. rewrite !pad_digits by lia. apply digits_mono; lia. Qed.

Lemma pad_inj w a b :
  (0 ≤ a < 10 ^ Z.of_nat w)%Z → (0 ≤ b < 10 ^ Z.of_nat w)%Z → (0 < w)%nat →
  pad w a = pad w b → a = b.
Proof. intros. apply (digits_inj w); try done. by rewrite <-!pad_digits. Qed.

Lemma segment_app a b : segment (a +:+ b) ↔ segment a ∧ segment b.
Proof.
  unfold segment. induction a as [|x a IH]; simpl; [naive_solver|].
  rewrite !orb_false_iff. tauto.
Qed.

Lemma digits_segment w n : segment (digits w n).
Proof.
  revert n. induction w as [|w IH]; intros n; [done|]. cbn [digits].
  apply segment_app. split; [done|]. unfold segment. cbn [contains_byte].
  rewrite orb_false_r. apply Ascii.eqb_neq. intros E.
  apply (f_equal N_of_ascii) in E. rewrite digit_code in E.
  change (N_of_ascii "/") with 47%N in E. lia.
Qed.

Lemma hex_length w n : String.length (hex w n) = w.
Proof. revert n. induction w as [|w IH]; intros n; simpl; [done|]. rewrite slen_app, IH. simpl. lia. Qed.

Lemma hexdigit_code n :
  N_of_ascii (hexdigit n) = (let d := Z.to_N (n mod 16) in if (d <? 10)%N then 48 + d else 87 + d)%N.
Proof.
  unfold hexdigit. pose proof (Z.mod_pos_bound n 16 ltac:(lia)).
  destruct (_ <? _)%N eqn:E; apply N_ascii_embedding; lia.
Qed.

Lemma hexdigit_inj a b : hexdigit a = hexdigit b → (a mod 16 = b mod 16)%Z.
Proof.
  intros E. apply (f_equal N_of_ascii) in E. rewrite !hexdigit_code in E. cbv zeta in E.
  pose proof (Z.mod_pos_bound a 16 ltac:(lia)). pose proof (Z.mod_pos_bound b 16 ltac:(lia)).
  repeat case_match; lia.
Qed.

(** Distinct draws of [w]/2 random bytes are distinct identifiers. *)
Lemma hex_inj w a b :
  (0 ≤ a < 16 ^ Z.of_nat w)%Z → (0 ≤ b < 16 ^ Z.of_nat w)%Z → hex w a = hex w b → a = b.
Proof.
  revert a b. induction w as [|w IH]; intros a b Ha Hb E; [simpl in *; lia|].
  rewrite Nat2Z.inj_succ, Z.pow_succ_r in Ha, Hb by lia. cbn [hex] in E.
  apply sapp_inv_len in E as [E1 E2]; [|by rewrite !hex_length].
  injection E2 as E2. apply hexdigit_inj in E2. apply IH in E1.
  - pose proof (Z.div_mod a 16 ltac:(lia)). pose proof (Z.div_mod b 16 ltac:(lia)). lia.
  - split; [apply Z.div_pos; lia|]. apply Z.div_lt_upper_bound; lia.
  - split; [apply Z.div_pos; lia|]. apply Z.div_lt_upper_bound; lia.
Qed.

Lemma hex_segment w n : segment (hex w n).
Proof.
  revert n. induction w as [|w IH]; intros n; [done|]. cbn [hex].
  apply segment_app. split; [done|]. unfold segment. cbn [contains_byte].
  rewrite orb_false_r. apply Ascii.eqb_neq. intros E.
  apply (f_equal N_of_ascii) in E. rewrite hexdigit_code in E. cbv zeta in E.
  change (N_of_ascii "/") with 47%N in E. case_match; lia.
Qed.

#[export] Hint Resolve digits_segment hex_segment sle_refl : tasks.

(** Any string after a first segment has a next segment. *)
Lemma cut_first c a b : ∃ a' b', cut c (a +:+ String c b) = Some (a', b') ∧ contains_byte c a' = false ∧
  a +:+ String c b = a' +:+ String c b'.
Proof.
  induction a as [|x a (a' & b' & IH1 & IH2 & IH3)].
  - exists "", b. cbn. by rewrite Ascii.eqb_refl.
  - cbn. destruct (Ascii.eqb x c) eqn:E.
    + apply Ascii.eqb_eq in E as ->. exists "", (a +:+ String c b). done.
    + rewrite IH1. exists (String x a'), b'. cbn. rewrite E, IH2. split_and!; [done|done|]. by f_equal.
Qed.

(** What is before the first separator is part of what was before one. *)
Lemma cut_prefix c x y : ∃ a b t, cut c (x +:+ String c y) = Some (a, b) ∧ x = a +:+ t.
Proof.
  induction x as [|z x (a & b & t & IH & ->)].
  - exists "", y, "". cbn. by rewrite Ascii.eqb_refl.
  - cbn. destruct (Ascii.eqb_spec z c) as [->|_]; [by exists "", ((a +:+ t) +:+ String c y), (String c (a +:+ t))|].
    cbn in IH. rewrite IH. by exists (String z a), b, t.
Qed.

(** Segments after the separator are recovered too. *)
Lemma last_segment_inj a b c d :
  segment c → segment d → a +:+ "/" +:+ c = b +:+ "/" +:+ d → a = b ∧ c = d.
Proof.
  intros Hc Hd. assert (∀ x y, ¬ segment (x +:+ String "/" y)) as Hno.
  { intros x y Hx. by apply segment_app in Hx as [_ Hx]. }
  revert b. induction a as [|z a IH]; intros [|y b] E; cbn in E; injection E.
  - by intros ->.
  - intros -> <-. by destruct (Hno b d).
  - intros <- ->. by destruct (Hno a c).
  - intros E' ->. by destruct (IH b E') as [-> ->].
Qed.

Lemma pad_segment w n : segment (pad w n).
Proof.
  unfold pad. case_match; [|apply digits_segment].
  change (String "-" ?s) with ("-" +:+ s). apply segment_app. split; [done|apply digits_segment].
Qed.
