(* ===== verification/Base64.v ===== *)
(** [encoding/base64]: the standard alphabet with padding, the form [encoding/json]
    gives to byte slices. Decoding skips line ends and does not look at the bits that
    padding leaves unused, as [StdEncoding] does. *)

From Stdlib Require Import Ascii NArith Lia.
From stdpp Require Import prelude strings.
From S2P Require Import Prelude GoStrings.

Local Open Scope N_scope.

Definition base64_char (n : N) : ascii :=
  ascii_of_N (if n <? 26 then 65 + n else if n <? 52 then 97 + (n - 26) else if n <? 62 then 48 + (n - 52) else if n =? 62 then 43 else 47).
Definition base64_value (c : ascii) : option N :=
  let n := N_of_ascii c in
  if in_range "A" "Z" c then Some (n - 65)
  else if in_range "a" "z" c then Some (n - 97 + 26)
  else if in_range "0" "9" c then Some (n - 48 + 52)
  else if Ascii.eqb c "+" then Some 62
  else if Ascii.eqb c "/" then Some 63
  else None.

(** Three bytes are four digits of the alphabet; the last group is padded. *)
Definition digit1 (a : N) : ascii := base64_char (a / 4).
Definition digit2 (a b : N) : ascii := base64_char (a mod 4 * 16 + b / 16).
Definition digit3 (b c : N) : ascii := base64_char (b mod 16 * 4 + c / 64).
Definition digit4 (c : N) : ascii := base64_char (c mod 64).
Fixpoint EncodeToString (s : string) : string :=
  match s with
  | String a (String b (String c s)) =>
      let a := N_of_ascii a in let b := N_of_ascii b in let c := N_of_ascii c in
      String (digit1 a) (String (digit2 a b) (String (digit3 b c) (String (digit4 c) (EncodeToString s))))
  | String a (String b EmptyString) =>
      let a := N_of_ascii a in let b := N_of_ascii b in
      String (digit1 a) (String (digit2 a b) (String (digit3 b 0) (String "=" EmptyString)))
  | String a EmptyString =>
      let a := N_of_ascii a in String (digit1 a) (String (digit2 a 0) (String "=" (String "=" EmptyString)))
  | EmptyString => EmptyString
  end.

Fixpoint drop_line_ends (s : string) : string :=
  match s with
  | EmptyString => EmptyString
  | String c s => if Ascii.eqb c "010" || Ascii.eqb c "013" then drop_line_ends s else String c (drop_line_ends s)
  end.

Definition byte1 (x y : N) : ascii := ascii_of_N (x * 4 + y / 16).
Definition byte2 (y z : N) : ascii := ascii_of_N (y mod 16 * 16 + z / 4).
Definition byte3 (z t : N) : ascii := ascii_of_N (z mod 4 * 64 + t).
(** Groups of four; padding ends the text. *)
Fixpoint decode_groups (s : string) : option string :=
  match s with
  | EmptyString => Some EmptyString
  | String a (String b (String c (String d s))) =>
      x ← base64_value a; y ← base64_value b;
      if Ascii.eqb c "=" then if Ascii.eqb d "=" && String.eqb s "" then Some (String (byte1 x y) EmptyString) else None
      else
        z ← base64_value c;
        if Ascii.eqb d "=" then if String.eqb s "" then Some (String (byte1 x y) (String (byte2 y z) EmptyString)) else None
        else t ← base64_value d; rest ← decode_groups s; Some (String (byte1 x y) (String (byte2 y z) (String (byte3 z t) rest)))
  | _ => None
  end.
Definition DecodeString (s : string) : option string := decode_groups (drop_line_ends s).

(** ** Decoding what was encoded *)

Definition six_ok (n : N) : bool :=
  bool_decide (base64_value (base64_char n) = Some n) && negb (Ascii.eqb (base64_char n) "=") &&
  negb (Ascii.eqb (base64_char n) "010") && negb (Ascii.eqb (base64_char n) "013").
Lemma six_bits n : n < 64 →
  base64_value (base64_char n) = Some n ∧ Ascii.eqb (base64_char n) "=" = false ∧ Ascii.eqb (base64_char n) "010" || Ascii.eqb (base64_char n) "013" = false.
Proof.
  intros Hn. assert (forallb six_ok (N.of_nat <$> seq 0 64) = true) as H by by vm_compute. rewrite forallb_forall in H.
  assert (six_ok n = true) as E.
  { apply H, list_elem_of_In, list_elem_of_fmap. exists (N.to_nat n). split; [lia|]. apply elem_of_seq. lia. }
  unfold six_ok in E. rewrite !andb_true_iff, !negb_true_iff in E. destruct E as [[[E1%bool_decide_eq_true E2] E3] E4]. by rewrite E1, E2, E3, E4.
Qed.
Lemma byte_lt c : N_of_ascii c < 256.
Proof. apply N_ascii_bounded. Qed.

Lemma value1 a : a < 256 → base64_value (digit1 a) = Some (a / 4).
Proof. intros. apply six_bits. zify. Z.to_euclidean_division_equations. lia. Qed.
Lemma value2 a b : b < 256 → base64_value (digit2 a b) = Some (a mod 4 * 16 + b / 16).
Proof. intros. apply six_bits. zify. Z.to_euclidean_division_equations. lia. Qed.
Lemma value3 b c : c < 256 → base64_value (digit3 b c) = Some (b mod 16 * 4 + c / 64).
Proof. intros. apply six_bits. zify. Z.to_euclidean_division_equations. lia. Qed.
Lemma value4 c : base64_value (digit4 c) = Some (c mod 64).
Proof. intros. apply six_bits. zify. Z.to_euclidean_division_equations. lia. Qed.
Lemma padded3 b c : c < 256 → Ascii.eqb (digit3 b c) "=" = false.
Proof. intros. apply six_bits. zify. Z.to_euclidean_division_equations. lia. Qed.
Lemma padded4 c : Ascii.eqb (digit4 c) "=" = false.
Proof. apply six_bits. zify. Z.to_euclidean_division_equations. lia. Qed.

(** The bits of a byte, put together again. *)
Lemma bits1 a b : b < 256 → byte1 (N_of_ascii a / 4) (N_of_ascii a mod 4 * 16 + b / 16) = a.
Proof. intros. unfold byte1. rewrite <-(ascii_N_embedding a) at 3. f_equal. zify. Z.to_euclidean_division_equations. lia. Qed.
Lemma bits2 a b c : c < 256 → byte2 (a mod 4 * 16 + N_of_ascii b / 16) (N_of_ascii b mod 16 * 4 + c / 64) = b.
Proof. intros. pose proof (byte_lt b). unfold byte2. rewrite <-(ascii_N_embedding b) at 3. f_equal. zify. Z.to_euclidean_division_equations. lia. Qed.
Lemma bits3 b c : byte3 (b mod 16 * 4 + N_of_ascii c / 64) (N_of_ascii c mod 64) = c.
Proof. intros. pose proof (byte_lt c). unfold byte3. rewrite <-(ascii_N_embedding c) at 3. f_equal. zify. Z.to_euclidean_division_equations. lia. Qed.

(** Induction by threes. *)
Lemma string_ind3 (P : string → Prop) :
  P "" → (∀ a, P (String a "")) → (∀ a b, P (String a (String b ""))) →
  (∀ a b c s, P s → P (String a (String b (String c s)))) → ∀ s, P s.
Proof.
  intros H0 H1 H2 H3 s. assert (∀ n s, (String.length s ≤ n)%nat → P s) as H; [|by apply (H (String.length s))].
  clear s. induction n as [|n IH]; intros [|a [|b [|c s]]] Hs; try done; cbn in Hs; try lia. apply H3, IH. lia.
Qed.

Lemma encode_lines s : drop_line_ends (EncodeToString s) = EncodeToString s.
Proof.
  pose proof byte_lt as Hb.
  assert (∀ n t, n < 64 → drop_line_ends (String (base64_char n) t) = String (base64_char n) (drop_line_ends t)) as Hc.
  { intros n t Hn. cbn [drop_line_ends]. by rewrite (proj2 (proj2 (six_bits n Hn))). }
  induction s as [|a|a b|a b c s IH] using string_ind3; [done|..]; cbn [EncodeToString]; unfold digit1, digit2, digit3, digit4;
    rewrite !Hc; try (pose proof (Hb a); try pose proof (Hb b); try pose proof (Hb c); zify; Z.to_euclidean_division_equations; lia); [done..|].
  by rewrite IH.
Qed.

(** Decoding an encoded text gives the bytes back. *)
Theorem base64_roundtrip s : DecodeString (EncodeToString s) = Some s.
Proof.
  unfold DecodeString. rewrite encode_lines. pose proof byte_lt as Hb.
  induction s as [|a|a b|a b c s IH] using string_ind3; [done|..]; cbn [EncodeToString decode_groups].
  - rewrite value1, value2 by (apply Hb || done). cbn. by rewrite bits1.
  - rewrite value1, value2, value3, padded3 by (apply Hb || done). cbn. by rewrite bits1, bits2.
  - rewrite value1, value2, value3, padded3, padded4, value4 by apply Hb. cbn [mbind option_bind]. rewrite IH. cbn.
    by rewrite bits1, bits2, bits3 by apply Hb.
Qed.
