(* ===== verification/Sha256.v ===== *)
(** [crypto/sha256]: the digest routing scores nodes with, failures are
    identified by and task tokens are signed with, as FIPS 180-4 defines it, over
    byte strings. The round constants are the first bits of roots of primes and are
    computed as such. *)

From Stdlib Require Import Ascii ZArith Lia.
From stdpp Require Import prelude strings.
From S2P Require Import Prelude GoStrings.

Local Open Scope Z_scope.

(** ** Words of 32 bits *)

Definition word (x : Z) : Z := Z.land x 0xffffffff.
Definition rotr (n x : Z) : Z := Z.lor (Z.shiftr x n) (word (Z.shiftl x (32 - n))).
Definition lnot32 (x : Z) : Z := 0xffffffff - x.

(** ** The constants *)

Definition divides_any (n : Z) (ps : list Z) : bool := existsb (λ p, n mod p =? 0) ps.
Fixpoint primes_from (fuel : nat) (n : Z) (ps : list Z) : list Z :=
  match fuel with
  | O => reverse ps
  | S fuel => primes_from fuel (n + 1) (if divides_any n ps then ps else n :: ps)
  end.
(** The cube root rounded down, one bit at a time. *)
Fixpoint cube_root (bits : nat) (x r : Z) : Z :=
  match bits with
  | O => r
  | S b => let r' := r + 2 ^ Z.of_nat b in cube_root b x (if r' * r' * r' <=? x then r' else r)
  end.

Definition primes : list Z := Eval vm_compute in primes_from 310 2 [].
Definition round_words : list Z := Eval vm_compute in (λ p, word (cube_root 40 (p * 2 ^ 96) 0)) <$> primes.
Definition start_words : list Z := Eval vm_compute in (λ p, word (Z.sqrt (p * 2 ^ 64))) <$> take 8 primes.

Example sixty_four_rounds : length round_words = 64%nat ∧ last primes = Some 311.
Proof. done. Qed.

(** ** Padding and blocks *)

Fixpoint bytes_of (s : string) : list Z :=
  match s with EmptyString => [] | String c s => Z.of_N (N_of_ascii c) :: bytes_of s end.
(** The [n] low bytes of [x], the most significant one first. *)
Fixpoint big_endian (n : nat) (x : Z) : list Z :=
  match n with O => [] | S n => (Z.shiftr x (8 * Z.of_nat n) mod 256) :: big_endian n x end.
Definition padded (m : list Z) : list Z :=
  let l := Z.of_nat (length m) in
  m ++ [128] ++ replicate (Z.to_nat ((55 - l) mod 64)) 0 ++ big_endian 8 (8 * l).
Fixpoint words_of (bs : list Z) : list Z :=
  match bs with
  | a :: b :: c :: d :: bs => (a * 2 ^ 24 + b * 2 ^ 16 + c * 2 ^ 8 + d) :: words_of bs
  | _ => []
  end.
Fixpoint blocks (fuel : nat) (ws : list Z) : list (list Z) :=
  match fuel with
  | O => []
  | S fuel => match ws with [] => [] | _ => take 16 ws :: blocks fuel (drop 16 ws) end
  end.

(** ** The compression function *)

(** The schedule is kept newest first. *)
Definition schedule_word (w : list Z) : Z :=
  let at_ i := default 0 (w !! i) in
  let x := at_ 14%nat in let y := at_ 1%nat in
  word (Z.lxor (Z.lxor (rotr 17 y) (rotr 19 y)) (Z.shiftr y 10) + at_ 6%nat +
        Z.lxor (Z.lxor (rotr 7 x) (rotr 18 x)) (Z.shiftr x 3) + at_ 15%nat).
Fixpoint extend (n : nat) (w : list Z) : list Z :=
  match n with O => w | S n => extend n (schedule_word w :: w) end.

Record hash := { h0 : Z; h1 : Z; h2 : Z; h3 : Z; h4 : Z; h5 : Z; h6 : Z; h7 : Z }.
Definition hash_of (l : list Z) : hash :=
  let at_ i := default 0 (l !! i) in
  {| h0 := at_ 0%nat; h1 := at_ 1%nat; h2 := at_ 2%nat; h3 := at_ 3%nat; h4 := at_ 4%nat; h5 := at_ 5%nat; h6 := at_ 6%nat; h7 := at_ 7%nat |}.
Definition one_round (h : hash) (kw : Z * Z) : hash :=
  let e := h4 h in let a := h0 h in
  let t1 := h7 h + Z.lxor (Z.lxor (rotr 6 e) (rotr 11 e)) (rotr 25 e) + Z.lxor (Z.land e (h5 h)) (Z.land (lnot32 e) (h6 h)) + kw.1 + kw.2 in
  let t2 := Z.lxor (Z.lxor (rotr 2 a) (rotr 13 a)) (rotr 22 a) + Z.lxor (Z.lxor (Z.land a (h1 h)) (Z.land a (h2 h))) (Z.land (h1 h) (h2 h)) in
  {| h0 := word (t1 + t2); h1 := a; h2 := h1 h; h3 := h2 h; h4 := word (h3 h + t1); h5 := e; h6 := h5 h; h7 := h6 h |}.
Definition add_hash (x y : hash) : hash :=
  {| h0 := word (h0 x + h0 y); h1 := word (h1 x + h1 y); h2 := word (h2 x + h2 y); h3 := word (h3 x + h3 y);
     h4 := word (h4 x + h4 y); h5 := word (h5 x + h5 y); h6 := word (h6 x + h6 y); h7 := word (h7 x + h7 y) |}.
Definition compress (h : hash) (block : list Z) : hash :=
  add_hash h (foldl one_round h (zip round_words (reverse (extend 48 (reverse block))))).

Definition digest (m : list Z) : hash :=
  let ws := words_of (padded m) in foldl compress (hash_of start_words) (blocks (length ws) ws).
Definition Sum256_bytes (m : list Z) : list Z :=
  let h := digest m in [h0 h; h1 h; h2 h; h3 h; h4 h; h5 h; h6 h; h7 h] ≫= big_endian 4.
Definition Sum256 (s : string) : list Z := Sum256_bytes (bytes_of s).

#[global] Arguments Sum256 : simpl never.

Definition hex_of (bs : list Z) : string := str_join "" (hex 2 <$> bs).
(** The vectors of the standard: no message, one block, two blocks. *)
Example vectors :
  (hex_of (Sum256 ""), hex_of (Sum256 "abc"), hex_of (Sum256 "abcdbcdecdefdefgefghfghighijhijkijkljklmklmnlmnomnopnopq")) =
  ("e3b0c44298fc1c149afbf4c8996fb92427ae41e4649b934ca495991b7852b855",
   "ba7816bf8f01cfea414140de5dae2223b00361a396177a9cb410ff61f20015ad",
   "248d6a61d20638b8e5c026930c3e6039a33ce45964ff2167f6ecedd419db06c1").
Proof. by vm_compute. Qed.

(** ** [crypto/hmac] *)

(** A key longer than a block is hashed first. *)
Definition hmac_key (key : list Z) : list Z :=
  let k := if (64 <? length key)%nat then Sum256_bytes key else key in k ++ replicate (64 - length k) 0.
Definition hmac_sha256 (key msg : string) : list Z :=
  let k := hmac_key (bytes_of key) in
  Sum256_bytes ((Z.lxor 0x5c <$> k) ++ Sum256_bytes ((Z.lxor 0x36 <$> k) ++ bytes_of msg)).
#[global] Arguments hmac_sha256 : simpl never.

(** Case 2 of RFC 4231. *)
Example hmac_vector : hex_of (hmac_sha256 "Jefe" "what do ya want for nothing?") = "5bdcc146bf60754e6a042426089575c75a003f089d2739839dec58b964ec3843".
Proof. by vm_compute. Qed.
