(* ===== verification/Json.v ===== *)
(** JSON values and the [encoding/json] mapping between them and Go structs:
    the row format of every shard. A row is modelled by the JSON tree its bytes
    denote; the byte syntax itself is not modelled. *)

From Corelib Require Import SpecFloat.
From Stdlib Require Import ZArith Lia.
From stdpp Require Import prelude strings gmap.
From S2P Require Import Prelude GoStrings.

#[local] Set Warnings "-register-all".

(** A JSON value. A number that is an integer is [JNum]; any other number is
    the float64 Go decodes it to. *)
Inductive json :=
| JNull
| JBool (b : bool)
| JNum (n : Z)
| JFloat (f : spec_float)
| JStr (s : string)
| JArr (l : list json)
| JObj (l : list (string * json)).

(** Member lookup; Go keeps the last of duplicated members. *)
Fixpoint assoc {A} (k : string) (l : list (string * A)) : option A :=
  match l with
  | [] => None
  | (k', v) :: l =>
      match assoc k l with
      | Some w => Some w
      | None => if String.eqb k' k then Some v else None
      end
  end.

(** How a Go type is written and read. [zero] is the zero value an absent
    member leaves, [is_empty] is what [omitempty] tests, and [marshal_ok] is
    false where [json.Marshal] fails. *)
Class Codec (A : Type) := {
  to_json : A → json;
  of_json : json → option A;
  zero : A;
  is_empty : A → bool;
  marshal_ok : A → bool
}.

Class CodecLaws (A : Type) `{Codec A} : Prop := {
  is_empty_zero a : is_empty a = true → a = zero;
  of_to_nonempty a : is_empty a = false → marshal_ok a = true → of_json (to_json a) = Some a
}.

(** A type whose empty values round-trip too, so it can be a member without
    [omitempty] or a whole row. *)
Class FullCodec (A : Type) `{CodecLaws A} : Prop := {
  of_to a : marshal_ok a = true → of_json (to_json a) = Some a
}.

(** Members of a struct: with the tag [`json:"k"`] and with
    [`json:"k,omitempty"`]. *)
Definition fld {A} `{Codec A} (k : string) (a : A) : list (string * json) := [(k, to_json a)].
Definition fld_omit {A} `{Codec A} (k : string) (a : A) : list (string * json) :=
  if is_empty a then [] else [(k, to_json a)].

(** Reading a member of a struct. *)
Definition rd {A} `{Codec A} (o : list (string * json)) (k : string) : option A :=
  match assoc k o with
  | None => Some zero
  | Some j => of_json j
  end.

(** A struct decodes from an object; [null] leaves it at its zero value. *)
Definition as_obj (j : json) : option (list (string * json)) :=
  match j with
  | JObj o => Some o
  | JNull => Some []
  | _ => None
  end.

(** ** Go's basic types *)

#[export] Instance string_codec : Codec string := {|
  to_json := JStr;
  of_json j := match j with JStr s => Some s | JNull => Some "" | _ => None end;
  zero := "";
  is_empty := λ s, String.eqb s "";
  marshal_ok := λ _, true
|}.

#[export] Instance Z_codec : Codec Z := {|
  to_json := JNum;
  of_json j := match j with JNum n => Some n | JNull => Some 0%Z | _ => None end;
  zero := 0%Z;
  is_empty := λ n, (n =? 0)%Z;
  marshal_ok := λ _, true
|}.

#[export] Instance bool_codec : Codec bool := {|
  to_json := JBool;
  of_json j := match j with JBool b => Some b | JNull => Some false | _ => None end;
  zero := false;
  is_empty := negb;
  marshal_ok := λ _, true
|}.

(** [any]: whatever the document holds. *)
#[export] Instance any_codec : Codec json := {|
  to_json := id;
  of_json := Some;
  zero := JNull;
  is_empty := λ j, match j with JNull => true | _ => false end;
  marshal_ok := λ _, true
|}.

(** [float64]; NaN and the infinities have no JSON form. *)
#[export] Instance float_codec : Codec spec_float := {|
  to_json := JFloat;
  of_json j := match j with
               | JFloat f => Some f
               | JNum n => Some (match n with
                                 | Z0 => S754_zero false
                                 | Zpos m => binary_normalize 53 1024 (Zpos m) 0 false
                                 | Zneg m => binary_normalize 53 1024 (Zneg m) 0 false
                                 end)
               | JNull => Some (S754_zero false)
               | _ => None
               end;
  zero := S754_zero false;
  is_empty := λ f, match f with S754_zero false => true | _ => false end;
  marshal_ok := λ f, match f with S754_zero _ | S754_finite _ _ _ => true | _ => false end
|}.

#[export] Instance list_codec {A} `{Codec A} : Codec (list A) := {|
  to_json l := JArr (to_json <$> l);
  of_json j := match j with JArr l => mapM of_json l | JNull => Some [] | _ => None end;
  zero := [];
  is_empty := λ l, match l with [] => true | _ => false end;
  marshal_ok := forallb marshal_ok
|}.

#[export] Instance map_codec {A} `{Codec A} : Codec (gmap string A) := {|
  to_json m := JObj (prod_map id to_json <$> map_to_list m);
  of_json j := match j with
               | JObj l => list_to_map <$> mapM (λ '(k, v), (k,.) <$> of_json v) (reverse l)
               | JNull => Some ∅
               | _ => None
               end;
  zero := ∅;
  is_empty := λ m, bool_decide (m = ∅);
  marshal_ok := λ m, forallb marshal_ok (snd <$> map_to_list m)
|}.

(** A pointer: [nil] is [null]. *)
#[export] Instance ptr_codec {A} `{Codec A} : Codec (option A) := {|
  to_json o := match o with Some a => to_json a | None => JNull end;
  of_json j := match j with JNull => Some None | _ => Some <$> of_json j end;
  zero := None;
  is_empty := λ o, match o with None => true | Some _ => false end;
  marshal_ok := λ o, match o with None => true | Some a => marshal_ok a end
|}.

(** Bytes a worker sends, seen through the JSON they denote: none at all, a
    well-formed document, or anything else. *)
Inductive raw := RNone | RJson (j : json) | RBad.

#[export] Instance raw_codec : Codec raw := {|
  to_json r := match r with RJson j => j | _ => JNull end;
  of_json j := Some (RJson j);
  zero := RNone;
  is_empty := λ r, match r with RNone => true | _ => false end;
  marshal_ok := λ r, match r with RBad => false | _ => true end
|}.

(** ** Laws *)

Lemma of_to_from_full {A} `{FullCodec A} (a : A) :
  is_empty a = false → marshal_ok a = true → of_json (to_json a) = Some a.
Proof. intros _. apply of_to. Qed.

#[export] Instance string_laws : CodecLaws string.
Proof. split; [intros a Ha; by apply String.eqb_eq in Ha|done]. Qed.
#[export] Instance string_full : FullCodec string.
Proof. by split. Qed.

#[export] Instance Z_laws : CodecLaws Z.
Proof. split; [intros a Ha; by apply Z.eqb_eq in Ha|done]. Qed.
#[export] Instance Z_full : FullCodec Z.
Proof. by split. Qed.

#[export] Instance bool_laws : CodecLaws bool.
Proof. split; [by intros []|done]. Qed.
#[export] Instance bool_full : FullCodec bool.
Proof. by split. Qed.

#[export] Instance any_laws : CodecLaws json.
Proof. split; [by intros []|done]. Qed.
#[export] Instance any_full : FullCodec json.
Proof. by split. Qed.

#[export] Instance float_laws : CodecLaws spec_float.
Proof. split; [by intros [[]| | |]|done]. Qed.
#[export] Instance float_full : FullCodec spec_float.
Proof. by split. Qed.

#[export] Instance raw_laws : CodecLaws raw.
Proof. split; by intros []. Qed.

Lemma mapM_of_to {A} `{FullCodec A} (l : list A) :
  forallb marshal_ok l = true → mapM of_json (to_json <$> l) = Some l.
Proof.
  intros Hl. apply mapM_Some. apply Forall2_fmap_l. apply Forall_Forall2_diag.
  apply Forall_forall. intros a Ha. apply of_to. rewrite forallb_forall in Hl.
  by apply Hl, list_elem_of_In.
Qed.

#[export] Instance list_laws {A} `{FullCodec A} : CodecLaws (list A).
Proof. split; [by intros []|]. intros l _ Hl. by apply mapM_of_to. Qed.
#[export] Instance list_full {A} `{FullCodec A} : FullCodec (list A).
Proof. split. apply mapM_of_to. Qed.

Lemma mapM_pair_of_to {A} `{FullCodec A} (l : list (string * A)) :
  forallb marshal_ok (snd <$> l) = true →
  mapM (λ '(k, v), (k,.) <$> of_json v) (prod_map id to_json <$> l) = Some l.
Proof.
  intros Hl. apply mapM_Some. apply Forall2_fmap_l. apply Forall_Forall2_diag.
  apply Forall_forall. intros [k a] Ha. cbn. rewrite of_to; [done|].
  rewrite forallb_forall in Hl. apply Hl, list_elem_of_In, list_elem_of_fmap. by exists (k, a).
Qed.

Lemma forallb_reverse {A} (f : A → bool) l : forallb f (reverse l) = forallb f l.
Proof.
  unfold reverse. rewrite rev_append_rev, app_nil_r.
  destruct (forallb f l) eqn:E.
  - apply forallb_forall. intros x Hx. apply in_rev in Hx. by eapply forallb_forall in E.
  - apply not_true_iff_false. intros F. apply not_true_iff_false in E. apply E.
    apply forallb_forall. intros x Hx. apply in_rev in Hx. by eapply forallb_forall in F.
Qed.

Lemma map_of_to {A} `{FullCodec A} (m : gmap string A) :
  marshal_ok m = true → of_json (to_json m) = Some m.
Proof.
  cbn [marshal_ok of_json to_json map_codec]. intros Hm.
  rewrite <-fmap_reverse, mapM_pair_of_to; [|by rewrite fmap_reverse, forallb_reverse].
  cbn. f_equal. rewrite <-(list_to_map_to_list m) at 2. apply list_to_map_proper; [|by rewrite reverse_Permutation].
  rewrite fmap_reverse. rewrite reverse_Permutation. apply NoDup_fst_map_to_list.
Qed.

#[export] Instance map_laws {A} `{FullCodec A} : CodecLaws (gmap string A).
Proof.
  split; [intros m Hm; by apply bool_decide_eq_true in Hm|].
  intros m _ Hm. by apply map_of_to.
Qed.
#[export] Instance map_full {A} `{FullCodec A} : FullCodec (gmap string A).
Proof. split. apply map_of_to. Qed.

(** Types [json.Marshal] never fails on. *)
Class AlwaysOk (A : Type) `{Codec A} : Prop := marshal_always (a : A) : marshal_ok a = true.

#[export] Instance string_always : AlwaysOk string.
Proof. done. Qed.
#[export] Instance Z_always : AlwaysOk Z.
Proof. done. Qed.
#[export] Instance bool_always : AlwaysOk bool.
Proof. done. Qed.
#[export] Instance any_always : AlwaysOk json.
Proof. done. Qed.
#[export] Instance list_always {A} `{AlwaysOk A} : AlwaysOk (list A).
Proof. intros l. apply forallb_forall. intros. apply marshal_always. Qed.
#[export] Instance map_always {A} `{AlwaysOk A} : AlwaysOk (gmap string A).
Proof. intros m. apply forallb_forall. intros. apply marshal_always. Qed.
#[export] Instance ptr_always {A} `{AlwaysOk A} : AlwaysOk (option A).
Proof. intros [a|]; [exact (marshal_always a)|done]. Qed.

(** A pointed-to struct never encodes as [null]. *)
Class NotNull (A : Type) `{Codec A} : Prop := not_null (a : A) : to_json a ≠ JNull.

Lemma ptr_of_to {A} `{FullCodec A} `{!NotNull A} (o : option A) :
  marshal_ok o = true → of_json (to_json o) = Some o.
Proof.
  destruct o as [a|]; [|done]. cbn [marshal_ok of_json to_json ptr_codec]. intros Ha.
  pose proof (not_null a). destruct (to_json a) eqn:E; try done; by rewrite <-E, of_to.
Qed.

#[export] Instance ptr_laws {A} `{FullCodec A} `{!NotNull A} : CodecLaws (option A).
Proof. split; [by intros []|]. intros o _ Ho. by apply ptr_of_to. Qed.
#[export] Instance ptr_full {A} `{FullCodec A} `{!NotNull A} : FullCodec (option A).
Proof. split. apply ptr_of_to. Qed.

(** ** Struct members *)

Lemma assoc_app {A} k (l l' : list (string * A)) :
  assoc k (l ++ l') = match assoc k l' with Some v => Some v | None => assoc k l end.
Proof.
  induction l as [|[k' v] l IH]; simpl; [by destruct (assoc k l')|].
  rewrite IH. by destruct (assoc k l').
Qed.

Lemma assoc_fld {A} `{Codec A} k k' (a : A) :
  assoc k (fld k' a) = if String.eqb k' k then Some (to_json a) else None.
Proof. done. Qed.

Lemma assoc_fld_omit {A} `{Codec A} k k' (a : A) :
  assoc k (fld_omit k' a) = if String.eqb k' k then (if is_empty a then None else Some (to_json a)) else None.
Proof. unfold fld_omit. destruct (is_empty a); simpl; by destruct (String.eqb _ _). Qed.

Lemma rd_fld {A} `{FullCodec A} o k (a : A) :
  assoc k o = Some (to_json a) → marshal_ok a = true → rd o k = Some a.
Proof. unfold rd. intros ->. apply of_to. Qed.

Lemma rd_fld_omit {A} `{CodecLaws A} o k (a : A) :
  assoc k o = (if is_empty a then None else Some (to_json a)) → marshal_ok a = true → rd o k = Some a.
Proof.
  unfold rd. intros ->. destruct (is_empty a) eqn:E; [by rewrite (is_empty_zero a E)|].
  by apply of_to_nonempty.
Qed.

(** The round trip of a struct, member by member: each [rd] finds the one
    member written under its key. *)
Ltac assoc_solve :=
  rewrite ?assoc_app, ?assoc_fld, ?assoc_fld_omit;
  cbn [String.eqb Ascii.eqb Bool.eqb andb];
  first [reflexivity | by match goal with |- context [is_empty ?a] => destruct (is_empty a) end].

Ltac rd_solve :=
  match goal with
  | |- context [rd ?o ?k] =>
      match o with
      | context [fld_omit k ?a] => rewrite (rd_fld_omit o k a); [|assoc_solve|]
      | context [fld k ?a] => rewrite (rd_fld o k a); [|assoc_solve|]
      end;
      [cbn [mbind option_bind]|first [apply marshal_always | assumption]]
  end.

(** [struct_solve c]: both laws of the struct codec [c]. *)
Tactic Notation "struct_solve" reference(c) :=
  split; [by intros|];
  let x := fresh "x" in let H := fresh "H" in
  intros x _ H; unfold of_json at 1, to_json at 1; unfold c; cbn [marshal_ok c] in H;
  repeat match type of H with (_ && _) = true => let G := fresh "G" in apply andb_true_iff in H as [H G] end;
  cbn [as_obj mbind option_bind];
  repeat rd_solve; by destruct x.

(** A struct has no empty value, so it is a full codec. *)
Lemma struct_full {A} `{CodecLaws A} :
  (∀ a : A, is_empty a = false) → FullCodec A.
Proof. intros He. split. intros a Ha. by apply of_to_nonempty. Qed.

#[global] Arguments to_json : simpl never.
#[global] Arguments of_json : simpl never.
