(* ===== verification/Types.v ===== *)
(** The wire and row types of [pkg/tasks/types.go] with their JSON tags. Every
    struct is a [Codec]; the instances below prove that what the store writes is
    what it reads back. A field name shared by several structs carries the
    struct's prefix. *)

From Corelib Require Import SpecFloat.
From Stdlib Require Import ZArith.
From stdpp Require Import prelude strings gmap.
From S2P Require Import Prelude GoStrings Json.

(** The key of a run inside a namespace. *)
Record ExecutionRef := {
  WorkflowId : string;
  RunId : string }.

#[export] Instance ExecutionRef_codec : Codec ExecutionRef := {|
  to_json x := JObj (fld "workflowId" (WorkflowId x) ++ fld "runId" (RunId x));
  of_json j :=
    o ← as_obj j; x0 ← rd o "workflowId"; x1 ← rd o "runId";
    Some {| WorkflowId := x0; RunId := x1 |};
  zero := {| WorkflowId := zero; RunId := zero |};
  is_empty := λ _, false;
  marshal_ok := λ _, true
|}.

#[export] Instance ExecutionRef_laws : CodecLaws ExecutionRef.
Proof. struct_solve ExecutionRef_codec. Qed.
#[export] Instance ExecutionRef_full : FullCodec ExecutionRef.
Proof. by apply struct_full. Qed.
#[export] Instance ExecutionRef_not_null : NotNull ExecutionRef.
Proof. done. Qed.
#[export] Instance ExecutionRef_always : AlwaysOk ExecutionRef.
Proof. done. Qed.

(** A workflow or activity type. *)
Record TypeRef := {
  TypeName : string }.

#[export] Instance TypeRef_codec : Codec TypeRef := {|
  to_json x := JObj (fld "name" (TypeName x));
  of_json j :=
    o ← as_obj j; x0 ← rd o "name";
    Some {| TypeName := x0 |};
  zero := {| TypeName := zero |};
  is_empty := λ _, false;
  marshal_ok := λ _, true
|}.

#[export] Instance TypeRef_laws : CodecLaws TypeRef.
Proof. struct_solve TypeRef_codec. Qed.
#[export] Instance TypeRef_full : FullCodec TypeRef.
Proof. by apply struct_full. Qed.
#[export] Instance TypeRef_not_null : NotNull TypeRef.
Proof. done. Qed.
#[export] Instance TypeRef_always : AlwaysOk TypeRef.
Proof. done. Qed.

(** Operator-supplied summary and details. *)
Record WorkflowUserMetadata := {
  Summary : string;
  Details : string;
  UpdatedBy : string;
  UpdatedAt : string }.

#[export] Instance WorkflowUserMetadata_codec : Codec WorkflowUserMetadata := {|
  to_json x := JObj (fld_omit "summary" (Summary x) ++ fld_omit "details" (Details x) ++
    fld_omit "updatedBy" (UpdatedBy x) ++ fld_omit "updatedAt" (UpdatedAt x));
  of_json j :=
    o ← as_obj j; x0 ← rd o "summary"; x1 ← rd o "details"; x2 ← rd o "updatedBy";
    x3 ← rd o "updatedAt";
    Some {| Summary := x0; Details := x1; UpdatedBy := x2; UpdatedAt := x3 |};
  zero := {| Summary := zero; Details := zero; UpdatedBy := zero; UpdatedAt := zero |};
  is_empty := λ _, false;
  marshal_ok := λ _, true
|}.

#[export] Instance WorkflowUserMetadata_laws : CodecLaws WorkflowUserMetadata.
Proof. struct_solve WorkflowUserMetadata_codec. Qed.
#[export] Instance WorkflowUserMetadata_full : FullCodec WorkflowUserMetadata.
Proof. by apply struct_full. Qed.
#[export] Instance WorkflowUserMetadata_not_null : NotNull WorkflowUserMetadata.
Proof. done. Qed.
#[export] Instance WorkflowUserMetadata_always : AlwaysOk WorkflowUserMetadata.
Proof. done. Qed.

(** The row of one workflow run. *)
Record WorkflowExecution := {
  Execution : ExecutionRef;
  Type_ : TypeRef;
  StartTime : string;
  CloseTime : string;
  Status : string;
  TaskQueue : string;
  HistoryLen : Z;
  Memo : json;
  SearchAttrs : gmap string json;
  Input : json;
  Result : json;
  UserMetadata : option WorkflowUserMetadata }.

#[export] Instance WorkflowExecution_codec : Codec WorkflowExecution := {|
  to_json x := JObj (fld "execution" (Execution x) ++ fld "type" (Type_ x) ++
    fld_omit "startTime" (StartTime x) ++ fld_omit "closeTime" (CloseTime x) ++
    fld "status" (Status x) ++ fld_omit "taskQueue" (TaskQueue x) ++
    fld_omit "historyLength" (HistoryLen x) ++ fld_omit "memo" (Memo x) ++
    fld_omit "searchAttrs" (SearchAttrs x) ++ fld_omit "input" (Input x) ++
    fld_omit "result" (Result x) ++ fld_omit "userMetadata" (UserMetadata x));
  of_json j :=
    o ← as_obj j; x0 ← rd o "execution"; x1 ← rd o "type"; x2 ← rd o "startTime";
    x3 ← rd o "closeTime"; x4 ← rd o "status"; x5 ← rd o "taskQueue"; x6 ← rd o "historyLength";
    x7 ← rd o "memo"; x8 ← rd o "searchAttrs"; x9 ← rd o "input"; x10 ← rd o "result";
    x11 ← rd o "userMetadata";
    Some {| Execution := x0; Type_ := x1; StartTime := x2; CloseTime := x3; Status := x4;
      TaskQueue := x5; HistoryLen := x6; Memo := x7; SearchAttrs := x8; Input := x9;
      Result := x10; UserMetadata := x11 |};
  zero := {| Execution := zero; Type_ := zero; StartTime := zero; CloseTime := zero;
      Status := zero; TaskQueue := zero; HistoryLen := zero; Memo := zero; SearchAttrs := zero;
      Input := zero; Result := zero; UserMetadata := zero |};
  is_empty := λ _, false;
  marshal_ok := λ _, true
|}.

#[export] Instance WorkflowExecution_laws : CodecLaws WorkflowExecution.
Proof. struct_solve WorkflowExecution_codec. Qed.
#[export] Instance WorkflowExecution_full : FullCodec WorkflowExecution.
Proof. by apply struct_full. Qed.
#[export] Instance WorkflowExecution_not_null : NotNull WorkflowExecution.
Proof. done. Qed.
#[export] Instance WorkflowExecution_always : AlwaysOk WorkflowExecution.
Proof. done. Qed.

(** One event of a run's history. *)
Record HistoryEvent := {
  EventId : Z;
  EventTime : string;
  EventType : string;
  Attributes : gmap string json }.

#[export] Instance HistoryEvent_codec : Codec HistoryEvent := {|
  to_json x := JObj (fld "eventId" (EventId x) ++ fld "eventTime" (EventTime x) ++
    fld "eventType" (EventType x) ++ fld_omit "attributes" (Attributes x));
  of_json j :=
    o ← as_obj j; x0 ← rd o "eventId"; x1 ← rd o "eventTime"; x2 ← rd o "eventType";
    x3 ← rd o "attributes";
    Some {| EventId := x0; EventTime := x1; EventType := x2; Attributes := x3 |};
  zero := {| EventId := zero; EventTime := zero; EventType := zero; Attributes := zero |};
  is_empty := λ _, false;
  marshal_ok := λ _, true
|}.

#[export] Instance HistoryEvent_laws : CodecLaws HistoryEvent.
Proof. struct_solve HistoryEvent_codec. Qed.
#[export] Instance HistoryEvent_full : FullCodec HistoryEvent.
Proof. by apply struct_full. Qed.
#[export] Instance HistoryEvent_not_null : NotNull HistoryEvent.
Proof. done. Qed.
#[export] Instance HistoryEvent_always : AlwaysOk HistoryEvent.
Proof. done. Qed.

Record NamespaceInfo := {
  ni_Name : string;
  ni_State : string;
  ni_Description : string;
  ni_OwnerEmail : string;
  ni_Region : string;
  ni_CreateTime : string }.

#[export] Instance NamespaceInfo_codec : Codec NamespaceInfo := {|
  to_json x := JObj (fld "name" (ni_Name x) ++ fld "state" (ni_State x) ++
    fld_omit "description" (ni_Description x) ++ fld_omit "ownerEmail" (ni_OwnerEmail x) ++
    fld_omit "region" (ni_Region x) ++ fld_omit "createTime" (ni_CreateTime x));
  of_json j :=
    o ← as_obj j; x0 ← rd o "name"; x1 ← rd o "state"; x2 ← rd o "description";
    x3 ← rd o "ownerEmail"; x4 ← rd o "region"; x5 ← rd o "createTime";
    Some {| ni_Name := x0; ni_State := x1; ni_Description := x2; ni_OwnerEmail := x3;
      ni_Region := x4; ni_CreateTime := x5 |};
  zero := {| ni_Name := zero; ni_State := zero; ni_Description := zero; ni_OwnerEmail := zero;
      ni_Region := zero; ni_CreateTime := zero |};
  is_empty := λ _, false;
  marshal_ok := λ _, true
|}.

#[export] Instance NamespaceInfo_laws : CodecLaws NamespaceInfo.
Proof. struct_solve NamespaceInfo_codec. Qed.
#[export] Instance NamespaceInfo_full : FullCodec NamespaceInfo.
Proof. by apply struct_full. Qed.
#[export] Instance NamespaceInfo_not_null : NotNull NamespaceInfo.
Proof. done. Qed.
#[export] Instance NamespaceInfo_always : AlwaysOk NamespaceInfo.
Proof. done. Qed.

Record NamespaceCfg := {
  WorkflowExecutionRetentionTtl : string;
  APSLimit : Z;
  HistoryArchivalState : string;
  HistoryArchivalUri : string;
  VisibilityArchivalState : string;
  VisibilityArchivalUri : string;
  CustomData : gmap string string }.

#[export] Instance NamespaceCfg_codec : Codec NamespaceCfg := {|
  to_json x := JObj (fld "workflowExecutionRetentionTtl" (WorkflowExecutionRetentionTtl x) ++
    fld "apsLimit" (APSLimit x) ++ fld_omit "historyArchivalState" (HistoryArchivalState x) ++
    fld_omit "historyArchivalUri" (HistoryArchivalUri x) ++
    fld_omit "visibilityArchivalState" (VisibilityArchivalState x) ++
    fld_omit "visibilityArchivalUri" (VisibilityArchivalUri x) ++
    fld_omit "customData" (CustomData x));
  of_json j :=
    o ← as_obj j; x0 ← rd o "workflowExecutionRetentionTtl"; x1 ← rd o "apsLimit";
    x2 ← rd o "historyArchivalState"; x3 ← rd o "historyArchivalUri";
    x4 ← rd o "visibilityArchivalState"; x5 ← rd o "visibilityArchivalUri";
    x6 ← rd o "customData";
    Some {| WorkflowExecutionRetentionTtl := x0; APSLimit := x1; HistoryArchivalState := x2;
      HistoryArchivalUri := x3; VisibilityArchivalState := x4; VisibilityArchivalUri := x5;
      CustomData := x6 |};
  zero := {| WorkflowExecutionRetentionTtl := zero; APSLimit := zero;
      HistoryArchivalState := zero; HistoryArchivalUri := zero; VisibilityArchivalState := zero;
      VisibilityArchivalUri := zero; CustomData := zero |};
  is_empty := λ _, false;
  marshal_ok := λ _, true
|}.

#[export] Instance NamespaceCfg_laws : CodecLaws NamespaceCfg.
Proof. struct_solve NamespaceCfg_codec. Qed.
#[export] Instance NamespaceCfg_full : FullCodec NamespaceCfg.
Proof. by apply struct_full. Qed.
#[export] Instance NamespaceCfg_not_null : NotNull NamespaceCfg.
Proof. done. Qed.
#[export] Instance NamespaceCfg_always : AlwaysOk NamespaceCfg.
Proof. done. Qed.

(** The registry row of a namespace. *)
Record Namespace := {
  ns_Info : NamespaceInfo;
  ns_Config : NamespaceCfg;
  IsActive : bool }.

#[export] Instance Namespace_codec : Codec Namespace := {|
  to_json x := JObj (fld "namespaceInfo" (ns_Info x) ++ fld "config" (ns_Config x) ++
    fld "isActive" (IsActive x));
  of_json j :=
    o ← as_obj j; x0 ← rd o "namespaceInfo"; x1 ← rd o "config"; x2 ← rd o "isActive";
    Some {| ns_Info := x0; ns_Config := x1; IsActive := x2 |};
  zero := {| ns_Info := zero; ns_Config := zero; IsActive := zero |};
  is_empty := λ _, false;
  marshal_ok := λ _, true
|}.

#[export] Instance Namespace_laws : CodecLaws Namespace.
Proof. struct_solve Namespace_codec. Qed.
#[export] Instance Namespace_full : FullCodec Namespace.
Proof. by apply struct_full. Qed.
#[export] Instance Namespace_not_null : NotNull Namespace.
Proof. done. Qed.
#[export] Instance Namespace_always : AlwaysOk Namespace.
Proof. done. Qed.

Record IntervalSpec := {
  Interval : string;
  Phase : string }.

#[export] Instance IntervalSpec_codec : Codec IntervalSpec := {|
  to_json x := JObj (fld "interval" (Interval x) ++ fld_omit "phase" (Phase x));
  of_json j :=
    o ← as_obj j; x0 ← rd o "interval"; x1 ← rd o "phase";
    Some {| Interval := x0; Phase := x1 |};
  zero := {| Interval := zero; Phase := zero |};
  is_empty := λ _, false;
  marshal_ok := λ _, true
|}.

#[export] Instance IntervalSpec_laws : CodecLaws IntervalSpec.
Proof. struct_solve IntervalSpec_codec. Qed.
#[export] Instance IntervalSpec_full : FullCodec IntervalSpec.
Proof. by apply struct_full. Qed.
#[export] Instance IntervalSpec_not_null : NotNull IntervalSpec.
Proof. done. Qed.
#[export] Instance IntervalSpec_always : AlwaysOk IntervalSpec.
Proof. done. Qed.

Record ScheduleSpec := {
  CronString : list string;
  IntervalList : list IntervalSpec }.

#[export] Instance ScheduleSpec_codec : Codec ScheduleSpec := {|
  to_json x := JObj (fld_omit "cronString" (CronString x) ++
    fld_omit "interval" (IntervalList x));
  of_json j :=
    o ← as_obj j; x0 ← rd o "cronString"; x1 ← rd o "interval";
    Some {| CronString := x0; IntervalList := x1 |};
  zero := {| CronString := zero; IntervalList := zero |};
  is_empty := λ _, false;
  marshal_ok := λ _, true
|}.

#[export] Instance ScheduleSpec_laws : CodecLaws ScheduleSpec.
Proof. struct_solve ScheduleSpec_codec. Qed.
#[export] Instance ScheduleSpec_full : FullCodec ScheduleSpec.
Proof. by apply struct_full. Qed.
#[export] Instance ScheduleSpec_not_null : NotNull ScheduleSpec.
Proof. done. Qed.
#[export] Instance ScheduleSpec_always : AlwaysOk ScheduleSpec.
Proof. done. Qed.

Record ScheduleAction := {
  sa_WorkflowType : TypeRef;
  sa_TaskQueue : string;
  sa_Input : json }.

#[export] Instance ScheduleAction_codec : Codec ScheduleAction := {|
  to_json x := JObj (fld "workflowType" (sa_WorkflowType x) ++
    fld "taskQueue" (sa_TaskQueue x) ++ fld_omit "input" (sa_Input x));
  of_json j :=
    o ← as_obj j; x0 ← rd o "workflowType"; x1 ← rd o "taskQueue"; x2 ← rd o "input";
    Some {| sa_WorkflowType := x0; sa_TaskQueue := x1; sa_Input := x2 |};
  zero := {| sa_WorkflowType := zero; sa_TaskQueue := zero; sa_Input := zero |};
  is_empty := λ _, false;
  marshal_ok := λ _, true
|}.

#[export] Instance ScheduleAction_laws : CodecLaws ScheduleAction.
Proof. struct_solve ScheduleAction_codec. Qed.
#[export] Instance ScheduleAction_full : FullCodec ScheduleAction.
Proof. by apply struct_full. Qed.
#[export] Instance ScheduleAction_not_null : NotNull ScheduleAction.
Proof. done. Qed.
#[export] Instance ScheduleAction_always : AlwaysOk ScheduleAction.
Proof. done. Qed.

Record ScheduleState := {
  Paused : bool;
  Note : string }.

#[export] Instance ScheduleState_codec : Codec ScheduleState := {|
  to_json x := JObj (fld "paused" (Paused x) ++ fld_omit "note" (Note x));
  of_json j :=
    o ← as_obj j; x0 ← rd o "paused"; x1 ← rd o "note";
    Some {| Paused := x0; Note := x1 |};
  zero := {| Paused := zero; Note := zero |};
  is_empty := λ _, false;
  marshal_ok := λ _, true
|}.

#[export] Instance ScheduleState_laws : CodecLaws ScheduleState.
Proof. struct_solve ScheduleState_codec. Qed.
#[export] Instance ScheduleState_full : FullCodec ScheduleState.
Proof. by apply struct_full. Qed.
#[export] Instance ScheduleState_not_null : NotNull ScheduleState.
Proof. done. Qed.
#[export] Instance ScheduleState_always : AlwaysOk ScheduleState.
Proof. done. Qed.

Record ScheduleInfo := {
  si_CreateTime : string;
  si_UpdateTime : string;
  ActionCount : Z;
  NextActionTime : string }.

#[export] Instance ScheduleInfo_codec : Codec ScheduleInfo := {|
  to_json x := JObj (fld "createTime" (si_CreateTime x) ++
    fld_omit "updateTime" (si_UpdateTime x) ++ fld "actionCount" (ActionCount x) ++
    fld_omit "nextActionTime" (NextActionTime x));
  of_json j :=
    o ← as_obj j; x0 ← rd o "createTime"; x1 ← rd o "updateTime"; x2 ← rd o "actionCount";
    x3 ← rd o "nextActionTime";
    Some {| si_CreateTime := x0; si_UpdateTime := x1; ActionCount := x2; NextActionTime := x3 |};
  zero := {| si_CreateTime := zero; si_UpdateTime := zero; ActionCount := zero;
      NextActionTime := zero |};
  is_empty := λ _, false;
  marshal_ok := λ _, true
|}.

#[export] Instance ScheduleInfo_laws : CodecLaws ScheduleInfo.
Proof. struct_solve ScheduleInfo_codec. Qed.
#[export] Instance ScheduleInfo_full : FullCodec ScheduleInfo.
Proof. by apply struct_full. Qed.
#[export] Instance ScheduleInfo_not_null : NotNull ScheduleInfo.
Proof. done. Qed.
#[export] Instance ScheduleInfo_always : AlwaysOk ScheduleInfo.
Proof. done. Qed.

(** The row of a schedule. *)
Record Schedule := {
  ScheduleId : string;
  sc_Namespace : string;
  Spec : ScheduleSpec;
  Action : ScheduleAction;
  State : ScheduleState;
  Info : ScheduleInfo }.

#[export] Instance Schedule_codec : Codec Schedule := {|
  to_json x := JObj (fld "scheduleId" (ScheduleId x) ++ fld "namespace" (sc_Namespace x) ++
    fld "spec" (Spec x) ++ fld "action" (Action x) ++ fld "state" (State x) ++
    fld "info" (Info x));
  of_json j :=
    o ← as_obj j; x0 ← rd o "scheduleId"; x1 ← rd o "namespace"; x2 ← rd o "spec";
    x3 ← rd o "action"; x4 ← rd o "state"; x5 ← rd o "info";
    Some {| ScheduleId := x0; sc_Namespace := x1; Spec := x2; Action := x3; State := x4;
      Info := x5 |};
  zero := {| ScheduleId := zero; sc_Namespace := zero; Spec := zero; Action := zero;
      State := zero; Info := zero |};
  is_empty := λ _, false;
  marshal_ok := λ _, true
|}.

#[export] Instance Schedule_laws : CodecLaws Schedule.
Proof. struct_solve Schedule_codec. Qed.
#[export] Instance Schedule_full : FullCodec Schedule.
Proof. by apply struct_full. Qed.
#[export] Instance Schedule_not_null : NotNull Schedule.
Proof. done. Qed.
#[export] Instance Schedule_always : AlwaysOk Schedule.
Proof. done. Qed.

Record SearchAttribute := {
  attr_Name : string;
  attr_Type : string }.

#[export] Instance SearchAttribute_codec : Codec SearchAttribute := {|
  to_json x := JObj (fld "name" (attr_Name x) ++ fld "type" (attr_Type x));
  of_json j :=
    o ← as_obj j; x0 ← rd o "name"; x1 ← rd o "type";
    Some {| attr_Name := x0; attr_Type := x1 |};
  zero := {| attr_Name := zero; attr_Type := zero |};
  is_empty := λ _, false;
  marshal_ok := λ _, true
|}.

#[export] Instance SearchAttribute_laws : CodecLaws SearchAttribute.
Proof. struct_solve SearchAttribute_codec. Qed.
#[export] Instance SearchAttribute_full : FullCodec SearchAttribute.
Proof. by apply struct_full. Qed.
#[export] Instance SearchAttribute_not_null : NotNull SearchAttribute.
Proof. done. Qed.
#[export] Instance SearchAttribute_always : AlwaysOk SearchAttribute.
Proof. done. Qed.

Record BatchOperation := {
  BatchId : string;
  bt_Namespace : string;
  Operation : string;
  Reason : string;
  Query : string;
  bt_State : string;
  bt_StartTime : string;
  bt_CloseTime : string;
  TotalCount : Z;
  DoneCount : Z }.

#[export] Instance BatchOperation_codec : Codec BatchOperation := {|
  to_json x := JObj (fld "batchId" (BatchId x) ++ fld "namespace" (bt_Namespace x) ++
    fld "operation" (Operation x) ++ fld "reason" (Reason x) ++ fld "query" (Query x) ++
    fld "state" (bt_State x) ++ fld "startTime" (bt_StartTime x) ++
    fld_omit "closeTime" (bt_CloseTime x) ++ fld "totalOperationCount" (TotalCount x) ++
    fld "completeOperationCount" (DoneCount x));
  of_json j :=
    o ← as_obj j; x0 ← rd o "batchId"; x1 ← rd o "namespace"; x2 ← rd o "operation";
    x3 ← rd o "reason"; x4 ← rd o "query"; x5 ← rd o "state"; x6 ← rd o "startTime";
    x7 ← rd o "closeTime"; x8 ← rd o "totalOperationCount"; x9 ← rd o "completeOperationCount";
    Some {| BatchId := x0; bt_Namespace := x1; Operation := x2; Reason := x3; Query := x4;
      bt_State := x5; bt_StartTime := x6; bt_CloseTime := x7; TotalCount := x8;
      DoneCount := x9 |};
  zero := {| BatchId := zero; bt_Namespace := zero; Operation := zero; Reason := zero;
      Query := zero; bt_State := zero; bt_StartTime := zero; bt_CloseTime := zero;
      TotalCount := zero; DoneCount := zero |};
  is_empty := λ _, false;
  marshal_ok := λ _, true
|}.

#[export] Instance BatchOperation_laws : CodecLaws BatchOperation.
Proof. struct_solve BatchOperation_codec. Qed.
#[export] Instance BatchOperation_full : FullCodec BatchOperation.
Proof. by apply struct_full. Qed.
#[export] Instance BatchOperation_not_null : NotNull BatchOperation.
Proof. done. Qed.
#[export] Instance BatchOperation_always : AlwaysOk BatchOperation.
Proof. done. Qed.

Record DeploymentVersion := {
  BuildId : string;
  dv_State : string;
  dv_Description : string;
  Compute : string;
  Image : string;
  Env_ : gmap string string;
  dv_CreateTime : string;
  dv_UpdateTime : string }.

#[export] Instance DeploymentVersion_codec : Codec DeploymentVersion := {|
  to_json x := JObj (fld "buildId" (BuildId x) ++ fld "state" (dv_State x) ++
    fld_omit "description" (dv_Description x) ++ fld_omit "compute" (Compute x) ++
    fld_omit "image" (Image x) ++ fld_omit "env" (Env_ x) ++
    fld "createTime" (dv_CreateTime x) ++ fld_omit "updateTime" (dv_UpdateTime x));
  of_json j :=
    o ← as_obj j; x0 ← rd o "buildId"; x1 ← rd o "state"; x2 ← rd o "description";
    x3 ← rd o "compute"; x4 ← rd o "image"; x5 ← rd o "env"; x6 ← rd o "createTime";
    x7 ← rd o "updateTime";
    Some {| BuildId := x0; dv_State := x1; dv_Description := x2; Compute := x3; Image := x4;
      Env_ := x5; dv_CreateTime := x6; dv_UpdateTime := x7 |};
  zero := {| BuildId := zero; dv_State := zero; dv_Description := zero; Compute := zero;
      Image := zero; Env_ := zero; dv_CreateTime := zero; dv_UpdateTime := zero |};
  is_empty := λ _, false;
  marshal_ok := λ _, true
|}.

#[export] Instance DeploymentVersion_laws : CodecLaws DeploymentVersion.
Proof. struct_solve DeploymentVersion_codec. Qed.
#[export] Instance DeploymentVersion_full : FullCodec DeploymentVersion.
Proof. by apply struct_full. Qed.
#[export] Instance DeploymentVersion_not_null : NotNull DeploymentVersion.
Proof. done. Qed.
#[export] Instance DeploymentVersion_always : AlwaysOk DeploymentVersion.
Proof. done. Qed.

(** The row of a deployment series. *)
Record Deployment := {
  dp_Name : string;
  dp_Namespace : string;
  dp_Description : string;
  dp_OwnerEmail : string;
  DefaultCompute : string;
  Versions : list DeploymentVersion;
  DefaultBuildId : string;
  dp_CreateTime : string;
  dp_UpdateTime : string }.

#[export] Instance Deployment_codec : Codec Deployment := {|
  to_json x := JObj (fld "name" (dp_Name x) ++ fld "namespace" (dp_Namespace x) ++
    fld_omit "description" (dp_Description x) ++ fld_omit "ownerEmail" (dp_OwnerEmail x) ++
    fld_omit "defaultCompute" (DefaultCompute x) ++ fld "versions" (Versions x) ++
    fld "defaultBuildId" (DefaultBuildId x) ++ fld "createTime" (dp_CreateTime x) ++
    fld_omit "updateTime" (dp_UpdateTime x));
  of_json j :=
    o ← as_obj j; x0 ← rd o "name"; x1 ← rd o "namespace"; x2 ← rd o "description";
    x3 ← rd o "ownerEmail"; x4 ← rd o "defaultCompute"; x5 ← rd o "versions";
    x6 ← rd o "defaultBuildId"; x7 ← rd o "createTime"; x8 ← rd o "updateTime";
    Some {| dp_Name := x0; dp_Namespace := x1; dp_Description := x2; dp_OwnerEmail := x3;
      DefaultCompute := x4; Versions := x5; DefaultBuildId := x6; dp_CreateTime := x7;
      dp_UpdateTime := x8 |};
  zero := {| dp_Name := zero; dp_Namespace := zero; dp_Description := zero; dp_OwnerEmail := zero;
      DefaultCompute := zero; Versions := zero; DefaultBuildId := zero; dp_CreateTime := zero;
      dp_UpdateTime := zero |};
  is_empty := λ _, false;
  marshal_ok := λ _, true
|}.

#[export] Instance Deployment_laws : CodecLaws Deployment.
Proof. struct_solve Deployment_codec. Qed.
#[export] Instance Deployment_full : FullCodec Deployment.
Proof. by apply struct_full. Qed.
#[export] Instance Deployment_not_null : NotNull Deployment.
Proof. done. Qed.
#[export] Instance Deployment_always : AlwaysOk Deployment.
Proof. done. Qed.

(** Retry knobs of a standalone activity. *)
Record RetryPolicy := {
  rp_InitialInterval : string;
  rp_BackoffCoefficient : spec_float;
  rp_MaximumInterval : string;
  rp_MaximumAttempts : Z;
  rp_NonRetryableErrorTypes : list string }.

#[export] Instance RetryPolicy_codec : Codec RetryPolicy := {|
  to_json x := JObj (fld_omit "initialInterval" (rp_InitialInterval x) ++
    fld_omit "backoffCoefficient" (rp_BackoffCoefficient x) ++
    fld_omit "maximumInterval" (rp_MaximumInterval x) ++
    fld_omit "maximumAttempts" (rp_MaximumAttempts x) ++
    fld_omit "nonRetryableErrorTypes" (rp_NonRetryableErrorTypes x));
  of_json j :=
    o ← as_obj j; x0 ← rd o "initialInterval"; x1 ← rd o "backoffCoefficient";
    x2 ← rd o "maximumInterval"; x3 ← rd o "maximumAttempts"; x4 ← rd o "nonRetryableErrorTypes";
    Some {| rp_InitialInterval := x0; rp_BackoffCoefficient := x1; rp_MaximumInterval := x2;
      rp_MaximumAttempts := x3; rp_NonRetryableErrorTypes := x4 |};
  zero := {| rp_InitialInterval := zero; rp_BackoffCoefficient := zero;
      rp_MaximumInterval := zero; rp_MaximumAttempts := zero;
      rp_NonRetryableErrorTypes := zero |};
  is_empty := λ _, false;
  marshal_ok := λ x, marshal_ok (rp_BackoffCoefficient x)
|}.

#[export] Instance RetryPolicy_laws : CodecLaws RetryPolicy.
Proof. struct_solve RetryPolicy_codec. Qed.
#[export] Instance RetryPolicy_full : FullCodec RetryPolicy.
Proof. by apply struct_full. Qed.
#[export] Instance RetryPolicy_not_null : NotNull RetryPolicy.
Proof. done. Qed.

(** The row of a standalone activity. *)
Record StandaloneActivity := {
  act_Execution : ExecutionRef;
  act_Type : TypeRef;
  act_TaskQueue : string;
  act_Status : string;
  act_StartTime : string;
  act_CloseTime : string;
  act_RetryPolicy : option RetryPolicy;
  act_Input : json;
  act_Result : json;
  FailureCause : string;
  act_Identity : string;
  act_Attempt : Z;
  MaximumAttempts : Z;
  ScheduleToCloseTimeout : string;
  ScheduleToStartTimeout : string;
  StartToCloseTimeout : string;
  HeartbeatTimeout : string;
  LastHeartbeatTime : string;
  LeaseExpiry : string;
  HistoryLength : Z }.

#[export] Instance StandaloneActivity_codec : Codec StandaloneActivity := {|
  to_json x := JObj (fld "execution" (act_Execution x) ++ fld "type" (act_Type x) ++
    fld_omit "taskQueue" (act_TaskQueue x) ++ fld "status" (act_Status x) ++
    fld_omit "startTime" (act_StartTime x) ++ fld_omit "closeTime" (act_CloseTime x) ++
    fld_omit "retryPolicy" (act_RetryPolicy x) ++ fld_omit "input" (act_Input x) ++
    fld_omit "result" (act_Result x) ++ fld_omit "failureCause" (FailureCause x) ++
    fld_omit "identity" (act_Identity x) ++ fld "attempt" (act_Attempt x) ++
    fld_omit "maximumAttempts" (MaximumAttempts x) ++
    fld_omit "scheduleToCloseTimeout" (ScheduleToCloseTimeout x) ++
    fld_omit "scheduleToStartTimeout" (ScheduleToStartTimeout x) ++
    fld_omit "startToCloseTimeout" (StartToCloseTimeout x) ++
    fld_omit "heartbeatTimeout" (HeartbeatTimeout x) ++
    fld_omit "lastHeartbeatTime" (LastHeartbeatTime x) ++
    fld_omit "leaseExpiry" (LeaseExpiry x) ++ fld_omit "historyLength" (HistoryLength x));
  of_json j :=
    o ← as_obj j; x0 ← rd o "execution"; x1 ← rd o "type"; x2 ← rd o "taskQueue";
    x3 ← rd o "status"; x4 ← rd o "startTime"; x5 ← rd o "closeTime"; x6 ← rd o "retryPolicy";
    x7 ← rd o "input"; x8 ← rd o "result"; x9 ← rd o "failureCause"; x10 ← rd o "identity";
    x11 ← rd o "attempt"; x12 ← rd o "maximumAttempts"; x13 ← rd o "scheduleToCloseTimeout";
    x14 ← rd o "scheduleToStartTimeout"; x15 ← rd o "startToCloseTimeout";
    x16 ← rd o "heartbeatTimeout"; x17 ← rd o "lastHeartbeatTime"; x18 ← rd o "leaseExpiry";
    x19 ← rd o "historyLength";
    Some {| act_Execution := x0; act_Type := x1; act_TaskQueue := x2; act_Status := x3;
      act_StartTime := x4; act_CloseTime := x5; act_RetryPolicy := x6; act_Input := x7;
      act_Result := x8; FailureCause := x9; act_Identity := x10; act_Attempt := x11;
      MaximumAttempts := x12; ScheduleToCloseTimeout := x13; ScheduleToStartTimeout := x14;
      StartToCloseTimeout := x15; HeartbeatTimeout := x16; LastHeartbeatTime := x17;
      LeaseExpiry := x18; HistoryLength := x19 |};
  zero := {| act_Execution := zero; act_Type := zero; act_TaskQueue := zero; act_Status := zero;
      act_StartTime := zero; act_CloseTime := zero; act_RetryPolicy := zero; act_Input := zero;
      act_Result := zero; FailureCause := zero; act_Identity := zero; act_Attempt := zero;
      MaximumAttempts := zero; ScheduleToCloseTimeout := zero; ScheduleToStartTimeout := zero;
      StartToCloseTimeout := zero; HeartbeatTimeout := zero; LastHeartbeatTime := zero;
      LeaseExpiry := zero; HistoryLength := zero |};
  is_empty := λ _, false;
  marshal_ok := λ x, marshal_ok (act_RetryPolicy x)
|}.

#[export] Instance StandaloneActivity_laws : CodecLaws StandaloneActivity.
Proof. struct_solve StandaloneActivity_codec. Qed.
#[export] Instance StandaloneActivity_full : FullCodec StandaloneActivity.
Proof. by apply struct_full. Qed.
#[export] Instance StandaloneActivity_not_null : NotNull StandaloneActivity.
Proof. done. Qed.

Record NexusEndpoint := {
  nx_Name : string;
  nx_Namespace : string;
  nx_Description : string;
  Target : string;
  nx_CreateTime : string }.

#[export] Instance NexusEndpoint_codec : Codec NexusEndpoint := {|
  to_json x := JObj (fld "name" (nx_Name x) ++ fld "namespace" (nx_Namespace x) ++
    fld_omit "description" (nx_Description x) ++ fld "target" (Target x) ++
    fld "createTime" (nx_CreateTime x));
  of_json j :=
    o ← as_obj j; x0 ← rd o "name"; x1 ← rd o "namespace"; x2 ← rd o "description";
    x3 ← rd o "target"; x4 ← rd o "createTime";
    Some {| nx_Name := x0; nx_Namespace := x1; nx_Description := x2; Target := x3;
      nx_CreateTime := x4 |};
  zero := {| nx_Name := zero; nx_Namespace := zero; nx_Description := zero; Target := zero;
      nx_CreateTime := zero |};
  is_empty := λ _, false;
  marshal_ok := λ _, true
|}.

#[export] Instance NexusEndpoint_laws : CodecLaws NexusEndpoint.
Proof. struct_solve NexusEndpoint_codec. Qed.
#[export] Instance NexusEndpoint_full : FullCodec NexusEndpoint.
Proof. by apply struct_full. Qed.
#[export] Instance NexusEndpoint_not_null : NotNull NexusEndpoint.
Proof. done. Qed.
#[export] Instance NexusEndpoint_always : AlwaysOk NexusEndpoint.
Proof. done. Qed.

Record Identity := {
  Email : string;
  id_Namespace : string;
  Role : string;
  GrantTime : string }.

#[export] Instance Identity_codec : Codec Identity := {|
  to_json x := JObj (fld "email" (Email x) ++ fld "namespace" (id_Namespace x) ++
    fld "role" (Role x) ++ fld "grantTime" (GrantTime x));
  of_json j :=
    o ← as_obj j; x0 ← rd o "email"; x1 ← rd o "namespace"; x2 ← rd o "role";
    x3 ← rd o "grantTime";
    Some {| Email := x0; id_Namespace := x1; Role := x2; GrantTime := x3 |};
  zero := {| Email := zero; id_Namespace := zero; Role := zero; GrantTime := zero |};
  is_empty := λ _, false;
  marshal_ok := λ _, true
|}.

#[export] Instance Identity_laws : CodecLaws Identity.
Proof. struct_solve Identity_codec. Qed.
#[export] Instance Identity_full : FullCodec Identity.
Proof. by apply struct_full. Qed.
#[export] Instance Identity_not_null : NotNull Identity.
Proof. done. Qed.
#[export] Instance Identity_always : AlwaysOk Identity.
Proof. done. Qed.
