(* ===== verification/EngineTypes.v ===== *)
(** The row types the engine keeps beside those of [types.go]: the activity
    records of [durable.go], the failure streaks of [failure.go], and the wire
    retry policy they carry. *)

From Corelib Require Import SpecFloat.
From Stdlib Require Import ZArith.
From stdpp Require Import prelude strings gmap.
From S2P Require Import Prelude GoStrings Json Types.

(** The wire retry policy of [pkg/sdk/client/transport.go]; milliseconds. *)
Record RetryPolicyJSON := {
  rj_InitialIntervalMs : Z;
  rj_BackoffCoefficient : spec_float;
  rj_MaximumIntervalMs : Z;
  rj_MaximumAttempts : Z;
  rj_NonRetryableErrorTypes : list string }.

#[export] Instance RetryPolicyJSON_codec : Codec RetryPolicyJSON := {|
  to_json x := JObj (fld_omit "initial_interval_ms" (rj_InitialIntervalMs x) ++
    fld_omit "backoff_coefficient" (rj_BackoffCoefficient x) ++
    fld_omit "maximum_interval_ms" (rj_MaximumIntervalMs x) ++
    fld_omit "maximum_attempts" (rj_MaximumAttempts x) ++
    fld_omit "non_retryable_error_types" (rj_NonRetryableErrorTypes x));
  of_json j :=
    o ← as_obj j; x0 ← rd o "initial_interval_ms"; x1 ← rd o "backoff_coefficient";
    x2 ← rd o "maximum_interval_ms"; x3 ← rd o "maximum_attempts";
    x4 ← rd o "non_retryable_error_types";
    Some {| rj_InitialIntervalMs := x0; rj_BackoffCoefficient := x1; rj_MaximumIntervalMs := x2;
      rj_MaximumAttempts := x3; rj_NonRetryableErrorTypes := x4 |};
  zero := {| rj_InitialIntervalMs := zero; rj_BackoffCoefficient := zero;
      rj_MaximumIntervalMs := zero; rj_MaximumAttempts := zero;
      rj_NonRetryableErrorTypes := zero |};
  is_empty := λ _, false;
  marshal_ok := λ x, marshal_ok (rj_BackoffCoefficient x)
|}.

#[export] Instance RetryPolicyJSON_laws : CodecLaws RetryPolicyJSON.
Proof. struct_solve RetryPolicyJSON_codec. Qed.
#[export] Instance RetryPolicyJSON_full : FullCodec RetryPolicyJSON.
Proof. by apply struct_full. Qed.
#[export] Instance RetryPolicyJSON_not_null : NotNull RetryPolicyJSON.
Proof. done. Qed.

(** The record of one activity of a run, keyed by its sequence number. *)
Record workflowActivity := {
  wa_Seq : Z;
  wa_ActivityID : string;
  wa_ActivityType : string;
  wa_Input : raw;
  wa_TaskQueue : string;
  wa_Status : string;
  wa_Attempt : Z;
  wa_Result : raw;
  wa_Failure : raw;
  wa_StartToCloseMs : Z;
  wa_HeartbeatMs : Z;
  wa_RetryPolicy : option RetryPolicyJSON }.

#[export] Instance workflowActivity_codec : Codec workflowActivity := {|
  to_json x := JObj (fld "seq" (wa_Seq x) ++ fld "activityId" (wa_ActivityID x) ++
    fld "activityType" (wa_ActivityType x) ++ fld_omit "input" (wa_Input x) ++
    fld_omit "taskQueue" (wa_TaskQueue x) ++ fld "status" (wa_Status x) ++
    fld "attempt" (wa_Attempt x) ++ fld_omit "result" (wa_Result x) ++
    fld_omit "failure" (wa_Failure x) ++ fld_omit "startToCloseMs" (wa_StartToCloseMs x) ++
    fld_omit "heartbeatMs" (wa_HeartbeatMs x) ++ fld_omit "retryPolicy" (wa_RetryPolicy x));
  of_json j :=
    o ← as_obj j; x0 ← rd o "seq"; x1 ← rd o "activityId"; x2 ← rd o "activityType";
    x3 ← rd o "input"; x4 ← rd o "taskQueue"; x5 ← rd o "status"; x6 ← rd o "attempt";
    x7 ← rd o "result"; x8 ← rd o "failure"; x9 ← rd o "startToCloseMs"; x10 ← rd o "heartbeatMs";
    x11 ← rd o "retryPolicy";
    Some {| wa_Seq := x0; wa_ActivityID := x1; wa_ActivityType := x2; wa_Input := x3;
      wa_TaskQueue := x4; wa_Status := x5; wa_Attempt := x6; wa_Result := x7; wa_Failure := x8;
      wa_StartToCloseMs := x9; wa_HeartbeatMs := x10; wa_RetryPolicy := x11 |};
  zero := {| wa_Seq := zero; wa_ActivityID := zero; wa_ActivityType := zero; wa_Input := zero;
      wa_TaskQueue := zero; wa_Status := zero; wa_Attempt := zero; wa_Result := zero;
      wa_Failure := zero; wa_StartToCloseMs := zero; wa_HeartbeatMs := zero;
      wa_RetryPolicy := zero |};
  is_empty := λ _, false;
  marshal_ok := λ x, marshal_ok (wa_Input x) && marshal_ok (wa_Result x) && marshal_ok (wa_Failure x) && marshal_ok (wa_RetryPolicy x)
|}.

#[export] Instance workflowActivity_laws : CodecLaws workflowActivity.
Proof. struct_solve workflowActivity_codec. Qed.
#[export] Instance workflowActivity_full : FullCodec workflowActivity.
Proof. by apply struct_full. Qed.
#[export] Instance workflowActivity_not_null : NotNull workflowActivity.
Proof. done. Qed.

(** The part of a run row that says whether and when it closed. *)
Record runRow := {
  rr_Execution : ExecutionRef;
  rr_Status : string;
  rr_StartTime : string;
  rr_CloseTime : string }.

#[export] Instance runRow_codec : Codec runRow := {|
  to_json x := JObj (fld "execution" (rr_Execution x) ++ fld "status" (rr_Status x) ++
    fld "startTime" (rr_StartTime x) ++ fld "closeTime" (rr_CloseTime x));
  of_json j :=
    o ← as_obj j; x0 ← rd o "execution"; x1 ← rd o "status"; x2 ← rd o "startTime";
    x3 ← rd o "closeTime";
    Some {| rr_Execution := x0; rr_Status := x1; rr_StartTime := x2; rr_CloseTime := x3 |};
  zero := {| rr_Execution := zero; rr_Status := zero; rr_StartTime := zero;
      rr_CloseTime := zero |};
  is_empty := λ _, false;
  marshal_ok := λ _, true
|}.

#[export] Instance runRow_laws : CodecLaws runRow.
Proof. struct_solve runRow_codec. Qed.
#[export] Instance runRow_full : FullCodec runRow.
Proof. by apply struct_full. Qed.
#[export] Instance runRow_not_null : NotNull runRow.
Proof. done. Qed.
#[export] Instance runRow_always : AlwaysOk runRow.
Proof. done. Qed.

(** The durable aggregate of one identity that is failing. *)
Record FailureStreak := {
  fs_Org : string;
  fs_Namespace : string;
  fs_WorkflowType : string;
  fs_ActivityType : string;
  fs_TaskQueue : string;
  fs_ScheduleId : string;
  fs_ConsecutiveFailures : Z;
  fs_Attempt : Z;
  fs_Retrying : bool;
  fs_Persistent : bool;
  fs_FirstFailureTime : string;
  fs_LastFailureTime : string;
  fs_LastError : string;
  fs_LastWorkflowId : string;
  fs_LastRunId : string }.

#[export] Instance FailureStreak_codec : Codec FailureStreak := {|
  to_json x := JObj (fld_omit "org" (fs_Org x) ++ fld "namespace" (fs_Namespace x) ++
    fld_omit "workflowType" (fs_WorkflowType x) ++ fld_omit "activityType" (fs_ActivityType x) ++
    fld_omit "taskQueue" (fs_TaskQueue x) ++ fld_omit "scheduleId" (fs_ScheduleId x) ++
    fld "consecutiveFailures" (fs_ConsecutiveFailures x) ++ fld_omit "attempt" (fs_Attempt x) ++
    fld_omit "retrying" (fs_Retrying x) ++ fld_omit "persistent" (fs_Persistent x) ++
    fld "firstFailureTime" (fs_FirstFailureTime x) ++
    fld "lastFailureTime" (fs_LastFailureTime x) ++ fld_omit "lastError" (fs_LastError x) ++
    fld_omit "lastWorkflowId" (fs_LastWorkflowId x) ++ fld_omit "lastRunId" (fs_LastRunId x));
  of_json j :=
    o ← as_obj j; x0 ← rd o "org"; x1 ← rd o "namespace"; x2 ← rd o "workflowType";
    x3 ← rd o "activityType"; x4 ← rd o "taskQueue"; x5 ← rd o "scheduleId";
    x6 ← rd o "consecutiveFailures"; x7 ← rd o "attempt"; x8 ← rd o "retrying";
    x9 ← rd o "persistent"; x10 ← rd o "firstFailureTime"; x11 ← rd o "lastFailureTime";
    x12 ← rd o "lastError"; x13 ← rd o "lastWorkflowId"; x14 ← rd o "lastRunId";
    Some {| fs_Org := x0; fs_Namespace := x1; fs_WorkflowType := x2; fs_ActivityType := x3;
      fs_TaskQueue := x4; fs_ScheduleId := x5; fs_ConsecutiveFailures := x6; fs_Attempt := x7;
      fs_Retrying := x8; fs_Persistent := x9; fs_FirstFailureTime := x10;
      fs_LastFailureTime := x11; fs_LastError := x12; fs_LastWorkflowId := x13;
      fs_LastRunId := x14 |};
  zero := {| fs_Org := zero; fs_Namespace := zero; fs_WorkflowType := zero;
      fs_ActivityType := zero; fs_TaskQueue := zero; fs_ScheduleId := zero;
      fs_ConsecutiveFailures := zero; fs_Attempt := zero; fs_Retrying := zero;
      fs_Persistent := zero; fs_FirstFailureTime := zero; fs_LastFailureTime := zero;
      fs_LastError := zero; fs_LastWorkflowId := zero; fs_LastRunId := zero |};
  is_empty := λ _, false;
  marshal_ok := λ _, true
|}.

#[export] Instance FailureStreak_laws : CodecLaws FailureStreak.
Proof. struct_solve FailureStreak_codec. Qed.
#[export] Instance FailureStreak_full : FullCodec FailureStreak.
Proof. by apply struct_full. Qed.
#[export] Instance FailureStreak_not_null : NotNull FailureStreak.
Proof. done. Qed.
#[export] Instance FailureStreak_always : AlwaysOk FailureStreak.
Proof. done. Qed.
