(* ===== verification/Env.v ===== *)
(** What the engine consumes from outside its own sources: the clock, the
    entropy source, the outcome of the operations on disk and on the wire, and
    the third-party packages it calls. Each is a field of [Env], an argument of
    every definition that uses it. *)

From Stdlib Require Import Ascii ZArith.
From stdpp Require Import prelude strings gmap.
From S2P Require Import Prelude GoStrings Json.

Class Env := {
  (** The [i]-th reading of [time.Now], nanoseconds since the Unix epoch. *)
  env_now : nat → Z;
  (** The [i]-th draw from [crypto/rand], as a number. *)
  env_rand : nat → Z;
  (** Whether the [i]-th operation on a shard's database fails. *)
  env_fault : nat → bool;
  (** What [PRAGMA auto_vacuum], [freelist_count] and [page_count] answer at the
      [i]-th operation. *)
  env_pages : nat → Z * Z * Z;
  (** Whether the transport accepts the [i]-th server push, to this peer. *)
  env_send : nat → string → Z → bool;
  (** [hanzoai/namespace]: [namespace.Org name] is an error, or the entity whose
      [ID()] this is. *)
  env_segment : string → option string;
  (** [hanzoai/namespace]: [Sanitize name], the storage identity of a name, or the
      empty string for a name it refuses. *)
  env_sanitize : string → string;
  (** [robfig/cron]: [Parse spec] is an error, or the schedule whose [Next] this
      is (nanoseconds since the epoch). *)
  env_cron : string → option (Z → Z);
  (** The random secret of the process. *)
  env_secret : string;
  (** The text of worker-supplied bytes, and the JSON a text denotes. *)
  env_bytes : raw → string;
  env_parse : string → raw
}.

(** The documented rule of [hanzoai/namespace]: a segment names no path, so it
    holds no separator. *)
Class SegmentRule `{Env} : Prop :=
  segment_rule name id : env_segment name = Some id → segment id.

(** ** A concrete environment, for the witnesses

    The clock ticks one second per reading from 2026-01-01T00:00:00Z, entropy is
    a counter, nothing fails, and a segment is a string of lower-case letters,
    digits, dashes and underscores that does not start with an underscore. *)

Definition slug_byte (c : ascii) : bool :=
  in_range "a" "z" c || in_range "0" "9" c || Ascii.eqb c "-" || Ascii.eqb c "_".
Fixpoint slug (s : string) : bool :=
  match s with EmptyString => true | String c s => slug_byte c && slug s end.
Definition test_segment (s : string) : option string :=
  if slug s && negb (has_prefix s "_") && negb (String.eqb s "") then Some s else None.

Definition test_env : Env := {|
  env_now i := (1767225600 * 1000000000 + Z.of_nat i * 1000000000)%Z;
  env_rand i := Z.of_nat i;
  env_fault _ := false;
  env_pages _ := (0, 0, 1)%Z;
  env_send _ _ _ := true;
  env_segment := test_segment;
  env_sanitize s := default "" (test_segment s);
  env_cron _ := None;
  env_secret := "tasks-fallback-secret-do-not-use";
  env_bytes _ := "";
  env_parse _ := RBad
|}.

Lemma slug_segment s : slug s = true → segment s.
Proof.
  unfold segment. induction s as [|c s IH]; [done|]. cbn [slug contains_byte].
  rewrite andb_true_iff. intros [Hc Hs]. rewrite IH by done. rewrite orb_false_r.
  apply Ascii.eqb_neq. intros ->. by vm_compute in Hc.
Qed.

Lemma test_segment_rule : @SegmentRule test_env.
Proof.
  intros name id. cbn. unfold test_segment.
  destruct (slug name) eqn:E; [|done]. cbn. case_match; [|done].
  intros [= <-]. by apply slug_segment.
Qed.

