(* ===== verification/Texts.v ===== *)
(** JSON documents as text, for the witnesses: a printing of every document with a
    reading that inverts it. The engine sees the text of a document only through
    [env_bytes] and [env_parse], whose documented law is the class [JsonText]. *)

From Corelib Require Import SpecFloat.
From Stdlib Require Import Ascii ZArith.
From stdpp Require Import prelude strings gmap countable.
From S2P Require Import Prelude GoStrings Json Env.

(** Bytes denote what they were printed from, and no bytes are no document. *)
Class JsonText `{Env} : Prop := {
  text_parse r : env_parse (env_bytes r) = r;
  text_empty : env_parse "" = RNone
}.
Lemma text_nonempty `{JsonText} r : r ≠ RNone → env_bytes r ≠ "".
Proof. intros Hr E. apply Hr. by rewrite <-(text_parse r), E, text_empty. Qed.

(** ** A printing *)

#[export] Instance float_eq : EqDecision spec_float.
Proof. solve_decision. Defined.
#[export] Program Instance float_countable : Countable spec_float :=
  inj_countable'
    (λ f, match f with S754_zero b => inl b | S754_infinity b => inr (inl b) | S754_nan => inr (inr (inl tt)) | S754_finite b m e => inr (inr (inr (b, m, e))) end)
    (λ x, match x with inl b => S754_zero b | inr (inl b) => S754_infinity b | inr (inr (inl _)) => S754_nan | inr (inr (inr (b, m, e))) => S754_finite b m e end) _.
Next Obligation. by intros []. Qed.

Abbreviation leaf := (bool + (Z + (spec_float + string)))%type.

Fixpoint tree_of (j : json) : gen_tree leaf :=
  match j with
  | JNull => GenNode 0 []
  | JBool b => GenLeaf (inl b)
  | JNum n => GenLeaf (inr (inl n))
  | JFloat f => GenLeaf (inr (inr (inl f)))
  | JStr s => GenLeaf (inr (inr (inr s)))
  | JArr l => GenNode 1 (map tree_of l)
  | JObj l => GenNode 2 (map (λ '(k, v), GenNode 3 [GenLeaf (inr (inr (inr k))); tree_of v]) l)
  end.
Fixpoint of_tree (t : gen_tree leaf) : json :=
  match t with
  | GenLeaf (inl b) => JBool b
  | GenLeaf (inr (inl n)) => JNum n
  | GenLeaf (inr (inr (inl f))) => JFloat f
  | GenLeaf (inr (inr (inr s))) => JStr s
  | GenNode 0 _ => JNull
  | GenNode 1 l => JArr (map of_tree l)
  | GenNode _ l => JObj (map (λ t, match t with
                                    | GenNode _ [GenLeaf (inr (inr (inr k))); v] => (k, of_tree v)
                                    | _ => ("", JNull)
                                    end) l)
  end.

Lemma of_tree_of : ∀ j, of_tree (tree_of j) = j.
Proof.
  fix IH 1. intros [| | | | |l|l]; cbn; try done; f_equal.
  - induction l as [|j l IHl]; cbn; [done|]. by rewrite IH, IHl.
  - induction l as [|[k v] l IHl]; cbn; [done|]. by rewrite IH, IHl.
Qed.

Fixpoint bits (p : positive) : string :=
  match p with
  | xH => ""
  | xO p => String "0" (bits p)
  | xI p => String "1" (bits p)
  end.
Fixpoint of_bits (s : string) : positive :=
  match s with
  | EmptyString => xH
  | String c s => if Ascii.eqb c "0" then xO (of_bits s) else xI (of_bits s)
  end.
Lemma of_bits_bits p : of_bits (bits p) = p.
Proof. induction p as [p IH|p IH|]; cbn; by rewrite ?IH. Qed.

Definition print_raw (r : raw) : string :=
  match r with
  | RNone => ""
  | RJson j => String "#" (bits (encode (tree_of j)))
  | RBad => "!"
  end.
Definition read_raw (s : string) : raw :=
  match s with
  | EmptyString => RNone
  | String "#" s => match decode (of_bits s) with Some t => RJson (of_tree t) | None => RBad end
  | _ => RBad
  end.
Lemma read_print r : read_raw (print_raw r) = r.
Proof. destruct r as [|j|]; [done| |done]. cbn [print_raw read_raw]. by rewrite of_bits_bits, decode_encode, of_tree_of. Qed.

(** The test environment, with texts. *)
Definition text_env : Env := {|
  env_now := @env_now test_env; env_rand := @env_rand test_env; env_fault := @env_fault test_env; env_pages := @env_pages test_env;
  env_send := @env_send test_env; env_segment := @env_segment test_env; env_sanitize := @env_sanitize test_env; env_cron := @env_cron test_env; env_secret := @env_secret test_env; env_bytes := print_raw; env_parse := read_raw
|}.
Lemma text_env_text : @JsonText text_env.
Proof. split; [apply read_print|done]. Qed.
