(* ===== verification/Principal.v ===== *)
(** Tenants: [pkg/tasks/store/principal.go]. A [Principal] is the org, project
    and user legs of a tenant; its canonical text is both a directory and the
    routing key of a replication frame. *)

From Stdlib Require Import Ascii ZArith.
From stdpp Require Import prelude strings gmap.
From S2P Require Import Prelude GoStrings Json Env.

Record Principal := { Org : string; Project : string; User : string }.

#[export] Instance Principal_eq_dec : EqDecision Principal.
Proof. solve_decision. Defined.
#[export] Instance Principal_countable : Countable Principal.
Proof.
  refine (inj_countable' (λ p, (Org p, Project p, User p))
    (λ '(o, p, u), {| Org := o; Project := p; User := u |}) _). by intros [].
Defined.

Definition Sentinel : string := "_".
Definition Depth : nat := 3.

(** The zero Principal: the unscoped, embedded tenant. *)
Definition root : Principal := {| Org := ""; Project := ""; User := "" |}.

Inductive name_error :=
| NameRequired
| NameIsSentinel
| NameHasNul (name : string)
| NameRefused (name : string)
| NameNotStored (name id : string).

Inductive principal_error :=
| PNarrowsUnsetOrg
| PBadLeg (e : name_error)
| PLegCount (s : string)
| PUserLeg.

Section Principals.
Context `{Env}.

(** Every name that becomes a path segment passes through here. *)
Definition ValidName (name : string) : option name_error :=
  if String.eqb name "" then Some NameRequired
  else if String.eqb name Sentinel then Some NameIsSentinel
  else if contains_byte "000" name then Some (NameHasNul name)
  else match env_segment name with
       | None => Some (NameRefused name)
       | Some id => if String.eqb id name then None else Some (NameNotStored name id)
       end.

Definition legs (p : Principal) : list string := [Org p; Project p; User p].

Definition Root (p : Principal) : bool := bool_decide (p = root).

Definition encode_leg (leg : string) : string := if String.eqb leg "" then Sentinel else leg.
Definition decode_leg (leg : string) : string := if String.eqb leg Sentinel then "" else leg.

Definition Principal_String (p : Principal) : string := str_join "/" (encode_leg <$> legs p).

Fixpoint valid_legs (l : list string) : option principal_error :=
  match l with
  | [] => None
  | leg :: l =>
      if String.eqb leg "" then valid_legs l
      else match ValidName leg with
           | Some e => Some (PBadLeg e)
           | None => valid_legs l
           end
  end.

Definition Valid (p : Principal) : option principal_error :=
  if String.eqb (Org p) "" && (negb (String.eqb (Project p) "") || negb (String.eqb (User p) ""))
  then Some PNarrowsUnsetOrg
  else valid_legs (legs p).

Definition ParsePrincipal (s : string) : principal_error + Principal :=
  match decode_leg <$> str_split "/" s with
  | [o; pr; u] =>
      let p := {| Org := o; Project := pr; User := u |} in
      match Valid p with
      | Some e => inl e
      | None => inr p
      end
  | _ => inl (PLegCount s)
  end.

(** [Principal.Namespace]: the layout has no place for a user leg. Rendering the
    remaining legs is [hanzoai/namespace]'s, and cannot fail on legs [Valid]
    accepted. *)
Definition Placeable (p : Principal) : option principal_error :=
  match Valid p with
  | Some e => Some e
  | None => if String.eqb (User p) "" then None else Some PUserLeg
  end.

(** [fold]: a name [Sanitize] refuses is kept, so that [Valid] refuses it. *)
Definition fold_leg (name : string) : string :=
  if String.eqb name "" then ""
  else let slug := env_sanitize name in if String.eqb slug "" then name else slug.
(** [Org] and [OrgProject], the doors for names from outside. *)
Definition tenant (org : string) : Principal := {| Org := fold_leg org; Project := ""; User := "" |}.
Definition OrgProject (org project : string) : Principal := {| Org := fold_leg org; Project := fold_leg project; User := "" |}.

(** ** Lemmas *)

(** A named organization never becomes the unscoped tenant. *)
Lemma tenant_not_root org : org ≠ "" → tenant org ≠ root.
Proof.
  intros Ho E. apply (f_equal Org) in E. cbn in E. unfold fold_leg in E. rewrite (proj2 (String.eqb_neq _ _) Ho) in E.
  cbv zeta in E. by destruct (String.eqb_spec (env_sanitize org) "").
Qed.

Lemma ValidName_segment `{!SegmentRule} name : ValidName name = None → segment name.
Proof.
  unfold ValidName. repeat (case_match; try done).
  intros _. match goal with H : String.eqb _ _ = true |- _ => apply String.eqb_eq in H as -> end.
  by eapply segment_rule.
Qed.

Lemma ValidName_not_sentinel name : ValidName name = None → name ≠ Sentinel.
Proof. unfold ValidName. intros E ->. by vm_compute in E. Qed.

Lemma ValidName_not_empty name : ValidName name = None → name ≠ "".
Proof. unfold ValidName. intros E ->. by vm_compute in E. Qed.

Lemma valid_legs_spec l :
  valid_legs l = None ↔ Forall (λ leg, leg = "" ∨ ValidName leg = None) l.
Proof.
  induction l as [|leg l IH]; simpl; [by split|]. rewrite Forall_cons, <-IH.
  destruct (String.eqb_spec leg "") as [->|Hne]; [naive_solver|].
  destruct (ValidName leg) eqn:E; naive_solver.
Qed.

Lemma decode_encode_leg leg : leg = "" ∨ ValidName leg = None → decode_leg (encode_leg leg) = leg.
Proof.
  intros [->|Hv]; [done|]. unfold encode_leg, decode_leg.
  destruct (String.eqb_spec leg "") as [->|_]; [done|].
  destruct (String.eqb_spec leg Sentinel) as [->|_]; [|done].
  by apply ValidName_not_sentinel in Hv.
Qed.

Lemma encode_leg_segment `{!SegmentRule} leg :
  leg = "" ∨ ValidName leg = None → segment (encode_leg leg).
Proof.
  unfold encode_leg. intros Hl. destruct (String.eqb_spec leg "") as [->|Hne]; [done|].
  destruct Hl as [->|Hv]; [done|]. by apply ValidName_segment.
Qed.

Lemma split_three a b c :
  segment a → segment b → segment c →
  str_split "/" (a +:+ "/" +:+ b +:+ "/" +:+ c) = [a; b; c].
Proof.
  intros Ha Hb Hc. unfold str_split. rewrite !slen_app.
  change (String.length "/") with 1%nat.
  replace (String.length a + (1 + (String.length b + (1 + String.length c))))%nat
    with (S (S (String.length a + String.length b + String.length c))) by lia.
  cbn [str_split_go]. rewrite (cut_app a (b +:+ "/" +:+ c) Ha), (cut_app b c Hb).
  f_equal. f_equal. by destruct (_ + _)%nat; cbn [str_split_go]; rewrite ?cut_none.
Qed.

Lemma Valid_legs p : Valid p = None → Forall (λ leg, leg = "" ∨ ValidName leg = None) (legs p).
Proof. unfold Valid. case_match; [done|]. apply valid_legs_spec. Qed.

Lemma parse_string `{!SegmentRule} p :
  Valid p = None → ParsePrincipal (Principal_String p) = inr p.
Proof.
  intros Hv. pose proof (Valid_legs p Hv) as HF. destruct p as [o pr u].
  unfold legs in HF; cbn in HF. apply Forall_cons in HF as [Ho HF].
  apply Forall_cons in HF as [Hp HF]. apply Forall_cons in HF as [Hu _].
  unfold ParsePrincipal, Principal_String, legs. cbn [fmap list_fmap str_join Org Project User].
  rewrite split_three by (by apply encode_leg_segment). cbn [fmap list_fmap].
  rewrite !decode_encode_leg by done. by rewrite Hv.
Qed.

End Principals.
