(* ===== verification/Router.v ===== *)
(** Key routing: [pkg/tasks/store/router.go]. A key is
    [<kind>/<namespace>/<rest>], and the namespace names the shard. *)

From Stdlib Require Import Ascii ZArith.
From stdpp Require Import prelude strings gmap.
From S2P Require Import Prelude GoStrings.

(** [NsFromKey] returns [(kind, ns, rest)], or fails on a key with no kind. *)
Definition NsFromKey (key : string) : option (string * string * string) :=
  match cut "/" key with
  | None | Some (EmptyString, _) => None
  | Some (kind, tail) =>
      if String.eqb kind "ns" then Some (kind, tail, "")
      else match cut "/" tail with
           | None | Some (EmptyString, _) => Some (kind, tail, "")
           | Some (ns, rest) => Some (kind, ns, rest)
           end
  end.

Definition CrossNamespaceKinds : list string := ["ns"; "nx"].

Definition has_suffix_slash (s : string) : bool :=
  match String.get (pred (String.length s)) s with
  | Some c => Ascii.eqb c "/"
  | None => false
  end.

(** A bare [<kind>/] scan of a cross-namespace kind fans out over every shard. *)
Definition IsCrossNamespacePrefix (prefix : string) : bool :=
  let prefix := if has_suffix_slash prefix then prefix else prefix +:+ "/" in
  match str_split_n "/" prefix 3 with
  | kind :: ns :: _ => bool_decide (kind ∈ CrossNamespaceKinds) && String.eqb ns ""
  | _ => false
  end.

(** [SplitPrefix] returns [(kind, ns, suffix)], empty where there is none. *)
Definition SplitPrefix (prefix : string) : string * string * string :=
  match str_split_n "/" prefix 3 with
  | [kind] => (kind, "", "")
  | [kind; ns] => (kind, ns, "")
  | kind :: ns :: suffix :: _ => (kind, ns, suffix)
  | [] => ("", "", "")
  end.

(** ** Lemmas *)

(** The kinds of the engine's per-namespace keys. *)
Definition plain_kind (kind : string) : Prop := segment kind ∧ kind ≠ "" ∧ kind ≠ "ns".

Lemma NsFromKey_key kind ns rest :
  plain_kind kind → segment ns → ns ≠ "" →
  NsFromKey (kind +:+ "/" +:+ ns +:+ "/" +:+ rest) = Some (kind, ns, rest).
Proof.
  intros (Hk & Hke & Hkn) Hns Hne. unfold NsFromKey. rewrite cut_app by done.
  destruct kind as [|c kind]; [done|].
  destruct (String.eqb_spec (String c kind) "ns") as [|_]; [done|].
  rewrite cut_app by done. by destruct ns.
Qed.

Lemma NsFromKey_short kind ns :
  plain_kind kind → segment ns → NsFromKey (kind +:+ "/" +:+ ns) = Some (kind, ns, "").
Proof.
  intros (Hk & Hke & Hkn) Hns. unfold NsFromKey. rewrite cut_app by done.
  destruct kind as [|c kind]; [done|].
  destruct (String.eqb_spec (String c kind) "ns") as [|_]; [done|].
  by rewrite cut_none.
Qed.

Lemma NsFromKey_registry ns : NsFromKey ("ns" +:+ "/" +:+ ns) = Some ("ns", ns, "").
Proof. unfold NsFromKey. by rewrite cut_app. Qed.

Lemma SplitPrefix_prefix kind ns suffix :
  segment kind → segment ns →
  SplitPrefix (kind +:+ "/" +:+ ns +:+ "/" +:+ suffix) = (kind, ns, suffix).
Proof.
  intros Hk Hns. unfold SplitPrefix, str_split_n. cbn [pred str_split_go].
  by rewrite !cut_app.
Qed.

(** A prefix that names a namespace routes to that shard alone. *)
Lemma not_cross_namespace kind ns suffix :
  segment kind → segment ns → ns ≠ "" →
  IsCrossNamespacePrefix (kind +:+ "/" +:+ ns +:+ "/" +:+ suffix) = false.
Proof.
  intros Hk Hns Hne. unfold IsCrossNamespacePrefix, str_split_n. cbv zeta.
  destruct (has_suffix_slash _); rewrite ?sapp_assoc; cbn [pred str_split_go];
    rewrite !cut_app by done; (destruct (String.eqb_spec ns "") as [|_]; [done|]);
    by rewrite andb_false_r.
Qed.
