(* ===== verification/Shard.v ===== *)
(** A shard's key/value table: [pkg/tasks/store/shard_db.go]. The table is a
    finite map from keys to rows; [Scan] is the ordered range query the SQL
    issues. *)

From Stdlib Require Import Ascii ZArith Lia.
From stdpp Require Import prelude strings gmap sorting.
From S2P Require Import Prelude GoStrings Json.

Abbreviation table := (gmap string json).

(** [INSERT ... ON CONFLICT(key) DO UPDATE] and [DELETE ... WHERE key=?]. *)
Definition localPut (key : string) (value : json) (t : table) : table := <[key := value]> t.
Definition localDel (key : string) (t : table) : table := delete key t.

(** The last byte below 0xff, incremented, with what follows it cut off. *)
Fixpoint bump (b : string) : option string :=
  match b with
  | EmptyString => None
  | String c b =>
      match bump b with
      | Some b' => Some (String c b')
      | None => if (N_of_ascii c <? 255)%N
                then Some (String (ascii_of_N (N_of_ascii c + 1)) EmptyString) else None
      end
  end.

(** The exclusive upper bound of the keys that start with [prefix]. *)
Definition prefixUpperBound (prefix : string) : string :=
  if String.eqb prefix "" then String "255" (String "255" (String "255" (String "255" EmptyString)))
  else match bump prefix with
       | Some b => b
       | None => prefix +:+ String "255" EmptyString
       end.

(** The WHERE clause of [Scan]. *)
Definition in_scan (prefix after key : string) : bool :=
  (if sle prefix after then slt after key else sle prefix key) && slt key (prefixUpperBound prefix).

Definition sle_rel (a b : string) : Prop := sle a b = true.
#[export] Instance sle_rel_dec : RelDecision sle_rel := λ a b, decide (sle a b = true).

(** The keys a scan visits, in the order it visits them. *)
Definition scan_keys (prefix after : string) (t : table) : list string :=
  merge_sort sle_rel (filter (λ k, in_scan prefix after k = true) (map_to_list t).*1).

Definition pair_up (t : table) (k : string) : option (string * json) := (k,.) <$> t !! k.

(** [SELECT ... ORDER BY key LIMIT ?]; a limit below one is no limit. *)
Definition Scan (prefix after : string) (limit : Z) (t : table) : list (string * json) :=
  let rows := omap (pair_up t) (scan_keys prefix after t) in
  if (limit <=? 0)%Z then rows else take (Z.to_nat limit) rows.

Definition List (prefix : string) (t : table) : list (string * json) := Scan prefix "" 0 t.

(** ** Order of the scan *)

Definition slt_rel (a b : string) : Prop := slt a b = true.

#[export] Instance sle_rel_trans : Transitive sle_rel.
Proof.
  intros a b c. unfold sle_rel. intros Hab Hbc. unfold sle. apply negb_true_iff.
  destruct (slt c a) eqn:E; [|done].
  pose proof (sle_slt_trans _ _ _ Hbc E) as F. unfold sle in Hab. by rewrite F in Hab.
Qed.
#[export] Instance sle_rel_antisymm : AntiSymm (=) sle_rel.
Proof.
  intros a b. unfold sle_rel, sle. rewrite !negb_true_iff. intros. by apply slt_total.
Qed.
#[export] Instance sle_rel_total : Total sle_rel.
Proof.
  intros a b. unfold sle_rel, sle. rewrite !negb_true_iff.
  destruct (slt b a) eqn:E; [right|by left]. by apply slt_asym.
Qed.

Lemma elem_of_scan_keys prefix after t k :
  k ∈ scan_keys prefix after t ↔ is_Some (t !! k) ∧ in_scan prefix after k = true.
Proof.
  unfold scan_keys. rewrite merge_sort_Permutation, list_elem_of_filter.
  rewrite list_elem_of_fmap. split.
  - intros (Hs & [k' v] & -> & Hin). apply elem_of_map_to_list in Hin. by eauto.
  - intros ([v Hv] & Hs). split; [done|]. exists (k, v). by rewrite elem_of_map_to_list.
Qed.

Lemma scan_keys_NoDup prefix after t : NoDup (scan_keys prefix after t).
Proof.
  unfold scan_keys. rewrite merge_sort_Permutation. apply NoDup_filter, NoDup_fst_map_to_list.
Qed.

Lemma scan_keys_sorted prefix after t : StronglySorted sle_rel (scan_keys prefix after t).
Proof. apply (StronglySorted_merge_sort sle_rel). Qed.

(** Any sorted list of the right keys is the scan. *)
Lemma scan_keys_unique prefix after t l :
  StronglySorted sle_rel l → NoDup l →
  (∀ k, k ∈ l ↔ is_Some (t !! k) ∧ in_scan prefix after k = true) →
  l = scan_keys prefix after t.
Proof.
  intros Hs Hn Hl. apply (StronglySorted_unique sle_rel); [done|apply scan_keys_sorted|].
  apply NoDup_Permutation; [done|apply scan_keys_NoDup|].
  intros k. by rewrite Hl, elem_of_scan_keys.
Qed.

(** ** The range is the prefix *)

Lemma bump_slash a : is_Some (bump (a +:+ "/")).
Proof.
  induction a as [|c a [b IH]]; [by vm_compute; eexists|].
  change (String c a +:+ "/") with (String c (a +:+ "/")). cbn [bump]. rewrite IH. eauto.
Qed.

Lemma sle_cons x y a b :
  sle (String x a) (String y b) = true ↔ (N_of_ascii x < N_of_ascii y)%N ∨ (x = y ∧ sle a b = true).
Proof.
  unfold sle. cbn [slt]. rewrite !negb_true_iff, orb_false_iff, andb_false_iff, N.ltb_ge, N.eqb_neq.
  split.
  - intros [H1 [H2|H2]]; [left; lia|].
    destruct (decide (N_of_ascii x = N_of_ascii y)) as [E|E]; [|left; lia].
    right. split; [by apply N_of_ascii_inj|done].
  - intros [H|[-> H]]; [split; [lia|left; lia]|]. split; [lia|by right].
Qed.

Lemma slt_cons x y a b :
  slt (String x a) (String y b) = true ↔ (N_of_ascii x < N_of_ascii y)%N ∨ (x = y ∧ slt a b = true).
Proof.
  cbn [slt]. rewrite orb_true_iff, andb_true_iff, N.ltb_lt, N.eqb_eq.
  split; intros [H|[H1 H2]]; auto; right; split; auto; [by apply N_of_ascii_inj|by subst].
Qed.

Lemma has_prefix_cons x y p k :
  has_prefix (String y k) (String x p) = true ↔ x = y ∧ has_prefix k p = true.
Proof.
  unfold has_prefix. cbn [strip_prefix].
  destruct (Ascii.eqb_spec x y) as [->|Hne]; [naive_solver|]. naive_solver.
Qed.

Lemma has_prefix_sle p k : has_prefix k p = true → sle p k = true.
Proof.
  revert k. induction p as [|x p IH]; intros k H; [by destruct k|].
  destruct k as [|y k]; [done|]. apply has_prefix_cons in H as [-> H].
  apply sle_cons. right. auto.
Qed.

Lemma bump_none_prefix p k : bump p = None → sle p k = true → has_prefix k p = true.
Proof.
  revert k. induction p as [|x p IH]; intros k Hb Hs; [done|].
  cbn [bump] in Hb. destruct (bump p) eqn:E; [done|].
  destruct (N.ltb_spec (N_of_ascii x) 255); [done|].
  destruct k as [|y k]; [done|]. apply has_prefix_cons.
  pose proof (N_ascii_bounded y).
  apply sle_cons in Hs as [Hs|[-> Hs]]; [lia|]. auto.
Qed.

Lemma bump_prefix p b k :
  bump p = Some b → (sle p k = true ∧ slt k b = true) ↔ has_prefix k p = true.
Proof.
  revert b k. induction p as [|x p IH]; intros b k Hb; [done|]. cbn [bump] in Hb.
  destruct (bump p) as [b'|] eqn:E.
  - injection Hb as <-. destruct k as [|y k]; [by split; [intros [? _]|]|].
    rewrite sle_cons, slt_cons, has_prefix_cons, <-(IH b' k) by done.
    split; [|by intros (-> & ? & ?); auto].
    intros [[H1|[-> H1]] [H2|[H2 H3]]]; subst; auto; lia.
  - destruct (N.ltb_spec (N_of_ascii x) 255); [|done]. injection Hb as <-.
    destruct k as [|y k]; [by split; [intros [? _]|]|].
    rewrite sle_cons, slt_cons, has_prefix_cons.
    rewrite N_ascii_embedding by lia. split.
    + intros [H1 [H2|[-> H2]]]; [|by destruct k].
      destruct H1 as [H1|[-> H1]]; [lia|]. auto using bump_none_prefix.
    + intros [-> H1]. split; [right; auto using has_prefix_sle|left; lia].
Qed.

(** [good_prefix p]: the SQL range of [p] is the set of keys that start with it. *)
Definition good_prefix (p : string) : Prop := p ≠ "" ∧ is_Some (bump p).

Lemma good_slash a : good_prefix (a +:+ "/").
Proof. split; [by destruct a|apply bump_slash]. Qed.
#[export] Hint Resolve good_slash : tasks.

Lemma in_scan_prefix p k : good_prefix p → in_scan p "" k = has_prefix k p.
Proof.
  intros [Hne [b Hb]]. unfold in_scan, prefixUpperBound.
  destruct (String.eqb_spec p "") as [|_]; [done|]. rewrite Hb.
  replace (sle p "") with false by (by destruct p).
  apply Bool.eq_iff_eq_true. rewrite andb_true_iff. by apply bump_prefix.
Qed.

Lemma in_scan_after p a k :
  good_prefix p → has_prefix a p = true → in_scan p a k = slt a k && has_prefix k p.
Proof.
  intros [Hne [b Hb]] Ha. unfold in_scan, prefixUpperBound.
  destruct (String.eqb_spec p "") as [|_]; [done|]. rewrite Hb.
  rewrite (has_prefix_sle _ _ Ha). apply Bool.eq_iff_eq_true.
  rewrite !andb_true_iff. rewrite <-(bump_prefix p b k) by done. split; [|naive_solver].
  intros [H1 H2]. repeat split; try done. eapply sle_rel_trans; [by apply has_prefix_sle|].
  unfold sle_rel, sle. by rewrite slt_asym.
Qed.

Lemma in_scan_has_prefix p a k : good_prefix p → in_scan p a k = true → has_prefix k p = true.
Proof.
  intros [Hne [b Hb]]. unfold in_scan, prefixUpperBound.
  destruct (String.eqb_spec p "") as [|_]; [done|]. rewrite Hb, andb_true_iff. intros [H1 H2].
  apply (bump_prefix p b k Hb). split; [|done]. destruct (sle p a) eqn:E; [|done].
  eapply sle_rel_trans; [exact E|]. unfold sle_rel, sle. by rewrite slt_asym.
Qed.

(** ** What a listing returns *)

Lemma Scan_unlimited p a t : Scan p a 0 t = omap (pair_up t) (scan_keys p a t).
Proof. done. Qed.

Lemma elem_of_Scan p a limit (t : table) k v :
  good_prefix p → (k, v) ∈ Scan p a limit t → t !! k = Some v ∧ has_prefix k p = true.
Proof.
  intros Hp Hin. assert ((k, v) ∈ omap (pair_up t) (scan_keys p a t)) as Hin'.
  { unfold Scan in Hin. case_match; [done|]. by apply elem_of_take in Hin as (i & Hi & _); eapply list_elem_of_lookup_2. }
  apply list_elem_of_omap in Hin' as (k' & Hk' & He). unfold pair_up in He.
  destruct (t !! k') as [v'|] eqn:E; [|done]. injection He as -> ->. split; [done|].
  apply elem_of_scan_keys in Hk' as [_ Hk']. by eapply in_scan_has_prefix.
Qed.

Lemma elem_of_List p (t : table) k v :
  good_prefix p → (k, v) ∈ List p t ↔ t !! k = Some v ∧ has_prefix k p = true.
Proof.
  intros Hp. unfold List. rewrite Scan_unlimited, list_elem_of_omap. split.
  - intros (k' & Hk' & He). unfold pair_up in He.
    destruct (t !! k') as [v'|] eqn:E; [|done]. injection He as -> ->.
    apply elem_of_scan_keys in Hk' as [_ Hk']. by rewrite in_scan_prefix in Hk'.
  - intros [Hk Hpk]. exists k. unfold pair_up. rewrite Hk. split; [|done].
    apply elem_of_scan_keys. rewrite in_scan_prefix by done. eauto.
Qed.

Lemma omap_pair_up_ext (t t' : table) (l : list string) :
  (∀ k, k ∈ l → t !! k = t' !! k) → omap (pair_up t) l = omap (pair_up t') l.
Proof.
  induction l as [|k l IH]; intros Hl; [done|]. csimpl.
  assert (pair_up t k = pair_up t' k) as -> by (unfold pair_up; by rewrite (Hl k) by set_solver).
  rewrite IH; [done|]. intros k' Hk'. apply Hl. by right.
Qed.

Lemma scan_keys_ext p a (t t' : table) :
  (∀ k, in_scan p a k = true → is_Some (t !! k) ↔ is_Some (t' !! k)) →
  scan_keys p a t = scan_keys p a t'.
Proof.
  intros H. apply scan_keys_unique; [apply scan_keys_sorted|apply scan_keys_NoDup|].
  intros k. rewrite elem_of_scan_keys. naive_solver.
Qed.

(** A listing depends only on the rows under its prefix. *)
Lemma List_ext p (t t' : table) :
  good_prefix p → (∀ k, has_prefix k p = true → t !! k = t' !! k) → List p t = List p t'.
Proof.
  intros Hp H. unfold List. rewrite !Scan_unlimited.
  rewrite (scan_keys_ext _ _ t t').
  - apply omap_pair_up_ext. intros k [_ Hk]%elem_of_scan_keys. apply H.
    by rewrite <-in_scan_prefix.
  - intros k Hk. rewrite in_scan_prefix in Hk by done. by rewrite H.
Qed.

Lemma List_put_frame p t k v :
  good_prefix p → has_prefix k p = false → List p (localPut k v t) = List p t.
Proof.
  intros Hp Hk. apply List_ext; [done|]. intros k' Hk'. apply lookup_insert_ne. congruence.
Qed.

Lemma List_del_frame p t k :
  good_prefix p → has_prefix k p = false → List p (localDel k t) = List p t.
Proof.
  intros Hp Hk. apply List_ext; [done|]. intros k' Hk'. apply lookup_delete_ne. congruence.
Qed.

Lemma StronglySorted_snoc {A} (R : relation A) l x :
  StronglySorted R l → (∀ y, y ∈ l → R y x) → StronglySorted R (l ++ [x]).
Proof.
  induction l as [|y l IH]; intros Hs Hx; cbn; [by repeat constructor|].
  apply StronglySorted_inv in Hs as [Hs Hy]. constructor; [apply IH; set_solver|].
  rewrite Forall_app, Forall_singleton. split; [done|]. apply Hx. set_solver.
Qed.

(** A row whose key sorts after every listed key is listed last. *)
Lemma List_put_last p t k v :
  good_prefix p → has_prefix k p = true →
  (∀ k' v', (k', v') ∈ List p t → slt k' k = true) →
  List p (localPut k v t) = List p t ++ [(k, v)].
Proof.
  intros Hp Hk Hlast.
  assert (∀ k', k' ∈ scan_keys p "" t → slt k' k = true) as Hlt.
  { intros k' [[v' Hv'] Hs]%elem_of_scan_keys. apply (Hlast k' v').
    apply elem_of_List; [done|]. by rewrite <-in_scan_prefix. }
  assert (scan_keys p "" (localPut k v t) = scan_keys p "" t ++ [k]) as Hkeys.
  { symmetry. apply scan_keys_unique.
    - apply StronglySorted_snoc; [apply scan_keys_sorted|]. intros y Hy.
      unfold sle_rel, sle. rewrite slt_asym; auto.
    - apply NoDup_app. split; [apply scan_keys_NoDup|]. split; [|apply NoDup_singleton].
      intros x Hx ->%list_elem_of_singleton. apply Hlt in Hx. by rewrite slt_irrefl in Hx.
    - intros k'. rewrite elem_of_app, elem_of_scan_keys, list_elem_of_singleton.
      unfold localPut. rewrite lookup_insert. rewrite in_scan_prefix by done.
      case_decide; naive_solver. }
  unfold List. rewrite !Scan_unlimited, Hkeys, omap_app. f_equal.
  - apply omap_pair_up_ext. intros k' Hk'. apply lookup_insert_ne.
    intros ->. apply Hlt in Hk'. by rewrite slt_irrefl in Hk'.
  - cbn. unfold pair_up, localPut. by rewrite lookup_insert_eq.
Qed.

(** Overwriting a listed row leaves it in its place. *)
Lemma List_put_over p (t : table) k v :
  good_prefix p → is_Some (t !! k) →
  List p (localPut k v t) = (λ '(k', v'), (k', if decide (k = k') then v else v')) <$> List p t.
Proof.
  intros Hp Hk. unfold List. rewrite !Scan_unlimited.
  rewrite (scan_keys_ext _ _ (localPut k v t) t).
  - induction (scan_keys p "" t) as [|k' l IH]; [done|]. csimpl.
    assert (pair_up (localPut k v t) k' =
            (λ '(k', v'), (k', if decide (k = k') then v else v')) <$> pair_up t k') as ->.
    { unfold pair_up, localPut. rewrite lookup_insert. destruct (decide (k = k')) as [<-|Hne].
      - destruct Hk as [v' ->]. cbn. by rewrite decide_True.
      - destruct (t !! k'); cbn; [|done]. by rewrite decide_False. }
    rewrite IH. by destruct (pair_up t k').
  - intros k' _. unfold localPut. rewrite lookup_insert. case_decide; naive_solver.
Qed.

(** ** Paging

    [page_walk] is how the engine walks a prefix: [limit] rows at a time, each
    page after the last key of the one before, until a short page. *)
Fixpoint page_walk (fuel : nat) (p after : string) (limit : nat) (t : table) : list (string * json) :=
  match fuel with
  | 0%nat => []
  | S f =>
      let rows := Scan p after (Z.of_nat limit) t in
      match last rows with
      | Some (k, _) => if (length rows <? limit)%nat then rows else rows ++ page_walk f p k limit t
      | None => rows
      end
  end.

(** Scanning after the [n]-th key drops the first [n+1]. *)
Lemma StronglySorted_drop_lt (l : list string) n k :
  StronglySorted sle_rel l → NoDup l → l !! n = Some k →
  ∀ k', k' ∈ drop (S n) l ↔ k' ∈ l ∧ slt k k' = true.
Proof.
  revert n. induction l as [|x l IH]; intros n Hs Hn Hk k'; [done|].
  apply StronglySorted_inv in Hs as [Hs Hx]. apply NoDup_cons in Hn as [Hxl Hn].
  rewrite Forall_forall in Hx. destruct n as [|n]; cbn in Hk |- *.
  - injection Hk as ->. rewrite drop_0, elem_of_cons. split.
    + intros Hin. split; [by right|]. destruct (slt k k') eqn:E; [done|].
      pose proof (Hx _ Hin) as F. unfold sle_rel, sle in F. apply negb_true_iff in F.
      rewrite (slt_total _ _ E F) in Hxl. done.
    + intros [[->|?] E]; [by rewrite slt_irrefl in E|done].
  - rewrite (IH n Hs Hn Hk k'), elem_of_cons. split; [naive_solver|].
    intros [[->|?] E]; [|done]. exfalso.
    assert (k ∈ l) as Hkl by (by eapply list_elem_of_lookup_2).
    apply Hx in Hkl. unfold sle_rel, sle in Hkl. by rewrite E in Hkl.
Qed.

Lemma StronglySorted_drop {A} (R : relation A) n l :
  StronglySorted R l → StronglySorted R (drop n l).
Proof.
  revert n. induction l as [|x l IH]; intros [|n] Hs; try done. apply StronglySorted_inv in Hs as [Hs _].
  by apply IH.
Qed.

Lemma scan_keys_after p a t n k :
  good_prefix p → (a = "" ∨ has_prefix a p = true) →
  scan_keys p a t !! n = Some k → scan_keys p k t = drop (S n) (scan_keys p a t).
Proof.
  intros Hp Ha Hk. symmetry.
  assert (has_prefix k p = true ∧ (has_prefix a p = true → slt a k = true)) as [Hkp Hak].
  { apply list_elem_of_lookup_2, elem_of_scan_keys in Hk as [_ Hk]. destruct Ha as [->|Ha].
    - rewrite in_scan_prefix in Hk by done. split; [done|]. intros _.
      destruct k; [|done]. destruct Hp as [Hne _]. by destruct p.
    - rewrite in_scan_after, andb_true_iff in Hk by done. naive_solver. }
  apply scan_keys_unique.
  - apply StronglySorted_drop, scan_keys_sorted.
  - eapply sublist_NoDup; [apply scan_keys_NoDup|apply sublist_drop].
  - intros k'. rewrite (StronglySorted_drop_lt _ n k) by
      (done || apply scan_keys_sorted || apply scan_keys_NoDup).
    rewrite elem_of_scan_keys, (in_scan_after p k k') by done.
    destruct Ha as [->|Ha]; [rewrite in_scan_prefix by done|rewrite in_scan_after by done];
      rewrite !andb_true_iff; [tauto|]. specialize (Hak Ha).
    split; [tauto|]. intros (? & ? & ?). repeat split; try done. by eapply slt_trans.
Qed.

Lemma omap_pair_up_keys p a (t : table) :
  omap (pair_up t) (scan_keys p a t) =
  (λ k, (k, default JNull (t !! k))) <$> scan_keys p a t.
Proof.
  assert (∀ k, k ∈ scan_keys p a t → is_Some (t !! k)) as Hl by (intros k; rewrite elem_of_scan_keys; tauto).
  induction (scan_keys p a t) as [|k l IH]; [done|]. csimpl. unfold pair_up.
  destruct (Hl k) as [v Hv]; [by left|]. rewrite Hv. cbn. f_equal. apply IH. intros k' Hk'. apply Hl. by right.
Qed.

Lemma page_walk_complete_aux f p a limit t :
  good_prefix p → (a = "" ∨ has_prefix a p = true) → (0 < limit)%nat →
  (length (scan_keys p a t) < f)%nat →
  page_walk f p a limit t = Scan p a 0 t.
Proof.
  revert a. induction f as [|f IH]; intros a Hp Ha Hl Hf; [lia|]. cbn [page_walk].
  unfold Scan. destruct (Z.leb_spec (Z.of_nat limit) 0); [lia|]. rewrite Nat2Z.id.
  cbn [Z.leb Z.compare]. rewrite omap_pair_up_keys.
  set (g := λ k, (k, default JNull (t !! k))). set (ks := scan_keys p a t) in *.
  rewrite <-fmap_take, fmap_last, length_fmap, length_take.
  destruct (last (take limit ks)) as [k|] eqn:Elast; cbn [fmap option_fmap option_map].
  - rewrite last_lookup, length_take in Elast.
    destruct (Nat.ltb_spec (limit `min` length ks) limit) as [Hlt|Hge].
    { rewrite take_ge by lia. done. }
    rewrite lookup_take_lt in Elast by lia.
    replace (pred (limit `min` length ks)) with (pred limit) in Elast by lia.
    pose proof (scan_keys_after p a t _ k Hp Ha Elast) as Hdrop. fold ks in Hdrop.
    replace (S (pred limit)) with limit in Hdrop by lia.
    change (g k) with (k, default JNull (t !! k)). cbv beta iota. rewrite IH; [|done| |done|].
    + unfold Scan. cbn [Z.leb Z.compare]. rewrite omap_pair_up_keys, Hdrop. fold g.
      rewrite <-fmap_app, take_drop. done.
    + right. apply list_elem_of_lookup_2, elem_of_scan_keys in Elast as [_ Hk].
      destruct Ha as [->|Ha]; [by rewrite in_scan_prefix in Hk|].
      rewrite in_scan_after, andb_true_iff in Hk by done. naive_solver.
    + rewrite Hdrop, length_drop. lia.
  - apply last_None in Elast. apply (f_equal length) in Elast. rewrite length_take in Elast. cbn in Elast.
    assert (length ks = 0%nat) as E0 by lia. apply nil_length_inv in E0. by rewrite E0, take_nil.
Qed.

(** The engine's page-by-page walk of a prefix, from the beginning, reads
    every row under it exactly once and in key order, whatever the page size. *)
Theorem page_walk_complete p limit (t : table) :
  good_prefix p → (0 < limit)%nat → page_walk (S (size t)) p "" limit t = List p t.
Proof.
  intros Hp Hl. unfold List. apply page_walk_complete_aux; [done|by left|done|].
  unfold scan_keys. rewrite merge_sort_Permutation.
  pose proof (length_filter (λ k, in_scan p "" k = true) (map_to_list t).*1).
  rewrite length_fmap, length_map_to_list in *. lia.
Qed.
