(* ===== verification/Routing.v ===== *)
(** Sticky leaders (pkg/tasks/routing): every node of a cluster scores the validators for
    a queue of a tenant with one hash and takes the least. The nodes need no messages to
    agree, and a change of membership moves only the queues it has to. *)

From Stdlib Require Import Ascii ZArith Lia.
From stdpp Require Import prelude strings sorting.
From S2P Require Import Prelude GoStrings Sha256 Shard.

Local Open Scope Z_scope.

(** ** The code *)

Definition NodeID := string.
Record Key := { rk_Org : string; rk_Namespace : string; rk_TaskQueue : string }.

(** A subscriber is a callback; [C] names them. *)
Record hashRouter (C : Type) := { rt_local : NodeID; rt_validators : list NodeID; rt_subscribers : list C; rt_seed : string }.
Arguments rt_local {C} _.
Arguments rt_validators {C} _.
Arguments rt_subscribers {C} _.
Arguments rt_seed {C} _.

Definition NewHash {C} (seed : string) : hashRouter C := {| rt_local := ""; rt_validators := []; rt_subscribers := []; rt_seed := seed |}.

(** The validators sorted, and the callbacks that are called, in order. *)
Definition SetMembership {C} (local : NodeID) (validators : list NodeID) (r : hashRouter C) : hashRouter C * list C :=
  ({| rt_local := local; rt_validators := merge_sort sle_rel validators; rt_subscribers := rt_subscribers r; rt_seed := rt_seed r |},
   rt_subscribers r).

Definition NUL : string := String "000" "".
Definition scoreOf (k : Key) (seed : string) (node : NodeID) : Z :=
  let sum := Sum256 (rk_Org k +:+ NUL +:+ rk_Namespace k +:+ NUL +:+ rk_TaskQueue k +:+ NUL +:+ seed +:+ NUL +:+ node) in
  foldl (λ acc b, acc * 256 + b) 0 (take 8 sum).

(** One turn of the loop; [None] stands for the first turn. *)
Definition better (score : NodeID → Z) (best : option (NodeID * Z)) (v : NodeID) : option (NodeID * Z) :=
  match best with
  | None => Some (v, score v)
  | Some (b, s) => if score v <? s then Some (v, score v) else Some (b, s)
  end.
Definition least (score : NodeID → Z) (vs : list NodeID) : option NodeID := fst <$> foldl (better score) None vs.
Definition LeaderFor {C} (r : hashRouter C) (k : Key) : option NodeID := least (scoreOf k (rt_seed r)) (rt_validators r).

Definition IsLeader {C} (r : hashRouter C) (k : Key) : bool :=
  match LeaderFor r k with Some leader => String.eqb leader (rt_local r) | None => false end.
Definition Validators {C} (r : hashRouter C) : list NodeID := rt_validators r.
Definition OnChange {C} (fn : C) (r : hashRouter C) : hashRouter C :=
  {| rt_local := rt_local r; rt_validators := rt_validators r; rt_subscribers := rt_subscribers r ++ [fn]; rt_seed := rt_seed r |}.

(** ** The contract *)

(** The leader among a set of nodes: a member nobody beats, by score and then by name. *)
Definition beats (score : NodeID → Z) (a b : NodeID) : Prop := score a < score b ∨ score a = score b ∧ slt a b = true.
Definition leads (score : NodeID → Z) (vs : list NodeID) (n : NodeID) : Prop := n ∈ vs ∧ ∀ v, v ∈ vs → ~ beats score v n.

Section Score.
Context (score : NodeID → Z).

Lemma beats_total a b : beats score a b ∨ a = b ∨ beats score b a.
Proof.
  unfold beats. destruct (Z.lt_trichotomy (score a) (score b)) as [|[E|]]; [by do 2 left| |by right; right; left].
  destruct (slt a b) eqn:E1; [by left; right|]. destruct (slt b a) eqn:E2; [by right; right; right|]. right; left. by apply slt_total.
Qed.
Lemma leads_unique vs n m : leads score vs n → leads score vs m → n = m.
Proof. intros [Hn Bn] [Hm Bm]. destruct (beats_total n m) as [B|[|B]]; [by destruct (Bm n)|done|by destruct (Bn m)]. Qed.

(** The loop keeps the least of what it has seen; a later node with the same score has a
    larger name. *)
Lemma loop_leads vs : ∀ seen b, StronglySorted sle_rel (seen ++ vs) → leads score seen b →
  ∃ n, foldl (better score) (Some (b, score b)) vs = Some (n, score n) ∧ leads score (seen ++ vs) n.
Proof.
  induction vs as [|v vs IH]; intros seen b Hs Hb; [exists b; by rewrite app_nil_r|]. cbn [foldl better].
  assert (∀ u, u ∈ seen → sle u v = true) as Hle.
  { intros u Hu. apply StronglySorted_app in Hs as (H1 & _ & _). by apply H1; [|left]. }
  rewrite (cons_middle v), app_assoc in Hs |- *. destruct Hb as [Hin Hb]. destruct (Z.ltb_spec (score v) (score b)) as [L|L].
  - apply IH; [done|]. split; [apply elem_of_app; right; by left|]. intros u Hu.
    apply elem_of_app in Hu as [Hu| ->%list_elem_of_singleton]; [|unfold beats; rewrite slt_irrefl; naive_solver lia].
    specialize (Hb u Hu). unfold beats in *. naive_solver lia.
  - apply IH; [done|]. split; [apply elem_of_app; by left|]. intros u Hu.
    apply elem_of_app in Hu as [Hu| ->%list_elem_of_singleton]; [by apply Hb|]. specialize (Hle b Hin).
    unfold beats. intros [?|[_ Hlt]]; [lia|]. unfold sle in Hle. by rewrite Hlt in Hle.
Qed.

Lemma least_leads vs n : StronglySorted sle_rel vs → least score vs = Some n ↔ leads score vs n.
Proof.
  intros Hs. unfold least. destruct vs as [|v vs].
  { cbn. split; [done|]. intros [Hn _]. by apply not_elem_of_nil in Hn. }
  cbn [foldl better]. destruct (loop_leads vs [v] v Hs) as (m & -> & Hm).
  { split; [by left|]. intros u ->%list_elem_of_singleton. unfold beats. rewrite slt_irrefl. naive_solver lia. }
  cbn. split; [by intros [= <-]|]. intros Hn. f_equal. by eapply leads_unique.
Qed.
End Score.

Section Leaders.
Context {C : Type}.
Implicit Types (r : hashRouter C) (k : Key).

(** A router of a node that was told a membership. *)
Definition routes (r : hashRouter C) (local : NodeID) (vs : list NodeID) : hashRouter C := (SetMembership local vs r).1.

Lemma leader_leads r local vs k n : LeaderFor (routes r local vs) k = Some n ↔ leads (scoreOf k (rt_seed r)) vs n.
Proof.
  unfold LeaderFor, routes, SetMembership. cbn [fst rt_seed rt_validators]. rewrite least_leads by (apply StronglySorted_merge_sort; apply _).
  unfold leads. setoid_rewrite (merge_sort_Permutation sle_rel vs). done.
Qed.
Lemma leader_exists r local vs k : vs ≠ [] → ∃ n, LeaderFor (routes r local vs) k = Some n.
Proof.
  intros Hv. destruct (LeaderFor (routes r local vs) k) as [n|] eqn:E; [by exists n|]. exfalso.
  unfold LeaderFor, least, routes, SetMembership in E. cbn [fst rt_seed rt_validators] in E. pose proof (merge_sort_Permutation sle_rel vs) as P.
  destruct (merge_sort sle_rel vs) as [|v l]; [by apply Permutation_nil_l in P|]. cbn [foldl better] in E.
  revert E. generalize (scoreOf k (rt_seed r)). intros score. generalize (score v). revert v P. intros v _. revert v.
  induction l as [|u l IH]; intros v s; [done|]. cbn [foldl better]. destruct (score u <? s); apply IH.
Qed.

(** (C29) The nodes of a cluster agree without a message: on any two routers with one seed,
    told any two lists of the same validators, whatever their order, repetitions and own
    names, the leader of a queue is the same; and exactly one of the validators takes
    itself for the leader. *)
Theorem one_leader r r' local local' vs vs' k :
  rt_seed r' = rt_seed r → (∀ v, v ∈ vs' ↔ v ∈ vs) → vs ≠ [] →
  LeaderFor (routes r' local' vs') k = LeaderFor (routes r local vs) k ∧
  ∃ n, n ∈ vs ∧ ∀ v, v ∈ vs → IsLeader (routes r v vs') k = bool_decide (v = n).
Proof.
  intros Hseed Hvs Hne.
  assert (∀ n, leads (scoreOf k (rt_seed r)) vs' n ↔ leads (scoreOf k (rt_seed r)) vs n) as Hl.
  { intros n. unfold leads. by setoid_rewrite Hvs. }
  destruct (leader_exists r local vs k Hne) as [n Hn]. pose proof (proj1 (leader_leads _ _ _ _ _) Hn) as Hn'. split.
  - rewrite Hn. apply leader_leads. rewrite Hseed. by apply Hl.
  - exists n. split; [apply Hn'|]. intros v Hv. unfold IsLeader.
    rewrite (proj2 (leader_leads r v vs' k n)) by (by apply Hl). cbn.
    destruct (String.eqb_spec n v) as [->|]; [by rewrite bool_decide_true|]. by rewrite bool_decide_false by congruence.
Qed.

(** A change of membership moves only what it must: a node that joins takes queues for
    itself and moves none between the others, and a node that leaves gives up its own
    queues and leaves the others where they were. *)
Theorem membership_moves_little r local vs k n :
  (∀ v m, LeaderFor (routes r local vs) k = Some n → LeaderFor (routes r local (v :: vs)) k = Some m → m = n ∨ m = v) ∧
  (∀ v, n ≠ v → LeaderFor (routes r local vs) k = Some n → LeaderFor (routes r local (filter (λ u, u ≠ v) vs)) k = Some n).
Proof.
  split.
  - intros v m [Hn Bn]%leader_leads [Hm Bm]%leader_leads. apply elem_of_cons in Hm as [->|Hm]; [by right|]. left.
    destruct (beats_total (scoreOf k (rt_seed r)) n m) as [B|[|B]]; [|done|by destruct (Bn m)]. destruct (Bm n); [by right|done].
  - intros v Hv [Hn Bn]%leader_leads. apply leader_leads. split; [by apply list_elem_of_filter|].
    intros u [_ Hu]%list_elem_of_filter. by apply Bn.
Qed.

(** Every callback registered is called once at each change, in the order of registration. *)
Lemma on_change_called (fns : list C) seed local vs :
  (SetMembership local vs (foldl (λ r fn, OnChange fn r) (NewHash seed) fns)).2 = fns.
Proof.
  cbn. assert (∀ r, rt_subscribers (foldl (λ r fn, OnChange fn r) r fns) = rt_subscribers r ++ fns) as ->; [|done].
  induction fns as [|f fns IH]; intros r; [by rewrite app_nil_r|]. cbn [foldl]. rewrite IH. cbn. by rewrite <-app_assoc.
Qed.
End Leaders.

Module RoutingDemo.
Definition queue (q : string) : Key := {| rk_Org := "acme"; rk_Namespace := "default"; rk_TaskQueue := q |}.
Definition nodes : list NodeID := ["node-1"; "node-2"; "node-3"].
Definition fresh : hashRouter string := NewHash "tasks-default".
Definition router : hashRouter string := routes fresh "node-1" nodes.

Example leaders : LeaderFor router <$> [queue "orders"; queue "mail"; queue "billing"; queue "audit"] =
  [Some "node-3"; Some "node-3"; Some "node-2"; Some "node-2"].
Proof. by vm_compute. Qed.

Lemma one_leader_witness :
  LeaderFor (routes fresh "node-2" ["node-3"; "node-2"; "node-1"; "node-2"]) (queue "mail") = LeaderFor (routes fresh "node-1" nodes) (queue "mail") ∧
  ∃ n, n ∈ nodes ∧ ∀ v, v ∈ nodes → IsLeader (routes fresh v ["node-3"; "node-2"; "node-1"; "node-2"]) (queue "mail") = bool_decide (v = n).
Proof. apply (one_leader fresh fresh "node-1" "node-2" nodes ["node-3"; "node-2"; "node-1"; "node-2"] (queue "mail")); [done|set_solver|done]. Defined.

(** [node-2] leaves: [mail] stays. [node-0] joins and takes [orders]. *)
Lemma membership_moves_little_witness :
  LeaderFor (routes fresh "node-1" (filter (λ u, u ≠ "node-2") nodes)) (queue "mail") = Some "node-3".
Proof. apply (membership_moves_little fresh "node-1" nodes (queue "mail") "node-3"); [done|by vm_compute]. Defined.
Example node_joins : (λ n, LeaderFor (routes fresh "node-1" (n :: nodes)) (queue "orders")) <$> ["node-4"; "node-0"] = [Some "node-3"; Some "node-0"].
Proof. by vm_compute. Qed.
End RoutingDemo.
