(* ===== verification/GoFloat.v ===== *)
(** [fmt.Sprint] of a value [encoding/json] decoded into an [any]: the shortest
    decimal of a float64 in the [%g] style, and the bracketed forms of slices and
    maps. *)

From Corelib Require Import SpecFloat.
From Stdlib Require Import Ascii ZArith Lia.
From stdpp Require Import prelude strings gmap sorting.
From S2P Require Import Prelude GoStrings Json Shard.

#[local] Open Scope Z_scope.

(** ** The shortest decimal of a float64

    A decimal is a number of [nd] digits and the position of its point: the value
    is [0.d1...dnd * 10^dp]. All comparisons are exact, on fractions. *)

Record decimal := { d_digits : Z; d_nd : nat; d_point : Z }.

(** [x * 2^a * 10^b] as a fraction. *)
Definition scaled (x a b : Z) : Z * Z :=
  (x * 2 ^ Z.max 0 a * 10 ^ Z.max 0 b, 2 ^ Z.max 0 (- a) * 10 ^ Z.max 0 (- b)).
Definition frac_le (x y : Z * Z) : bool := x.1 * y.2 <=? y.1 * x.2.
Definition frac_lt (x y : Z * Z) : bool := x.1 * y.2 <? y.1 * x.2.

(** The [dp] with [10^(dp-1) <= v < 10^dp]; a float64 has at most 309 digits before
    the point and 323 zeros after it. *)
Fixpoint point_up (fuel : nat) (v : Z * Z) (dp : Z) : Z :=
  match fuel with
  | 0%nat => dp
  | S fuel => if frac_lt v (scaled 1 0 dp) then dp else point_up fuel v (dp + 1)
  end.
Definition point_of (v : Z * Z) : Z := point_up 700 v (-330).

(** Half way to the neighbours of [m * 2^e]: decimals between these bounds (the
    bounds included when [m] is even) read back as [m * 2^e]. *)
Definition bounds_of (m e : Z) : (Z * Z) * (Z * Z) :=
  (if (m =? 2 ^ 52) && (-1074 <? e) then scaled (4 * m - 1) (e - 2) 0 else scaled (2 * m - 1) (e - 1) 0,
   scaled (2 * m + 1) (e - 1) 0).

(** The first number of digits at which rounding down, up, or to the nearer of the
    two reads back; 17 digits always do. *)
Fixpoint shortest (fuel nd : nat) (m e dp : Z) : decimal :=
  let v := scaled m e (Z.of_nat nd - dp) in
  let d := v.1 / v.2 in
  let '(lo, hi) := bounds_of m e in
  let within := if Z.even m then frac_le else frac_lt in
  let okdown := within lo (scaled d 0 (dp - Z.of_nat nd)) in
  let okup := within (scaled (d + 1) 0 (dp - Z.of_nat nd)) hi in
  let down := {| d_digits := d; d_nd := nd; d_point := dp |} in
  let up := if d + 1 =? 10 ^ Z.of_nat nd then {| d_digits := 1; d_nd := 1; d_point := dp + 1 |}
            else {| d_digits := d + 1; d_nd := nd; d_point := dp |} in
  let rest := 2 * (v.1 - d * v.2) in
  let nearer := if (v.2 <? rest) || ((rest =? v.2) && Z.odd d) then up else down in
  match fuel with
  | 0%nat => nearer
  | S fuel =>
      if okdown && okup then nearer
      else if okdown then down
      else if okup then up
      else shortest fuel (S nd) m e dp
  end.

Definition decimal_of (m e : Z) : decimal := shortest 16 1 m e (point_of (scaled m e 0)).

(** ** [strconv.FormatFloat(f, 'g', -1, 64)] *)

Fixpoint zeros (n : nat) : string := match n with 0%nat => "" | S n => String "0" (zeros n) end.

(** [%e] (the exponent has at least two digits) and [%f]; [%g] of a shortest
    decimal takes [%e] for an exponent below -4 or from 6 on. *)
Definition fmt_e (d : decimal) : string :=
  let ds := digits (d_nd d) (d_digits d) in
  let x := d_point d - 1 in
  String.substring 0 1 ds +:+
  (if (1 <? d_nd d)%nat then "." +:+ String.substring 1 (pred (d_nd d)) ds else "") +:+
  "e" +:+ (if x <? 0 then "-" else "+") +:+ pad 2 (Z.abs x).
Definition fmt_f (d : decimal) : string :=
  let ds := digits (d_nd d) (d_digits d) in
  let dp := Z.to_nat (d_point d) in
  (if d_point d <=? 0 then "0" else String.substring 0 dp ds +:+ zeros (dp - d_nd d)) +:+
  (if Z.of_nat (d_nd d) <=? d_point d then ""
   else "." +:+ zeros (Z.to_nat (- d_point d)) +:+ String.substring dp (d_nd d - dp) ds).
Definition fmt_g (d : decimal) : string :=
  let x := d_point d - 1 in if (x <? -4) || (6 <=? x) then fmt_e d else fmt_f d.

Definition sprint_float (f : spec_float) : string :=
  match f with
  | S754_zero s => if s then "-0" else "0"
  | S754_infinity s => if s then "-Inf" else "+Inf"
  | S754_nan => "NaN"
  | S754_finite s m e => (if s then "-" else "") +:+ fmt_g (decimal_of (Zpos m) e)
  end.

(** ** [fmt.Sprint] *)

Definition pair_le (x y : string * string) : Prop := sle x.1 y.1 = true.
#[export] Instance pair_le_dec x y : Decision (pair_le x y) := decide (sle x.1 y.1 = true).

(** The last of duplicated members is the one the map has. *)
Definition members {A} (l : list (string * A)) : list (string * A) :=
  map_to_list (list_to_map (reverse l) : gmap string A).

Fixpoint sprint (j : json) : string :=
  match j with
  | JNull => "<nil>"
  | JBool b => if b then "true" else "false"
  | JNum n => sprint_float (binary_normalize 53 1024 n 0 false)
  | JFloat f => sprint_float f
  | JStr s => s
  | JArr l => "[" +:+ str_join " " (sprint <$> l) +:+ "]"
  | JObj l =>
      "map[" +:+ str_join " " ((λ kv : string * string, kv.1 +:+ ":" +:+ kv.2) <$>
                               merge_sort pair_le (members ((λ kv, (kv.1, sprint kv.2)) <$> l))) +:+ "]"
  end.
