(* ===== verification/GoTime.v ===== *)
(** Go's [time]: instants are nanoseconds since the Unix epoch. The engine
    stores them as RFC 3339 text in UTC at second resolution, compares that text
    byte by byte, and reads it back with [time.Parse]. *)

From Stdlib Require Import Ascii ZArith Lia.
From stdpp Require Import prelude strings gmap.
From S2P Require Import Prelude GoStrings.

Local Open Scope Z_scope.

Definition Second : Z := 1000000000.
Definition Millisecond : Z := 1000000.
Definition Minute : Z := 60 * Second.

(** ** The calendar

    Days are counted from 0000-03-01, so that a leap day ends its year. *)

Definition epoch_days : Z := 719468.

(** The year (from March), and the day inside it, of a day number. *)
Definition year_of_days (z : Z) : Z * Z :=
  let n400 := z / 146097 in let d := z mod 146097 in
  let n100 := Z.min 3 (d / 36524) in let d := d - 36524 * n100 in
  let n4 := d / 1461 in let d := d - 1461 * n4 in
  let n1 := Z.min 3 (d / 365) in
  (400 * n400 + 100 * n100 + 4 * n4 + n1, d - 365 * n1).

(** Year, month and day of a Unix day number. *)
Definition civil (days : Z) : Z * Z * Z :=
  let '(y, doy) := year_of_days (days + epoch_days) in
  let mp := (5 * doy + 2) / 153 in
  let d := doy - (153 * mp + 2) / 5 + 1 in
  if mp <? 10 then (y, mp + 3, d) else (y + 1, mp - 9, d).

(** The Unix day number of a date. *)
Definition days_of (y m d : Z) : Z :=
  let '(y, mp) := if m <=? 2 then (y - 1, m + 9) else (y, m - 3) in
  365 * y + y / 4 - y / 100 + y / 400 + (153 * mp + 2) / 5 + (d - 1) - epoch_days.

Definition is_leap (y : Z) : bool :=
  (y mod 4 =? 0) && (negb (y mod 100 =? 0) || (y mod 400 =? 0)).

Definition days_in (m y : Z) : Z :=
  if m =? 2 then (if is_leap y then 29 else 28)
  else if (m =? 4) || (m =? 6) || (m =? 9) || (m =? 11) then 30 else 31.

(** ** Text *)

(** [t.UTC().Format(time.RFC3339)]. *)
Definition format_rfc3339 (t : Z) : string :=
  let s := t / Second in
  let '(y, m, d) := civil (s / 86400) in
  let sod := s mod 86400 in
  pad 4 y +:+ "-" +:+ pad 2 m +:+ "-" +:+ pad 2 d +:+ "T" +:+
  pad 2 (sod / 3600) +:+ ":" +:+ pad 2 (sod / 60 mod 60) +:+ ":" +:+ pad 2 (sod mod 60) +:+ "Z".

Definition digit_val (c : ascii) : option Z :=
  if in_range "0" "9" c then Some (Z.of_N (N_of_ascii c) - 48) else None.

(** [n] decimal digits, exactly. *)
Fixpoint read_digits (n : nat) (acc : Z) (s : string) : option (Z * string) :=
  match n with
  | 0%nat => Some (acc, s)
  | S n => match s with
           | String c s => v ← digit_val c; read_digits n (10 * acc + v) s
           | EmptyString => None
           end
  end.

Definition read_byte (c : ascii) (s : string) : option string :=
  match s with
  | String x s => if Ascii.eqb x c then Some s else None
  | EmptyString => None
  end.

Definition in_bounds (lo hi n : Z) : option unit :=
  if (lo <=? n) && (n <=? hi) then Some tt else None.

(** Fractional seconds, to nanoseconds; digits past the ninth are dropped. *)
Fixpoint read_frac (scale acc : Z) (s : string) : Z * string :=
  match s with
  | String c s' => match digit_val c with
                   | Some v => read_frac (scale / 10) (acc + v * scale) s'
                   | None => (acc, s)
                   end
  | EmptyString => (acc, s)
  end.

Definition read_fraction (s : string) : Z * string :=
  match s with
  | String c (String d r) =>
      if (Ascii.eqb c "." || Ascii.eqb c ",") && match digit_val d with Some _ => true | None => false end
      then read_frac (Second / 10) 0 (String d r) else (0, s)
  | _ => (0, s)
  end.

(** The zone: [Z], or an offset in seconds east of UTC. *)
Definition read_zone (s : string) : option Z :=
  match s with
  | String c r =>
      if Ascii.eqb c "Z" then (if String.eqb r "" then Some 0 else None)
      else if Ascii.eqb c "+" || Ascii.eqb c "-" then
        '(h, r) ← read_digits 2 0 r; r ← read_byte ":" r; '(m, r) ← read_digits 2 0 r;
        in_bounds 0 24 h;; in_bounds 0 60 m;;
        if String.eqb r "" then
          Some ((if Ascii.eqb c "-" then -1 else 1) * (3600 * h + 60 * m))
        else None
      else None
  | EmptyString => None
  end.

(** [time.Parse(time.RFC3339, s)]. *)
Definition parse_rfc3339 (s : string) : option Z :=
  '(y, s) ← read_digits 4 0 s; s ← read_byte "-" s;
  '(mo, s) ← read_digits 2 0 s; s ← read_byte "-" s;
  '(d, s) ← read_digits 2 0 s; s ← read_byte "T" s;
  '(h, s) ← read_digits 2 0 s; s ← read_byte ":" s;
  '(mi, s) ← read_digits 2 0 s; s ← read_byte ":" s;
  '(se, s) ← read_digits 2 0 s;
  in_bounds 1 12 mo;; in_bounds 1 (days_in mo y) d;;
  in_bounds 0 23 h;; in_bounds 0 59 mi;; in_bounds 0 59 se;;
  let '(ns, s) := read_fraction s in
  off ← read_zone s;
  Some ((days_of y mo d * 86400 + h * 3600 + mi * 60 + se - off) * Second + ns).

Example format_epoch : format_rfc3339 0 = "1970-01-01T00:00:00Z".
Proof. reflexivity. Qed.
Example format_leap : format_rfc3339 (951782399 * Second) = "2000-02-28T23:59:59Z".
Proof. reflexivity. Qed.
Example parse_offset : parse_rfc3339 "2000-02-29T01:00:00.5+01:00" = Some (951782400 * Second + 500000000).
Proof. reflexivity. Qed.

(** ** The calendar is a bijection *)

Lemma year_of_days_spec z y doy :
  year_of_days z = (y, doy) →
  365 * y + y / 4 - y / 100 + y / 400 + doy = z ∧ 0 ≤ doy ≤ 365 ∧
  (doy = 365 → is_leap (y + 1) = true).
Proof.
  unfold year_of_days. intros [= <- <-].
  pose proof (Z.mod_pos_bound z 146097 ltac:(lia)) as Hm. pose proof (Z.div_mod z 146097 ltac:(lia)) as Hz.
  set (a := z / 146097) in *. set (d := z mod 146097) in *. clearbody a d.
  set (b := Z.min 3 (d / 36524)). assert (0 ≤ b ≤ 3 ∧ 36524 * b ≤ d ≤ 36524 * b + 36523 + (if b =? 3 then 1 else 0)) as [Hb Hd].
  { unfold b. clear b. Z.to_euclidean_division_equations. destruct (Z.eqb_spec (Z.min 3 q) 3); lia. }
  clearbody b. set (e := d - 36524 * b) in *. assert (0 ≤ e ≤ 36523 + (if b =? 3 then 1 else 0)) as He by (unfold e; lia).
  assert (d = 36524 * b + e) as Hde by (unfold e; lia). clearbody e.
  set (c := e / 1461). assert (0 ≤ c ≤ 24 ∧ 1461 * c ≤ e ≤ 1461 * c + 1460 ∧ (c = 24 → b = 3 ∨ e ≤ 36523)) as (Hc & Hce & Hc24).
  { unfold c. clear c. Z.to_euclidean_division_equations. destruct (Z.eqb_spec b 3); lia. }
  clearbody c. set (f := e - 1461 * c) in *. assert (0 ≤ f ≤ 1460) as Hf by (unfold f; lia).
  assert (e = 1461 * c + f) as Hef by (unfold f; lia). clearbody f.
  set (g := Z.min 3 (f / 365)). assert (0 ≤ g ≤ 3 ∧ 365 * g ≤ f ≤ 365 * g + 364 + (if g =? 3 then 1 else 0)) as [Hg Hfg].
  { unfold g. clear g. Z.to_euclidean_division_equations. destruct (Z.eqb_spec (Z.min 3 q) 3); lia. }
  clearbody g.
  assert ((400 * a + 100 * b + 4 * c + g) / 4 = 100 * a + 25 * b + c) as -> by (Z.to_euclidean_division_equations; lia).
  assert ((400 * a + 100 * b + 4 * c + g) / 100 = 4 * a + b) as -> by (Z.to_euclidean_division_equations; lia).
  assert ((400 * a + 100 * b + 4 * c + g) / 400 = a) as -> by (Z.to_euclidean_division_equations; lia).
  split; [lia|]. split; [destruct (Z.eqb_spec g 3); lia|]. intros H365.
  assert (g = 3) as -> by (destruct (Z.eqb_spec g 3); lia). unfold is_leap.
  assert ((400 * a + 100 * b + 4 * c + 3 + 1) mod 4 = 0) as -> by (Z.to_euclidean_division_equations; lia).
  destruct (Z.eqb_spec ((400 * a + 100 * b + 4 * c + 3 + 1) mod 100) 0) as [E|E]; [|done]. cbn.
  apply Z.eqb_eq. assert (c = 24) as -> by (Z.to_euclidean_division_equations; lia).
  assert (b = 3) as -> by lia. Z.to_euclidean_division_equations; lia.
Qed.

Definition valid_date (y m d : Z) : Prop := 1 ≤ m ≤ 12 ∧ 1 ≤ d ≤ days_in m y.

(** One month of the case analysis below: every test is on constants. *)
Ltac month_case :=
  repeat match goal with
  | |- context [if ?a =? ?b then _ else _] => destruct (Z.eqb_spec a b); [try lia|try lia]
  | |- context [if ?a <=? ?b then _ else _] => destruct (Z.leb_spec a b); [try lia|try lia]
  | |- context [(?a =? ?b) || _] => destruct (Z.eqb_spec a b); [try lia|try lia]
  | |- context [_ || (?a =? ?b)] => destruct (Z.eqb_spec a b); [try lia|try lia]
  end; cbn [orb];
  repeat match goal with |- context [?y + 1 - 1] => replace (y + 1 - 1) with y by lia end;
  repeat match goal with |- context [(153 * ?m + 2) / 5] =>
    let v := eval vm_compute in ((153 * m + 2) / 5) in change ((153 * m + 2) / 5) with v end;
  rewrite ?Z.add_0_r; try lia.

Lemma civil_spec days y m d :
  civil days = (y, m, d) → valid_date y m d ∧ days_of y m d = days.
Proof.
  unfold civil. destruct (year_of_days (days + epoch_days)) as [yy doy] eqn:E.
  apply year_of_days_spec in E as (Hz & Hd & Hl). unfold valid_date, days_of, days_in.
  set (mp := (5 * doy + 2) / 153). assert (0 ≤ mp ≤ 11 ∧ 153 * mp ≤ 5 * doy + 2 ≤ 153 * mp + 152) as [Hmp Hmd].
  { unfold mp. Z.to_euclidean_division_equations. lia. }
  clearbody mp.
  assert (mp = 0 ∨ mp = 1 ∨ mp = 2 ∨ mp = 3 ∨ mp = 4 ∨ mp = 5 ∨ mp = 6 ∨ mp = 7 ∨ mp = 8 ∨ mp = 9 ∨ mp = 10 ∨ mp = 11)
    as Hcases by lia.
  assert (doy = 365 → is_leap (yy + 1) = true ∧ mp = 11) as Hl' by (intros ->; split; [by apply Hl | lia]).
  clear Hl. intros E.
  assert ((yy + (if mp <? 10 then 0 else 1), if mp <? 10 then mp + 3 else mp - 9, doy - (153 * mp + 2) / 5 + 1) = (y, m, d)) as [= <- <- <-].
  { rewrite <- E. destruct (mp <? 10); [by rewrite Z.add_0_r | done]. }
  clear E.
  repeat (destruct Hcases as [->|Hcases]); try subst mp;
    cbn [Z.ltb Z.compare Pos.compare Pos.compare_cont] in *; month_case.
  destruct (is_leap (yy + 1)); [lia|].
  assert (doy ≠ 365) as Hne by (intros ->; by destruct (Hl' eq_refl)). lia.
Qed.

(** ** Reading back what was written *)

Lemma digit_val_digit v : digit_val (digit v) = Some (v mod 10).
Proof.
  unfold digit_val, in_range. rewrite digit_code. pose proof (Z.mod_pos_bound v 10 ltac:(lia)).
  change (N_of_ascii "0") with 48%N. change (N_of_ascii "9") with 57%N.
  replace (48 <=? 48 + Z.to_N (v mod 10))%N with true by (symmetry; apply N.leb_le; lia).
  replace (48 + Z.to_N (v mod 10) <=? 57)%N with true by (symmetry; apply N.leb_le; lia).
  cbn. f_equal. lia.
Qed.

Lemma read_digits_snoc n : ∀ acc s a c r v,
  read_digits n acc s = Some (a, String c r) → digit_val c = Some v →
  read_digits (S n) acc s = Some (10 * a + v, r).
Proof.
  induction n as [|n IH]; intros acc s a c r v H Hc.
  - injection H as -> ->. cbn. by rewrite Hc.
  - destruct s as [|x s]; [done|]. cbn in H |- *. destruct (digit_val x) as [w|]; [|done]. cbn in H |- *.
    apply (IH _ _ _ _ _ _ H Hc).
Qed.

Lemma read_digits_digits n : ∀ v s, 0 ≤ v < 10 ^ Z.of_nat n → read_digits n 0 (digits n v +:+ s) = Some (v, s).
Proof.
  induction n as [|n IH]; intros v s Hv.
  - cbn in Hv |- *. by replace v with 0 by lia.
  - rewrite Nat2Z.inj_succ, Z.pow_succ_r in Hv by lia.
    change (digits (S n) v) with (digits n (v / 10) +:+ String (digit v) "").
    rewrite sapp_assoc. erewrite read_digits_snoc; [| |apply digit_val_digit].
    + rewrite <- Z.div_mod by lia. done.
    + apply IH. split; [apply Z.div_pos; lia|apply Z.div_lt_upper_bound; lia].
Qed.

Lemma read_pad n v s : (0 < n)%nat → 0 ≤ v < 10 ^ Z.of_nat n → read_digits n 0 (pad n v +:+ s) = Some (v, s).
Proof. intros. rewrite pad_digits by done. by apply read_digits_digits. Qed.

Lemma read_byte_app c s : read_byte c (String c "" +:+ s) = Some s.
Proof. unfold read_byte. change (String c "" +:+ s) with (String c s). cbv iota. by rewrite Ascii.eqb_refl. Qed.

Lemma in_bounds_ok lo hi n : lo ≤ n ≤ hi → in_bounds lo hi n = Some tt.
Proof. unfold in_bounds. intros. by rewrite !(proj2 (Z.leb_le _ _)) by lia. Qed.

(** The instants whose year has four digits. *)
Definition four_digit_year (t : Z) : Prop := 0 ≤ (civil (t / Second / 86400)).1.1 ≤ 9999.

Lemma days_in_le m y : days_in m y ≤ 31.
Proof. unfold days_in. repeat case_match; lia. Qed.

Lemma parse_format t : four_digit_year t → parse_rfc3339 (format_rfc3339 t) = Some (t / Second * Second).
Proof.
  unfold four_digit_year, format_rfc3339. set (s := t / Second).
  destruct (civil (s / 86400)) as [[y m] d] eqn:E. cbn [fst]. intros Hy.
  apply civil_spec in E as [[Hm Hd] Hdays]. pose proof (days_in_le m y).
  pose proof (Z.mod_pos_bound s 86400 ltac:(lia)) as Hsod. pose proof (Z.div_mod s 86400 ltac:(lia)) as Hs.
  set (sod := s mod 86400) in *. clearbody sod.
  assert (0 ≤ sod / 3600 ≤ 23 ∧ 0 ≤ sod / 60 mod 60 ≤ 59 ∧ 0 ≤ sod mod 60 ≤ 59 ∧
          sod / 3600 * 3600 + sod / 60 mod 60 * 60 + sod mod 60 = sod) as (Hh & Hmi & Hse & Hsum)
    by (Z.to_euclidean_division_equations; lia).
  unfold parse_rfc3339.
  rewrite read_pad by (cbn; lia). cbn [mbind option_bind]. rewrite read_byte_app. cbn [mbind option_bind].
  rewrite read_pad by (cbn; lia). cbn [mbind option_bind]. rewrite read_byte_app. cbn [mbind option_bind].
  rewrite read_pad by (cbn; lia). cbn [mbind option_bind]. rewrite read_byte_app. cbn [mbind option_bind].
  rewrite read_pad by (cbn; lia). cbn [mbind option_bind]. rewrite read_byte_app. cbn [mbind option_bind].
  rewrite read_pad by (cbn; lia). cbn [mbind option_bind]. rewrite read_byte_app. cbn [mbind option_bind].
  rewrite read_pad by (cbn; lia). cbn [mbind option_bind].
  rewrite !in_bounds_ok by lia. cbn [mbind option_bind].
  change (read_fraction "Z") with (0, "Z"). cbv iota beta. change (read_zone "Z") with (Some 0). cbn [mbind option_bind].
  rewrite Hdays. clear Hdays. clearbody s. f_equal.
  rewrite Z.add_0_r. f_equal. lia.
Qed.
