(* ===== verification/Temporal.v ===== *)
(** Failures and retries: [pkg/sdk/temporal] ([errors.go], [serde.go],
    [retry.go]). Durations are int64 nanoseconds with their wrap-around; the
    backoff is computed in binary64, bit for bit. *)

From Corelib Require Import SpecFloat.
From Stdlib Require Import Ascii ZArith Lia.
From stdpp Require Import prelude strings gmap.
From S2P Require Import Prelude GoStrings Json Types EngineTypes GoTime.

Local Open Scope Z_scope.
#[local] Set Warnings "-register-all".

(** ** Errors *)

(** A Go error as this code meets it: a plain one, one that wraps another, or a
    [*temporal.Error]. *)
Inductive goerror :=
| EPlain (text : string)
| EWrap (text : string) (inner : goerror)
| ETask (message code : string) (nonRetryable : bool) (details : list json) (cause : option goerror).

Definition CodeApplication : string := "ApplicationError".
Definition CodeCanceled : string := "CanceledError".
Definition CodeTimeout : string := "TimeoutError".
Definition CodeDecode : string := "DecodeError".

Definition NewError (msg code : string) (nonRetryable : bool) (details : list json) : goerror :=
  ETask msg (if String.eqb code "" then CodeApplication else code) nonRetryable details None.
Definition NewCanceledError (details : list json) : goerror := ETask "workflow canceled" CodeCanceled true details None.
Definition NewTimeoutError (msg : string) (details : list json) : goerror :=
  ETask (if String.eqb msg "" then "operation timed out" else msg) CodeTimeout true details None.

(** [err.Error()]. *)
Fixpoint error_text (e : goerror) : string :=
  match e with
  | EPlain t | EWrap t _ => t
  | ETask m c _ _ cause =>
      let code := if String.eqb c "" then CodeApplication else c in
      match cause with
      | Some e => m +:+ " (" +:+ code +:+ "): " +:+ error_text e
      | None => m +:+ " (" +:+ code +:+ ")"
      end
  end.

(** [errors.As] for [*Error]: the first one in the chain. *)
Fixpoint AsError (e : goerror) : option goerror :=
  match e with
  | ETask _ _ _ _ _ => Some e
  | EWrap _ i => AsError i
  | EPlain _ => None
  end.

Definition code_of (e : goerror) : string := match e with ETask _ c _ _ _ => c | _ => "" end.
Definition IsCanceledError (e : goerror) : bool :=
  match AsError e with Some t => String.eqb (code_of t) CodeCanceled | None => false end.
Definition IsTimeoutError (e : goerror) : bool :=
  match AsError e with Some t => String.eqb (code_of t) CodeTimeout | None => false end.
Definition IsApplicationError (e : goerror) : bool :=
  match AsError e with
  | Some t => negb (String.eqb (code_of t) CodeCanceled) && negb (String.eqb (code_of t) CodeTimeout)
  | None => false
  end.

(** ** The failure envelope *)

Definition failureEnvelopeVersion : Z := 1.

Inductive failurePayload :=
| Payload (message code : string) (nonRetryable : bool) (details : list json) (cause : option failurePayload).

Definition plain_payload (text : string) : failurePayload := Payload text CodeApplication false [] None.

(** [toPayload]; a wrapped error is the [*Error] it wraps, if any. *)
Fixpoint toPayload (e : goerror) : failurePayload :=
  match e with
  | ETask m c nr ds cause =>
      Payload m (if String.eqb c "" then CodeApplication else c) nr ds
        (match cause with Some e => Some (toPayload e) | None => None end)
  | EWrap t i => match AsError i with Some _ => toPayload i | None => plain_payload t end
  | EPlain t => plain_payload t
  end.

Fixpoint fromPayload (p : failurePayload) : goerror :=
  match p with
  | Payload m c nr ds cause =>
      ETask m (if String.eqb c "" then CodeApplication else c) nr ds
        (match cause with Some p => Some (fromPayload p) | None => None end)
  end.

(** The JSON of a payload, with the tags of [failurePayload]. *)
Fixpoint payload_json (p : failurePayload) : json :=
  match p with
  | Payload m c nr ds cause =>
      JObj (fld "message" m ++ fld "code" c ++ fld_omit "nonRetryable" nr ++ fld_omit "details" ds ++
            match cause with Some p => [("cause", payload_json p)] | None => [] end)
  end.

(** [json.Unmarshal] into [failurePayload]; the fuel bounds the nesting of
    causes, and [json_depth] is enough. *)
Fixpoint payload_of (fuel : nat) (j : json) : option failurePayload :=
  match fuel with
  | 0%nat => None
  | S fuel =>
      o ← as_obj j; m ← rd o "message"; c ← rd o "code"; nr ← rd o "nonRetryable"; ds ← rd o "details";
      cause ← (match assoc "cause" o with
               | None | Some JNull => Some None
               | Some j => Some <$> payload_of fuel j
               end);
      Some (Payload m c nr ds cause)
  end.

Fixpoint json_depth (j : json) : nat :=
  match j with
  | JArr l => S (foldr (λ j n, Nat.max (json_depth j) n) 0%nat l)
  | JObj l => S (foldr (λ kv n, Nat.max (json_depth kv.2) n) 0%nat l)
  | _ => 1%nat
  end.

Definition decode_error (msg : string) : goerror := NewError msg CodeDecode true [].

(** [Encode]; the bytes are represented by the JSON they hold. *)
Definition Encode (e : goerror) : raw :=
  RJson (JObj (fld "v" failureEnvelopeVersion ++ [("p", payload_json (toPayload e))])).

(** [Decode]. The text of [encoding/json]'s own errors is not modelled: a message
    that ends with it stops before it. *)
Definition Decode (b : raw) : goerror :=
  match b with
  | RNone => decode_error "empty failure payload"
  | RBad => decode_error "failure envelope unmarshal: "
  | RJson j =>
      match (o ← as_obj j; v ← rd o "v"; Some (o, v)) with
      | None => decode_error "failure envelope unmarshal: "
      | Some (o, v) =>
          if negb (v =? failureEnvelopeVersion) then
            decode_error ("unsupported failure envelope version " +:+ itoa v)
          else match assoc "p" o with
               | None => decode_error "failure payload unmarshal: "
               | Some p => match payload_of (json_depth p) p with
                           | None => decode_error "failure payload unmarshal: "
                           | Some pl => fromPayload pl
                           end
               end
      end
  end.

(** ** Retry policy *)

Definition wrap64 (z : Z) : Z := (z + 2 ^ 63) mod 2 ^ 64 - 2 ^ 63.
Definition wrap32 (z : Z) : Z := (z + 2 ^ 31) mod 2 ^ 32 - 2 ^ 31.

(** binary64: [float64(n)], and [int64(f)], which truncates; a value out of range
    converts to the most negative integer, as on amd64. *)
Definition of_int64 (n : Z) : spec_float := binary_normalize 53 1024 n 0 false.
Definition to_int64 (f : spec_float) : Z :=
  match f with
  | S754_finite s m e =>
      let v := if 0 <=? e then Zpos m * 2 ^ e else Zpos m / 2 ^ (- e) in
      let v := if s then - v else v in
      if (- 2 ^ 63 <=? v) && (v <? 2 ^ 63) then v else - 2 ^ 63
  | S754_zero _ => 0
  | _ => - 2 ^ 63
  end.
Definition float_one : spec_float := of_int64 1.
Definition float_two : spec_float := of_int64 2.

Record temporalRetryPolicy := {
  InitialInterval : Z;
  BackoffCoefficient : spec_float;
  MaximumInterval : Z;
  tp_MaximumAttempts : Z;
  NonRetryableErrorTypes : list string }.

Definition DefaultRetryPolicy : temporalRetryPolicy :=
  {| InitialInterval := Second; BackoffCoefficient := float_two; MaximumInterval := 100 * Second;
     tp_MaximumAttempts := 0; NonRetryableErrorTypes := [] |}.

Definition Normalize (p : option temporalRetryPolicy) : temporalRetryPolicy :=
  let d := DefaultRetryPolicy in
  match p with
  | None => d
  | Some p =>
      let init := if InitialInterval p <=? 0 then InitialInterval d else InitialInterval p in
      {| InitialInterval := init;
         BackoffCoefficient := if SFltb (BackoffCoefficient p) float_one then BackoffCoefficient d else BackoffCoefficient p;
         MaximumInterval := if MaximumInterval p <=? 0 then wrap64 (100 * init) else MaximumInterval p;
         tp_MaximumAttempts := if tp_MaximumAttempts p <? 0 then 0 else tp_MaximumAttempts p;
         NonRetryableErrorTypes := NonRetryableErrorTypes p |}
  end.

Definition nonRetryable_of (e : goerror) : bool := match e with ETask _ _ nr _ _ => nr | _ => false end.

(** [ShouldRetry]; [None] is a nil error. *)
Definition ShouldRetry (p : temporalRetryPolicy) (e : option goerror) (attempt : Z) : bool :=
  match e with
  | None => false
  | Some e =>
      let eff := Normalize (Some p) in
      if (0 <? tp_MaximumAttempts eff) && (tp_MaximumAttempts eff <=? attempt) then false
      else match AsError e with
           | Some t => if nonRetryable_of t then false
                       else negb (bool_decide (code_of t ∈ NonRetryableErrorTypes eff))
           | None => true
           end
  end.

(** The loop of [NextInterval]: [n] multiplications, stopping at the cap. *)
Fixpoint backoff (n : nat) (interval coeff : spec_float) (cap : Z) : Z :=
  match n with
  | 0%nat => to_int64 interval
  | S n => let interval := SFmul 53 1024 interval coeff in
           if SFleb (of_int64 cap) interval then cap else backoff n interval coeff cap
  end.

Definition NextInterval (p : temporalRetryPolicy) (attempt : Z) : Z :=
  let eff := Normalize (Some p) in
  let attempt := if attempt <? 1 then 1 else attempt in
  backoff (Z.to_nat (attempt - 1)) (of_int64 (InitialInterval eff)) (BackoffCoefficient eff) (MaximumInterval eff).

(** [durable.go]: the server's retry decision over the wire policy. *)
Definition defaultMaxActivityAttempts : Z := 10.

Definition effectiveRetryPolicy (rp : option RetryPolicyJSON) : temporalRetryPolicy :=
  let pol := match rp with
    | None => {| InitialInterval := 0; BackoffCoefficient := S754_zero false; MaximumInterval := 0;
                 tp_MaximumAttempts := 0; NonRetryableErrorTypes := [] |}
    | Some r => {| InitialInterval := wrap64 (rj_InitialIntervalMs r * Millisecond);
                   BackoffCoefficient := rj_BackoffCoefficient r;
                   MaximumInterval := wrap64 (rj_MaximumIntervalMs r * Millisecond);
                   tp_MaximumAttempts := rj_MaximumAttempts r;
                   NonRetryableErrorTypes := rj_NonRetryableErrorTypes r |}
    end in
  let eff := Normalize (Some pol) in
  {| InitialInterval := InitialInterval eff; BackoffCoefficient := BackoffCoefficient eff;
     MaximumInterval := MaximumInterval eff;
     tp_MaximumAttempts := if tp_MaximumAttempts eff <=? 0 then defaultMaxActivityAttempts else tp_MaximumAttempts eff;
     NonRetryableErrorTypes := NonRetryableErrorTypes eff |}.

(** ** The envelope round trip *)

Lemma payload_rect' (P : failurePayload → Prop) :
  (∀ m c nr ds, P (Payload m c nr ds None)) →
  (∀ m c nr ds p, P p → P (Payload m c nr ds (Some p))) → ∀ p, P p.
Proof.
  intros H1 H2. fix IH 1. intros [m c nr ds [p|]]; [apply H2, IH|apply H1].
Qed.

Lemma payload_depth p : (1 ≤ json_depth (payload_json p))%nat.
Proof. destruct p. cbn. lia. Qed.

Lemma depth_app (l l' : list (string * json)) n :
  foldr (λ kv n, Nat.max (json_depth kv.2) n) n (l ++ l') =
  Nat.max (foldr (λ kv n, Nat.max (json_depth kv.2) n) 0%nat l) (foldr (λ kv n, Nat.max (json_depth kv.2) n) n l').
Proof. induction l as [|x l IH]; cbn; [done|]. rewrite IH. lia. Qed.

Lemma payload_depth_cause m c nr ds p :
  (json_depth (payload_json p) < json_depth (payload_json (Payload m c nr ds (Some p))))%nat.
Proof. cbn [payload_json json_depth]. rewrite !depth_app. cbn. lia. Qed.

Lemma payload_json_obj p : ∃ o, payload_json p = JObj o.
Proof. destruct p. eexists. done. Qed.

(** The members of a payload's object are read back one by one. *)
Lemma payload_of_json p : ∀ fuel, (json_depth (payload_json p) ≤ fuel)%nat → payload_of fuel (payload_json p) = Some p.
Proof.
  induction p as [m c nr ds|m c nr ds p IH] using payload_rect'; intros [|fuel] Hf;
    try (pose proof (payload_depth (Payload m c nr ds None)); lia);
    try (pose proof (payload_depth (Payload m c nr ds (Some p))); lia);
    cbn [payload_of payload_json as_obj mbind option_bind];
    repeat rd_solve.
  - replace (assoc "cause" _) with (@None json) by (symmetry; assoc_solve). done.
  - match goal with |- context [assoc "cause" ?o] => replace (assoc "cause" o) with (Some (payload_json p)) end.
    2: { rewrite !assoc_app, ?assoc_fld, ?assoc_fld_omit. cbn. done. }
    destruct (payload_json_obj p) as [o Ho]. rewrite Ho. rewrite <- Ho.
    pose proof (payload_depth_cause m c nr ds p). rewrite IH by lia. done.
Qed.

Lemma Decode_Encode e : Decode (Encode e) = fromPayload (toPayload e).
Proof.
  unfold Encode, Decode. set (p := toPayload e). clearbody p. cbn [as_obj mbind option_bind].
  replace (rd _ "v") with (Some failureEnvelopeVersion) by (symmetry; by rewrite (rd_fld _ "v" failureEnvelopeVersion)).
  cbn [mbind option_bind]. replace (assoc "p" _) with (Some (payload_json p)) by done.
  rewrite Z.eqb_refl. cbn [negb]. by rewrite payload_of_json.
Qed.

(** An error as it comes off the wire: every cause is a [*Error] with a code. *)
Fixpoint wire (e : goerror) : bool :=
  match e with
  | ETask _ c _ _ cause => negb (String.eqb c "") && match cause with Some e => wire e | None => true end
  | _ => false
  end.

Lemma from_to_wire e : wire e = true → fromPayload (toPayload e) = e.
Proof.
  revert e. fix IH 1. intros [t|t i|m c nr ds cause]; cbn [wire]; [done|done|].
  intros [Hc Hcause]%andb_true_iff. apply negb_true_iff in Hc. cbn [toPayload fromPayload]. rewrite Hc, Hc. f_equal.
  destruct cause as [e|]; [|done]. f_equal. by apply IH.
Qed.

(** What a payload keeps of the error it came from. *)
Lemma AsError_payload e t :
  AsError e = Some t →
  ∃ m c nr ds cause cause', t = ETask m c nr ds cause ∧
    fromPayload (toPayload e) = ETask m (if String.eqb c "" then CodeApplication else c) nr ds cause'.
Proof.
  induction e as [|x i IH|m c nr ds cause]; cbn [AsError]; [done| |].
  - intros Hi. cbn [toPayload]. rewrite Hi. by apply IH.
  - intros [= <-]. cbn [toPayload fromPayload]. exists m, c, nr, ds, cause. eexists. split; [done|].
    by destruct (String.eqb c "") eqn:E; [|rewrite E].
Qed.

(** ** Retry lemmas *)

Lemma Normalize_attempts p : 0 ≤ tp_MaximumAttempts (Normalize (Some p)).
Proof. cbn. destruct (Z.ltb_spec (tp_MaximumAttempts p) 0); lia. Qed.

Lemma effective_attempts rp : 1 ≤ tp_MaximumAttempts (effectiveRetryPolicy rp).
Proof.
  unfold effectiveRetryPolicy. cbn [tp_MaximumAttempts]. case_match eqn:E; [done|]. apply Z.leb_gt in E. lia.
Qed.

Lemma effective_normal_attempts rp :
  tp_MaximumAttempts (Normalize (Some (effectiveRetryPolicy rp))) = tp_MaximumAttempts (effectiveRetryPolicy rp).
Proof.
  pose proof (effective_attempts rp). unfold Normalize. cbn [tp_MaximumAttempts].
  destruct (Z.ltb_spec (tp_MaximumAttempts (effectiveRetryPolicy rp)) 0); [lia|done].
Qed.

Lemma ShouldRetry_bound rp e a :
  ShouldRetry (effectiveRetryPolicy rp) e a = true → a < tp_MaximumAttempts (effectiveRetryPolicy rp).
Proof.
  unfold ShouldRetry. destruct e as [e|]; [|done]. cbv zeta. rewrite effective_normal_attempts.
  pose proof (effective_attempts rp). case_match eqn:E; [done|]. intros _.
  apply andb_false_iff in E as [E|E]; [apply Z.ltb_ge in E; lia|by apply Z.leb_gt in E].
Qed.

(** ** Properties *)

(** A failure survives the wire: decoding an encoded error whose chain
    carries codes gives that error back, with its message, code, retry flag,
    details and causes. *)
Theorem failure_roundtrip e : wire e = true → Decode (Encode e) = e.
Proof. intros He. rewrite Decode_Encode. by apply from_to_wire. Qed.

Lemma failure_roundtrip_witness :
  Decode (Encode (ETask "boom" "DbError" false [JNum 7] (Some (NewTimeoutError "" [])))) =
  ETask "boom" "DbError" false [JNum 7] (Some (NewTimeoutError "" [])).
Proof. apply (failure_roundtrip (ETask "boom" "DbError" false [JNum 7] (Some (NewTimeoutError "" [])))). reflexivity. Defined.

(** The retry decision is the same on both sides of the wire: for any error
    that carries a [*Error] with a code, however it is wrapped, the server decides
    on the decoded failure as the worker would have on the error itself. *)
Theorem retry_decision_preserved p e t a :
  AsError e = Some t → code_of t ≠ "" →
  ShouldRetry p (Some (Decode (Encode e))) a = ShouldRetry p (Some e) a.
Proof.
  intros Ht Hc. rewrite Decode_Encode. destruct (AsError_payload e t Ht) as (m & c & nr & ds & ca & ca' & -> & ->).
  unfold ShouldRetry. rewrite Ht. cbn in Hc |- *. by destruct (String.eqb_spec c "").
Qed.

Lemma retry_decision_preserved_witness :
  ShouldRetry DefaultRetryPolicy (Some (Decode (Encode (EWrap "ctx: boom" (NewError "boom" "DbError" false []))))) 3 =
  ShouldRetry DefaultRetryPolicy (Some (EWrap "ctx: boom" (NewError "boom" "DbError" false []))) 3.
Proof.
  apply (retry_decision_preserved DefaultRetryPolicy _ (NewError "boom" "DbError" false [])); [reflexivity|done].
Defined.

(** Decoding fails secure: bytes that are empty, not JSON, not an envelope, or
    an envelope of another version decode to an error that no policy retries. *)
Theorem decode_fails_secure b p a :
  (∀ o v, b = RJson (JObj o) → rd o "v" = Some v → v ≠ failureEnvelopeVersion) →
  ShouldRetry p (Some (Decode b)) a = false.
Proof.
  intros Hb. assert (∀ msg, ShouldRetry p (Some (decode_error msg)) a = false) as Hd.
  { intros msg. unfold ShouldRetry. by case_match. }
  destruct b as [|j|]; cbn [Decode]; [apply Hd| |apply Hd].
  destruct (as_obj j) as [o|] eqn:Ej; cbn [mbind option_bind]; [|apply Hd].
  destruct (rd o "v") as [v|] eqn:Ev; cbn [mbind option_bind]; [|apply Hd].
  destruct (Z.eqb_spec v failureEnvelopeVersion) as [->|]; [|apply Hd].
  destruct j; try done; injection Ej as <-; [done|]. by destruct (Hb l failureEnvelopeVersion eq_refl Ev).
Qed.

Lemma decode_fails_secure_witness :
  ShouldRetry DefaultRetryPolicy (Some (Decode (RJson (JObj [("v", JNum 2)])))) 1 = false.
Proof.
  apply (decode_fails_secure (RJson (JObj [("v", JNum 2)])) DefaultRetryPolicy 1).
  intros o v [= <-] [= <-]. done.
Defined.

(** The server's retries are bounded: under any wire policy, absent or
    unlimited ones included, an attempt is retried only below a bound that is at
    least one, so no activity is retried forever. *)
Theorem server_retries_bounded rp e a :
  ShouldRetry (effectiveRetryPolicy rp) e a = true →
  1 ≤ tp_MaximumAttempts (effectiveRetryPolicy rp) ∧ a < tp_MaximumAttempts (effectiveRetryPolicy rp).
Proof. intros Hr. split; [apply effective_attempts|by eapply ShouldRetry_bound]. Qed.

Lemma server_retries_bounded_witness :
  1 ≤ tp_MaximumAttempts (effectiveRetryPolicy None) ∧ 3 < tp_MaximumAttempts (effectiveRetryPolicy None).
Proof. apply (server_retries_bounded None (Some (EPlain "boom")) 3). reflexivity. Defined.

(** Normalizing a policy fills in the defaults once: doing it again changes
    nothing, so the decision and the delay read the same policy. *)
Theorem Normalize_idempotent p :
  Normalize (Some (Normalize p)) = Normalize p.
Proof.
  destruct p as [p|]; [|reflexivity]. unfold Normalize at 1.
  assert (0 < InitialInterval (Normalize (Some p))) as Hi.
  { cbn. destruct (Z.leb_spec (InitialInterval p) 0); [done|lia]. }
  assert (SFltb (BackoffCoefficient (Normalize (Some p))) float_one = false) as Hb.
  { unfold Normalize. cbn [BackoffCoefficient]. destruct (SFltb (BackoffCoefficient p) float_one) eqn:E; [reflexivity|done]. }
  pose proof (Normalize_attempts p) as Ha. rewrite Hb.
  destruct (Z.leb_spec (InitialInterval (Normalize (Some p))) 0); [lia|].
  destruct (Z.ltb_spec (tp_MaximumAttempts (Normalize (Some p))) 0); [lia|].
  destruct (Z.leb_spec (MaximumInterval (Normalize (Some p))) 0) as [Hm|Hm]; [|by destruct (Normalize (Some p))].
  destruct (Normalize (Some p)) eqn:E. cbn in *. f_equal.
  unfold Normalize in E. injection E as <- <- <- <- <-. destruct (Z.leb_spec (MaximumInterval p) 0); [done|lia].
Qed.

(** The default backoff, computed in binary64: the delays before the first
    ten retries double from one second and stop at the cap. *)
Theorem default_backoff :
  (λ a, NextInterval DefaultRetryPolicy a) <$> [1; 2; 3; 4; 5; 6; 7; 8; 9; 10] =
  (λ s, s * Second) <$> [1; 2; 4; 8; 16; 32; 64; 100; 100; 100].
Proof. reflexivity. Qed.

(** The delay before the first retry is not clamped: a policy whose initial
    interval exceeds its maximum waits the initial interval once, and the maximum
    from then on. *)
Theorem first_interval_unclamped :
  let p := {| InitialInterval := 10 * Second; BackoffCoefficient := float_two; MaximumInterval := 5 * Second;
              tp_MaximumAttempts := 0; NonRetryableErrorTypes := [] |} in
  MaximumInterval p < NextInterval p 1 ∧ NextInterval p 2 = MaximumInterval p.
Proof. split; reflexivity. Qed.
