(* ===== verification/GoDuration.v ===== *)
(** [time.ParseDuration]: the text of a retention, an interval or a timeout. The
    accumulators are uint64 with their overflow checks; a fraction of a unit is
    computed in binary64. *)

From Corelib Require Import SpecFloat.
From Stdlib Require Import Ascii ZArith Lia.
From stdpp Require Import prelude strings gmap.
From S2P Require Import Prelude GoStrings GoTime Temporal.

#[local] Open Scope Z_scope.

Definition Hour : Z := 60 * Minute.
Definition Microsecond : Z := 1000.

(** [unitMap]; the micro sign has two spellings. *)
Definition unit_of (u : string) : option Z :=
  if String.eqb u "ns" then Some 1
  else if String.eqb u "us" || String.eqb u (String "194" (String "181" "s")) || String.eqb u (String "206" (String "188" "s")) then Some Microsecond
  else if String.eqb u "ms" then Some Millisecond
  else if String.eqb u "s" then Some Second
  else if String.eqb u "m" then Some Minute
  else if String.eqb u "h" then Some Hour
  else None.

Definition digit_of (c : ascii) : option Z := if in_range "0" "9" c then Some (Z.of_N (N_of_ascii c - 48)) else None.

(** [leadingInt]: [None] is an overflow. *)
Fixpoint leadingInt (x : Z) (s : string) : option (Z * string) :=
  match s with
  | EmptyString => Some (x, s)
  | String c r =>
      match digit_of c with
      | None => Some (x, s)
      | Some d => if 2 ^ 63 / 10 <? x then None
                  else let x := x * 10 + d in if 2 ^ 63 <? x then None else leadingInt x r
      end
  end.

(** [leadingFraction]: digits past what an int64 holds are skipped; the scale is a
    power of ten. *)
Fixpoint leadingFraction (x : Z) (scale : spec_float) (overflow : bool) (s : string) : Z * spec_float * string :=
  match s with
  | EmptyString => (x, scale, s)
  | String c r =>
      match digit_of c with
      | None => (x, scale, s)
      | Some d =>
          if overflow || ((2 ^ 63 - 1) / 10 <? x) then leadingFraction x scale true r
          else let y := x * 10 + d in
               if 2 ^ 63 <? y then leadingFraction x scale true r
               else leadingFraction y (SFmul 53 1024 scale (of_int64 10)) false r
      end
  end.

(** The bytes of a unit: up to the next digit or point. *)
Fixpoint unit_span (s : string) : string * string :=
  match s with
  | EmptyString => (EmptyString, EmptyString)
  | String c r => if Ascii.eqb c "." || in_range "0" "9" c then (EmptyString, s)
                  else let '(u, r) := unit_span r in (String c u, r)
  end.

(** One number and its unit, with what is left. *)
Definition duration_part (s : string) : option (Z * string) :=
  match s with
  | EmptyString => None
  | String c _ =>
      if negb (Ascii.eqb c "." || in_range "0" "9" c) then None else
      '(v, s1) ← leadingInt 0 s;
      let pre := negb (String.eqb s1 s) in
      let '(f, scale, s2, post) :=
        match s1 with
        | String "." r => let '(f, scale, r') := leadingFraction 0 float_one false r in (f, scale, r', negb (String.eqb r' r))
        | _ => (0, float_one, s1, false)
        end in
      if negb pre && negb post then None else
      let '(u, rest) := unit_span s2 in
      if String.eqb u "" then None else
      unit ← unit_of u;
      if 2 ^ 63 / unit <? v then None else
      let v := v * unit in
      if 0 <? f then
        let v := v + to_int64 (SFmul 53 1024 (of_int64 f) (SFdiv 53 1024 (of_int64 unit) scale)) in
        if 2 ^ 63 <? v then None else Some (v, rest)
      else Some (v, rest)
  end.

(** The loop; each part eats at least one byte. *)
Fixpoint duration_parts (fuel : nat) (d : Z) (s : string) : option Z :=
  match s, fuel with
  | EmptyString, _ => Some d
  | _, 0%nat => None
  | _, S fuel =>
      '(v, s) ← duration_part s;
      let d := (d + v) mod 2 ^ 64 in
      if 2 ^ 63 <? d then None else duration_parts fuel d s
  end.

Definition ParseDuration (s : string) : option Z :=
  let '(neg, s) := match s with
                   | String "-" r => (true, r)
                   | String "+" r => (false, r)
                   | _ => (false, s)
                   end in
  if String.eqb s "0" then Some 0
  else if String.eqb s "" then None
  else d ← duration_parts (String.length s) 0 s;
       if neg then Some (- d)
       else if 2 ^ 63 - 1 <? d then None else Some d.

(** A duration is an int64. *)
Lemma duration_parts_bounds fuel d s r : 0 ≤ d ≤ 2 ^ 63 → duration_parts fuel d s = Some r → 0 ≤ r ≤ 2 ^ 63.
Proof.
  revert d s. induction fuel as [|fuel IH]; intros d [|c s] Hd; cbn [duration_parts]; [by intros [= <-]|done|by intros [= <-]|].
  destruct (duration_part _) as [[v s']|]; [|done]. cbn [mbind option_bind].
  destruct (Z.ltb_spec (2 ^ 63) ((d + v) mod 2 ^ 64)); [done|]. apply IH. split; [|done]. by apply Z.mod_pos_bound.
Qed.

Lemma ParseDuration_int64 s d : ParseDuration s = Some d → - 2 ^ 63 ≤ d < 2 ^ 63.
Proof.
  unfold ParseDuration. destruct (match s with String "-" r => _ | _ => _ end) as [neg r]. case_match; [by intros [= <-]|].
  case_match; [done|]. destruct (duration_parts _ 0 r) as [x|] eqn:E; [|done]. cbn [mbind option_bind].
  apply duration_parts_bounds in E; [|lia]. destruct neg; [intros [= <-]; lia|].
  destruct (Z.ltb_spec (2 ^ 63 - 1) x); [done|]. intros [= <-]. lia.
Qed.

Example duration_units : ParseDuration <$> ["720h"; "1h15m30.918s"; "-1.5h"; "100ms"; "1.00000000000000000000000001s"; "3"; ".s"; "9223372036s"; "9223372037s"; "+0"] =
  [Some (720 * Hour); Some (Hour + 15 * Minute + 30918 * Millisecond); Some (- (90 * Minute)); Some (100 * Millisecond); Some Second; None; None;
   Some (9223372036 * Second); None; Some 0].
Proof. reflexivity. Qed.
