(* ===== verification/Channel.v ===== *)
(** Workflow channels: [chanImpl] of [pkg/sdk/workflow/channel.go], the
    [SignalAsync] of [stub.go], and the scheduler-visible behaviour of goroutines
    that send, receive, give up and close in any order. Each label of the step
    function below is one critical section of the source (the code between
    [c.mu.Lock] and [c.mu.Unlock]). *)

From Stdlib Require Import ZArith Lia.
From stdpp Require Import prelude strings gmap.
From S2P Require Import Prelude GoStrings Json Types EngineTypes GoTime Temporal.

(** A Go value of type [any], seen through [encoding/json]: nil, a value that
    marshals, or one that does not (a function, a channel, a cycle). *)
Inductive goany := AnyNil | AnyJson (j : json) | AnyBad.

(** [EncodePayload]: nil has no bytes. The text of the marshalling error is not modelled. *)
Definition marshal_error : goerror := EPlain "json: unsupported type".
Definition EncodePayload (v : goany) : goerror + raw :=
  match v with
  | AnyNil => inr RNone
  | AnyJson j => inr (RJson j)
  | AnyBad => inl marshal_error
  end.

(** The waiters are objects shared between the channel and a parked goroutine: a
    waiter is named by its identity, and what the channel does to it is a signal. *)
Record chanSendWaiter := { sw_id : nat; sw_payload : raw }.

Record chanImpl := {
  ch_name : string;
  ch_size : nat;
  ch_buf : list raw;
  ch_closed : bool;
  ch_recvWaiters : list nat;
  ch_sendWaiters : list chanSendWaiter;
  ch_wakers : list nat }.

Inductive signal :=
| Deliver (w : nat) (payload : raw) (ok : bool)   (* fill in and close a receive waiter *)
| Release (w : nat)                               (* close a send waiter *)
| Wake (w : nat).                                 (* the non-blocking send on a waker *)

Definition newChan (name : string) (size : nat) : chanImpl :=
  {| ch_name := name; ch_size := size; ch_buf := []; ch_closed := false; ch_recvWaiters := []; ch_sendWaiters := []; ch_wakers := [] |}.
Definition NewChannelFromEnv (name : string) (size : Z) : chanImpl := newChan name (Z.to_nat size).
Definition NewSignalChannel (name : string) (buffer : Z) : chanImpl :=
  newChan name (Z.to_nat (if (buffer <? 1)%Z then 1%Z else buffer)).

Definition with_buf (b : list raw) (c : chanImpl) : chanImpl :=
  {| ch_name := ch_name c; ch_size := ch_size c; ch_buf := b; ch_closed := ch_closed c;
     ch_recvWaiters := ch_recvWaiters c; ch_sendWaiters := ch_sendWaiters c; ch_wakers := ch_wakers c |}.
Definition with_receivers (r : list nat) (c : chanImpl) : chanImpl :=
  {| ch_name := ch_name c; ch_size := ch_size c; ch_buf := ch_buf c; ch_closed := ch_closed c;
     ch_recvWaiters := r; ch_sendWaiters := ch_sendWaiters c; ch_wakers := ch_wakers c |}.
Definition with_senders (s : list chanSendWaiter) (c : chanImpl) : chanImpl :=
  {| ch_name := ch_name c; ch_size := ch_size c; ch_buf := ch_buf c; ch_closed := ch_closed c;
     ch_recvWaiters := ch_recvWaiters c; ch_sendWaiters := s; ch_wakers := ch_wakers c |}.
Definition with_wakers (k : list nat) (c : chanImpl) : chanImpl :=
  {| ch_name := ch_name c; ch_size := ch_size c; ch_buf := ch_buf c; ch_closed := ch_closed c;
     ch_recvWaiters := ch_recvWaiters c; ch_sendWaiters := ch_sendWaiters c; ch_wakers := k |}.
Definition mark_closed (c : chanImpl) : chanImpl :=
  {| ch_name := ch_name c; ch_size := ch_size c; ch_buf := ch_buf c; ch_closed := true;
     ch_recvWaiters := ch_recvWaiters c; ch_sendWaiters := ch_sendWaiters c; ch_wakers := ch_wakers c |}.

Definition nonempty {A} (l : list A) : bool := match l with [] => false | _ => true end.

(** [hasValue]: whether a receive would return at once. *)
Definition hasValue (c : chanImpl) : bool :=
  if nonempty (ch_buf c) then true
  else if (ch_size c =? 0)%nat && nonempty (ch_sendWaiters c) then true
  else ch_closed c.

Definition RegisterReadyWaker (w : nat) (c : chanImpl) : chanImpl * list signal :=
  if nonempty (ch_buf c) || ((ch_size c =? 0)%nat && nonempty (ch_sendWaiters c)) || ch_closed c
  then (c, [Wake w])
  else (with_wakers (ch_wakers c ++ [w]) c, []).

Definition signalWakersLocked (c : chanImpl) : chanImpl * list signal :=
  (with_wakers [] c, Wake <$> ch_wakers c).

(** How the critical section of a send ends. *)
Inductive send_outcome := SendPanic | SendReturn | SendPark.

(** [Send] after the payload is encoded; [w] is the waiter it parks on, if it does. *)
Definition Send (w : nat) (payload : raw) (c : chanImpl) : chanImpl * list signal * send_outcome :=
  if ch_closed c then (c, [], SendPanic)
  else match ch_recvWaiters c with
  | r :: rs => (with_receivers rs c, [Deliver r payload true], SendReturn)
  | [] =>
      if (0 <? ch_size c)%nat && (length (ch_buf c) <? ch_size c)%nat then
        let '(c, out) := signalWakersLocked (with_buf (ch_buf c ++ [payload]) c) in (c, out, SendReturn)
      else
        let c := with_senders (ch_sendWaiters c ++ [{| sw_id := w; sw_payload := payload |}]) c in
        if (ch_size c =? 0)%nat then let '(c, out) := signalWakersLocked c in (c, out, SendPark)
        else (c, [], SendPark)
  end.

(** The removal of a waiter whose context is done: its first occurrence. *)
Fixpoint drop_sender (w : nat) (l : list chanSendWaiter) : list chanSendWaiter :=
  match l with
  | [] => []
  | s :: l => if (sw_id s =? w)%nat then l else s :: drop_sender w l
  end.
Fixpoint drop_receiver (w : nat) (l : list nat) : list nat :=
  match l with
  | [] => []
  | r :: l => if (r =? w)%nat then l else r :: drop_receiver w l
  end.

Definition cancel_send (w : nat) (c : chanImpl) : chanImpl := with_senders (drop_sender w (ch_sendWaiters c)) c.
Definition cancel_receive (w : nat) (c : chanImpl) : chanImpl := with_receivers (drop_receiver w (ch_recvWaiters c)) c.

(** The first buffered value, and one waiting sender promoted into its slot. *)
Definition take_buffered (payload : raw) (rest : list raw) (c : chanImpl) : chanImpl * list signal :=
  match ch_sendWaiters c with
  | [] => (with_buf rest c, [])
  | sw :: sws => (with_senders sws (with_buf (rest ++ [sw_payload sw]) c), [Release (sw_id sw)])
  end.

Inductive receive_outcome := ReceiveValue (payload : raw) | ReceiveClosed | ReceivePark.

Definition Receive (w : nat) (c : chanImpl) : chanImpl * list signal * receive_outcome :=
  match ch_buf c with
  | payload :: rest => let '(c, out) := take_buffered payload rest c in (c, out, ReceiveValue payload)
  | [] =>
      if ch_closed c then (c, [], ReceiveClosed)
      else match (if (ch_size c =? 0)%nat then ch_sendWaiters c else []) with
      | sw :: sws => (with_senders sws c, [Release (sw_id sw)], ReceiveValue (sw_payload sw))
      | [] => (with_receivers (ch_recvWaiters c ++ [w]) c, [], ReceivePark)
      end
  end.

(** [ReceiveAsync]; [None] is its [false]. *)
Definition ReceiveAsync (c : chanImpl) : chanImpl * list signal * option raw :=
  match ch_buf c with
  | payload :: rest => let '(c, out) := take_buffered payload rest c in (c, out, Some payload)
  | [] =>
      match (if (ch_size c =? 0)%nat then ch_sendWaiters c else []) with
      | sw :: sws => (with_senders sws c, [Release (sw_id sw)], Some (sw_payload sw))
      | [] => (c, [], None)
      end
  end.

Definition Close (c : chanImpl) : chanImpl * list signal :=
  if ch_closed c then (c, [])
  else
    let out := (λ r, Deliver r RNone false) <$> ch_recvWaiters c in
    let '(c, wakes) := signalWakersLocked (with_receivers [] (mark_closed c)) in
    (c, out ++ wakes).

(** [SignalAsync] on the channel of the signal: it appends whatever the capacity. *)
Definition signal_async (payload : raw) (c : chanImpl) : chanImpl * list signal :=
  let c := with_buf (ch_buf c ++ [payload]) c in
  let '(c, out) :=
    match ch_recvWaiters c, ch_buf c with
    | r :: rs, p :: rest => (with_buf rest (with_receivers rs c), [Deliver r p true])
    | _, _ => (c, [])
    end in
  let '(c, wakes) := signalWakersLocked c in
  (c, out ++ wakes).

(** [fire]'s [more] argument for a receive case. *)
Definition more_values (c : chanImpl) : bool :=
  negb (ch_closed c && negb (nonempty (ch_buf c)) && negb (nonempty (ch_sendWaiters c))).

(** ** Goroutines around a channel

    The ghost state records every value a send put in (with the sender that may
    still withdraw it) and every value handed to a receiver, in order. A signal is
    appended to the buffer, so it goes ahead of the senders that wait for room. *)

Record chan_system := {
  cs_chan : chanImpl;
  cs_next : nat;
  cs_sent : list (nat * raw);
  cs_handed : list raw }.

Inductive chan_label :=
| CSend (payload : raw) | CGiveUpSend (w : nat)
| CReceive | CGiveUpReceive (w : nat) | CReceiveAsync
| CClose | CRegister | CSignal (payload : raw).

(** The values a list of signals hands to parked receivers. *)
Definition handed (out : list signal) : list raw :=
  omap (λ s, match s with Deliver _ p true => Some p | _ => None end) out.

Definition chan_step (l : chan_label) (s : chan_system) : chan_system :=
  let c := cs_chan s in let w := cs_next s in
  match l with
  | CSend p =>
      let '(c', out, r) := Send w p c in
      {| cs_chan := c'; cs_next := S w; cs_sent := cs_sent s ++ (match r with SendPanic => [] | _ => [(w, p)] end);
         cs_handed := cs_handed s ++ handed out |}
  | CGiveUpSend v =>
      {| cs_chan := cancel_send v c; cs_next := w;
         cs_sent := if bool_decide (v ∈ sw_id <$> ch_sendWaiters c) then filter (λ x, x.1 ≠ v) (cs_sent s) else cs_sent s;
         cs_handed := cs_handed s |}
  | CReceive =>
      let '(c', out, r) := Receive w c in
      {| cs_chan := c'; cs_next := S w; cs_sent := cs_sent s;
         cs_handed := cs_handed s ++ (match r with ReceiveValue p => [p] | _ => [] end) |}
  | CGiveUpReceive v => {| cs_chan := cancel_receive v c; cs_next := w; cs_sent := cs_sent s; cs_handed := cs_handed s |}
  | CReceiveAsync =>
      let '(c', out, r) := ReceiveAsync c in
      {| cs_chan := c'; cs_next := w; cs_sent := cs_sent s;
         cs_handed := cs_handed s ++ (match r with Some p => [p] | None => [] end) |}
  | CClose => let '(c', out) := Close c in {| cs_chan := c'; cs_next := w; cs_sent := cs_sent s; cs_handed := cs_handed s |}
  | CRegister => let '(c', out) := RegisterReadyWaker w c in {| cs_chan := c'; cs_next := S w; cs_sent := cs_sent s; cs_handed := cs_handed s |}
  | CSignal p =>
      let '(c', out) := signal_async p c in
      let n := (length (cs_sent s) - length (ch_sendWaiters c))%nat in
      {| cs_chan := c'; cs_next := S w; cs_sent := take n (cs_sent s) ++ (w, p) :: drop n (cs_sent s);
         cs_handed := cs_handed s ++ handed out |}
  end.

Definition chan_run (name : string) (size : nat) (ls : list chan_label) : chan_system :=
  foldl (λ s l, chan_step l s) {| cs_chan := newChan name size; cs_next := 0; cs_sent := []; cs_handed := [] |} ls.

(** ** The invariant *)

(** What is still in the channel, oldest first. *)
Definition contents (c : chanImpl) : list raw := ch_buf c ++ (sw_payload <$> ch_sendWaiters c).

(** Nobody sleeps while the channel is readable, and a sender waits only for room. *)
Definition chan_ok (c : chanImpl) : Prop :=
  (hasValue c = true → ch_recvWaiters c = [] ∧ ch_wakers c = []) ∧
  (ch_sendWaiters c ≠ [] → (ch_size c ≤ length (ch_buf c))%nat) ∧
  (ch_closed c = true → ch_recvWaiters c = []).

(** The senders still parked, as the ghost state lists them. *)
Definition tags (l : list chanSendWaiter) : list (nat * raw) := (λ x, (sw_id x, sw_payload x)) <$> l.

Record chan_inv (s : chan_system) : Prop := {
  inv_ok : chan_ok (cs_chan s);
  inv_sent : ∃ pre, cs_sent s = pre ++ tags (ch_sendWaiters (cs_chan s)) ∧ pre.*2 = cs_handed s ++ ch_buf (cs_chan s);
  inv_fresh : Forall (λ x, (x.1 < cs_next s)%nat) (cs_sent s);
  inv_nodup : NoDup (cs_sent s).*1 }.

(** A channel somebody waits on is empty. *)
Lemma unreadable c : hasValue c = false → ch_buf c = [] ∧ ch_closed c = false ∧ (ch_size c = 0%nat → ch_sendWaiters c = []).
Proof.
  unfold hasValue. destruct (ch_buf c); [|done]. destruct (Nat.eqb_spec (ch_size c) 0); [|cbn; naive_solver].
  destruct (ch_sendWaiters c); cbn; naive_solver.
Qed.
Lemma waiting_empty c : chan_ok c → hasValue c = false → ch_buf c = [] ∧ ch_sendWaiters c = [].
Proof.
  intros (_ & Hs & _) (Hb & _ & H0)%unreadable. split; [done|]. destruct (ch_sendWaiters c) eqn:E; [done|].
  rewrite Hb in Hs. cbn in Hs. apply H0. pose proof (Hs ltac:(done)). lia.
Qed.
Lemma receiver_empty c : chan_ok c → ch_recvWaiters c ≠ [] → ch_buf c = [] ∧ ch_sendWaiters c = [].
Proof.
  intros Hok Hr. apply waiting_empty; [done|]. apply not_true_iff_false. intros Hv. by destruct (proj1 Hok Hv).
Qed.

Lemma tags_ids l : (tags l).*1 = sw_id <$> l.
Proof. unfold tags. by rewrite <-list_fmap_compose. Qed.
Lemma tags_payloads l : (tags l).*2 = sw_payload <$> l.
Proof. unfold tags. by rewrite <-list_fmap_compose. Qed.

Lemma tags_snoc l w p : tags (l ++ [{| sw_id := w; sw_payload := p |}]) = tags l ++ [(w, p)].
Proof. unfold tags. by rewrite fmap_app. Qed.

Lemma drop_sender_tags w l : NoDup (sw_id <$> l) → tags (drop_sender w l) = filter (λ x, x.1 ≠ w) (tags l).
Proof.
  induction l as [|s l IH]; [done|]. unfold tags in *. cbn [drop_sender fmap list_fmap]. intros [Hs Hl]%NoDup_cons.
  destruct (Nat.eqb_spec (sw_id s) w) as [<-|Hw].
  - rewrite filter_cons_False by (intros H; by apply H). symmetry. apply filter_all, Forall_fmap, Forall_forall.
    intros x Hx E. apply Hs. rewrite <-E. apply list_elem_of_fmap. by exists x.
  - rewrite filter_cons_True by done. cbn. by rewrite IH.
Qed.

(** Withdrawing a parked sender leaves what came before it. *)
Lemma withdraw_parked w pre l : w ∈ sw_id <$> l → NoDup (pre ++ tags l).*1 →
  filter (λ x, x.1 ≠ w) (pre ++ tags l) = pre ++ tags (drop_sender w l).
Proof.
  intros Hw. rewrite fmap_app, tags_ids. intros (_ & Hd & Hn)%NoDup_app. rewrite filter_app, drop_sender_tags by done. f_equal.
  apply filter_all, Forall_forall. intros x Hx E. apply (Hd x.1); [by apply list_elem_of_fmap_2|by rewrite E].
Qed.
Lemma drop_absent w l : w ∉ sw_id <$> l → drop_sender w l = l.
Proof.
  induction l as [|s l IH]; [done|]. cbn [drop_sender fmap list_fmap]. intros [H1 H2]%not_elem_of_cons.
  rewrite (proj2 (Nat.eqb_neq _ _)) by done. by rewrite IH.
Qed.

(** ** Preservation *)

Ltac chan_simpl :=
  cbn [cs_chan cs_next cs_sent cs_handed ch_name ch_size ch_buf ch_closed ch_recvWaiters ch_sendWaiters ch_wakers
       with_buf with_receivers with_senders with_wakers mark_closed signalWakersLocked].

Lemma fresh_weaken n m (l : list (nat * raw)) : (n ≤ m)%nat → Forall (λ x, (x.1 < n)%nat) l → Forall (λ x, (x.1 < m)%nat) l.
Proof. intros Hnm Hl. eapply Forall_impl; [exact Hl|]. cbn. intros x. lia. Qed.
Lemma fresh_snoc n p (l : list (nat * raw)) : Forall (λ x, (x.1 < n)%nat) l → Forall (λ x, (x.1 < S n)%nat) (l ++ [(n, p)]).
Proof. intros Hl. apply Forall_app. split; [by eapply fresh_weaken; [|done]; lia|]. constructor; [cbn; lia|done]. Qed.
Lemma nodup_snoc n p (l : list (nat * raw)) : Forall (λ x, (x.1 < n)%nat) l → NoDup l.*1 → NoDup (l ++ [(n, p)]).*1.
Proof.
  intros Hl Hn. rewrite fmap_app. apply NoDup_app. split_and!; [done| |apply NoDup_singleton].
  intros i (x & -> & Hx)%list_elem_of_fmap Hi. apply list_elem_of_singleton in Hi. rewrite Forall_forall in Hl. specialize (Hl x Hx).
  cbn in Hi. lia.
Qed.
Create HintDb chan.
#[local] Hint Resolve fresh_snoc nodup_snoc : chan.
#[local] Hint Extern 1 (Forall _ _) => (eapply fresh_weaken; [|eassumption]; lia) : chan.

(** A readable channel has nobody waiting, so waking them all is a no-op. *)
Lemma no_sleepers c : chan_ok c → hasValue c = true → ch_recvWaiters c = [] ∧ ch_wakers c = [].
Proof. intros [H _]. exact H. Qed.

Lemma handed_wakes l : handed (Wake <$> l) = [].
Proof. induction l; [done|]. exact IHl. Qed.
Lemma handed_app a b : handed (a ++ b) = handed a ++ handed b.
Proof. apply omap_app. Qed.

Lemma send_inv p s : chan_inv s → chan_inv (chan_step (CSend p) s).
Proof.
  intros [Hok (pre & Hs & Hp) Hf Hn]. cbn [chan_step]. unfold Send. destruct (ch_closed (cs_chan s)) eqn:Hc.
  { split; chan_simpl; rewrite ?app_nil_r; eauto with chan. }
  destruct (ch_recvWaiters (cs_chan s)) as [|r rs] eqn:Hr.
  - destruct (_ && _) eqn:Hroom.
    + apply andb_true_iff in Hroom as [H0%Nat.ltb_lt Hl%Nat.ltb_lt].
      assert (ch_sendWaiters (cs_chan s) = []) as Hw.
      { destruct (ch_sendWaiters (cs_chan s)) eqn:E; [done|]. destruct Hok as (_ & Hok & _). rewrite E in Hok. pose proof (Hok ltac:(done)). lia. }
      cbn [signalWakersLocked]. rewrite Hw in Hs. cbn in Hs. rewrite app_nil_r in Hs.
      split; chan_simpl; rewrite ?handed_wakes, ?app_nil_r; eauto with chan.
      * split_and!; chan_simpl; [done| |congruence]. by rewrite Hw.
      * exists (pre ++ [(cs_next s, p)]). rewrite Hw, Hs. cbn. rewrite app_nil_r. split; [done|].
        by rewrite fmap_app, Hp, <-app_assoc.
    + assert (ch_size (cs_chan s) ≤ length (ch_buf (cs_chan s)))%nat as Hfull.
      { apply andb_false_iff in Hroom as [H0%Nat.ltb_ge|Hl%Nat.ltb_ge]; lia. }
      chan_simpl. set (c := with_senders _ _). change (ch_size (cs_chan s)) with (ch_size c).
      assert ((ch_size c =? 0)%nat = false → chan_ok c) as Hc0.
      { intros H0. split_and!; unfold c; chan_simpl; [|done|congruence]. intros Hv. rewrite Hr. split; [done|].
        apply no_sleepers; [done|]. revert Hv H0. unfold hasValue, c. chan_simpl. intros Hv H0. rewrite H0 in Hv |- *. exact Hv. }
      destruct (ch_size c =? 0)%nat eqn:H0; [cbn [signalWakersLocked]|]; split; chan_simpl; rewrite ?handed_wakes, ?app_nil_r; eauto with chan.
      * split_and!; unfold c; chan_simpl; [done|done|congruence].
      * exists pre. unfold c; chan_simpl. by rewrite tags_snoc, Hs, <-app_assoc.
      * exists pre. unfold c; chan_simpl. by rewrite tags_snoc, Hs, <-app_assoc.
  - destruct (receiver_empty _ Hok) as [Hb Hw]; [congruence|]. rewrite Hw in Hs. cbn in Hs. rewrite app_nil_r in Hs. rewrite Hb, app_nil_r in Hp.
    split; chan_simpl; eauto with chan.
    + destruct Hok as (H1 & H2 & H3). split_and!; chan_simpl; [|done|congruence]. intros Hv. destruct (H1 Hv). congruence.
    + exists (pre ++ [(cs_next s, p)]). rewrite Hw, Hb, Hs. cbn. rewrite !app_nil_r. split; [done|]. by rewrite fmap_app, Hp.
Qed.

(** Taking the oldest buffered value. *)
Lemma take_buffered_inv s p rest c out : chan_inv s → ch_buf (cs_chan s) = p :: rest → take_buffered p rest (cs_chan s) = (c, out) →
  chan_ok c ∧ ∃ pre, cs_sent s = pre ++ tags (ch_sendWaiters c) ∧ pre.*2 = (cs_handed s ++ [p]) ++ ch_buf c.
Proof.
  intros [Hok (pre & Hs & Hp) _ _] Hb. destruct (no_sleepers _ Hok) as [Hr Hk]. { unfold hasValue. by rewrite Hb. }
  destruct Hok as (_ & H2 & H3). unfold take_buffered. rewrite Hb in Hp, H2.
  destruct (ch_sendWaiters (cs_chan s)) as [|sw sws] eqn:Hw; intros [= <- <-]; chan_simpl.
  - split; [split_and!; chan_simpl; by rewrite ?Hw|]. exists pre. rewrite Hw. split; [done|]. by rewrite <-app_assoc.
  - split; [split_and!; chan_simpl; [done| |done]|].
    + intros _. rewrite length_app. cbn. pose proof (H2 ltac:(done)) as H. cbn in H. lia.
    + exists (pre ++ [(sw_id sw, sw_payload sw)]). rewrite Hs. unfold tags. cbn. rewrite <-app_assoc. split; [done|].
      rewrite fmap_app, Hp. cbn. by rewrite <-!app_assoc.
Qed.

(** Taking the value of the sender parked first on an unbuffered channel. *)
Lemma take_parked_inv s sw sws : chan_inv s → ch_buf (cs_chan s) = [] → ch_size (cs_chan s) = 0%nat → ch_sendWaiters (cs_chan s) = sw :: sws →
  chan_ok (with_senders sws (cs_chan s)) ∧ ∃ pre, cs_sent s = pre ++ tags sws ∧ pre.*2 = cs_handed s ++ [sw_payload sw].
Proof.
  intros [Hok (pre & Hs & Hp) _ _] Hb H0 Hw. destruct (no_sleepers _ Hok) as [Hr Hk]. { unfold hasValue. by rewrite Hb, H0, Hw. }
  split; [split_and!; chan_simpl; [done| |done]; rewrite H0; lia|].
  exists (pre ++ [(sw_id sw, sw_payload sw)]). rewrite Hs, Hw. unfold tags. cbn. rewrite <-app_assoc. split; [done|].
  by rewrite fmap_app, Hp, Hb, app_nil_r.
Qed.

(** Whoever parks on a channel that is not readable leaves it sound. *)
Lemma park_ok c : chan_ok c → hasValue c = false →
  (∀ w, chan_ok (with_receivers (ch_recvWaiters c ++ [w]) c)) ∧ (∀ w, chan_ok (with_wakers (ch_wakers c ++ [w]) c)).
Proof.
  intros (H1 & H2 & H3) Hv. pose proof (unreadable _ Hv) as (_ & Hc & _).
  split; intros w; split_and!; chan_simpl; try done; try congruence.
  - intros Hv'. change (hasValue c = true) in Hv'. congruence.
  - intros Hv'. change (hasValue c = true) in Hv'. congruence.
Qed.

Lemma receive_inv s : chan_inv s → chan_inv (chan_step CReceive s).
Proof.
  intros HI. pose proof HI as [Hok (pre & Hs & Hp) Hf Hn]. cbn [chan_step]. unfold Receive.
  destruct (ch_buf (cs_chan s)) as [|p rest] eqn:Hb.
  2: { destruct (take_buffered p rest (cs_chan s)) as [c out] eqn:E. destruct (take_buffered_inv s p rest c out) as [Hc (pre' & Hs' & Hp')]; [done..|].
       split; chan_simpl; eauto with chan. }
  destruct (ch_closed (cs_chan s)) eqn:Hc. { split; chan_simpl; rewrite ?app_nil_r; eauto with chan. exists pre. by rewrite Hs, Hb. }
  destruct (Nat.eqb_spec (ch_size (cs_chan s)) 0) as [H0|H0].
  1: destruct (ch_sendWaiters (cs_chan s)) as [|sw sws] eqn:Hw.
  2: { destruct (take_parked_inv s sw sws) as [Hc' (pre' & Hs' & Hp')]; [done..|]. split; chan_simpl; eauto with chan.
       exists pre'. by rewrite Hb, app_nil_r. }
  all: assert (hasValue (cs_chan s) = false) as Hv by (unfold hasValue; rewrite ?Hb, ?Hw, ?Hc, ?andb_false_r; cbn;
    by rewrite ?(proj2 (Nat.eqb_neq _ _) H0)).
  all: destruct (park_ok _ Hok Hv) as [Hpark _]; split; chan_simpl; rewrite ?app_nil_r; eauto with chan.
  all: exists pre; by rewrite Hs, Hp, ?Hw, ?Hb.
Qed.

Lemma receive_async_inv s : chan_inv s → chan_inv (chan_step CReceiveAsync s).
Proof.
  intros HI. pose proof HI as [Hok (pre & Hs & Hp) Hf Hn]. cbn [chan_step]. unfold ReceiveAsync.
  destruct (ch_buf (cs_chan s)) as [|p rest] eqn:Hb.
  2: { destruct (take_buffered p rest (cs_chan s)) as [c out] eqn:E. destruct (take_buffered_inv s p rest c out) as [Hc (pre' & Hs' & Hp')]; [done..|].
       split; chan_simpl; eauto with chan. }
  destruct (Nat.eqb_spec (ch_size (cs_chan s)) 0) as [H0|H0].
  1: destruct (ch_sendWaiters (cs_chan s)) as [|sw sws] eqn:Hw.
  2: { destruct (take_parked_inv s sw sws) as [Hc' (pre' & Hs' & Hp')]; [done..|]. split; chan_simpl; eauto with chan.
       exists pre'. by rewrite Hb, app_nil_r. }
  all: split; chan_simpl; rewrite ?app_nil_r; eauto with chan; exists pre; by rewrite Hs, Hp, ?Hw, ?Hb.
Qed.

Lemma close_inv s : chan_inv s → chan_inv (chan_step CClose s).
Proof.
  intros [Hok Hs Hf Hn]. cbn [chan_step]. unfold Close. destruct (ch_closed (cs_chan s)) eqn:Hc; [by split|].
  split; chan_simpl; eauto. destruct Hok as (_ & H2 & _). by split_and!.
Qed.

Lemma register_inv s : chan_inv s → chan_inv (chan_step CRegister s).
Proof.
  intros [Hok Hs Hf Hn]. cbn [chan_step]. unfold RegisterReadyWaker. destruct (_ || _ || _) eqn:E; split; chan_simpl; eauto with chan.
  apply orb_false_iff in E as [[E1 E2]%orb_false_iff E3]. apply park_ok; [done|]. unfold hasValue. by rewrite E1, E2.
Qed.

Lemma drop_receiver_nil w l : l = [] → drop_receiver w l = [].
Proof. by intros ->. Qed.

Lemma give_up_receive_inv w s : chan_inv s → chan_inv (chan_step (CGiveUpReceive w) s).
Proof.
  intros [(H1 & H2 & H3) Hs Hf Hn]. cbn [chan_step]. unfold cancel_receive. split; chan_simpl; eauto.
  split_and!; chan_simpl; [|done|by intros; apply drop_receiver_nil, H3]. intros Hv. destruct (H1 Hv) as [-> ->]. done.
Qed.

Lemma give_up_send_inv w s : chan_inv s → chan_inv (chan_step (CGiveUpSend w) s).
Proof.
  intros [(H1 & H2 & H3) (pre & Hs & Hp) Hf Hn]. cbn [chan_step]. unfold cancel_send. case_bool_decide as Hw.
  2: { rewrite drop_absent by done. split; chan_simpl; eauto. by split_and!. }
  rewrite Hs in Hn. rewrite Hs, withdraw_parked by done. split; chan_simpl; eauto.
  - split_and!; chan_simpl; [|by destruct (ch_sendWaiters (cs_chan s)); [|intros; apply H2]|done].
    intros Hv. apply H1. revert Hv. unfold hasValue. chan_simpl. destruct (ch_buf (cs_chan s)); [cbn|done].
    destruct (ch_size (cs_chan s) =? 0)%nat; [|done]. by destruct (ch_sendWaiters (cs_chan s)).
  - rewrite <-withdraw_parked by done. rewrite <-Hs. apply Forall_forall. intros x [_ Hx]%list_elem_of_filter. by eapply Forall_forall in Hf.
  - rewrite <-withdraw_parked by done. rewrite <-Hs in Hn |- *. eapply sublist_NoDup; [exact Hn|]. apply fmap_sublist, sublist_filter.
Qed.

Lemma take_drop_middle_perm {A} n (l : list A) x : take n l ++ x :: drop n l ≡ₚ l ++ [x].
Proof. rewrite <-Permutation_middle. rewrite take_drop. by rewrite Permutation_app_comm. Qed.

Lemma signal_inv p s : chan_inv s → chan_inv (chan_step (CSignal p) s).
Proof.
  intros [Hok (pre & Hs & Hp) Hf Hn]. cbn [chan_step].
  set (n := (length (cs_sent s) - _)%nat). assert (n = length pre) as Hlen.
  { unfold n. rewrite Hs, length_app. unfold tags. rewrite length_fmap. lia. }
  assert (take n (cs_sent s) = pre ∧ drop n (cs_sent s) = tags (ch_sendWaiters (cs_chan s))) as [Ht Hd].
  { rewrite Hlen, Hs. by rewrite take_app_length, drop_app_length. }
  pose proof (take_drop_middle_perm n (cs_sent s) (cs_next s, p)) as Hperm. rewrite Ht, Hd in Hperm |- *.
  assert (Forall (λ x, (x.1 < S (cs_next s))%nat) (pre ++ (cs_next s, p) :: tags (ch_sendWaiters (cs_chan s)))) as Hf'.
  { rewrite Hperm. by apply fresh_snoc. }
  assert (NoDup (pre ++ (cs_next s, p) :: tags (ch_sendWaiters (cs_chan s))).*1) as Hn'.
  { rewrite Hperm. by apply nodup_snoc. }
  clearbody n. unfold signal_async. chan_simpl. destruct (ch_recvWaiters (cs_chan s)) as [|r rs] eqn:Hr.
  - split; chan_simpl; cbn [app]; rewrite ?handed_wakes, ?app_nil_r; eauto.
    + destruct Hok as (_ & H2 & _). split_and!; chan_simpl; rewrite ?Hr; [done| |done]. rewrite length_app. intros. specialize (H2 ltac:(done)). lia.
    + exists (pre ++ [(cs_next s, p)]). rewrite <-app_assoc. split; [done|]. by rewrite fmap_app, Hp, <-app_assoc.
  - destruct (receiver_empty _ Hok) as [Hb Hw]; [congruence|]. rewrite Hb, Hw in *. chan_simpl. cbn [app].
    split; chan_simpl; cbn [app]; eauto.
    + destruct Hok as (H1 & H2 & H3). split_and!; chan_simpl; [|by rewrite Hw|].
      * intros Hv. split; [|done]. destruct H1 as [H1 _]; [|congruence]. revert Hv. unfold hasValue. chan_simpl. by rewrite Hb.
      * intros Hc. specialize (H3 Hc). congruence.
    + exists (pre ++ [(cs_next s, p)]). rewrite Hw. cbn. rewrite !app_nil_r. split; [done|]. rewrite fmap_app, Hp, app_nil_r.
      pose proof (handed_wakes (ch_wakers (cs_chan s))) as E. unfold handed in E. by rewrite E.
Qed.

Lemma step_inv l s : chan_inv s → chan_inv (chan_step l s).
Proof.
  destruct l; [apply send_inv|apply give_up_send_inv|apply receive_inv|apply give_up_receive_inv|apply receive_async_inv|
    apply close_inv|apply register_inv|apply signal_inv].
Qed.

Lemma run_inv name size ls : chan_inv (chan_run name size ls).
Proof.
  unfold chan_run. set (s := {| cs_chan := _; cs_next := _; cs_sent := _; cs_handed := _ |}).
  assert (chan_inv s) as H0. { split; cbn; [split_and!; done|by exists []|constructor|constructor]. }
  clearbody s. revert s H0. induction ls as [|l ls IH]; [done|]. intros s H0. cbn. by apply IH, step_inv.
Qed.

(** ** The bound of the buffer *)

Definition within (c : chanImpl) : Prop := (length (ch_buf c) ≤ ch_size c)%nat.

Lemma take_buffered_within p rest c : within c → ch_buf c = p :: rest → within (take_buffered p rest c).1.
Proof.
  unfold within, take_buffered. intros Hw Hb. rewrite Hb in Hw. cbn in Hw.
  destruct (ch_sendWaiters c); chan_simpl; cbn; rewrite ?length_app; cbn; lia.
Qed.

Lemma step_within l s : (∀ p, l ≠ CSignal p) → within (cs_chan s) → within (cs_chan (chan_step l s)).
Proof.
  intros Hl Hw. destruct l as [p|w| |w| | | |p]; cbn [chan_step]; [| | | | | | |by specialize (Hl p)].
  - unfold Send. destruct (ch_closed _); [done|]. destruct (ch_recvWaiters _); [|done]. destruct (_ && _) eqn:E.
    + apply andb_true_iff in E as [_ E%Nat.ltb_lt]. unfold within. chan_simpl. rewrite length_app. cbn. lia.
    + chan_simpl. by destruct (_ =? _)%nat.
  - done.
  - unfold Receive. destruct (ch_buf _) as [|p rest] eqn:Hb.
    + destruct (ch_closed _); [done|]. by destruct (if (_ =? _)%nat then _ else _).
    + pose proof (take_buffered_within p rest _ Hw Hb). by destruct (take_buffered _ _ _).
  - done.
  - unfold ReceiveAsync. destruct (ch_buf _) as [|p rest] eqn:Hb.
    + by destruct (if (_ =? _)%nat then _ else _).
    + pose proof (take_buffered_within p rest _ Hw Hb). by destruct (take_buffered _ _ _).
  - unfold Close. by destruct (ch_closed _).
  - unfold RegisterReadyWaker. by destruct (_ || _ || _).
Qed.

Lemma step_size l s : ch_size (cs_chan (chan_step l s)) = ch_size (cs_chan s).
Proof.
  assert (∀ p rest c, ch_size (take_buffered p rest c).1 = ch_size c) as Ht by (intros; unfold take_buffered; by destruct (ch_sendWaiters _)).
  destruct l as [p|w| |w| | | |p]; cbn [chan_step].
  - unfold Send. destruct (ch_closed _); [done|]. destruct (ch_recvWaiters _); [|done]. destruct (_ && _); [done|]. chan_simpl. by destruct (_ =? _)%nat.
  - done.
  - unfold Receive. destruct (ch_buf _) as [|p rest].
    + destruct (ch_closed _); [done|]. by destruct (if (_ =? _)%nat then _ else _).
    + specialize (Ht p rest (cs_chan s)). by destruct (take_buffered _ _ _).
  - done.
  - unfold ReceiveAsync. destruct (ch_buf _) as [|p rest].
    + by destruct (if (_ =? _)%nat then _ else _).
    + specialize (Ht p rest (cs_chan s)). by destruct (take_buffered _ _ _).
  - unfold Close. by destruct (ch_closed _).
  - unfold RegisterReadyWaker. by destruct (_ || _ || _).
  - unfold signal_async. chan_simpl. destruct (ch_recvWaiters _); [done|]. by destruct (ch_buf _ ++ _).
Qed.

Lemma run_size name size ls : ch_size (cs_chan (chan_run name size ls)) = size.
Proof.
  unfold chan_run. change size with (ch_size (newChan name size)) at 2. generalize (newChan name size) as c, 0%nat, (@nil (nat * raw)), (@nil raw).
  induction ls as [|l ls IH]; [done|]. intros c n a b. cbn [foldl].
  set (s := {| cs_chan := c; cs_next := n; cs_sent := a; cs_handed := b |}). etrans; [|exact (step_size l s)]. destruct (chan_step l s). apply IH.
Qed.

Lemma run_within name size ls : (∀ p, CSignal p ∉ ls) → within (cs_chan (chan_run name size ls)).
Proof.
  unfold chan_run. set (s := {| cs_chan := _; cs_next := _; cs_sent := _; cs_handed := _ |}).
  assert (within (cs_chan s)) as H0 by apply Nat.le_0_l. clearbody s. revert s H0.
  induction ls as [|l ls IH]; [done|]. intros s H0 Hl. cbn [foldl]. apply IH; [|intros p Hp; apply (Hl p); by right].
  apply step_within; [|done]. intros p ->. apply (Hl p). by left.
Qed.

(** ** Properties *)

(** (C38) A channel is a lossless FIFO queue. However goroutines send, receive, poll,
    give up, close and signal, the values handed to receivers followed by the values
    still in the channel are the values sent, in the order of the sends (less those
    a sender withdrew before anybody took them): none is lost, duplicated, reordered
    or invented. *)
Theorem channel_fifo name size ls :
  let s := chan_run name size ls in (cs_sent s).*2 = cs_handed s ++ contents (cs_chan s).
Proof.
  cbn zeta. destruct (run_inv name size ls) as [_ (pre & Hs & Hp) _ _]. rewrite Hs, fmap_app, tags_payloads, Hp. unfold contents. by rewrite app_assoc.
Qed.

(** No lost wake-up and no overrun. In every state a channel reaches, a readable
    channel has no parked receiver and no armed waker, so a selector never sleeps on
    a ready case; a sender is parked only when the buffer has no room; and without
    [SignalAsync] the buffer never exceeds its capacity. *)
Theorem channel_no_lost_wakeup name size ls :
  let c := cs_chan (chan_run name size ls) in
  (hasValue c = true → ch_recvWaiters c = [] ∧ ch_wakers c = []) ∧
  (ch_sendWaiters c ≠ [] → (size ≤ length (ch_buf c))%nat) ∧
  ((∀ p, CSignal p ∉ ls) → (length (ch_buf c) ≤ size)%nat).
Proof.
  cbn zeta. assert (ch_size (cs_chan (chan_run name size ls)) = size) as Hsz by apply run_size.
  destruct (run_inv name size ls) as [(H1 & H2 & _) _ _ _]. rewrite Hsz in H2. split_and!; [done..|].
  intros Hl. rewrite <-Hsz at 2. by apply run_within.
Qed.
