(* ===== verification/Coroutine.v ===== *)
(** The workflow-facing API: [pkg/sdk/workflow]. A workflow function is known only
    through the calls it makes: it is a tree whose nodes are calls on the
    [CoroutineEnv] interface (and on the futures and channels it hands out) and whose
    branches are the answers. [exec] runs such a tree against any implementation of
    the interface; [Worker] and [Stub] supply the two of the source.

    A future is named by the position at which it was created, a signal channel by
    its name; the function sees neither's contents except through [Get], [IsReady],
    [Select] and [Receive]. *)

From Corelib Require Import SpecFloat.
From Stdlib Require Import Ascii ZArith Lia.
From stdpp Require Import prelude strings gmap.
From S2P Require Import Prelude GoStrings Json Types EngineTypes GoTime Temporal Channel.

Local Open Scope Z_scope.

(** ** Names of activities *)

(** A Go value used as an activity or a child workflow: nil, a string, a function
    with its full runtime name, or anything else. *)
Inductive goref := RefNil | RefString (s : string) | RefFunc (full : string) | RefOther.

(** [strings.LastIndex(s, sep)] and what follows it. *)
Fixpoint after_last (c : ascii) (s : string) : option string :=
  match s with
  | EmptyString => None
  | String d r => match after_last c r with
                  | Some t => Some t
                  | None => if Ascii.eqb d c then Some r else None
                  end
  end.
Definition short_name (full : string) : string :=
  match after_last "." full with
  | Some t => if String.eqb t "" then full else t
  | None => full
  end.

(** [workflow.funcName] and [worker.funcName]: they differ on what is not a function. *)
Definition funcName (r : goref) : string := match r with RefFunc full => short_name full | _ => "unknown" end.
Definition worker_funcName (r : goref) : string := match r with RefFunc full => short_name full | _ => "" end.
Definition ActivityName (r : goref) : string :=
  match r with
  | RefNil => "nil"
  | RefString s => s
  | _ => funcName r
  end.

(** ** Options and contexts *)

Record ActivityOptions := {
  ao_TaskQueue : string;
  ao_ScheduleToStartTimeout : Z;
  ao_StartToCloseTimeout : Z;
  ao_ScheduleToCloseTimeout : Z;
  ao_HeartbeatTimeout : Z;
  ao_RetryPolicy : option temporalRetryPolicy;
  ao_WaitForCancellation : bool }.
Definition no_options : ActivityOptions :=
  {| ao_TaskQueue := ""; ao_ScheduleToStartTimeout := 0; ao_StartToCloseTimeout := 0; ao_ScheduleToCloseTimeout := 0;
     ao_HeartbeatTimeout := 0; ao_RetryPolicy := None; ao_WaitForCancellation := false |}.

Record LocalActivityOptions := {
  lo_ScheduleToCloseTimeout : Z;
  lo_StartToCloseTimeout : Z;
  lo_RetryPolicy : option temporalRetryPolicy }.
Definition no_local_options : LocalActivityOptions :=
  {| lo_ScheduleToCloseTimeout := 0; lo_StartToCloseTimeout := 0; lo_RetryPolicy := None |}.

(** [ctxImpl]: a chain of overrides, the innermost first; the root carries the env.
    A key is the package's own or a user's. *)
Inductive ctx_key := KLocalActivity | KUser (k : string).
#[export] Instance ctx_key_eq : EqDecision ctx_key.
Proof. solve_decision. Defined.
Inductive ctx_value := VLocal (o : LocalActivityOptions) | VUser (v : goany).
Inductive ctx_link := LinkOptions (o : ActivityOptions) | LinkValue (k : ctx_key) (v : ctx_value).
Definition Context_ := list ctx_link.

Definition WithActivityOptions (c : Context_) (o : ActivityOptions) : Context_ := LinkOptions o :: c.
Definition WithValue (c : Context_) (k : ctx_key) (v : ctx_value) : Context_ := LinkValue k v :: c.
Definition WithLocalActivityOptions (c : Context_) (o : LocalActivityOptions) : Context_ := WithValue c KLocalActivity (VLocal o).

Fixpoint activityOptions (c : Context_) : ActivityOptions :=
  match c with
  | [] => no_options
  | LinkOptions o :: _ => o
  | LinkValue _ _ :: c => activityOptions c
  end.
Fixpoint Value (c : Context_) (k : ctx_key) : option ctx_value :=
  match c with
  | [] => None
  | LinkOptions _ :: c => Value c k
  | LinkValue k' v :: c => if bool_decide (k' = k) then Some v else Value c k
  end.
Definition localActivityOptionsFromCtx (c : Context_) : LocalActivityOptions :=
  match Value c KLocalActivity with Some (VLocal o) => o | _ => no_local_options end.

(** ** Futures *)

(** A [future] and its one-shot slot, or the worker's [blockedFuture]. *)
Inductive future := Unsettled | Settled (value : raw) (err : option goerror) | Blocked.

Definition NewFuture : future := Unsettled.
Definition Settle (value : raw) (err : option goerror) (f : future) : future :=
  match f with Unsettled => Settled value err | _ => f end.
Definition IsReady (f : future) : bool := match f with Settled _ _ => true | _ => false end.

(** How [Get] ends: it returns an error and what it wrote through [valPtr], unwinds
    the episode, or parks the coroutine for good. [target] is nil, or says which
    documents unmarshal into the type [valPtr] points to. [done] is the error of a
    cancelled scope; when the future is settled too, the choice of Go's [select] is
    [race]. *)
Inductive get_outcome := GetReturns (err : option goerror) (value : option json) | GetUnwinds | GetParks.
Definition get_error : goerror := EPlain "workflow.Future.Get: decode".
Definition Get (target : option (json → bool)) (done : option goerror) (race : bool) (f : future) : get_outcome :=
  match f with
  | Blocked => GetUnwinds
  | Unsettled => match done with Some e => GetReturns (Some e) None | None => GetParks end
  | Settled value err =>
      match done, race with
      | Some e, true => GetReturns (Some e) None
      | _, _ =>
          match err with
          | Some e => GetReturns (Some e) None
          | None =>
              match target, value with
              | None, _ | _, RNone => GetReturns None None
              | Some accepts, RJson j => if accepts j then GetReturns None (Some j) else GetReturns (Some get_error) None
              | Some _, RBad => GetReturns (Some get_error) None
              end
          end
      end
  end.

(** ** Workflow functions *)

(** A value a function returns: an error, or anything else. *)
Inductive outv := OutErr (e : option goerror) | OutVal (v : goany).

(** A case of a selector, and which callback ran. *)
Inductive select_case := CaseFuture (h : nat) | CaseReceive (name : string).
Inductive fired := FiredNothing | FiredDefault | FiredFuture (i : nat) | FiredReceive (i : nat) (more : bool).

Inductive prog :=
| PReturn (outs : list outv)
| PPanic (text : string)
| PActivity (opts : ActivityOptions) (activity : goref) (args : list goany) (k : nat → prog)
| PFuture (value : raw) (err : option goerror) (k : nat → prog)
| PGet (h : nat) (target : option (json → bool)) (k : option goerror → option json → prog)
| PIsReady (h : nat) (k : bool → prog)
| PSelect (cases : list select_case) (has_default : bool) (k : fired → prog)
| PReceive (name : string) (k : option raw → prog)
| PReceiveAsync (name : string) (k : option raw → prog)
| PVersion (changeID : string) (minSupported maxSupported : Z) (k : Z → prog)
| PSideEffect (fn : bool) (k : goerror + raw → prog)
| PMutable (changeID : string) (fn : bool) (eq : option (json → json → bool)) (k : goerror + raw → prog)
| PUpsert (attrs : option (gmap string json)) (k : prog)
| PNow (k : Z → prog)
| PSleep (d : Z) (k : option goerror → prog).

(** ** The public helpers *)

Definition errNilContext : goerror := ETask "workflow.Context is nil" CodeApplication true [] (Some (EPlain "nil context")).

Definition ExecuteActivity (ctx : option Context_) (activity : goref) (args : list goany) (k : nat → prog) : prog :=
  match ctx with
  | None => PFuture RNone (Some errNilContext) k
  | Some c =>
      match activity with
      | RefNil => PFuture RNone (Some (NewError "nil activity" CodeApplication true [])) k
      | _ => PActivity (activityOptions c) activity args k
      end
  end.

Definition ExecuteLocalActivity (ctx : option Context_) (activity : goref) (args : list goany) (k : nat → prog) : prog :=
  match ctx with
  | None => PFuture RNone (Some errNilContext) k
  | Some c =>
      let o := localActivityOptionsFromCtx c in
      PActivity {| ao_TaskQueue := ""; ao_ScheduleToStartTimeout := 0; ao_StartToCloseTimeout := lo_StartToCloseTimeout o;
                   ao_ScheduleToCloseTimeout := lo_ScheduleToCloseTimeout o; ao_HeartbeatTimeout := 0;
                   ao_RetryPolicy := lo_RetryPolicy o; ao_WaitForCancellation := false |} activity args k
  end.

Definition DefaultVersion : Z := -1.
Definition GetVersion (ctx : option Context_) (changeID : string) (minSupported maxSupported : Z) (k : Z → prog) : prog :=
  match ctx with
  | None => k DefaultVersion
  | Some _ => PVersion changeID minSupported maxSupported k
  end.

(** The future [SideEffect] and [MutableSideEffect] wrap an outcome in. *)
Definition settle_outcome (k : nat → prog) (r : goerror + raw) : prog :=
  match r with
  | inl e => PFuture RNone (Some e) k
  | inr encoded => PFuture encoded None k
  end.
Definition SideEffect (ctx : option Context_) (fn : bool) (k : nat → prog) : prog :=
  match ctx with
  | None => PFuture RNone (Some errNilContext) k
  | Some _ => PSideEffect fn (settle_outcome k)
  end.
Definition MutableSideEffect (ctx : option Context_) (changeID : string) (fn : bool) (eq : option (json → json → bool)) (k : nat → prog) : prog :=
  match ctx with
  | None => PFuture RNone (Some errNilContext) k
  | Some _ => PMutable changeID fn eq (settle_outcome k)
  end.

Definition UpsertSearchAttributes (ctx : option Context_) (attrs : option (gmap string json)) (k : option goerror → prog) : prog :=
  match ctx with
  | None => k (Some errNilContext)
  | Some _ => PUpsert attrs (k None)
  end.

Definition Now (ctx : option Context_) (k : Z → prog) : prog :=
  match ctx with None => k 0 | Some _ => PNow k end.
Definition Sleep (ctx : option Context_) (d : Z) (k : option goerror → prog) : prog :=
  match ctx with None => k (Some (EPlain "workflow.Sleep: nil context")) | Some _ => PSleep d k end.

(** ** The runtime interface *)

(** What the process around a workflow function answers: the clock, the values of
    the functions given to [SideEffect] and [MutableSideEffect], and the choices
    Go's [select] makes between two ready cases. *)
Class Ambient := {
  amb_now : nat → Z;
  amb_value : nat → goany;
  amb_race : nat → bool
}.

(** [CoroutineEnv], as operations on its state. *)
Class CoroutineEnv (S : Type) := {
  ce_ExecuteActivity : ActivityOptions → goref → list goany → S → S * future;
  ce_GetSignalChannel : string → S → S * chanImpl;
  ce_update_signal : string → chanImpl → S → S;
  ce_root_err : S → option goerror;
  ce_race : S → S * bool;
  ce_GetVersion : string → Z → Z → S → S * Z;
  ce_SideEffect : bool → S → S * (goerror + raw);
  ce_MutableSideEffect : string → bool → option (json → json → bool) → S → S * (goerror + raw);
  ce_UpsertSearchAttributes : option (gmap string json) → S → S;
  ce_Now : S → S * Z;
  ce_Sleep : Z → S → S * option goerror
}.

(** How a workflow function ends: it returns, panics, unwinds at a blocked future,
    or never comes back. *)
Inductive outcome := Returned (outs : list outv) | Panicked (text : string) | EpisodeBlocked | Parked.

Section Exec.
Context {S : Type} `{CoroutineEnv S}.

Definition case_ready (fs : list future) (c : select_case) (s : S) : S * bool :=
  match c with
  | CaseFuture h => (s, match fs !! h with Some f => IsReady f | None => false end)
  | CaseReceive name => let '(s, ch) := ce_GetSignalChannel name s in (s, hasValue ch)
  end.

(** [readyIndex]: the first case that is ready. *)
Fixpoint readyIndex (fs : list future) (i : nat) (cases : list select_case) (s : S) : S * option nat :=
  match cases with
  | [] => (s, None)
  | c :: cases =>
      let '(s, b) := case_ready fs c s in
      if b then (s, Some i) else readyIndex fs (i + 1) cases s
  end.

Definition fire (cases : list select_case) (i : nat) (s : S) : S * fired :=
  match cases !! i with
  | Some (CaseFuture _) => (s, FiredFuture i)
  | Some (CaseReceive name) => let '(s, ch) := ce_GetSignalChannel name s in (s, FiredReceive i (more_values ch))
  | None => (s, FiredNothing)
  end.

(** [selector.Select] over [SelectFanIn]. Within an episode nothing settles a future
    or feeds a signal channel while the coroutine waits, so a wait that finds no
    case ready ends only with the scope: [None] is a wait that does not end. *)
Definition Select (fs : list future) (cases : list select_case) (has_default : bool) (s : S) : S * option fired :=
  match cases with
  | [] => (s, Some (if has_default then FiredDefault else FiredNothing))
  | _ =>
      let '(s, idx) := readyIndex fs 0 cases s in
      match idx with
      | Some i => let '(s, f) := fire cases i s in (s, Some f)
      | None =>
          if has_default then (s, Some FiredDefault)
          else (s, match ce_root_err s with Some _ => Some FiredNothing | None => None end)
      end
  end.

(** [Receive] on a signal channel; [None] outside is a wait that does not end,
    [None] inside is [ok = false]. *)
Definition receive_signal (name : string) (s : S) : S * option (option raw) :=
  let '(s, ch) := ce_GetSignalChannel name s in
  let '(ch', _, r) := Receive 0 ch in
  match r with
  | ReceiveValue p => (ce_update_signal name ch' s, Some (Some p))
  | ReceiveClosed => (s, Some None)
  | ReceivePark => (s, match ce_root_err s with Some _ => Some None | None => None end)
  end.
Definition receive_signal_async (name : string) (s : S) : S * option raw :=
  let '(s, ch) := ce_GetSignalChannel name s in
  let '(ch', _, r) := ReceiveAsync ch in
  (ce_update_signal name ch' s, r).

(** [Get] under the root scope. *)
Definition get_future (f : future) (target : option (json → bool)) (s : S) : S * get_outcome :=
  match ce_root_err s with
  | None => (s, Get target None false f)
  | Some e => let '(s, race) := ce_race s in (s, Get target (Some e) race f)
  end.

Definition nil_pointer : string := "invalid memory address or nil pointer dereference".

(** A handle that names no future is a nil pointer. *)
Fixpoint exec (p : prog) (fs : list future) (s : S) : S * outcome :=
  match p with
  | PReturn outs => (s, Returned outs)
  | PPanic text => (s, Panicked text)
  | PActivity opts a args k =>
      let '(s, f) := ce_ExecuteActivity opts a args s in exec (k (length fs)) (fs ++ [f]) s
  | PFuture value err k => exec (k (length fs)) (fs ++ [Settle value err NewFuture]) s
  | PGet h target k =>
      match fs !! h with
      | None => (s, Panicked nil_pointer)
      | Some f =>
          let '(s, r) := get_future f target s in
          match r with
          | GetReturns err v => exec (k err v) fs s
          | GetUnwinds => (s, EpisodeBlocked)
          | GetParks => (s, Parked)
          end
      end
  | PIsReady h k =>
      match fs !! h with
      | Some f => exec (k (IsReady f)) fs s
      | None => (s, Panicked nil_pointer)
      end
  | PSelect cases has_default k =>
      let '(s, r) := Select fs cases has_default s in
      match r with
      | Some f => exec (k f) fs s
      | None => (s, Parked)
      end
  | PReceive name k =>
      let '(s, r) := receive_signal name s in
      match r with
      | Some v => exec (k v) fs s
      | None => (s, Parked)
      end
  | PReceiveAsync name k => let '(s, v) := receive_signal_async name s in exec (k v) fs s
  | PVersion id lo hi k => let '(s, v) := ce_GetVersion id lo hi s in exec (k v) fs s
  | PSideEffect fn k => let '(s, r) := ce_SideEffect fn s in exec (k r) fs s
  | PMutable id fn eq k => let '(s, r) := ce_MutableSideEffect id fn eq s in exec (k r) fs s
  | PUpsert attrs k => exec k fs (ce_UpsertSearchAttributes attrs s)
  | PNow k => let '(s, t) := ce_Now s in exec (k t) fs s
  | PSleep d k => let '(s, e) := ce_Sleep d s in exec (k e) fs s
  end.

End Exec.
