(* ===== verification/Waits.v ===== *)
(** How a coroutine waits ([timer.go], [selector.go] of [sdk/workflow], the timers,
    selects and cancel scopes of the two environments): a select watches each of its
    cases from a goroutine of its own, a timer settles a future from another. Each
    label is a critical section or a communication; whoever else uses the futures and
    the channels moves between any two of them. *)

From Stdlib Require Import ZArith Lia.
From stdpp Require Import prelude strings gmap.
From S2P Require Import Prelude GoStrings Json EngineTypes Temporal Channel Coroutine.

(** ** What is waited for *)

(** [SelectCase]: a future or a channel, by its position. *)
Inductive wait_case := WaitFuture (h : nat) | WaitChannel (c : nat).

(** What a select shares with the rest of the process. *)
Record surroundings := { su_futures : list future; su_channels : list chan_system; su_done : bool }.
Definition with_futures (fs : list future) (e : surroundings) : surroundings :=
  {| su_futures := fs; su_channels := su_channels e; su_done := su_done e |}.
Definition with_channels (cs : list chan_system) (e : surroundings) : surroundings :=
  {| su_futures := su_futures e; su_channels := cs; su_done := su_done e |}.
Definition done_closed (e : surroundings) : surroundings := {| su_futures := su_futures e; su_channels := su_channels e; su_done := true |}.

(** The test of [readyIndex] on one case. *)
Definition wait_ready (e : surroundings) (x : wait_case) : bool :=
  match x with
  | WaitFuture h => match su_futures e !! h with Some f => IsReady f | None => false end
  | WaitChannel c => match su_channels e !! c with Some s => hasValue (cs_chan s) | None => false end
  end.

(** The signals a critical section of a channel sends to whoever is parked on it. *)
Definition chan_signals (l : chan_label) (s : chan_system) : list signal :=
  let c := cs_chan s in let w := cs_next s in
  match l with
  | CSend p => (Send w p c).1.2
  | CReceive => (Receive w c).1.2
  | CReceiveAsync => (ReceiveAsync c).1.2
  | CClose => (Close c).2
  | CRegister => (RegisterReadyWaker w c).2
  | CSignal p => (signal_async p c).2
  | CGiveUpSend _ | CGiveUpReceive _ => []
  end.
Definition is_wake (w : nat) (g : signal) : bool := match g with Wake v => (v =? w)%nat | _ => false end.
Definition wakes (w : nat) (out : list signal) : bool := existsb (is_wake w) out.

(** ** [SelectFanIn] *)

(** The goroutine of a case: parked on the future or on its waker (a channel of one
    slot), about to send its index, or ended. *)
Inductive watcher := NotStarted | OnFuture (h : nat) | OnWaker (w : nat) (token : bool) | Sending | Ended.
Inductive sel_phase :=
| Scanning (n : nat) | Registering (n : nat) | Waiting | Rechecking (idx n : nat) | SelReturned (r : option nat).

Record sel := { se_cases : list wait_case; se_around : surroundings; se_phase : sel_phase; se_watch : list watcher; se_wake : list nat }.
Definition sel_with (e : surroundings) (ph : sel_phase) (ws : list watcher) (q : list nat) (s : sel) : sel :=
  {| se_cases := se_cases s; se_around := e; se_phase := ph; se_watch := ws; se_wake := q |}.
Definition SelectFanIn (cases : list wait_case) (e : surroundings) : sel :=
  {| se_cases := cases; se_around := e; se_phase := Scanning 0; se_watch := replicate (length cases) NotStarted; se_wake := [] |}.

(** The non-blocking send on the wakers that belong to this select. *)
Definition notify (c : nat) (out : list signal) (x : wait_case) (g : watcher) : watcher :=
  match x, g with
  | WaitChannel c', OnWaker w t => if (c' =? c)%nat then OnWaker w (t || wakes w out) else g
  | _, _ => g
  end.

(** The labels: the rest of the process settles a future, uses a channel, or closes the
    done channel; the caller goes on, takes a wake-up, or sees the done channel; the
    goroutine of a case notices, sends its index, or leaves once the caller returned. *)
Inductive sel_label :=
| LSettle (h : nat) (value : raw) (err : option goerror) | LChan (c : nat) (l : chan_label) | LDone
| LMain | LTake | LAbort | LNotice (k : nat) | LPush (k : nat) | LLeave (k : nat).
Definition internal (l : sel_label) : bool := match l with LSettle _ _ _ | LChan _ _ | LDone => false | _ => true end.

Definition sel_settle (h : nat) (v : raw) (err : option goerror) (s : sel) : option sel :=
  let e := se_around s in
  f ← su_futures e !! h;
  Some (sel_with (with_futures (<[h := Settle v err f]> (su_futures e)) e) (se_phase s) (se_watch s) (se_wake s) s).
Definition sel_chan (c : nat) (l : chan_label) (s : sel) : option sel :=
  let e := se_around s in
  x ← su_channels e !! c;
  Some (sel_with (with_channels (<[c := chan_step l x]> (su_channels e)) e) (se_phase s)
          (zip_with (notify c (chan_signals l x)) (se_cases s) (se_watch s)) (se_wake s) s).

Definition start_watch (n : nat) (x : wait_case) (s : sel) : option sel :=
  let e := se_around s in
  match x with
  | WaitFuture h => Some (sel_with e (Registering (S n)) (<[n := OnFuture h]> (se_watch s)) (se_wake s) s)
  | WaitChannel c =>
      x ← su_channels e !! c;
      let w := cs_next x in
      Some (sel_with (with_channels (<[c := chan_step CRegister x]> (su_channels e)) e) (Registering (S n))
              (<[n := OnWaker w (wakes w (chan_signals CRegister x))]> (se_watch s)) (se_wake s) s)
  end.

Definition sel_goto (ph : sel_phase) (s : sel) : sel := sel_with (se_around s) ph (se_watch s) (se_wake s) s.
Definition sel_main (s : sel) : option sel :=
  match se_phase s with
  | Scanning n =>
      match se_cases s !! n with
      | Some x => Some (sel_goto (if wait_ready (se_around s) x then SelReturned (Some n) else Scanning (S n)) s)
      | None => Some (sel_goto (if nonempty (se_cases s) then Registering 0 else SelReturned None) s)
      end
  | Registering n => match se_cases s !! n with Some x => start_watch n x s | None => Some (sel_goto Waiting s) end
  | Rechecking idx n =>
      match se_cases s !! n with
      | Some x => Some (sel_goto (if wait_ready (se_around s) x then SelReturned (Some (if (n <? idx)%nat then n else idx)) else Rechecking idx (S n)) s)
      | None => Some (sel_goto (SelReturned (Some idx)) s)
      end
  | Waiting | SelReturned _ => None
  end.
Definition sel_take (s : sel) : option sel :=
  match se_phase s, se_wake s with
  | Waiting, idx :: q =>
      Some (sel_with (se_around s) (if (idx <? length (se_cases s))%nat then Rechecking idx 0 else SelReturned None) (se_watch s) q s)
  | _, _ => None
  end.
Definition sel_abort (s : sel) : option sel :=
  match se_phase s with Waiting => if su_done (se_around s) then Some (sel_goto (SelReturned None) s) else None | _ => None end.

Definition sel_watch (k : nat) (g : watcher) (q : list nat) (s : sel) : sel := sel_with (se_around s) (se_phase s) (<[k := g]> (se_watch s)) q s.
Definition sel_notice (k : nat) (s : sel) : option sel :=
  g ← se_watch s !! k;
  match g with
  | OnFuture h => if wait_ready (se_around s) (WaitFuture h) then Some (sel_watch k Sending (se_wake s) s) else None
  | OnWaker _ true => Some (sel_watch k Sending (se_wake s) s)
  | _ => None
  end.
(** The queue has a slot more than there are cases. *)
Definition sel_push (k : nat) (s : sel) : option sel :=
  g ← se_watch s !! k;
  match g with
  | Sending => if (length (se_wake s) <? length (se_cases s) + 1)%nat then Some (sel_watch k Ended (se_wake s ++ [k]) s) else None
  | _ => None
  end.
Definition sel_leave (k : nat) (s : sel) : option sel :=
  g ← se_watch s !! k;
  match se_phase s, g with
  | SelReturned _, (OnFuture _ | OnWaker _ _ | Sending) => Some (sel_watch k Ended (se_wake s) s)
  | _, _ => None
  end.

Definition sel_step (l : sel_label) (s : sel) : option sel :=
  match l with
  | LSettle h v err => sel_settle h v err s
  | LChan c l => sel_chan c l s
  | LDone => Some (sel_with (done_closed (se_around s)) (se_phase s) (se_watch s) (se_wake s) s)
  | LMain => sel_main s
  | LTake => sel_take s
  | LAbort => sel_abort s
  | LNotice k => sel_notice k s
  | LPush k => sel_push k s
  | LLeave k => sel_leave k s
  end.
Fixpoint sel_run (ls : list sel_label) (s : sel) : option sel :=
  match ls with [] => Some s | l :: ls => s ← sel_step l s; sel_run ls s end.

(** ** Channels as a select sees them *)

Lemma wakes_all w l : wakes w (Wake <$> l) = bool_decide (w ∈ l).
Proof.
  induction l as [|v l IH]; [done|]. cbn. unfold wakes in IH. rewrite IH. destruct (Nat.eqb_spec v w) as [->|Hn]; cbn.
  - symmetry. apply bool_decide_eq_true_2. by left.
  - apply bool_decide_ext. rewrite elem_of_cons. naive_solver.
Qed.
Lemma wakes_app w a b : wakes w (a ++ b) = wakes w a || wakes w b.
Proof. apply existsb_app. Qed.
Lemma wakes_delivered w l : wakes w ((λ r, Deliver r RNone false) <$> l) = false.
Proof. induction l; [done|]. exact IHl. Qed.
Lemma take_buffered_wakers p rest c : ch_wakers (take_buffered p rest c).1 = ch_wakers c ∧ ∀ w, wakes w (take_buffered p rest c).2 = false.
Proof. unfold take_buffered. by destruct (ch_sendWaiters c). Qed.
Lemma register_ready w c : RegisterReadyWaker w c = if hasValue c then (c, [Wake w]) else (with_wakers (ch_wakers c ++ [w]) c, []).
Proof. unfold RegisterReadyWaker, hasValue. destruct (nonempty (ch_buf c)); [done|]. cbn [orb]. by destruct (_ && _). Qed.

(** What a critical section does to a waker: it stays armed, or it is woken; it is woken
    only if the channel is readable after it or a signal was sent. *)
Lemma chan_wakers l x w :
  (w ∈ ch_wakers (cs_chan x) → w ∈ ch_wakers (cs_chan (chan_step l x)) ∨ wakes w (chan_signals l x) = true) ∧
  (wakes w (chan_signals l x) = true → hasValue (cs_chan (chan_step l x)) = true ∨ ∃ p, l = CSignal p).
Proof.
  destruct l as [p|v| |v| | | |p]; cbn [chan_step chan_signals].
  - unfold Send. destruct (ch_closed (cs_chan x)) eqn:Ec; [by split; [left|]|]. destruct (ch_recvWaiters _); [|by split; [left|]].
    destruct (_ && _) eqn:E; chan_simpl; cbn [fst snd].
    + rewrite wakes_all. split; [intros; right; by apply bool_decide_eq_true_2|]. intros _. left. unfold hasValue. chan_simpl. by destruct (ch_buf (cs_chan x)).
    + destruct (ch_size (cs_chan x) =? 0)%nat eqn:E0; chan_simpl; cbn [fst snd]; [|by split; [left|]].
      rewrite wakes_all. split; [intros; right; by apply bool_decide_eq_true_2|]. intros _. left. unfold hasValue. chan_simpl. rewrite E0.
      destruct (nonempty (ch_buf _)); [done|]. by destruct (ch_sendWaiters (cs_chan x)).
  - by split; [left|].
  - unfold Receive. destruct (ch_buf (cs_chan x)) as [|p rest].
    + destruct (ch_closed _); [by split; [left|]|]. destruct (if (_ =? _)%nat then _ else _); by split; [left|].
    + destruct (take_buffered_wakers p rest (cs_chan x)) as [H1 H2]. destruct (take_buffered _ _ _) as [c out]. cbn in *. rewrite H1, H2. by split; [left|].
  - by split; [left|].
  - unfold ReceiveAsync. destruct (ch_buf (cs_chan x)) as [|p rest].
    + destruct (if (_ =? _)%nat then _ else _); by split; [left|].
    + destruct (take_buffered_wakers p rest (cs_chan x)) as [H1 H2]. destruct (take_buffered _ _ _) as [c out]. cbn in *. rewrite H1, H2. by split; [left|].
  - unfold Close. destruct (ch_closed _); [by split; [left|]|]. chan_simpl. cbn [snd]. rewrite wakes_app, wakes_delivered, wakes_all. cbn [orb].
    split; [intros; right; by apply bool_decide_eq_true_2|]. intros _. left. unfold hasValue. chan_simpl. destruct (nonempty _); [done|]. by destruct (_ && _).
  - rewrite register_ready. destruct (hasValue _) eqn:Ev; chan_simpl; cbn [fst snd].
    + split; [by left|]. intros _. by left.
    + split; [|done]. intros. left. apply elem_of_app. by left.
  - split; [|intros _; right; by exists p]. intros Hw. right. unfold signal_async. chan_simpl.
    destruct (ch_recvWaiters _); [|destruct (_ ++ [p])]; chan_simpl; cbn [snd];
      rewrite wakes_app, wakes_all; apply orb_true_iff; right; by apply bool_decide_eq_true_2.
Qed.

(** ** The invariant of a select *)

Section Invariant.
Context (cases : list wait_case) (e0 : surroundings).

(** A watcher looks at the case it was started for; an armed one is on the channel. *)
Definition watch_ok (e : surroundings) (k : nat) (g : watcher) : Prop :=
  match g with
  | OnFuture h => cases !! k = Some (WaitFuture h)
  | OnWaker w t => ∃ c x, cases !! k = Some (WaitChannel c) ∧ su_channels e !! c = Some x ∧ (t = false → w ∈ ch_wakers (cs_chan x))
  | _ => True
  end.
Definition phase_ok (ph : sel_phase) (k : nat) (g : watcher) (q : list nat) : Prop :=
  match ph with
  | Scanning _ => g = NotStarted
  | Registering n => (n ≤ k → g = NotStarted)%nat ∧ (k < n → g ≠ NotStarted)%nat ∧ (g = Ended → k ∈ q)
  | Waiting => g ≠ NotStarted ∧ (g = Ended → k ∈ q)
  | Rechecking _ _ | SelReturned _ => True
  end.
Record sel_inv (s : sel) : Prop := {
  si_cases : se_cases s = cases;
  si_length : length (se_watch s) = length cases;
  si_chans : Forall chan_inv (su_channels (se_around s));
  si_valid : ∀ k c, cases !! k = Some (WaitChannel c) → is_Some (su_channels (se_around s) !! c);
  si_watch : ∀ k g, se_watch s !! k = Some g → watch_ok (se_around s) k g ∧ phase_ok (se_phase s) k g (se_wake s);
  si_nodup : NoDup (se_wake s);
  si_wake : ∀ k, k ∈ se_wake s → se_watch s !! k = Some Ended }.

Lemma wake_lt s k : sel_inv s → k ∈ se_wake s → (k < length cases)%nat.
Proof. intros Hs Hk. rewrite <-(si_length _ Hs). by eapply lookup_lt_Some, si_wake. Qed.
(** The queue of indexes never fills. *)
Lemma wake_short s : sel_inv s → (length (se_wake s) < length cases + 1)%nat.
Proof.
  intros Hs. enough (length (se_wake s) ≤ length (seq 0 (length cases)))%nat as H by (rewrite length_seq in H; lia).
  apply submseteq_length, NoDup_submseteq; [apply si_nodup, Hs|]. intros k Hk. apply elem_of_seq. pose proof (wake_lt s k Hs Hk). lia.
Qed.

Lemma start_inv : (∀ k c, cases !! k = Some (WaitChannel c) → is_Some (su_channels e0 !! c)) → Forall chan_inv (su_channels e0) →
  sel_inv (SelectFanIn cases e0).
Proof.
  intros Hv Hc. split; cbn; [done|by rewrite length_replicate|done|done| |constructor|by intros k ?%not_elem_of_nil].
  intros k g [-> _]%lookup_replicate. done.
Qed.

(** Moving on without touching watchers or queue. *)
Lemma goto_inv s ph : sel_inv s → (∀ k g, se_watch s !! k = Some g → phase_ok (se_phase s) k g (se_wake s) → phase_ok ph k g (se_wake s)) →
  sel_inv (sel_goto ph s).
Proof. intros [] Hp. split; cbn; [done..| |done|done]. intros k g Hg. destruct (si_watch0 k g Hg). auto. Qed.

(** A watcher that moves to [Sending] or [Ended]. *)
Lemma watch_inv s k g g' q : sel_inv s → se_watch s !! k = Some g → g ≠ NotStarted → g ≠ Ended →
  (g' = Sending ∧ q = se_wake s ∨ g' = Ended ∧ (q = se_wake s ++ [k] ∨ q = se_wake s ∧ ∃ r, se_phase s = SelReturned r)) →
  sel_inv (sel_watch k g' q s).
Proof.
  intros Hs Hg Hn He Hq. pose proof Hs as []. destruct (si_watch0 k g Hg) as [_ Hp].
  assert (k ∉ se_wake s) as Hk by (intros Hk; specialize (si_wake0 k Hk); congruence).
  assert (k < length (se_watch s))%nat as Hlt by by eapply lookup_lt_Some.
  split; cbn; [done|by rewrite length_insert|done|done| | |].
  - intros j f. rewrite list_lookup_insert_Some. intros [(<- & <- & _)|(Hj & Hf)].
    + split; [by destruct Hq as [[-> _]|[-> _]]|]. destruct (se_phase s) eqn:Eph; cbn in *; [done|..|done|done].
      * destruct Hp as (H1 & H2 & H3). destruct Hq as [[-> ->]|[-> [->|[_ [? [=]]]]]]; (split; [|split]); try done; intros; first [discriminate|exfalso; by apply Hn, H1|apply elem_of_app; right; by left].
      * destruct Hq as [[-> ->]|[-> [->|[_ [? [=]]]]]]; (split; [done|]); intros; [discriminate|]. apply elem_of_app. right. by left.
    + destruct (si_watch0 j f Hf) as [H1 H2]. split; [done|]. destruct (se_phase s); cbn in *; try done.
      * destruct H2 as (? & ? & H3). split_and!; [done..|]. intros E. specialize (H3 E). destruct Hq as [[_ ->]|[_ [->|[-> _]]]]; [done| |done]. apply elem_of_app. by left.
      * destruct H2 as (? & H3). split; [done|]. intros E. specialize (H3 E). destruct Hq as [[_ ->]|[_ [->|[-> _]]]]; [done| |done]. apply elem_of_app. by left.
  - destruct Hq as [[_ ->]|[_ [->|[-> _]]]]; [done| |done]. apply NoDup_app. split_and!; [done| |apply NoDup_singleton]. intros j Hj ->%list_elem_of_singleton. done.
  - intros j Hj. assert (j = k ∧ g' = Ended ∨ j ≠ k ∧ j ∈ se_wake s) as [[-> ->]|[Hjk Hj']].
    { destruct (decide (j = k)) as [->|Hjk].
      - left. split; [done|]. destruct Hq as [[_ ->]|[-> _]]; [by destruct Hk|done].
      - right. split; [done|]. destruct Hq as [[_ ->]|[_ [->|[-> _]]]]; [done| |done]. apply elem_of_app in Hj as [Hj|Hj]; [done|]. by apply list_elem_of_singleton in Hj. }
    + by apply list_lookup_insert_eq.
    + rewrite list_lookup_insert_ne by done. auto.
Qed.

Lemma notify_shape c out x g : (notify c out x g = NotStarted ↔ g = NotStarted) ∧ (notify c out x g = Ended ↔ g = Ended).
Proof. destruct x, g; cbn; try done. by destruct (_ =? _)%nat. Qed.
Lemma phase_notify ph k c out x g q : phase_ok ph k g q → phase_ok ph k (notify c out x g) q.
Proof. destruct (notify_shape c out x g) as [H1 H2]. destruct ph; cbn; rewrite ?H1, ?H2; done. Qed.
Lemma notified s c out k g' : sel_inv s → zip_with (notify c out) (se_cases s) (se_watch s) !! k = Some g' →
  ∃ x g, cases !! k = Some x ∧ se_watch s !! k = Some g ∧ g' = notify c out x g.
Proof. intros Hs (x & g & -> & Hx & Hg)%lookup_zip_with_Some. rewrite (si_cases _ Hs) in Hx. by exists x, g. Qed.

Lemma chan_keeps s c l x s' : sel_inv s → su_channels (se_around s) !! c = Some x → sel_chan c l s = Some s' → sel_inv s'.
Proof.
  intros Hs Hx. unfold sel_chan. rewrite Hx. cbn. intros [= <-]. pose proof Hs as []. rewrite Forall_forall in si_chans0.
  split; cbn; [done| | | | |done|].
  - rewrite length_zip_with_l_eq; [by rewrite si_cases0|]. by rewrite si_cases0, si_length0.
  - apply Forall_insert; [by rewrite Forall_forall|]. apply step_inv, si_chans0. by eapply list_elem_of_lookup_2.
  - intros k d Hk. destruct (decide (d = c)) as [->|Hd]; [|rewrite list_lookup_insert_ne by done; by eapply si_valid0].
    exists (chan_step l x). apply list_lookup_insert_eq. by eapply lookup_lt_Some.
  - intros k g' Hg'. destruct (notified _ _ _ _ _ Hs Hg') as (y & g & Hy & Hg & ->). destruct (si_watch0 k g Hg) as [Hw Hp].
    split; [|by apply phase_notify]. destruct g as [|h|w t| |]; [by destruct y|by destruct y| |by destruct y|by destruct y].
    destruct Hw as (d & z & Hd & Hz & Ht). rewrite Hd in Hy. injection Hy as <-. cbn [notify]. destruct (Nat.eqb_spec d c) as [->|Hne].
    + exists c, (chan_step l x). split_and!; [done|apply list_lookup_insert_eq; by eapply lookup_lt_Some|]. intros [-> Hnw]%orb_false_iff.
      rewrite Hx in Hz. injection Hz as <-. destruct (proj1 (chan_wakers l x w) (Ht eq_refl)) as [|]; [done|congruence].
    + exists d, z. split_and!; [done|cbn; by rewrite list_lookup_insert_ne|done].
  - intros k Hk. pose proof (si_wake0 k Hk) as Hg. assert (is_Some (cases !! k)) as [y Hy] by by apply lookup_lt_is_Some, (wake_lt s).
    apply lookup_zip_with_Some. exists y, Ended. rewrite si_cases0. split_and!; [by destruct y|done..].
Qed.

Lemma start_keeps s n x s' : sel_inv s → se_phase s = Registering n → cases !! n = Some x → start_watch n x s = Some s' → sel_inv s'.
Proof.
  intros Hs Eph Hx. pose proof Hs as []. assert (n < length (se_watch s))%nat as Hn by (rewrite si_length0; by eapply lookup_lt_Some).
  assert (∀ k g, se_watch s !! k = Some g → k ≠ n → phase_ok (Registering (S n)) k g (se_wake s)) as Hrest.
  { intros k g Hg Hk. destruct (si_watch0 k g Hg) as [_ Hp]. rewrite Eph in Hp. cbn in *. destruct Hp as (? & ? & ?). split_and!; [|intros..|done]; intros; auto with lia. }
  assert (n ∉ se_wake s) as Hnw.
  { intros Hw. pose proof (si_wake0 n Hw) as Hg. destruct (si_watch0 _ _ Hg) as [_ Hp]. rewrite Eph in Hp. destruct Hp as [Hp _]. discriminate (Hp (le_n _)). }
  unfold start_watch. destruct x as [h|c].
  - intros [= <-]. split; cbn; [done|by rewrite length_insert|done|done| |done|].
    + intros k g. rewrite list_lookup_insert_Some. intros [(<- & <- & _)|(Hk & Hg)]; [by split; [|split_and!; [lia|done|done]]|].
      split; [by apply (si_watch0 k g Hg)|]. by apply Hrest.
    + intros k Hk. rewrite list_lookup_insert_ne by congruence. auto.
  - destruct (su_channels (se_around s) !! c) as [y|] eqn:Hy; [|done]. cbn [mbind option_bind]. intros [= <-]. rewrite Forall_forall in si_chans0.
    assert (c < length (su_channels (se_around s)))%nat as Hc by by eapply lookup_lt_Some.
    split; cbn; [done|by rewrite length_insert| | | |done|].
    + apply Forall_insert; [by rewrite Forall_forall|]. apply (step_inv CRegister), si_chans0. by eapply list_elem_of_lookup_2.
    + intros k d Hk. destruct (decide (d = c)) as [->|Hd]; [|rewrite list_lookup_insert_ne by done; by eapply si_valid0].
      eexists. by apply list_lookup_insert_eq.
    + intros k g. rewrite list_lookup_insert_Some. intros [(<- & <- & _)|(Hk & Hg)].
      * split; [|split_and!; [lia|done|done]]. exists c, (chan_step CRegister y). split_and!; [done|by apply list_lookup_insert_eq|].
        cbn [chan_step chan_signals]. rewrite register_ready. destruct (hasValue _); cbn; [by rewrite Nat.eqb_refl|]. intros _. apply elem_of_app. right. by left.
      * split; [|by apply Hrest]. destruct (si_watch0 k g Hg) as [Hw _]. destruct g as [|h|w t| |]; try done.
        destruct Hw as (d & z & Hd & Hz & Ht). destruct (decide (d = c)) as [->|Hne]; [|exists d, z; cbn; by rewrite list_lookup_insert_ne].
        exists c, (chan_step CRegister y). split_and!; [done|by apply list_lookup_insert_eq|]. intros ->. rewrite Hy in Hz. injection Hz as <-. specialize (Ht eq_refl).
        cbn [chan_step]. rewrite register_ready. destruct (hasValue _); [done|]. cbn. apply elem_of_app. by left.
    + intros k Hk. rewrite list_lookup_insert_ne by congruence. auto.
Qed.

Lemma sel_step_inv l s s' : sel_inv s → sel_step l s = Some s' → sel_inv s'.
Proof.
  intros Hs. pose proof Hs as []. destruct l as [h v err|c l| | | | |k|k|k]; cbn [sel_step].
  - unfold sel_settle. destruct (_ !! h); [|done]. cbn. intros [= <-]. by split.
  - intros E. unfold sel_chan in E. destruct (su_channels (se_around s) !! c) as [x|] eqn:Hx; [|done]. eapply chan_keeps; [done|exact Hx|]. unfold sel_chan. by rewrite Hx.
  - intros [= <-]. by split.
  - unfold sel_main. rewrite si_cases0. destruct (se_phase s) as [n|n| |idx n|r] eqn:Eph; [..|done].
    + destruct (cases !! n) as [x|]; intros [= <-]; apply goto_inv; try done; intros k g _; rewrite Eph.
      * by destruct (wait_ready _ x).
      * destruct (nonempty cases); cbn; [|done]. intros ->. split_and!; [done|lia|done].
    + destruct (cases !! n) as [x|] eqn:Hx; [by eapply start_keeps|]. intros [= <-]. apply goto_inv; [done|]. intros k g Hg. rewrite Eph. cbn.
      intros (_ & Hp & ?). split; [|done]. apply Hp. apply lookup_ge_None in Hx. apply lookup_lt_Some in Hg. lia.
    + done.
    + destruct (cases !! n) as [x|]; intros [= <-]; apply goto_inv; try done; intros k g _ _. by destruct (wait_ready _ x).
  - unfold sel_take. destruct (se_phase s) eqn:Eph; [done..| |done|done]. destruct (se_wake s) as [|idx q] eqn:Eq; [done|]. intros [= <-]. rewrite si_cases0.
    rewrite NoDup_cons in si_nodup0. split; cbn; [done..| |by destruct si_nodup0|].
    + intros k g Hg. destruct (si_watch0 k g Hg) as [H _]. split; [done|]. by repeat case_match.
    + intros k Hk. apply si_wake0. by right.
  - unfold sel_abort. destruct (se_phase s); [done..| |done|done]. destruct (su_done _); [|done]. intros [= <-]. by apply goto_inv.
  - unfold sel_notice. destruct (se_watch s !! k) as [g|] eqn:Hg; [|done]. cbn [mbind option_bind].
    destruct g as [|h|w [|]| |]; try done; [destruct (wait_ready _ _); [|done]|]; intros [= <-]; eapply watch_inv; try done; by left.
  - unfold sel_push. destruct (se_watch s !! k) as [g|] eqn:Hg; [|done]. cbn [mbind option_bind].
    destruct g; try done. destruct (_ <? _)%nat; [|done]. intros [= <-]. eapply watch_inv; try done. right. split; [done|by left].
  - unfold sel_leave. destruct (se_watch s !! k) as [g|] eqn:Hg; [|done]. cbn [mbind option_bind].
    destruct (se_phase s) eqn:Eph, g; try done; intros [= <-]; (eapply watch_inv; try done); right; (split; [done|]); right; (split; [done|]); by eexists.
Qed.
Lemma sel_run_inv ls s s' : sel_inv s → sel_run ls s = Some s' → sel_inv s'.
Proof.
  revert s. induction ls as [|l ls IH]; intros s Hs; cbn; [by intros [= <-]|]. destruct (sel_step l s) as [s1|] eqn:E; [|done]. cbn.
  apply IH. by eapply sel_step_inv.
Qed.
End Invariant.

(** ** How long a select runs by itself *)

Definition weight (g : watcher) : nat := match g with Sending => 1 | Ended => 0 | _ => 2 end.
Definition phase_left (n : nat) (ph : sel_phase) : nat :=
  match ph with
  | Scanning i => (n - i) + 1 + (n + 1) + 1 + (n + 1)
  | Registering i => (n - i) + 1 + 1 + (n + 1)
  | Waiting => 1 + (n + 1)
  | Rechecking _ i => (n - i) + 1
  | SelReturned _ => 0
  end.
Definition sel_left (s : sel) : nat := phase_left (length (se_cases s)) (se_phase s) + sum_list_with weight (se_watch s).

Lemma sum_notify c out xs ws : length ws = length xs → sum_list_with weight (zip_with (notify c out) xs ws) = sum_list_with weight ws.
Proof.
  revert ws. induction xs as [|x xs IH]; intros [|g ws] Hl; try done. cbn. rewrite IH by (injection Hl; lia). f_equal.
  destruct x, g; cbn; try done. by destruct (_ =? _)%nat.
Qed.

Lemma sum_not_started n : sum_list_with weight (replicate n NotStarted) = (2 * n)%nat.
Proof. induction n; cbn; [done|]. cbn in *. lia. Qed.

Lemma sel_step_left cases l s s' : sel_inv cases s → sel_step l s = Some s' →
  (sel_left s' + (if internal l then 1 else 0) ≤ sel_left s)%nat.
Proof.
  intros Hs. unfold sel_left. pose proof (sel_step_inv cases l s s' Hs) as Hs'.
  destruct l as [h v err|c l| | | | |k|k|k]; cbn [sel_step internal]; intros E; rewrite (si_cases _ _ Hs), (si_cases _ _ (Hs' E)); clear Hs'.
  - unfold sel_settle in E. destruct (_ !! h); [|done]. injection E as <-. cbn. lia.
  - unfold sel_chan in E. destruct (_ !! c); [|done]. injection E as <-. cbn [sel_with se_phase se_watch].
    rewrite sum_notify; [lia|]. by rewrite (si_length _ _ Hs), (si_cases _ _ Hs).
  - injection E as <-. cbn. lia.
  - unfold sel_main in E. rewrite (si_cases _ _ Hs) in E. destruct (se_phase s) as [n|n| |idx n|r] eqn:Eph; try done.
    + destruct (cases !! n) as [x|] eqn:Hx; injection E as <-; cbn; [|destruct (nonempty cases); cbn; lia].
      apply lookup_lt_Some in Hx. destruct (wait_ready _ x); cbn; lia.
    + destruct (cases !! n) as [x|] eqn:Hx; [|injection E as <-; cbn; lia]. pose proof (lookup_lt_Some _ _ _ Hx).
      assert (is_Some (se_watch s !! n)) as [g Hg] by (apply lookup_lt_is_Some; by rewrite (si_length _ _ Hs)).
      destruct (si_watch _ _ Hs n g Hg) as [_ Hp]. rewrite Eph in Hp. destruct Hp as [Hp _]. rewrite (Hp (le_n _)) in Hg. cbn [phase_left].
      unfold start_watch in E. destruct x as [h|c]; [|destruct (_ !! c); [|done]]; injection E as <-; cbn [sel_with se_phase se_watch phase_left].
      * pose proof (sum_insert weight _ _ _ (OnFuture h) Hg). cbn in *. lia.
      * match goal with |- context [OnWaker ?w ?t] => pose proof (sum_insert weight _ _ _ (OnWaker w t) Hg) end. cbn in *. lia.
    + destruct (cases !! n) as [x|] eqn:Hx; injection E as <-; cbn; [|lia]. apply lookup_lt_Some in Hx. destruct (wait_ready _ x); cbn; lia.
  - unfold sel_take in E. destruct (se_phase s); try done. destruct (se_wake s); [done|]. injection E as <-. cbn. case_match; cbn; lia.
  - unfold sel_abort in E. destruct (se_phase s); try done. destruct (su_done _); [|done]. injection E as <-. cbn. lia.
  - unfold sel_notice in E. destruct (se_watch s !! k) as [g|] eqn:Hg; [|done]. cbn [mbind option_bind] in E.
    pose proof (sum_insert weight _ _ _ Sending Hg). destruct g as [|h|w [|]| |]; try done; [destruct (wait_ready _ _); [|done]|]; injection E as <-; cbn in *; lia.
  - unfold sel_push in E. destruct (se_watch s !! k) as [g|] eqn:Hg; [|done]. cbn [mbind option_bind] in E.
    pose proof (sum_insert weight _ _ _ Ended Hg). destruct g; try done. destruct (_ <? _)%nat; [|done]. injection E as <-. cbn in *. lia.
  - unfold sel_leave in E. destruct (se_watch s !! k) as [g|] eqn:Hg; [|done]. cbn [mbind option_bind] in E.
    pose proof (sum_insert weight _ _ _ Ended Hg). destruct (se_phase s) eqn:Eph, g; try done; injection E as <-; cbn in *; rewrite Eph; cbn; lia.
Qed.
Definition is_internal (l : sel_label) : Prop := internal l = true.
#[export] Instance is_internal_dec l : Decision (is_internal l) := decide (internal l = true).

Lemma sel_run_left cases ls s s' : sel_inv cases s → sel_run ls s = Some s' → (length (filter is_internal ls) + sel_left s' ≤ sel_left s)%nat.
Proof.
  revert s. induction ls as [|l ls IH]; intros s Hs; cbn [sel_run]; [intros [= <-]; cbn; lia|]. destruct (sel_step l s) as [s1|] eqn:E; [|done]. cbn [mbind option_bind].
  intros Hr. pose proof (sel_step_left _ _ _ _ Hs E). pose proof (IH s1 (sel_step_inv _ _ _ _ Hs E) Hr).
  destruct (internal l) eqn:Ei; [rewrite filter_cons_True by done|rewrite filter_cons_False by (unfold is_internal; congruence)]; cbn [length]; lia.
Qed.

(** ** What a select that cannot go on waits for *)

Lemma sel_stuck cases s : sel_inv cases s → (∀ l, is_internal l → sel_step l s = None) →
  match se_phase s with
  | SelReturned _ => Forall (λ g, g = NotStarted ∨ g = Ended) (se_watch s)
  | _ => su_done (se_around s) = false ∧ ∀ x, x ∈ cases → wait_ready (se_around s) x = false
  end.
Proof.
  intros Hs Hl. pose proof Hs as []. destruct (se_phase s) as [n|n| |idx n|r] eqn:Eph.
  - specialize (Hl LMain eq_refl). cbn in Hl. unfold sel_main in Hl. rewrite Eph in Hl. by destruct (se_cases s !! n).
  - specialize (Hl LMain eq_refl). cbn in Hl. unfold sel_main in Hl. rewrite Eph, si_cases0 in Hl. destruct (cases !! n) as [x|] eqn:Hx; [|done].
    destruct x as [h|c]; [done|]. unfold start_watch in Hl. destruct (si_valid0 n c Hx) as [y Hy]. by rewrite Hy in Hl.
  - assert (su_done (se_around s) = false) as Hd.
    { specialize (Hl LAbort eq_refl). cbn in Hl. unfold sel_abort in Hl. rewrite Eph in Hl. by destruct (su_done _). }
    split; [done|]. intros x [k Hk]%list_elem_of_lookup.
    assert (is_Some (se_watch s !! k)) as [g Hg] by (apply lookup_lt_is_Some; rewrite si_length0; by eapply lookup_lt_Some).
    destruct (si_watch0 k g Hg) as [Hw [Hn He]]. pose proof (Hl (LNotice k) eq_refl) as Hnote. cbn in Hnote. unfold sel_notice in Hnote. rewrite Hg in Hnote. cbn in Hnote.
    destruct g as [|h|w t| |]; [done|..].
    + cbn in Hw. rewrite Hk in Hw. injection Hw as ->. apply not_true_iff_false. intros Hr. cbn in Hr. by rewrite Hr in Hnote.
    + destruct Hw as (c & y & Hc & Hy & Ht). rewrite Hk in Hc. injection Hc as ->. destruct t; [done|]. cbn. rewrite Hy. apply not_true_iff_false. intros Hv.
      rewrite Forall_forall in si_chans0. destruct (inv_ok _ (si_chans0 y (list_elem_of_lookup_2 _ _ _ Hy))) as [Hok _]. destruct (Hok Hv) as [_ Hnil].
      specialize (Ht eq_refl). rewrite Hnil in Ht. by apply not_elem_of_nil in Ht.
    + specialize (Hl (LPush k) eq_refl). cbn [sel_step mbind option_bind] in Hl. unfold sel_push in Hl. rewrite Hg in Hl. cbn [sel_step mbind option_bind] in Hl. rewrite si_cases0 in Hl.
      by rewrite (proj2 (Nat.ltb_lt _ _) (wake_short _ _ Hs)) in Hl.
    + specialize (Hl LTake eq_refl). cbn in Hl. unfold sel_take in Hl. rewrite Eph in Hl. destruct (se_wake s); [|done]. by destruct (not_elem_of_nil k); apply He.
  - specialize (Hl LMain eq_refl). cbn in Hl. unfold sel_main in Hl. rewrite Eph in Hl. by destruct (se_cases s !! n).
  - apply Forall_lookup. intros k g Hg. specialize (Hl (LLeave k) eq_refl). cbn in Hl. unfold sel_leave in Hl. rewrite Hg, Eph in Hl. destruct g; try done; auto.
Qed.

(** ** What a select returns *)

Lemma sel_run_app a b s : sel_run (a ++ b) s = (s' ← sel_run a s; sel_run b s').
Proof. revert s. induction a as [|l a IH]; [done|]. intros s. cbn. destruct (sel_step l s); [|done]. apply IH. Qed.

(** A settled future stays settled, a closed channel closed. *)
Definition grows (e e' : surroundings) : Prop :=
  (∀ h, wait_ready e (WaitFuture h) = true → wait_ready e' (WaitFuture h) = true) ∧ (su_done e = true → su_done e' = true).
Lemma sel_step_grows l s s' : sel_step l s = Some s' → grows (se_around s) (se_around s').
Proof.
  assert (∀ e, grows e e) as Hrefl by done.
  destruct l as [h v err|c l| | | | |k|k|k]; cbn [sel_step]; intros E.
  4-9: unfold sel_main, start_watch, sel_take, sel_abort, sel_notice, sel_push, sel_leave, mbind, option_bind in E; repeat case_match; by simplify_eq.
  - unfold sel_settle in E. destruct (su_futures _ !! h) as [f|] eqn:Hf; [|done]. injection E as <-. split; [|done]. intros i. cbn.
    destruct (decide (i = h)) as [->|Hi]; [|by rewrite list_lookup_insert_ne]. rewrite Hf, list_lookup_insert_eq by (by eapply lookup_lt_Some). by destruct f.
  - unfold sel_chan in E. destruct (_ !! c); [|done]. by injection E as <-.
  - by injection E as <-.
Qed.
Lemma sel_run_grows ls s s' : sel_run ls s = Some s' → grows (se_around s) (se_around s').
Proof.
  revert s. induction ls as [|l ls IH]; intros s; cbn; [by intros [= <-]|]. destruct (sel_step l s) as [s1|] eqn:E; [|done]. cbn. intros Hr.
  destruct (sel_step_grows _ _ _ E), (IH _ Hr). split; auto.
Qed.

Section Returns.
Context (cases : list wait_case) (e0 : surroundings).

(** The case was ready at some moment of the run, or a signal was sent on its channel. *)
Definition fired_on (ls : list sel_label) (k : nat) : Prop :=
  ∃ x, cases !! k = Some x ∧
    ((∃ before after s, ls = before ++ after ∧ sel_run before (SelectFanIn cases e0) = Some s ∧ wait_ready (se_around s) x = true) ∨
     ∃ c p, x = WaitChannel c ∧ LChan c (CSignal p) ∈ ls).
Definition cold (n : nat) : Prop := ∀ j h, (j < n)%nat → cases !! j = Some (WaitFuture h) → wait_ready e0 (WaitFuture h) = false.

Record sel_sound (ls : list sel_label) (s : sel) : Prop := {
  ss_run : sel_run ls (SelectFanIn cases e0) = Some s;
  ss_watch : ∀ k g, se_watch s !! k = Some g → g = Sending ∨ (∃ w, g = OnWaker w true) → fired_on ls k;
  ss_wake : ∀ k, k ∈ se_wake s → fired_on ls k;
  ss_phase : match se_phase s with
             | Scanning n => cold n
             | Registering _ | Waiting => cold (length cases)
             | Rechecking idx _ => cold (length cases) ∧ fired_on ls idx
             | SelReturned (Some k) => cold k ∧ fired_on ls k
             | SelReturned None => cases = [] ∨ su_done (se_around s) = true
             end }.

Lemma fired_later ls l k : fired_on ls k → fired_on (ls ++ [l]) k.
Proof.
  intros (x & Hx & [(a & b & s & -> & Hr & Hv)|(c & p & Hc & Hp)]); exists x; (split; [done|]).
  - left. exists a, (b ++ [l]), s. by rewrite app_assoc.
  - right. exists c, p. split; [done|]. apply elem_of_app. by left.
Qed.
Lemma fired_now ls s k x : sel_run ls (SelectFanIn cases e0) = Some s → cases !! k = Some x → wait_ready (se_around s) x = true → fired_on ls k.
Proof. intros Hr Hx Hv. exists x. split; [done|]. left. exists ls, [], s. by rewrite app_nil_r. Qed.
Lemma cold_le n m : (m ≤ n)%nat → cold n → cold m.
Proof. intros Hm Hn j h Hj. apply Hn. lia. Qed.
(** The scan passed over a case: its future was not settled when the select began. *)
Lemma cold_next ls s n x : sel_run ls (SelectFanIn cases e0) = Some s → cases !! n = Some x → wait_ready (se_around s) x = false → cold n → cold (S n).
Proof.
  intros Hr Hx Hv Hc j h Hj Hjh. destruct (decide (j = n)) as [->|]; [|apply (Hc j); [lia|done]]. rewrite Hx in Hjh. injection Hjh as ->.
  apply not_true_iff_false. intros Ht. apply (proj1 (sel_run_grows _ _ _ Hr)) in Ht. congruence.
Qed.

Lemma sound_step ls l s s' : sel_inv cases s → sel_inv cases s' → sel_sound ls s → sel_step l s = Some s' → sel_sound (ls ++ [l]) s'.
Proof.
  intros Hi Hi' [Hr Hw Hq Hp] E.
  assert (sel_run (ls ++ [l]) (SelectFanIn cases e0) = Some s') as Hr' by (rewrite sel_run_app, Hr; cbn; by rewrite E).
  assert (∀ k, fired_on ls k → fired_on (ls ++ [l]) k) as Hl by (intros; by apply fired_later). pose proof (si_cases _ _ Hi) as Hcs.
  destruct l as [h v err|c l| | | | |k|k|k]; cbn [sel_step] in E.
  - unfold sel_settle in E. destruct (su_futures _ !! h); [|done]. injection E as <-. split; cbn; [done|by eauto..|].
    destruct (se_phase s) as [| | | |[|]]; naive_solver.
  - unfold sel_chan in E. destruct (su_channels _ !! c) as [y|] eqn:Hy; [|done]. injection E as <-. split; cbn in *; [done| |by eauto|].
    + intros k g' Hg' Hf. destruct (notified _ _ _ _ _ _ Hi Hg') as (x & g & Hx & Hg & ->).
      destruct g as [|h|w t| |]; [by destruct x; naive_solver..| |by destruct x; eauto|by destruct x; naive_solver].
      destruct t; [by eauto|]. destruct x as [|d]; [by naive_solver|]. cbn in Hf. destruct (Nat.eqb_spec d c) as [->|]; [|naive_solver].
      destruct Hf as [|(w' & [= <- Hwk])]; [done|]. cbn in Hwk. exists (WaitChannel c). split; [done|].
      destruct (proj2 (chan_wakers l y w) Hwk) as [Hv|[p ->]].
      * left. eexists (ls ++ [LChan c l]), [], _. rewrite app_nil_r. split_and!; [done|exact Hr'|]. cbn.
        rewrite list_lookup_insert_eq by (by eapply lookup_lt_Some). done.
      * right. exists c, p. split; [done|]. apply elem_of_app. right. by left.
    + destruct (se_phase s) as [| | | |[|]]; naive_solver.
  - injection E as <-. split; cbn; [done|by eauto..|]. destruct (se_phase s) as [| | | |[|]]; naive_solver.
  - unfold sel_main in E. rewrite Hcs in E. destruct (se_phase s) as [n|n| |idx n|r] eqn:Eph; try done.
    + destruct (cases !! n) as [x|] eqn:Hx; injection E as <-; (split; cbn; [done|by eauto..|]).
      * destruct (wait_ready (se_around s) x) eqn:Hv; [|by eapply cold_next]. split; [done|]. by apply Hl, (fired_now ls s n x).
      * apply lookup_ge_None in Hx. destruct cases as [|x l]; [by left|]. cbn [nonempty]. by eapply cold_le.
    + destruct (cases !! n) as [x|] eqn:Hx; [|injection E as <-; split; cbn; [done|by eauto..|done]].
      unfold start_watch in E. destruct x as [h|c].
      * injection E as <-. split; cbn; [done| |by eauto|done]. intros k g. rewrite list_lookup_insert_Some. intros [(<- & <- & _)|[_ Hg]]; [naive_solver|eauto].
      * destruct (su_channels _ !! c) as [y|] eqn:Hy; [|done]. injection E as <-. split; cbn; [done| |by eauto|done]. intros k g.
        rewrite list_lookup_insert_Some. intros [(<- & <- & _)|[_ Hg]]; [|by eauto]. intros [|(w & [= <- Hwk])]; [done|].
        apply Hl, (fired_now ls s n (WaitChannel c)); [done..|]. cbn. rewrite Hy. revert Hwk. rewrite register_ready. by destruct (hasValue _).
    + destruct (cases !! n) as [x|] eqn:Hx; injection E as <-; (split; cbn; [done|by eauto..|]); destruct Hp as [Hc Hf].
      * destruct (wait_ready (se_around s) x) eqn:Hv; [|by auto]. pose proof (lookup_lt_Some _ _ _ Hx).
        set (b := match idx with 0 => false | S _ => _ end); destruct b; (split; [|auto]); [by apply (cold_le (length cases)); [lia|]|by apply Hl, (fired_now ls s n x)|].
        destruct Hf as (z & Hz & _). apply lookup_lt_Some in Hz. by apply (cold_le (length cases)); [lia|].
      * split; [|auto]. destruct Hf as (z & Hz & _). apply lookup_lt_Some in Hz. by apply (cold_le (length cases)); [lia|].
  - unfold sel_take in E. destruct (se_phase s); try done. destruct (se_wake s) as [|idx q] eqn:Eq; [done|].
    pose proof (wake_lt _ _ idx Hi) as Hlt. rewrite Eq in Hlt. specialize (Hlt ltac:(by left)). rewrite Hcs, (proj2 (Nat.ltb_lt _ _) Hlt) in E.
    injection E as <-.
    split; cbn; [done|by eauto| |]; [intros k Hk; apply Hl, Hq; by right|]. split; [done|]. apply Hl, Hq. by left.
  - unfold sel_abort in E. destruct (se_phase s); try done. destruct (su_done _) eqn:Ed; [|done]. injection E as <-. split; cbn; [done|by eauto..|by right].
  - unfold sel_notice in E. destruct (se_watch s !! k) as [g|] eqn:Hg; [|done]. cbn [mbind option_bind] in E.
    assert (fired_on ls k ∧ s' = sel_watch k Sending (se_wake s) s) as [Hf ->].
    { destruct g as [|h|w [|]| |]; try done; [|injection E as <-; split; [|done]; eapply Hw; [exact Hg|right; by eexists]].
      destruct (wait_ready _ _) eqn:Hv; [|done]. injection E as <-. split; [|done]. destruct (si_watch _ _ Hi k _ Hg) as [Hc _]. by eapply fired_now. }
    split; cbn; [done| |by eauto|]; [|destruct (se_phase s) as [| | | |[|]]; naive_solver].
    intros j f. rewrite list_lookup_insert_Some. intros [(<- & <- & _)|[_ Hf']]; eauto.
  - unfold sel_push in E. destruct (se_watch s !! k) as [g|] eqn:Hg; [|done]. cbn [mbind option_bind] in E. destruct g; try done.
    destruct (_ <? _)%nat; [|done]. injection E as <-. split; cbn; [done| | |destruct (se_phase s) as [| | | |[|]]; naive_solver].
    + intros j f. rewrite list_lookup_insert_Some. intros [(<- & <- & _)|[_ Hf']]; [naive_solver|eauto].
    + intros j [Hj|Hj]%elem_of_app; [by eauto|]. apply list_elem_of_singleton in Hj as ->. eapply Hl, Hw; [exact Hg|by left].
  - unfold sel_leave in E. destruct (se_watch s !! k) as [g|] eqn:Hg; [|done]. cbn [mbind option_bind] in E.
    assert (s' = sel_watch k Ended (se_wake s) s) as -> by (by destruct (se_phase s), g; simplify_eq).
    split; cbn; [done| |by eauto|destruct (se_phase s) as [| | | |[|]]; naive_solver].
    intros j f. rewrite list_lookup_insert_Some. intros [(<- & <- & _)|[_ Hf']]; [naive_solver|eauto].
Qed.

Lemma sel_run_sound ls s : sel_inv cases (SelectFanIn cases e0) → sel_run ls (SelectFanIn cases e0) = Some s → sel_sound ls s.
Proof.
  intros Hi. revert s. induction ls as [|l ls IH] using rev_ind; intros s Hr.
  - injection Hr as <-. split; cbn; [done| |by intros k ?%not_elem_of_nil|intros j h; lia].
    intros k g [-> _]%lookup_replicate. by intros [|[w ?]].
  - rewrite sel_run_app in Hr. destruct (sel_run ls _) as [s1|] eqn:E; [|done]. cbn in Hr. destruct (sel_step l s1) as [s2|] eqn:El; [|done].
    injection Hr as <-. pose proof (sel_run_inv _ _ _ _ Hi E) as Hi1. eapply sound_step; [exact Hi1|by eapply sel_step_inv|by apply IH|done].
Qed.
End Returns.

(** (C34) A select waits only for what is not there. Whatever other goroutines do to the
    futures and the channels meanwhile, its own goroutines take a bounded number of steps;
    when none of them can move, either it has returned and none of them is left, or its
    done channel is open and none of its cases is ready, so no wake-up is lost; the case it
    returns was ready while it ran or was sent a signal, a future it returns is settled, and
    no future before it was settled when it began; and it returns none only if it has no
    cases or was cancelled. *)
Theorem select_wakes cases e ls s :
  (∀ x, x ∈ su_channels e → ∃ name size ops, x = chan_run name size ops) →
  (∀ c, WaitChannel c ∈ cases → (c < length (su_channels e))%nat) →
  sel_run ls (SelectFanIn cases e) = Some s →
  (length (filter is_internal ls) ≤ 5 * length cases + 4)%nat ∧
  ((∀ l, is_internal l → sel_step l s = None) →
     match se_phase s with
     | SelReturned _ => Forall (λ g, g = NotStarted ∨ g = Ended) (se_watch s)
     | _ => su_done (se_around s) = false ∧ ∀ x, x ∈ cases → wait_ready (se_around s) x = false
     end) ∧
  match se_phase s with
  | SelReturned (Some k) =>
      fired_on cases e ls k ∧ (∀ h, cases !! k = Some (WaitFuture h) → wait_ready (se_around s) (WaitFuture h) = true) ∧
      ∀ j h, (j < k)%nat → cases !! j = Some (WaitFuture h) → wait_ready e (WaitFuture h) = false
  | SelReturned None => cases = [] ∨ su_done (se_around s) = true
  | _ => True
  end.
Proof.
  intros Hch Hv Hr. assert (sel_inv cases (SelectFanIn cases e)) as Hi.
  { apply start_inv; [|apply Forall_forall; intros x (name & size & ops & ->)%Hch; apply run_inv].
    intros k c Hk. apply lookup_lt_is_Some, Hv. by eapply list_elem_of_lookup_2. }
  pose proof (sel_run_inv _ _ _ _ Hi Hr) as His. split; [|split; [by apply sel_stuck|]].
  - pose proof (sel_run_left _ _ _ _ Hi Hr) as Hl. unfold sel_left in Hl at 2. cbn in Hl. rewrite sum_not_started in Hl. lia.
  - pose proof (sel_run_sound cases e ls s Hi Hr) as [_ _ _ Hp]. destruct (se_phase s) as [| | | |[k|]]; [done..| |done].
    destruct Hp as [Hc Hf]. split; [done|]. split; [|done]. intros h Hh. destruct Hf as (x & Hx & [(a & b & s1 & -> & Ha & Hrd)|(c & p & -> & _)]).
    + rewrite Hh in Hx. injection Hx as <-. rewrite sel_run_app, Ha in Hr. cbn in Hr. by apply (sel_run_grows _ _ _ Hr).
    + congruence.
Qed.

(** ** Timers *)

(** [NewWallClockTimer]: the future, the clock's channel, the done channel, and where the
    goroutine of the timer is. *)
Inductive timer_phase := TimerParked | TimerFired | TimerOver.
Record wall_timer := { wt_future : future; wt_elapsed : bool; wt_done : bool; wt_phase : timer_phase }.
Definition NewWallClockTimer (d : Z) : wall_timer :=
  if (d <=? 0)%Z then {| wt_future := Settle RNone None NewFuture; wt_elapsed := false; wt_done := false; wt_phase := TimerOver |}
  else {| wt_future := NewFuture; wt_elapsed := false; wt_done := false; wt_phase := TimerParked |}.

(** The clock reaches the instant, the done channel closes; the goroutine sees the done
    channel, sees the clock, looks at the done channel again. [why] is what [errFn] answers. *)
Inductive timer_label := TElapse | TClose | TSeeDone | TSeeClock | TRecheck.
Definition timer_ends (err : option goerror) (t : wall_timer) : wall_timer :=
  {| wt_future := Settle RNone err (wt_future t); wt_elapsed := wt_elapsed t; wt_done := wt_done t; wt_phase := TimerOver |}.
Definition cancelled_with (why : option goerror) : option goerror := Some (match why with Some e => e | None => NewCanceledError [] end).
Definition timer_step (why : option goerror) (l : timer_label) (t : wall_timer) : option wall_timer :=
  match l, wt_phase t with
  | TElapse, _ => Some {| wt_future := wt_future t; wt_elapsed := true; wt_done := wt_done t; wt_phase := wt_phase t |}
  | TClose, _ => Some {| wt_future := wt_future t; wt_elapsed := wt_elapsed t; wt_done := true; wt_phase := wt_phase t |}
  | TSeeDone, TimerParked => if wt_done t then Some (timer_ends (cancelled_with why) t) else None
  | TSeeClock, TimerParked =>
      if wt_elapsed t then Some {| wt_future := wt_future t; wt_elapsed := true; wt_done := wt_done t; wt_phase := TimerFired |} else None
  | TRecheck, TimerFired => Some (timer_ends (if wt_done t then cancelled_with why else None) t)
  | _, _ => None
  end.

(** The timer of a worker: its done channel is closed by a goroutine that watches the
    root scope and the context of the run. *)
Record worker_timer := { wk_timer : wall_timer; wk_root : option goerror; wk_ctx : option goerror }.
Definition worker_NewTimer (d : Z) (root ctx : option goerror) : worker_timer := {| wk_timer := NewWallClockTimer d; wk_root := root; wk_ctx := ctx |}.
Definition worker_errFn (t : worker_timer) : option goerror := match wk_root t with Some e => Some e | None => wk_ctx t end.
Inductive worker_timer_label := WCancelRoot | WCancelRun (e : goerror) | WRelay | WTimer (l : timer_label).
Definition worker_timer_step (l : worker_timer_label) (t : worker_timer) : option worker_timer :=
  match l with
  | WCancelRoot =>
      Some {| wk_timer := wk_timer t; wk_root := Some (match wk_root t with Some e => e | None => NewCanceledError [] end); wk_ctx := wk_ctx t |}
  | WCancelRun e => Some {| wk_timer := wk_timer t; wk_root := wk_root t; wk_ctx := Some (match wk_ctx t with Some e => e | None => e end) |}
  | WRelay => match worker_errFn t with
              | Some _ => t' ← timer_step (worker_errFn t) TClose (wk_timer t); Some {| wk_timer := t'; wk_root := wk_root t; wk_ctx := wk_ctx t |}
              | None => None
              end
  | WTimer TClose => None
  | WTimer l => t' ← timer_step (worker_errFn t) l (wk_timer t); Some {| wk_timer := t'; wk_root := wk_root t; wk_ctx := wk_ctx t |}
  end.
Definition timer_run {L T} (step : L → T → option T) (ls : list L) (t : T) : option T :=
  foldl (λ o l, t ← o; step l t) (Some t) ls.

Definition timer_ok (why : option goerror) (d : Z) (t : wall_timer) : Prop :=
  match wt_phase t with
  | TimerParked => wt_future t = Unsettled ∧ (0 < d)%Z
  | TimerFired => wt_future t = Unsettled ∧ (0 < d)%Z ∧ wt_elapsed t = true
  | TimerOver => wt_future t = Settled RNone None ∧ ((0 < d)%Z → wt_elapsed t = true) ∨ wt_future t = Settled RNone (cancelled_with why) ∧ wt_done t = true
  end.
Lemma timer_step_ok why d l t t' : timer_ok why d t → timer_step why l t = Some t' → timer_ok why d t'.
Proof.
  unfold timer_ok. destruct l; cbn; destruct (wt_phase t) eqn:Ep; try done.
  all: try (intros Ht [= <-]; cbn; rewrite ?Ep; naive_solver).
  - destruct (wt_done t) eqn:Ed; [|done]. intros [Hf _] [= <-]. cbn. rewrite Hf. by right.
  - destruct (wt_elapsed t); [|done]. intros [Hf ?] [= <-]. by cbn.
  - intros (Hf & ? & He) [= <-]. cbn. rewrite Hf. destruct (wt_done t); [by right|by left].
Qed.
Lemma timer_run_ind {L T} (step : L → T → option T) (P : T → Prop) ls t t' :
  (∀ l x x', P x → step l x = Some x' → P x') → P t → timer_run step ls t = Some t' → P t'.
Proof.
  intros Hs Ht. unfold timer_run. revert t Ht. induction ls as [|l ls IH]; intros t Ht; cbn; [by intros [= <-]|].
  destruct (step l t) as [t1|] eqn:E; [by apply IH; eapply Hs|]. assert (foldl (λ o l, t ← o; step l t) None ls = None) as -> by (by clear; induction ls). done.
Qed.

(** A timer settles once: with nothing after its instant, or with the cancellation after
    its done channel closed; its goroutine waits only while neither has happened. *)
Lemma timer_outcome why d ls t : timer_run (timer_step why) ls (NewWallClockTimer d) = Some t →
  timer_ok why d t ∧
  ((∀ l, timer_step why l t = None ∨ l = TElapse ∨ l = TClose) → wt_phase t ≠ TimerOver → wt_elapsed t = false ∧ wt_done t = false).
Proof.
  intros Hr. assert (timer_ok why d t) as Ht.
  { eapply (timer_run_ind _ (timer_ok why d)); [by intros l x x'; apply timer_step_ok| |exact Hr].
    unfold NewWallClockTimer, timer_ok. destruct (Z.leb_spec d 0); cbn; [left; split; [done|lia]|done]. }
  split; [done|]. intros Hl Hp. pose proof (Hl TSeeDone) as H1. pose proof (Hl TSeeClock) as H2. pose proof (Hl TRecheck) as H3. cbn in *.
  destruct (wt_phase t); [|naive_solver|done]. destruct (wt_elapsed t), (wt_done t); naive_solver.
Qed.

(** ** Cancel scopes *)

(** The scopes of a run, the root first; a scope that was cancelled has its error. The
    handle of the interface is an opaque value: [None] is one that is no scope. *)
Definition new_scopes : list (option goerror) := [None].
Definition cancel_scope (sc : option goerror) : option goerror := match sc with Some e => Some e | None => Some (NewCanceledError []) end.
Definition NewCancelScope (ss : list (option goerror)) : list (option goerror) * nat := (ss ++ [None], length ss).
Definition CancelScope (i : nat) (ss : list (option goerror)) : list (option goerror) := alter cancel_scope i ss.
Definition CurrentScope : option nat := Some 0%nat.
Definition ScopeErr (h : option nat) (ss : list (option goerror)) : option goerror := mjoin (ss !! default 0%nat h).
Definition ScopeDone (h : option nat) (ss : list (option goerror)) : bool := bool_decide (is_Some (ScopeErr h ss)).
Definition cancelAll (ss : list (option goerror)) : list (option goerror) := cancel_scope <$> ss.
(** [StubEnv]: a handle that is no scope is never done. *)
Definition stub_ScopeErr (h : option nat) (ss : list (option goerror)) : option goerror := match h with Some i => mjoin (ss !! i) | None => None end.

(** Cancelling a scope cancels that scope only, whatever scope it was derived from, and
    the first cancellation stays; the end of a task cancels every scope. *)
Lemma scope_cancelled i j ss : (i < length ss)%nat →
  ScopeErr (Some j) (CancelScope i ss) = (if decide (i = j) then cancel_scope (ScopeErr (Some i) ss) else ScopeErr (Some j) ss) ∧
  CancelScope i (CancelScope i ss) = CancelScope i ss ∧ ((j < length ss)%nat → ScopeDone (Some j) (cancelAll ss) = true).
Proof.
  intros [x Hx]%lookup_lt_is_Some. unfold ScopeDone, ScopeErr, CancelScope, cancelAll. cbn. split; [|split].
  - destruct (decide (i = j)) as [->|Hn]; [by rewrite list_lookup_alter_eq, Hx|by rewrite list_lookup_alter_ne].
  - apply list_eq. intros k. destruct (decide (i = k)) as [<-|Hn]; [|by rewrite !list_lookup_alter_ne].
    rewrite !list_lookup_alter_eq, Hx. by destruct x.
  - intros [y Hy]%lookup_lt_is_Some. rewrite list_lookup_fmap, Hy. by destruct y.
Qed.

Module WaitsDemo.
(** A future and a signal channel a coroutine selects over. *)
Definition apart : surroundings := {| su_futures := [NewFuture]; su_channels := [chan_run "approve" 16 []]; su_done := false |}.
Definition either : list wait_case := [WaitFuture 0; WaitChannel 0].
(** Scan, register, park; the channel is sent to after the scan and before its waker. *)
Definition to_register : list sel_label := [LMain; LMain; LMain; LMain].
Definition parks : list sel_label := to_register ++ [LMain; LMain].
Definition takes (k : nat) : list sel_label := [LNotice k; LPush k; LTake; LMain; LMain].
Definition raced : list sel_label := to_register ++ [LChan 0 (CSend (RJson (JNum 1))); LMain; LMain] ++ takes 1 ++ [LLeave 0].
Definition returned (ls : list sel_label) : option (option nat) :=
  match sel_run ls (SelectFanIn either apart) with Some s => match se_phase s with SelReturned r => Some r | _ => None end | None => None end.
Example raced_returns : returned (to_register ++ [LChan 0 (CSend (RJson (JNum 1))); LMain; LMain] ++ takes 1) = Some (Some 1%nat).
Proof. vm_compute. reflexivity. Qed.

(** A signal that goes to a parked receiver wakes the select all the same, and the select
    returns a channel that has nothing to read. *)
Definition robbed : list sel_label := parks ++ [LChan 0 CReceive; LChan 0 (CSignal (RJson (JNum 1)))] ++ takes 1 ++ [LMain].
Example woken_for_nothing :
  returned robbed = Some (Some 1%nat) ∧
  match sel_run robbed (SelectFanIn either apart) with Some s => wait_ready (se_around s) (WaitChannel 0) | None => true end = false.
Proof. vm_compute. done. Qed.

(** A select that returns by another case leaves its waker on the channel: two selects over
    a channel nobody writes to leave two. *)
Definition by_future : list sel_label := parks ++ [LSettle 0 (RJson (JNum 1)) None] ++ [LNotice 0; LPush 0; LTake; LMain; LLeave 1].
Definition wakers_left (ls : list sel_label) (e : surroundings) : surroundings :=
  match sel_run ls (SelectFanIn either e) with
  | Some s => {| su_futures := [NewFuture]; su_channels := su_channels (se_around s); su_done := false |}
  | None => e
  end.
Example wakers_pile_up : ((λ x, length (ch_wakers (cs_chan x))) <$> su_channels (wakers_left by_future (wakers_left by_future apart))) = [2%nat].
Proof. vm_compute. reflexivity. Qed.

(** A worker's timer that elapses after the root scope was cancelled, but before the
    goroutine between them ran, settles as if nothing had been cancelled. *)
Example timer_beats_cancel :
  (λ t, (wt_future (wk_timer t), wk_root t)) <$>
    timer_run worker_timer_step [WCancelRoot; WTimer TElapse; WTimer TSeeClock; WTimer TRecheck; WRelay] (worker_NewTimer 5 None None) =
  Some (Settled RNone None, Some (NewCanceledError [])).
Proof. vm_compute. reflexivity. Qed.

Lemma select_wakes_witness :
  match sel_run raced (SelectFanIn either apart) with
  | Some s => (length (filter is_internal raced) ≤ 14)%nat ∧ se_phase s = SelReturned (Some 1%nat)
  | None => False
  end.
Proof.
  destruct (sel_run raced (SelectFanIn either apart)) as [s|] eqn:E; [|by vm_compute in E].
  split; [|vm_compute in E; by injection E as <-].
  apply (select_wakes either apart raced s); [|intros c Hc; cbn; assert (c = 0%nat) as -> by (cbn in Hc; set_solver); lia|exact E].
  intros x ->%list_elem_of_singleton. by exists "approve", 16%nat, [].
Defined.
End WaitsDemo.
