(* ===== verification/Worker.v ===== *)
(** The worker runtime: [pkg/sdk/worker] ([env.go], [replay.go], [dispatch.go],
    [registry.go]). A workflow task carries the history of a run; the worker runs
    the registered function from the top, answers each activity call from the
    history by its sequence number, and returns the commands the function issued
    beyond it. The environment lives for one task. *)

From Corelib Require Import SpecFloat.
From Stdlib Require Import Ascii ZArith Lia.
From stdpp Require Import prelude strings gmap.
From S2P Require Import Prelude GoStrings Base64 Json Types EngineTypes Env GoTime Temporal Channel Coroutine.

Local Open Scope Z_scope.

(** ** History as the worker reads it *)

Definition evtWorkflowStarted : string := "WORKFLOW_EXECUTION_STARTED".
Definition evtActivityScheduled : string := "ACTIVITY_TASK_SCHEDULED".
Definition evtActivityCompleted : string := "ACTIVITY_TASK_COMPLETED".
Definition evtActivityFailed : string := "ACTIVITY_TASK_FAILED".

Record histEvent := {
  he_EventId : Z;
  he_EventType : string;
  he_Attributes : gmap string json }.

Definition histEvent_of (j : json) : option histEvent :=
  o ← as_obj j; i ← rd o "eventId"; t ← rd o "eventType"; a ← rd o "attributes";
  Some {| he_EventId := i; he_EventType := t; he_Attributes := a |}.

(** [seq]: decoded through float64, then truncated. *)
Definition hist_seq (h : histEvent) : option Z :=
  raw ← he_Attributes h !! "seq"; f ← of_json (A := spec_float) raw; Some (to_int64 f).
Definition rawAttr (h : histEvent) (key : string) : raw :=
  match he_Attributes h !! key with Some j => RJson j | None => RNone end.

Definition history_error : goerror := EWrap "parse workflow history" (EPlain "json").
Definition parseHistory (b : raw) : goerror + list histEvent :=
  match b with
  | RNone | RJson JNull => inr []
  | RJson (JArr l) => match mapM histEvent_of l with Some es => inr es | None => inl history_error end
  | _ => inl history_error
  end.

Fixpoint workflowInputFromHistory (events : list histEvent) : raw :=
  match events with
  | [] => RNone
  | h :: events => if String.eqb (he_EventType h) evtWorkflowStarted then rawAttr h "input" else workflowInputFromHistory events
  end.

(** ** Commands *)

Record rawCommand := {
  rc_Kind : Z;
  rc_Result : raw;
  rc_Failure : raw;
  rc_Seq : Z;
  rc_ActivityType : string;
  rc_Input : raw;
  rc_TaskQueue : string;
  rc_StartToCloseMs : Z;
  rc_HeartbeatMs : Z;
  rc_RetryPolicy : option RetryPolicyJSON }.

Definition commandKindCompleteWorkflow : Z := 0.
Definition commandKindFailWorkflow : Z := 1.
Definition commandKindScheduleActivity : Z := 2.

(** [time.Duration.Milliseconds]: truncated towards zero. *)
Definition Milliseconds (d : Z) : Z := Z.quot d Millisecond.

Definition retryPolicyJSON (rp : option temporalRetryPolicy) : option RetryPolicyJSON :=
  match rp with
  | None => None
  | Some p => Some {| rj_InitialIntervalMs := Milliseconds (InitialInterval p); rj_BackoffCoefficient := BackoffCoefficient p;
                      rj_MaximumIntervalMs := Milliseconds (MaximumInterval p); rj_MaximumAttempts := tp_MaximumAttempts p;
                      rj_NonRetryableErrorTypes := NonRetryableErrorTypes p |}
  end.

Definition failCommand (e : goerror) : rawCommand :=
  {| rc_Kind := commandKindFailWorkflow; rc_Result := RNone; rc_Failure := Encode e; rc_Seq := 0; rc_ActivityType := "";
     rc_Input := RNone; rc_TaskQueue := ""; rc_StartToCloseMs := 0; rc_HeartbeatMs := 0; rc_RetryPolicy := None |}.

(** A result that does not marshal is dropped. *)
Definition completeCommand (result : goany) : rawCommand :=
  {| rc_Kind := commandKindCompleteWorkflow; rc_Result := match result with AnyJson j => RJson j | _ => RNone end;
     rc_Failure := RNone; rc_Seq := 0; rc_ActivityType := ""; rc_Input := RNone; rc_TaskQueue := ""; rc_StartToCloseMs := 0;
     rc_HeartbeatMs := 0; rc_RetryPolicy := None |}.

(** [marshalCommands]: the batch as it is sent. A byte slice is its base64 text; a batch
    that does not marshal is sent as no bytes. *)
Definition bytes_fld `{Env} (k : string) (r : raw) : list (string * json) :=
  match r with RNone => [] | _ => [(k, JStr (EncodeToString (env_bytes r)))] end.
Definition command_json `{Env} (c : rawCommand) : json :=
  JObj (fld "kind" (rc_Kind c) ++ bytes_fld "result" (rc_Result c) ++ bytes_fld "failure" (rc_Failure c) ++ fld_omit "seq" (rc_Seq c) ++
        fld_omit "activityType" (rc_ActivityType c) ++ bytes_fld "input" (rc_Input c) ++ fld_omit "taskQueue" (rc_TaskQueue c) ++
        fld_omit "startToCloseMs" (rc_StartToCloseMs c) ++ fld_omit "heartbeatMs" (rc_HeartbeatMs c) ++ fld_omit "retryPolicy" (rc_RetryPolicy c)).
Definition marshalCommands `{Env} (cmds : list rawCommand) : raw :=
  if forallb (λ c, marshal_ok (rc_RetryPolicy c)) cmds then RJson (JObj [("v", JNum 1); ("cmds", JArr (command_json <$> cmds))]) else RNone.

(** ** The environment of one workflow task *)

Record activityOutcome := { oc_failed : bool; oc_result : raw; oc_failure : raw }.

Record Info := {
  in_WorkflowID : string; in_RunID : string; in_WorkflowType : string; in_TaskQueue : string; in_Namespace : string; in_Attempt : Z }.

Record workerEnv := {
  e_info : Info;
  e_activityResults : gmap Z activityOutcome;
  e_scheduledSeqs : gset Z;
  e_nextSeq : Z;
  e_newCommands : list rawCommand;
  e_signals : gmap string chanImpl;
  e_root_err : option goerror;
  e_taskQueue : string;
  e_versions : gmap string Z;
  e_sideEffects : list (goerror + raw);
  e_sideEffectIdx : nat;
  e_mutables : gmap string raw;
  e_pendingUpserts : list (gmap string json);
  (** how many answers of the surrounding process were used *)
  e_draws : nat }.

Definition newWorkerEnv (info : Info) (taskQueue : string) : workerEnv :=
  {| e_info := info; e_activityResults := ∅; e_scheduledSeqs := ∅; e_nextSeq := 0; e_newCommands := []; e_signals := ∅;
     e_root_err := None; e_taskQueue := taskQueue; e_versions := ∅; e_sideEffects := []; e_sideEffectIdx := 0;
     e_mutables := ∅; e_pendingUpserts := []; e_draws := 0 |}.

(** The fields an operation changes. *)
Definition with_replay (results : gmap Z activityOutcome) (scheduled : gset Z) (e : workerEnv) : workerEnv :=
  {| e_info := e_info e; e_activityResults := results; e_scheduledSeqs := scheduled; e_nextSeq := e_nextSeq e;
     e_newCommands := e_newCommands e; e_signals := e_signals e; e_root_err := e_root_err e; e_taskQueue := e_taskQueue e;
     e_versions := e_versions e; e_sideEffects := e_sideEffects e; e_sideEffectIdx := e_sideEffectIdx e; e_mutables := e_mutables e;
     e_pendingUpserts := e_pendingUpserts e; e_draws := e_draws e |}.
Definition with_seq (n : Z) (e : workerEnv) : workerEnv :=
  {| e_info := e_info e; e_activityResults := e_activityResults e; e_scheduledSeqs := e_scheduledSeqs e; e_nextSeq := n;
     e_newCommands := e_newCommands e; e_signals := e_signals e; e_root_err := e_root_err e; e_taskQueue := e_taskQueue e;
     e_versions := e_versions e; e_sideEffects := e_sideEffects e; e_sideEffectIdx := e_sideEffectIdx e; e_mutables := e_mutables e;
     e_pendingUpserts := e_pendingUpserts e; e_draws := e_draws e |}.
Definition with_commands (c : list rawCommand) (e : workerEnv) : workerEnv :=
  {| e_info := e_info e; e_activityResults := e_activityResults e; e_scheduledSeqs := e_scheduledSeqs e; e_nextSeq := e_nextSeq e;
     e_newCommands := c; e_signals := e_signals e; e_root_err := e_root_err e; e_taskQueue := e_taskQueue e;
     e_versions := e_versions e; e_sideEffects := e_sideEffects e; e_sideEffectIdx := e_sideEffectIdx e; e_mutables := e_mutables e;
     e_pendingUpserts := e_pendingUpserts e; e_draws := e_draws e |}.
Definition with_signals (m : gmap string chanImpl) (e : workerEnv) : workerEnv :=
  {| e_info := e_info e; e_activityResults := e_activityResults e; e_scheduledSeqs := e_scheduledSeqs e; e_nextSeq := e_nextSeq e;
     e_newCommands := e_newCommands e; e_signals := m; e_root_err := e_root_err e; e_taskQueue := e_taskQueue e;
     e_versions := e_versions e; e_sideEffects := e_sideEffects e; e_sideEffectIdx := e_sideEffectIdx e; e_mutables := e_mutables e;
     e_pendingUpserts := e_pendingUpserts e; e_draws := e_draws e |}.
Definition with_versions (m : gmap string Z) (e : workerEnv) : workerEnv :=
  {| e_info := e_info e; e_activityResults := e_activityResults e; e_scheduledSeqs := e_scheduledSeqs e; e_nextSeq := e_nextSeq e;
     e_newCommands := e_newCommands e; e_signals := e_signals e; e_root_err := e_root_err e; e_taskQueue := e_taskQueue e;
     e_versions := m; e_sideEffects := e_sideEffects e; e_sideEffectIdx := e_sideEffectIdx e; e_mutables := e_mutables e;
     e_pendingUpserts := e_pendingUpserts e; e_draws := e_draws e |}.
Definition with_effects (l : list (goerror + raw)) (i draws : nat) (e : workerEnv) : workerEnv :=
  {| e_info := e_info e; e_activityResults := e_activityResults e; e_scheduledSeqs := e_scheduledSeqs e; e_nextSeq := e_nextSeq e;
     e_newCommands := e_newCommands e; e_signals := e_signals e; e_root_err := e_root_err e; e_taskQueue := e_taskQueue e;
     e_versions := e_versions e; e_sideEffects := l; e_sideEffectIdx := i; e_mutables := e_mutables e;
     e_pendingUpserts := e_pendingUpserts e; e_draws := draws |}.
Definition with_mutables (m : gmap string raw) (e : workerEnv) : workerEnv :=
  {| e_info := e_info e; e_activityResults := e_activityResults e; e_scheduledSeqs := e_scheduledSeqs e; e_nextSeq := e_nextSeq e;
     e_newCommands := e_newCommands e; e_signals := e_signals e; e_root_err := e_root_err e; e_taskQueue := e_taskQueue e;
     e_versions := e_versions e; e_sideEffects := e_sideEffects e; e_sideEffectIdx := e_sideEffectIdx e; e_mutables := m;
     e_pendingUpserts := e_pendingUpserts e; e_draws := e_draws e |}.
Definition with_upserts (l : list (gmap string json)) (e : workerEnv) : workerEnv :=
  {| e_info := e_info e; e_activityResults := e_activityResults e; e_scheduledSeqs := e_scheduledSeqs e; e_nextSeq := e_nextSeq e;
     e_newCommands := e_newCommands e; e_signals := e_signals e; e_root_err := e_root_err e; e_taskQueue := e_taskQueue e;
     e_versions := e_versions e; e_sideEffects := e_sideEffects e; e_sideEffectIdx := e_sideEffectIdx e; e_mutables := e_mutables e;
     e_pendingUpserts := l; e_draws := e_draws e |}.

(** One event of [loadHistory]. *)
Definition load_event (e : workerEnv) (ev : histEvent) : workerEnv :=
  match hist_seq ev with
  | None => e
  | Some seq =>
      if String.eqb (he_EventType ev) evtActivityScheduled then
        with_replay (e_activityResults e) ({[seq]} ∪ e_scheduledSeqs e) e
      else if String.eqb (he_EventType ev) evtActivityCompleted then
        with_replay (<[seq := {| oc_failed := false; oc_result := rawAttr ev "result"; oc_failure := RNone |}]> (e_activityResults e))
          (e_scheduledSeqs e) e
      else if String.eqb (he_EventType ev) evtActivityFailed then
        with_replay (<[seq := {| oc_failed := true; oc_result := RNone; oc_failure := rawAttr ev "failure" |}]> (e_activityResults e))
          (e_scheduledSeqs e) e
      else e
  end.
Definition loadHistory (e : workerEnv) (events : list histEvent) : workerEnv := foldl load_event e events.

Definition drainCommands (e : workerEnv) : workerEnv * list rawCommand := (with_commands [] e, e_newCommands e).

(** [json.Marshal(args)]: an array, unless an element does not marshal. *)
Fixpoint marshal_list (l : list goany) : option (list json) :=
  match l with
  | [] => Some []
  | AnyNil :: l => cons JNull <$> marshal_list l
  | AnyJson j :: l => cons j <$> marshal_list l
  | AnyBad :: l => None
  end.
Definition marshal_args (args : list goany) : option raw :=
  match args with
  | [] => Some (RJson JNull)
  | _ => RJson ∘ JArr <$> marshal_list args
  end.

(** The future of a recorded outcome. *)
Definition outcome_future (o : activityOutcome) : future :=
  if oc_failed o then Settle RNone (Some (Decode (oc_failure o))) NewFuture
  else Settle (oc_result o) None NewFuture.

(** The command one call schedules its activity with. *)
Definition schedule_command (e : workerEnv) (seq : Z) (opts : ActivityOptions) (activityType : string) (input : raw) : rawCommand :=
  {| rc_Kind := commandKindScheduleActivity; rc_Result := RNone; rc_Failure := RNone; rc_Seq := seq; rc_ActivityType := activityType;
     rc_Input := input; rc_TaskQueue := if String.eqb (ao_TaskQueue opts) "" then e_taskQueue e else ao_TaskQueue opts;
     rc_StartToCloseMs := Milliseconds (ao_StartToCloseTimeout opts); rc_HeartbeatMs := Milliseconds (ao_HeartbeatTimeout opts);
     rc_RetryPolicy := retryPolicyJSON (ao_RetryPolicy opts) |}.

Definition env_ExecuteActivity (opts : ActivityOptions) (activity : goref) (args : list goany) (e : workerEnv) : workerEnv * future :=
  let seq := e_nextSeq e in
  let e := with_seq (seq + 1) e in
  match e_activityResults e !! seq with
  | Some o => (e, outcome_future o)
  | None =>
      let activityType := ActivityName activity in
      if String.eqb activityType "" then
        (e, Settle RNone (Some (NewError "activity type unresolvable" "ConfigError" true [])) NewFuture)
      else match marshal_args args with
      | None => (e, Settle RNone (Some (ETask "encode activity args" "MarshalError" true [] (Some marshal_error))) NewFuture)
      | Some input =>
          if bool_decide (seq ∈ e_scheduledSeqs e) then (e, Blocked)
          else (with_replay (e_activityResults e) ({[seq]} ∪ e_scheduledSeqs e)
                  (with_commands (e_newCommands e ++ [schedule_command e seq opts activityType input]) e), Blocked)
      end
  end.

Definition env_GetSignalChannel (name : string) (e : workerEnv) : workerEnv * chanImpl :=
  match e_signals e !! name with
  | Some s => (e, s)
  | None => let s := NewSignalChannel name 1024 in (with_signals (<[name := s]> (e_signals e)) e, s)
  end.

(** [GetVersion], over the recorded versions. *)
Definition clamp_version (v lo hi : Z) : Z := if v <? lo then lo else if hi <? v then hi else v.
Definition get_version (versions : gmap string Z) (id : string) (lo hi : Z) : gmap string Z * Z :=
  match versions !! id with
  | Some v => (versions, clamp_version v lo hi)
  | None => (<[id := hi]> versions, hi)
  end.
Definition env_GetVersion (id : string) (lo hi : Z) (e : workerEnv) : workerEnv * Z :=
  let '(m, v) := get_version (e_versions e) id lo hi in (with_versions m e, v).

Section Ambient.
Context `{Ambient}.

Definition env_SideEffect (fn : bool) (e : workerEnv) : workerEnv * (goerror + raw) :=
  let idx := e_sideEffectIdx e in
  let e := with_effects (e_sideEffects e) (idx + 1) (e_draws e) e in
  match e_sideEffects e !! idx with
  | Some rec => (e, rec)
  | None =>
      if fn then
        let r := EncodePayload (amb_value (e_draws e)) in
        (with_effects (e_sideEffects e ++ [r]) (e_sideEffectIdx e) (e_draws e + 1) e, r)
      else (e, inr RNone)
  end.

(** What [eq] compares: bytes that do not decode are nil. *)
Definition decoded (b : raw) : json := match b with RJson j => j | _ => JNull end.
Definition mutable_effect (m : gmap string raw) (id : string) (eq : option (json → json → bool)) (bytes : raw) : gmap string raw * raw :=
  match m !! id, eq with
  | Some prev, Some eq => if eq (decoded prev) (decoded bytes) then (m, prev) else (<[id := bytes]> m, bytes)
  | _, _ => (<[id := bytes]> m, bytes)
  end.
Definition env_MutableSideEffect (id : string) (fn : bool) (eq : option (json → json → bool)) (e : workerEnv) : workerEnv * (goerror + raw) :=
  if fn then
    let e' := with_effects (e_sideEffects e) (e_sideEffectIdx e) (e_draws e + 1) e in
    match EncodePayload (amb_value (e_draws e)) with
    | inl err => (e', inl err)
    | inr bytes => let '(m, b) := mutable_effect (e_mutables e) id eq bytes in (with_mutables m e', inr b)
    end
  else (e, inr RNone).

Definition env_UpsertSearchAttributes (attrs : option (gmap string json)) (e : workerEnv) : workerEnv :=
  match attrs with
  | None => e
  | Some a => with_upserts (e_pendingUpserts e ++ [a]) e
  end.
Definition PendingUpserts (e : workerEnv) : workerEnv * list (gmap string json) := (with_upserts [] e, e_pendingUpserts e).

(** [Sleep]: wall-clock time passes, or the root scope is cancelled first. *)
Definition env_Sleep (d : Z) (e : workerEnv) : workerEnv * option goerror :=
  if d <=? 0 then (e, None) else (e, e_root_err e).

Definition env_Now (e : workerEnv) : workerEnv * Z :=
  (with_effects (e_sideEffects e) (e_sideEffectIdx e) (e_draws e + 1) e, amb_now (e_draws e)).

#[export] Instance worker_env : CoroutineEnv workerEnv := {|
  ce_ExecuteActivity := env_ExecuteActivity;
  ce_GetSignalChannel := env_GetSignalChannel;
  ce_update_signal name ch e := with_signals (<[name := ch]> (e_signals e)) e;
  ce_root_err := e_root_err;
  ce_race e := (with_effects (e_sideEffects e) (e_sideEffectIdx e) (e_draws e + 1) e, amb_race (e_draws e));
  ce_GetVersion := env_GetVersion;
  ce_SideEffect := env_SideEffect;
  ce_MutableSideEffect := env_MutableSideEffect;
  ce_UpsertSearchAttributes := env_UpsertSearchAttributes;
  ce_Now := env_Now;
  ce_Sleep := env_Sleep
|}.

End Ambient.

(** ** Registered functions *)

(** A parameter of a Go function, as reflection sees it: whether the context is
    assignable to it, and which documents unmarshal into it. *)
Record param := { pm_context : bool; pm_accepts : json → bool }.
Inductive argv := ArgContext | ArgZero | ArgJson (j : json).

(** How an activity function ends. *)
Inductive activity_end := ActReturns (outs : list outv) | ActPanics (text : string).

(** A registered value: a function with its runtime name, or something else. *)
Inductive gofn (R : Type) := NotFunc | Func (full : string) (params : list param) (body : list argv → R).
Arguments NotFunc {R}.
Arguments Func {R} full params body.
Definition fn_name {R} (f : gofn R) : string := match f with NotFunc => "" | Func full _ _ => short_name full end.

Record registry := { r_workflows : gmap string (gofn prog); r_activities : gmap string (gofn activity_end) }.
Definition newRegistry : registry := {| r_workflows := ∅; r_activities := ∅ |}.

(** Registration; [None] is a panic, a nil function is [None]. *)
Definition registerWorkflow (fn : option (gofn prog)) (name : string) (disableCheck : bool) (r : registry) : option registry :=
  f ← fn;
  let name := if String.eqb name "" then fn_name f else name in
  if String.eqb name "" then None
  else if bool_decide (is_Some (r_workflows r !! name)) && negb disableCheck then None
  else Some {| r_workflows := <[name := f]> (r_workflows r); r_activities := r_activities r |}.
Definition registerActivity (fn : option (gofn activity_end)) (name : string) (r : registry) : option registry :=
  f ← fn;
  let name := if String.eqb name "" then fn_name f else name in
  if String.eqb name "" then None
  else if bool_decide (is_Some (r_activities r !! name)) then None
  else Some {| r_workflows := r_workflows r; r_activities := <[name := f]> (r_activities r) |}.
Definition workflowFn (r : registry) (name : string) : option (gofn prog) := r_workflows r !! name.
Definition activityFn (r : registry) (name : string) : option (gofn activity_end) := r_activities r !! name.

(** ** Arguments *)

(** The elements of the input array; a single value stands for a single argument. *)
Definition input_elements (n : nat) (input : raw) : option (list raw) :=
  match input with
  | RNone | RJson JNull => Some []
  | RJson (JArr l) => Some (RJson <$> l)
  | _ => if (n =? 1)%nat then Some [input] else None
  end.
Definition decode_arg (p : param) (o : option raw) : option argv :=
  match o with
  | None | Some RNone => Some ArgZero
  | Some (RJson j) => if pm_accepts p j then Some (ArgJson j) else None
  | Some RBad => None
  end.
Fixpoint decode_each (ps : list param) (l : list raw) : option (list argv) :=
  match ps with
  | [] => Some []
  | p :: ps => a ← decode_arg p (head l); cons a <$> decode_each ps (tail l)
  end.
Definition appendDecodedArgs (args : list argv) (ps : list param) (input : raw) : option (list argv) :=
  l ← input_elements (length ps) input; app args <$> decode_each ps l.

Definition decodeWorkflowArgs {R} (fn : gofn R) (input : raw) : option (list argv) :=
  match fn with
  | NotFunc => None
  | Func _ [] _ => None
  | Func _ (p :: ps) _ =>
      if negb (pm_context p) then None
      else match ps with [] => Some [ArgContext] | _ => appendDecodedArgs [ArgContext] ps input end
  end.
(** An activity may take no argument at all. *)
Definition decodeActivityArgs {R} (fn : gofn R) (input : raw) : option (list argv) :=
  match fn with
  | Func _ [] _ => Some []
  | _ => decodeWorkflowArgs fn input
  end.

(** [invokeFunc]: the first value that is not nil, and the last error that is not. *)
Definition split_out (acc : goany * option goerror) (o : outv) : goany * option goerror :=
  match o with
  | OutErr (Some e) => (acc.1, Some e)
  | OutErr None => acc
  | OutVal v => match acc.1 with AnyNil => (v, acc.2) | _ => acc end
  end.
Definition invokeFunc (outs : list outv) : goany * option goerror := foldl split_out (AnyNil, None) outs.

(** ** Dispatch *)

(** The tasks the transport delivers; tokens and bodies as they arrive. *)
Record WorkflowTask := { tk_token : string; tk_workflowID : string; tk_runID : string; tk_workflowType : string; tk_history : raw }.
Record ActivityTask := {
  ak_token : string; ak_workflowID : string; ak_runID : string; ak_activityID : string; ak_activityType : string; ak_input : raw;
  ak_scheduledTimeMs : Z; ak_startToCloseTimeoutMs : Z; ak_heartbeatTimeoutMs : Z }.

Record workerImpl := { wk_taskQueue : string; wk_namespace : string; wk_registry : registry }.

Section Dispatch.
Context `{Ambient}.

(** [runWorkflowEpisode]; [None] is an episode that does not end. *)
Inductive episode := EpisodeResult (result : goany) | EpisodeError (e : goerror) | EpisodeWaits.
Definition end_episode (o : outcome) : option episode :=
  match o with
  | Returned outs => let '(result, err) := invokeFunc outs in Some (match err with Some e => EpisodeError e | None => EpisodeResult result end)
  | Panicked text => Some (EpisodeError (NewError ("workflow panic: " +:+ text) "PanicError" false []))
  | EpisodeBlocked => Some EpisodeWaits
  | Parked => None
  end.
Definition runWorkflowEpisode (body : list argv → prog) (args : list argv) (e : workerEnv) : workerEnv * option episode :=
  let '(e, o) := exec (body args) [] e in (e, end_episode o).

Definition episode_commands (commands : list rawCommand) (ep : episode) : list rawCommand :=
  match ep with
  | EpisodeWaits => commands
  | EpisodeError err => commands ++ [failCommand err]
  | EpisodeResult result => commands ++ [completeCommand result]
  end.

Definition task_env (w : workerImpl) (task : WorkflowTask) (events : list histEvent) : workerEnv :=
  loadHistory (newWorkerEnv {| in_WorkflowID := tk_workflowID task; in_RunID := tk_runID task; in_WorkflowType := tk_workflowType task;
                               in_TaskQueue := wk_taskQueue w; in_Namespace := wk_namespace w; in_Attempt := 1 |} (wk_taskQueue w)) events.

Definition args_error : goerror := EPlain "workflow input decode".

(** [dispatchWorkflowTask]: the commands it responds with; [None] when the function
    never comes back and nothing is sent. *)
Definition dispatchWorkflowTask (w : workerImpl) (task : WorkflowTask) : option (list rawCommand) :=
  match workflowFn (wk_registry w) (tk_workflowType task) with
  | None => Some []
  | Some fn =>
      match parseHistory (tk_history task) with
      | inl err => Some [failCommand err]
      | inr events =>
          match decodeWorkflowArgs fn (workflowInputFromHistory events), fn with
          | Some args, Func _ _ body =>
              let '(env, ep) := runWorkflowEpisode body args (task_env w task events) in
              let '(_, commands) := drainCommands env in
              episode_commands commands <$> ep
          | _, _ => Some [failCommand args_error]
          end
      end
  end.

(** What an activity worker reports. *)
Inductive activity_report := ReportCompleted (result : raw) | ReportFailed (failure : raw).

Definition encodeFailure (e : option goerror) : raw :=
  Encode (match e with Some e => e | None => NewError "unknown failure" CodeApplication false [] end).

(** The interval of [autoHeartbeat]: half the timeout, at least 100 ms. *)
Definition heartbeat_interval (timeoutMs : Z) : option Z :=
  if 0 <? timeoutMs then
    let interval := Z.quot (wrap64 (timeoutMs * Millisecond)) 2 in
    Some (if interval <? 100 * Millisecond then 100 * Millisecond else interval)
  else None.

Definition report_result (outs : list outv) : activity_report :=
  match invokeFunc outs with
  | (_, Some e) => ReportFailed (encodeFailure (Some e))
  | (AnyBad, None) => ReportFailed (encodeFailure (Some (NewError "result marshal" "MarshalError" true [])))
  | (AnyJson j, None) => ReportCompleted (RJson j)
  | (AnyNil, None) => ReportCompleted (RJson JNull)
  end.

(** [dispatchActivityTask]: the one report it sends. *)
Definition dispatchActivityTask (w : workerImpl) (task : ActivityTask) : activity_report :=
  match activityFn (wk_registry w) (ak_activityType task) with
  | None => ReportFailed (encodeFailure (Some (NewError "activity not registered" "NotFoundError" true [])))
  | Some fn =>
      match decodeActivityArgs fn (ak_input task), fn with
      | Some args, Func _ _ body =>
          match body args with
          | ActReturns outs => report_result outs
          | ActPanics text => ReportFailed (encodeFailure (Some (NewError ("activity panic: " +:+ text) "PanicError" true [])))
          end
      | _, _ => ReportFailed (encodeFailure (Some (NewError "input decode" "DecodeError" true [])))
      end
  end.

End Dispatch.
