(* ===== verification/Dispatch.v ===== *)
(** The dispatcher: [pkg/tasks/dispatch.go]. It owns the worker subscriptions,
    the queues of tasks no worker has taken, the tokens of tasks in flight and
    the queries that await an answer. Every method runs under the dispatcher's
    mutex, so each is one atomic transition of [dispatcher]. The clock reading
    and the random id a method draws are its arguments here. *)

From Stdlib Require Import Ascii ZArith Lia.
From stdpp Require Import prelude strings gmap.
From S2P Require Import Prelude GoStrings Sha256 Json Env Principal GoTime.

(** ** Data *)

Inductive taskKind := kindWorkflow | kindActivity.
#[export] Instance taskKind_eq_dec : EqDecision taskKind.
Proof. solve_decision. Defined.

Record subKey := { sk_ns : string; sk_queue : string; sk_kind : taskKind }.
#[export] Instance subKey_eq_dec : EqDecision subKey.
Proof. solve_decision. Defined.
#[export] Instance subKey_countable : Countable subKey.
Proof.
  refine (inj_countable' (λ k, (sk_ns k, sk_queue k, match sk_kind k with kindWorkflow => true | kindActivity => false end))
    (λ '(n, q, b), {| sk_ns := n; sk_queue := q; sk_kind := if (b : bool) then kindWorkflow else kindActivity |}) _).
  by intros [? ? []].
Defined.

Record subscription := { sub_id : string; sub_peerID : string; sub_key : subKey }.
#[export] Instance subscription_eq_dec : EqDecision subscription.
Proof. solve_decision. Defined.

Record pendingWorkflowTask := {
  wt_token : string;
  wt_principal : Principal;
  wt_ns : string;
  wt_queue : string;
  wt_workflowID : string;
  wt_runID : string;
  wt_workflowType : string;
  wt_input : raw;
  wt_scheduledAt : Z;
  wt_workerPeer : string }.

Record pendingActivityTask := {
  at_token : string;
  at_principal : Principal;
  at_ns : string;
  at_queue : string;
  at_activityID : string;
  at_activityType : string;
  at_input : raw;
  at_workflowID : string;
  at_runID : string;
  at_seq : Z;
  at_startToCloseMs : Z;
  at_heartbeatMs : Z;
  at_scheduledAt : Z;
  at_dispatchedToPeer : string }.

Record queryResponse := { qr_result : raw; qr_errMsg : string }.

(** A pending query: its response channel, and when it was pushed. *)
Record pendingQuery := { pq_resCh : nat; pq_at : Z }.

(** One accepted [send]: the subscription key it went out on, the peer, the
    opcode and the body. *)
Record push := { pu_key : subKey; pu_peer : string; pu_opcode : Z; pu_body : json }.

Record dispatcher := {
  d_wired : bool;                                   (* [send != nil] *)
  d_subs : gmap subKey (list subscription);
  d_byPeer : gmap string (list subscription);
  d_rrIdx : gmap subKey nat;
  d_pendingWF : gmap subKey (list pendingWorkflowTask);
  d_pendingAct : gmap subKey (list pendingActivityTask);
  d_wfByToken : gmap string pendingWorkflowTask;
  d_actByToken : gmap string pendingActivityTask;
  d_queries : gmap string pendingQuery;
  d_chans : gmap nat queryResponse;                 (* what each response channel holds *)
  d_nextCh : nat;
  d_sends : nat;                                    (* calls of [send] so far *)
  d_sent : list push                                (* those the transport accepted *)
}.

Definition newDispatcher (wired : bool) : dispatcher := {|
  d_wired := wired; d_subs := ∅; d_byPeer := ∅; d_rrIdx := ∅; d_pendingWF := ∅; d_pendingAct := ∅;
  d_wfByToken := ∅; d_actByToken := ∅; d_queries := ∅; d_chans := ∅; d_nextCh := 0; d_sends := 0;
  d_sent := [] |}.

Definition with_subs (f : gmap subKey (list subscription) → gmap subKey (list subscription)) (d : dispatcher) : dispatcher :=
  {| d_wired := d_wired d; d_subs := f (d_subs d); d_byPeer := d_byPeer d; d_rrIdx := d_rrIdx d;
     d_pendingWF := d_pendingWF d; d_pendingAct := d_pendingAct d; d_wfByToken := d_wfByToken d;
     d_actByToken := d_actByToken d; d_queries := d_queries d; d_chans := d_chans d;
     d_nextCh := d_nextCh d; d_sends := d_sends d; d_sent := d_sent d |}.
Definition with_byPeer (f : gmap string (list subscription) → gmap string (list subscription)) (d : dispatcher) : dispatcher :=
  {| d_wired := d_wired d; d_subs := d_subs d; d_byPeer := f (d_byPeer d); d_rrIdx := d_rrIdx d;
     d_pendingWF := d_pendingWF d; d_pendingAct := d_pendingAct d; d_wfByToken := d_wfByToken d;
     d_actByToken := d_actByToken d; d_queries := d_queries d; d_chans := d_chans d;
     d_nextCh := d_nextCh d; d_sends := d_sends d; d_sent := d_sent d |}.
Definition with_rrIdx (f : gmap subKey nat → gmap subKey nat) (d : dispatcher) : dispatcher :=
  {| d_wired := d_wired d; d_subs := d_subs d; d_byPeer := d_byPeer d; d_rrIdx := f (d_rrIdx d);
     d_pendingWF := d_pendingWF d; d_pendingAct := d_pendingAct d; d_wfByToken := d_wfByToken d;
     d_actByToken := d_actByToken d; d_queries := d_queries d; d_chans := d_chans d;
     d_nextCh := d_nextCh d; d_sends := d_sends d; d_sent := d_sent d |}.
Definition with_pendingWF (f : gmap subKey (list pendingWorkflowTask) → gmap subKey (list pendingWorkflowTask)) (d : dispatcher) : dispatcher :=
  {| d_wired := d_wired d; d_subs := d_subs d; d_byPeer := d_byPeer d; d_rrIdx := d_rrIdx d;
     d_pendingWF := f (d_pendingWF d); d_pendingAct := d_pendingAct d; d_wfByToken := d_wfByToken d;
     d_actByToken := d_actByToken d; d_queries := d_queries d; d_chans := d_chans d;
     d_nextCh := d_nextCh d; d_sends := d_sends d; d_sent := d_sent d |}.
Definition with_pendingAct (f : gmap subKey (list pendingActivityTask) → gmap subKey (list pendingActivityTask)) (d : dispatcher) : dispatcher :=
  {| d_wired := d_wired d; d_subs := d_subs d; d_byPeer := d_byPeer d; d_rrIdx := d_rrIdx d;
     d_pendingWF := d_pendingWF d; d_pendingAct := f (d_pendingAct d); d_wfByToken := d_wfByToken d;
     d_actByToken := d_actByToken d; d_queries := d_queries d; d_chans := d_chans d;
     d_nextCh := d_nextCh d; d_sends := d_sends d; d_sent := d_sent d |}.
Definition with_wfByToken (f : gmap string pendingWorkflowTask → gmap string pendingWorkflowTask) (d : dispatcher) : dispatcher :=
  {| d_wired := d_wired d; d_subs := d_subs d; d_byPeer := d_byPeer d; d_rrIdx := d_rrIdx d;
     d_pendingWF := d_pendingWF d; d_pendingAct := d_pendingAct d; d_wfByToken := f (d_wfByToken d);
     d_actByToken := d_actByToken d; d_queries := d_queries d; d_chans := d_chans d;
     d_nextCh := d_nextCh d; d_sends := d_sends d; d_sent := d_sent d |}.
Definition with_actByToken (f : gmap string pendingActivityTask → gmap string pendingActivityTask) (d : dispatcher) : dispatcher :=
  {| d_wired := d_wired d; d_subs := d_subs d; d_byPeer := d_byPeer d; d_rrIdx := d_rrIdx d;
     d_pendingWF := d_pendingWF d; d_pendingAct := d_pendingAct d; d_wfByToken := d_wfByToken d;
     d_actByToken := f (d_actByToken d); d_queries := d_queries d; d_chans := d_chans d;
     d_nextCh := d_nextCh d; d_sends := d_sends d; d_sent := d_sent d |}.
Definition with_queries (f : gmap string pendingQuery → gmap string pendingQuery) (d : dispatcher) : dispatcher :=
  {| d_wired := d_wired d; d_subs := d_subs d; d_byPeer := d_byPeer d; d_rrIdx := d_rrIdx d;
     d_pendingWF := d_pendingWF d; d_pendingAct := d_pendingAct d; d_wfByToken := d_wfByToken d;
     d_actByToken := d_actByToken d; d_queries := f (d_queries d); d_chans := d_chans d;
     d_nextCh := d_nextCh d; d_sends := d_sends d; d_sent := d_sent d |}.
Definition with_chans (f : gmap nat queryResponse → gmap nat queryResponse) (n : nat) (d : dispatcher) : dispatcher :=
  {| d_wired := d_wired d; d_subs := d_subs d; d_byPeer := d_byPeer d; d_rrIdx := d_rrIdx d;
     d_pendingWF := d_pendingWF d; d_pendingAct := d_pendingAct d; d_wfByToken := d_wfByToken d;
     d_actByToken := d_actByToken d; d_queries := d_queries d; d_chans := f (d_chans d);
     d_nextCh := n; d_sends := d_sends d; d_sent := d_sent d |}.
Definition with_sent (n : nat) (l : list push) (d : dispatcher) : dispatcher :=
  {| d_wired := d_wired d; d_subs := d_subs d; d_byPeer := d_byPeer d; d_rrIdx := d_rrIdx d;
     d_pendingWF := d_pendingWF d; d_pendingAct := d_pendingAct d; d_wfByToken := d_wfByToken d;
     d_actByToken := d_actByToken d; d_queries := d_queries d; d_chans := d_chans d;
     d_nextCh := d_nextCh d; d_sends := n; d_sent := l |}.

(** Opcodes of the server's pushes. *)
Definition OpcodeDeliverWorkflowTask : Z := 176.
Definition OpcodeDeliverActivityTask : Z := 177.
Definition OpcodeDeliverCancelRequest : Z := 179.
Definition OpcodeDeliverQuery : Z := 180.

(** Reading a Go map of slices: an absent key is the nil slice. *)
Definition at_key {K A} `{Countable K} (m : gmap K (list A)) (k : K) : list A := default [] (m !! k).

Definition wfKey (ns wfID runID : string) : string := ns +:+ "|" +:+ wfID +:+ "|" +:+ runID.

(** The loop that drops the first subscription with this id. *)
Fixpoint drop_sub (id : string) (l : list subscription) : list subscription :=
  match l with
  | [] => []
  | s :: l => if String.eqb (sub_id s) id then l else s :: drop_sub id l
  end.

Section Dispatcher.
Context `{Env}.

(** [newRandID] renders twelve random bytes. *)
Definition newRandID (r : Z) : string := hex 24 r.

Definition mintToken (prefix payload : string) : string :=
  prefix +:+ "|" +:+ payload +:+ "|" +:+ hex_of (hmac_sha256 env_secret (prefix +:+ String "000" "" +:+ payload)).

(** ** Subscriptions *)

Definition pickLocked (key : subKey) (d : dispatcher) : option subscription * dispatcher :=
  let list := at_key (d_subs d) key in
  if bool_decide (list = []) then (None, d)
  else let i := default 0%nat (d_rrIdx d !! key) `mod` length list in
       (list !! i, with_rrIdx (<[key := (i + 1) `mod` length list]>) d).

(** Cleaning up after a removal from [byPeer]. *)
Definition tidy_peer (peer : string) (d : dispatcher) : dispatcher :=
  if bool_decide (at_key (d_byPeer d) peer = []) then with_byPeer (delete peer) d else d.
Definition tidy_key (key : subKey) (d : dispatcher) : dispatcher :=
  if bool_decide (at_key (d_subs d) key = [])
  then with_rrIdx (delete key) (with_subs (delete key) d) else d.

Definition removeSubLocked (sub : subscription) (d : dispatcher) : dispatcher :=
  let key := sub_key sub in
  let d := with_subs (λ m, <[key := drop_sub (sub_id sub) (at_key m key)]> m) d in
  let d := tidy_key key d in
  match d_byPeer d !! sub_peerID sub with
  | None => d
  | Some ps => tidy_peer (sub_peerID sub) (with_byPeer (<[sub_peerID sub := drop_sub (sub_id sub) ps]>) d)
  end.

(** One call of [send]. *)
Definition send (key : subKey) (peer : string) (opcode : Z) (body : json) (d : dispatcher) : bool * dispatcher :=
  let ok := env_send (d_sends d) peer opcode in
  (ok, with_sent (S (d_sends d))
        (if ok then d_sent d ++ [{| pu_key := key; pu_peer := peer; pu_opcode := opcode; pu_body := body |}] else d_sent d) d).

(** The loop of [deliverWFLocked] and [deliverActLocked]: pick, push, prune.
    It returns whether the task was taken, and the last peer tried. The fuel is
    the number of subscribers plus one; [deliver_unfold] shows the loop never
    needs more. *)
Fixpoint deliver_loop (fuel : nat) (key : subKey) (opcode : Z) (body : json) (peer : string) (d : dispatcher)
    : bool * string * dispatcher :=
  match fuel with
  | 0 => (false, peer, d)
  | S fuel =>
      match pickLocked key d with
      | (None, d) => (false, peer, d)
      | (Some sub, d) =>
          if negb (d_wired d) then (true, sub_peerID sub, d)
          else let '(ok, d) := send key (sub_peerID sub) opcode body d in
               if ok : bool then (true, sub_peerID sub, d)
               else deliver_loop fuel key opcode body (sub_peerID sub) (removeSubLocked sub d)
      end
  end.

Definition deliver (key : subKey) (opcode : Z) (body : json) (peer : string) (d : dispatcher) : bool * string * dispatcher :=
  deliver_loop (S (length (at_key (d_subs d) key))) key opcode body peer d.

Definition encodeWorkflowTaskDelivery (t : pendingWorkflowTask) : json :=
  JObj (fld "task_token" (wt_token t) ++ fld "workflow_id" (wt_workflowID t) ++ fld "run_id" (wt_runID t) ++
    fld "workflow_type_name" (wt_workflowType t) ++ fld_omit "history" (env_bytes (wt_input t))).

Definition encodeActivityTaskDelivery (t : pendingActivityTask) : json :=
  JObj (fld "task_token" (at_token t) ++ fld "workflow_id" (at_workflowID t) ++ fld "run_id" (at_runID t) ++
    fld "activity_id" (at_activityID t) ++ fld "activity_type_name" (at_activityType t) ++
    fld_omit "input" (env_bytes (at_input t)) ++ fld "scheduled_time_ms" (at_scheduledAt t / Millisecond)%Z ++
    fld_omit "start_to_close_timeout_ms" (at_startToCloseMs t) ++ fld_omit "heartbeat_timeout_ms" (at_heartbeatMs t)).

Definition wt_set_peer (p : string) (t : pendingWorkflowTask) : pendingWorkflowTask :=
  {| wt_token := wt_token t; wt_principal := wt_principal t; wt_ns := wt_ns t; wt_queue := wt_queue t;
     wt_workflowID := wt_workflowID t; wt_runID := wt_runID t; wt_workflowType := wt_workflowType t;
     wt_input := wt_input t; wt_scheduledAt := wt_scheduledAt t; wt_workerPeer := p |}.
Definition at_set_peer (p : string) (t : pendingActivityTask) : pendingActivityTask :=
  {| at_token := at_token t; at_principal := at_principal t; at_ns := at_ns t; at_queue := at_queue t;
     at_activityID := at_activityID t; at_activityType := at_activityType t; at_input := at_input t;
     at_workflowID := at_workflowID t; at_runID := at_runID t; at_seq := at_seq t;
     at_startToCloseMs := at_startToCloseMs t; at_heartbeatMs := at_heartbeatMs t;
     at_scheduledAt := at_scheduledAt t; at_dispatchedToPeer := p |}.

(** The task is shared with [wfByToken], so the peer recorded on it shows there. *)
Definition deliverWFLocked (key : subKey) (t : pendingWorkflowTask) (d : dispatcher)
    : bool * pendingWorkflowTask * dispatcher :=
  let '(ok, peer, d) := deliver key OpcodeDeliverWorkflowTask (encodeWorkflowTaskDelivery t) (wt_workerPeer t) d in
  (ok, wt_set_peer peer t, with_wfByToken (alter (wt_set_peer peer) (wt_token t)) d).

Definition deliverActLocked (key : subKey) (t : pendingActivityTask) (d : dispatcher)
    : bool * pendingActivityTask * dispatcher :=
  let '(ok, peer, d) := deliver key OpcodeDeliverActivityTask (encodeActivityTaskDelivery t) (at_dispatchedToPeer t) d in
  (ok, at_set_peer peer t, with_actByToken (alter (at_set_peer peer) (at_token t)) d).

(** The backlog loops of [drainLocked], by recursion on the backlog. *)
Fixpoint drain_wf (key : subKey) (l : list pendingWorkflowTask) (d : dispatcher) : dispatcher :=
  match l with
  | [] => d
  | t :: rest =>
      let '(ok, t, d) := deliverWFLocked key t d in
      if ok : bool then drain_wf key rest (with_pendingWF (<[key := rest]>) d)
      else with_pendingWF (<[key := t :: rest]>) d
  end.
Fixpoint drain_act (key : subKey) (l : list pendingActivityTask) (d : dispatcher) : dispatcher :=
  match l with
  | [] => d
  | t :: rest =>
      let '(ok, t, d) := deliverActLocked key t d in
      if ok : bool then drain_act key rest (with_pendingAct (<[key := rest]>) d)
      else with_pendingAct (<[key := t :: rest]>) d
  end.

Definition drainLocked (sub : subscription) (d : dispatcher) : dispatcher :=
  let key := sub_key sub in
  match sk_kind key with
  | kindWorkflow => drain_wf key (at_key (d_pendingWF d) key) d
  | kindActivity => drain_act key (at_key (d_pendingAct d) key) d
  end.

Definition Subscribe (r : Z) (peerID ns queue : string) (kind : taskKind) (d : dispatcher) : option string * dispatcher :=
  if String.eqb peerID "" || String.eqb ns "" || String.eqb queue "" then (None, d)
  else
    let sub := {| sub_id := newRandID r; sub_peerID := peerID; sub_key := {| sk_ns := ns; sk_queue := queue; sk_kind := kind |} |} in
    let d := with_subs (λ m, <[sub_key sub := at_key m (sub_key sub) ++ [sub]]> m) d in
    let d := with_byPeer (λ m, <[peerID := at_key m peerID ++ [sub]]> m) d in
    (Some (sub_id sub), drainLocked sub d).

(** [Unsubscribe] walks the keys in Go's map order, here the order of the
    finite map; the ids are unique, so at most one key has it. *)
Definition find_sub (subID : string) (d : dispatcher) : option subscription :=
  head (filter (λ s, sub_id s = subID) (concat (map_to_list (d_subs d)).*2)).

Definition Unsubscribe (subID : string) (d : dispatcher) : dispatcher :=
  match find_sub subID d with
  | None => d
  | Some s =>
      let d := with_subs (λ m, <[sub_key s := drop_sub subID (at_key m (sub_key s))]> m) d in
      match d_byPeer d !! sub_peerID s with
      | None => d
      | Some ps => tidy_peer (sub_peerID s) (with_byPeer (<[sub_peerID s := drop_sub subID ps]>) d)
      end
  end.

(** The loop of [RemovePeer]: one subscription out of [subs]. *)
Definition remove_peer_sub (s : subscription) (d : dispatcher) : dispatcher :=
  tidy_key (sub_key s)
    (with_subs (λ m, <[sub_key s := drop_sub (sub_id s) (at_key m (sub_key s))]> m) d).

Definition RemovePeer (peerID : string) (d : dispatcher) : dispatcher :=
  match d_byPeer d !! peerID with
  | None => d
  | Some subs => with_byPeer (delete peerID) (foldl (λ d s, remove_peer_sub s d) d subs)
  end.

(** ** Tasks *)

Definition EnqueueWorkflowTask (now r : Z) (principal : Principal) (ns queue workflowID runID workflowType : string) (input : raw) (d : dispatcher) : dispatcher :=
  let token := mintToken "wf" (workflowID +:+ "|" +:+ runID +:+ "|" +:+ newRandID r) in
  let t := {| wt_token := token; wt_principal := principal; wt_ns := ns; wt_queue := queue;
              wt_workflowID := workflowID; wt_runID := runID; wt_workflowType := workflowType;
              wt_input := input; wt_scheduledAt := now; wt_workerPeer := "" |} in
  let d := with_wfByToken (<[token := t]>) d in
  let key := {| sk_ns := ns; sk_queue := queue; sk_kind := kindWorkflow |} in
  let '(ok, t, d) := deliverWFLocked key t d in
  if ok : bool then d else with_pendingWF (λ m, <[key := at_key m key ++ [t]]> m) d.

Definition DispatchActivity (now r : Z) (principal : Principal) (ns queue workflowID runID : string) (seq : Z) (activityID activityType : string) (input : raw) (startToCloseMs heartbeatMs : Z) (d : dispatcher) : string * dispatcher :=
  let token := mintToken "act" (activityID +:+ "|" +:+ newRandID r) in
  let t := {| at_token := token; at_principal := principal; at_ns := ns; at_queue := queue;
              at_activityID := activityID; at_activityType := activityType; at_input := input;
              at_workflowID := workflowID; at_runID := runID; at_seq := seq;
              at_startToCloseMs := startToCloseMs; at_heartbeatMs := heartbeatMs;
              at_scheduledAt := now; at_dispatchedToPeer := "" |} in
  let d := with_actByToken (<[token := t]>) d in
  let key := {| sk_ns := ns; sk_queue := queue; sk_kind := kindActivity |} in
  let '(ok, t, d) := deliverActLocked key t d in
  (token, if ok : bool then d else with_pendingAct (λ m, <[key := at_key m key ++ [t]]> m) d).

Definition CompleteWorkflowTask (token : string) (d : dispatcher) : option pendingWorkflowTask * dispatcher :=
  match d_wfByToken d !! token with
  | None => (None, d)
  | Some t => (Some t, with_wfByToken (delete token) d)
  end.

Definition ResolveActivityToken (token : string) (d : dispatcher) : option pendingActivityTask * dispatcher :=
  match d_actByToken d !! token with
  | None => (None, d)
  | Some t => (Some t, with_actByToken (delete token) d)
  end.

(** ** Cancel pushes and queries *)

Definition HasSubscribers (ns queue : string) (kind : taskKind) (d : dispatcher) : bool :=
  negb (bool_decide (at_key (d_subs d) {| sk_ns := ns; sk_queue := queue; sk_kind := kind |} = [])).

Definition cancelRequestDelivery (ns workflowID runID reason identity : string) : json :=
  JObj (fld "namespace" ns ++ fld "workflow_id" workflowID ++ fld "run_id" runID ++
    fld_omit "reason" reason ++ fld_omit "identity" identity).

Fixpoint push_each (key : subKey) (body : json) (l : list subscription) (d : dispatcher) : nat * dispatcher :=
  match l with
  | [] => (0, d)
  | s :: l => let '(ok, d) := send key (sub_peerID s) OpcodeDeliverCancelRequest body d in
              let '(n, d) := push_each key body l d in
              ((if ok : bool then S n else n), d)
  end.

Definition PushCancelRequest (ns queue workflowID runID reason identity : string) (d : dispatcher) : nat * dispatcher :=
  let key := {| sk_ns := ns; sk_queue := queue; sk_kind := kindWorkflow |} in
  let subs := at_key (d_subs d) key in
  if negb (d_wired d) || bool_decide (subs = []) then (0, d)
  else push_each key (cancelRequestDelivery ns workflowID runID reason identity) subs d.

Definition maxPendingQueries : nat := 4096.
Definition pendingQueryTTL : Z := 5 * Minute.

Definition evictExpiredQueriesLocked (now : Z) (d : dispatcher) : dispatcher :=
  let cutoff := (now - pendingQueryTTL)%Z in
  with_queries (filter (λ kv, ¬ (pq_at kv.2 < cutoff)%Z)) d.

(** The scan for the oldest entry; the empty token marks that none is chosen. *)
Definition oldest_query (l : list (string * pendingQuery)) : string * Z :=
  foldl (λ acc kv, if String.eqb acc.1 "" || (pq_at kv.2 <? acc.2)%Z then (kv.1, pq_at kv.2) else acc) ("", 0%Z) l.

Definition evictOldestQueryLocked (d : dispatcher) : dispatcher :=
  let tok := (oldest_query (map_to_list (d_queries d))).1 in
  if String.eqb tok "" then d else with_queries (delete tok) d.

Inductive query_error := ErrNoWorkersSubscribed | ErrSendNotWired | ErrSendFailed.

(** The base64 text of [args] is represented by the bytes it encodes. *)
Definition queryDelivery (token ns workflowID runID queryType : string) (args : raw) : json :=
  JObj (fld "token" token ++ fld "namespace" ns ++ fld "workflow_id" workflowID ++ fld "run_id" runID ++
    fld "query_type" queryType ++ fld_omit "args" (env_bytes args)).

(** [now1] is the clock at the eviction sweep, [now2] at the insertion. *)
Definition PushQuery (now1 now2 r : Z) (ns queue workflowID runID queryType : string) (args : raw) (d : dispatcher)
    : (query_error + string * nat) * dispatcher :=
  let key := {| sk_ns := ns; sk_queue := queue; sk_kind := kindWorkflow |} in
  match pickLocked key d with
  | (None, d) => (inl ErrNoWorkersSubscribed, d)
  | (Some sub, d) =>
      let d := evictExpiredQueriesLocked now1 d in
      let d := if (maxPendingQueries <=? size (d_queries d))%nat then evictOldestQueryLocked d else d in
      let token := newRandID r in
      let ch := d_nextCh d in
      let d := with_chans id (S ch) (with_queries (<[token := {| pq_resCh := ch; pq_at := now2 |}]>) d) in
      if negb (d_wired d) then (inl ErrSendNotWired, with_queries (delete token) d)
      else
        let '(ok, d) := send key (sub_peerID sub) OpcodeDeliverQuery (queryDelivery token ns workflowID runID queryType args) d in
        if ok : bool then (inr (token, ch), d) else (inl ErrSendFailed, with_queries (delete token) d)
  end.

Definition CompleteQuery (token : string) (result : raw) (errMsg : string) (d : dispatcher) : bool * dispatcher :=
  match d_queries d !! token with
  | None => (false, d)
  | Some pq =>
      let d := with_queries (delete token) d in
      (true, with_chans (<[pq_resCh pq := {| qr_result := result; qr_errMsg := errMsg |}]>) (d_nextCh d) d)
  end.

Definition CancelQuery (token : string) (d : dispatcher) : dispatcher := with_queries (delete token) d.

(** ** The delivery loop terminates *)

Lemma at_key_insert {K A} `{Countable K} (m : gmap K (list A)) k k' l :
  at_key (<[k := l]> m) k' = if decide (k = k') then l else at_key m k'.
Proof. unfold at_key. case_decide; subst; [by rewrite lookup_insert_eq|by rewrite lookup_insert_ne]. Qed.

Lemma at_key_delete {K A} `{Countable K} (m : gmap K (list A)) k k' :
  at_key (delete k m) k' = if decide (k = k') then [] else at_key m k'.
Proof. unfold at_key. case_decide; subst; [by rewrite lookup_delete_eq|by rewrite lookup_delete_ne]. Qed.

Lemma drop_sub_length s l : s ∈ l → length l = S (length (drop_sub (sub_id s) l)).
Proof.
  induction l as [|x l IH]; [by rewrite elem_of_nil|]. intros Hin. cbn [drop_sub].
  destruct (String.eqb_spec (sub_id x) (sub_id s)) as [E|E]; [done|]. cbn [length]. f_equal. apply IH.
  apply elem_of_cons in Hin as [->|?]; [done|done].
Qed.

Lemma drop_sub_incl s id l : s ∈ drop_sub id l → s ∈ l.
Proof.
  induction l as [|x l IH]; [done|]. cbn [drop_sub]. case_match; [by right|].
  intros [->|?]%elem_of_cons; [by left|right; by apply IH].
Qed.

Lemma pick_none key d d' : pickLocked key d = (None, d') → d' = d ∧ at_key (d_subs d) key = [].
Proof.
  unfold pickLocked. case_bool_decide as E; [by intros [= <-]|]. intros [= Hn _].
  apply lookup_ge_None in Hn. destruct (at_key (d_subs d) key) as [|x l]; [done|].
  pose proof (Nat.mod_upper_bound (default 0%nat (d_rrIdx d !! key)) (length (x :: l)) ltac:(done)). lia.
Qed.

Lemma pick_some key d s d' :
  pickLocked key d = (Some s, d') → s ∈ at_key (d_subs d) key ∧ ∃ i, d' = with_rrIdx (<[key := i]>) d.
Proof.
  unfold pickLocked. case_bool_decide as E; [done|]. intros [= Hs <-].
  split; [by eapply list_elem_of_lookup_2|eauto].
Qed.

(** What the loop leaves alone. *)
Definition same_tasks (d d' : dispatcher) : Prop :=
  d_wired d' = d_wired d ∧ d_pendingWF d' = d_pendingWF d ∧ d_pendingAct d' = d_pendingAct d ∧
  d_wfByToken d' = d_wfByToken d ∧ d_actByToken d' = d_actByToken d ∧ d_queries d' = d_queries d ∧
  d_chans d' = d_chans d ∧ d_nextCh d' = d_nextCh d.

#[local] Instance same_tasks_trans : Transitive same_tasks.
Proof. unfold same_tasks. intros d1 d2 d3 ? ?. naive_solver congruence. Qed.

Lemma tidy_peer_frame peer d :
  same_tasks d (tidy_peer peer d) ∧ d_subs (tidy_peer peer d) = d_subs d ∧
  d_sent (tidy_peer peer d) = d_sent d ∧ d_sends (tidy_peer peer d) = d_sends d.
Proof. unfold tidy_peer. by case_bool_decide. Qed.

Lemma tidy_key_frame key d :
  same_tasks d (tidy_key key d) ∧ (∀ k, at_key (d_subs (tidy_key key d)) k = at_key (d_subs d) k) ∧
  d_sent (tidy_key key d) = d_sent d ∧ d_sends (tidy_key key d) = d_sends d ∧
  d_byPeer (tidy_key key d) = d_byPeer d.
Proof.
  unfold tidy_key. case_bool_decide as E; [|done]. split_and!; try done.
  intros k. cbn. rewrite at_key_delete. case_decide; by subst.
Qed.

Lemma removeSubLocked_frame s d :
  same_tasks d (removeSubLocked s d) ∧
  (∀ k, at_key (d_subs (removeSubLocked s d)) k =
        if decide (sub_key s = k) then drop_sub (sub_id s) (at_key (d_subs d) k) else at_key (d_subs d) k) ∧
  d_sent (removeSubLocked s d) = d_sent d.
Proof.
  unfold removeSubLocked.
  set (d1 := with_subs _ d). destruct (tidy_key_frame (sub_key s) d1) as (H1 & H2 & H3 & _ & _).
  assert (∀ k, at_key (d_subs (tidy_key (sub_key s) d1)) k =
    if decide (sub_key s = k) then drop_sub (sub_id s) (at_key (d_subs d) k) else at_key (d_subs d) k) as Hs.
  { intros k. rewrite H2. cbn. rewrite at_key_insert. case_decide; by subst. }
  case_match; [|split_and!; [etrans; [|exact H1]; done|exact Hs|exact H3]].
  match goal with |- context [tidy_peer ?p ?x] => destruct (tidy_peer_frame p x) as (G1 & G2 & G3 & _) end.
  split_and!.
  - etrans; [|exact G1]. exact H1.
  - rewrite G2. exact Hs.
  - rewrite G3. exact H3.
Qed.

Definition subs_ok (d : dispatcher) : Prop :=
  ∀ key s, s ∈ at_key (d_subs d) key → sub_key s = key.

Lemma subs_ok_remove s d : subs_ok d → subs_ok (removeSubLocked s d).
Proof.
  intros Hok key x. destruct (removeSubLocked_frame s d) as (_ & -> & _).
  case_decide; [intros ?%drop_sub_incl|]; by apply Hok.
Qed.

Lemma deliver_loop_fuel : ∀ fuel fuel' key op body peer d,
  subs_ok d → length (at_key (d_subs d) key) < fuel → length (at_key (d_subs d) key) < fuel' →
  deliver_loop fuel key op body peer d = deliver_loop fuel' key op body peer d.
Proof.
  induction fuel as [|fuel IH]; intros [|fuel'] key op body peer d Hok Hf Hf'; try lia.
  cbn [deliver_loop]. destruct (pickLocked key d) as [[s|] d1] eqn:E; [|done].
  apply pick_some in E as (Hin & i & ->). case_match; [done|].
  set (d2 := with_rrIdx _ d). destruct (send key (sub_peerID s) op body d2) as [[] d3] eqn:Es; [done|].
  assert (d_subs d3 = d_subs d) as Hd3 by (by unfold send in Es; injection Es as _ <-).
  assert (subs_ok d3) as Hok3 by (unfold subs_ok; by rewrite Hd3).
  assert (length (at_key (d_subs (removeSubLocked s d3)) key) < length (at_key (d_subs d) key)).
  { destruct (removeSubLocked_frame s d3) as (_ & -> & _). rewrite Hd3.
    rewrite decide_True by (by apply Hok). rewrite (drop_sub_length s (at_key (d_subs d) key)) by done; lia. }
  apply IH; [by apply subs_ok_remove|lia|lia].
Qed.

(** The loop of the source, without fuel. *)
Lemma deliver_unfold key op body peer d :
  subs_ok d →
  deliver key op body peer d =
  match pickLocked key d with
  | (None, d) => (false, peer, d)
  | (Some sub, d) =>
      if negb (d_wired d) then (true, sub_peerID sub, d)
      else let '(ok, d) := send key (sub_peerID sub) op body d in
           if ok : bool then (true, sub_peerID sub, d)
           else deliver key op body (sub_peerID sub) (removeSubLocked sub d)
  end.
Proof.
  intros Hok. unfold deliver at 1. cbn [deliver_loop].
  destruct (pickLocked key d) as [[s|] d1] eqn:E; [|done].
  apply pick_some in E as (Hin & i & ->). case_match; [done|].
  set (d2 := with_rrIdx _ d). destruct (send key (sub_peerID s) op body d2) as [[] d3] eqn:Es; [done|].
  assert (d_subs d3 = d_subs d) as Hd3 by (by unfold send in Es; injection Es as _ <-).
  assert (subs_ok d3) as Hok3 by (unfold subs_ok; by rewrite Hd3).
  apply deliver_loop_fuel; [by apply subs_ok_remove| |lia].
  destruct (removeSubLocked_frame s d3) as (_ & -> & _). rewrite Hd3.
  rewrite decide_True by (by apply Hok). rewrite (drop_sub_length s (at_key (d_subs d) key)) by done. lia.
Qed.

(** ** Delivery *)

Definition delivered (key : subKey) (op : Z) (body : json) (ok : bool) (peer : string) (d d' : dispatcher) : Prop :=
  same_tasks d d' ∧ subs_ok d' ∧ (∀ k, k ≠ key → at_key (d_subs d') k = at_key (d_subs d) k) ∧
  at_key (d_subs d') key ⊆ at_key (d_subs d) key ∧
  (ok = false → at_key (d_subs d') key = []) ∧
  d_sent d' = d_sent d ++ (if ok && d_wired d
    then [{| pu_key := key; pu_peer := peer; pu_opcode := op; pu_body := body |}] else []).

Lemma deliver_loop_spec fuel : ∀ key op body peer d ok peer' d',
  subs_ok d → length (at_key (d_subs d) key) < fuel →
  deliver_loop fuel key op body peer d = (ok, peer', d') →
  delivered key op body ok peer' d d'.
Proof.
  induction fuel as [|fuel IH]; intros key op body peer d ok peer' d' Hok Hf; [lia|].
  cbn [deliver_loop]. destruct (pickLocked key d) as [[s|] d1] eqn:E.
  - apply pick_some in E as (Hin & i & ->). case_match eqn:Ew.
    { intros [= <- <- <-]. cbn in Ew. apply negb_true_iff in Ew. unfold delivered.
      split_and!; try done. by rewrite Ew, app_nil_r. }
    cbn in Ew. apply negb_false_iff in Ew. unfold send.
    destruct (env_send _ _ _) eqn:Es.
    { intros [= <- <- <-]. unfold delivered. split_and!; try done. by rewrite Ew. }
    set (d3 := with_sent _ _ _). assert (d_subs d3 = d_subs d) as Hd3 by done.
    destruct (removeSubLocked_frame s d3) as (Hst & Hsub & Hsent).
    intros Hrun. apply IH in Hrun.
    + destruct Hrun as (H1 & H2 & H3 & H4 & H5 & H6). unfold delivered. split_and!; try done.
      * etrans; [|exact H1]. exact Hst.
      * intros k Hk. rewrite H3 by done. rewrite Hsub, Hd3. by rewrite decide_False by (rewrite (Hok key s); done).
      * rewrite Hsub, Hd3 in H4. rewrite decide_True in H4 by (by apply Hok).
        intros x Hx. by eapply drop_sub_incl, H4.
      * rewrite H6, Hsent. destruct Hst as (-> & _). done.
    + apply subs_ok_remove. by unfold subs_ok; rewrite Hd3.
    + rewrite Hsub, Hd3, decide_True by (by apply Hok).
      rewrite (drop_sub_length s (at_key (d_subs d) key)) in Hf by done. lia.
  - apply pick_none in E as (-> & Hnil). intros [= <- <- <-]. unfold delivered.
    split_and!; try done. by rewrite app_nil_r.
Qed.

Lemma deliver_spec key op body peer d ok peer' d' :
  subs_ok d → deliver key op body peer d = (ok, peer', d') → delivered key op body ok peer' d d'.
Proof. intros Hok. apply deliver_loop_spec; [done|lia]. Qed.

(** ** The invariant: no task waits while a worker could take it *)

Record disp_ok (d : dispatcher) : Prop := {
  ok_subs : subs_ok d;
  ok_wf key : at_key (d_pendingWF d) key ≠ [] → at_key (d_subs d) key = [] ∧ sk_kind key = kindWorkflow;
  ok_act key : at_key (d_pendingAct d) key ≠ [] → at_key (d_subs d) key = [] ∧ sk_kind key = kindActivity;
  ok_queries : size (d_queries d) ≤ maxPendingQueries;
  ok_tokens : d_queries d !! "" = None
}.

Lemma newDispatcher_ok b : disp_ok (newDispatcher b).
Proof. split; try done; [by intros ? ? ?%elem_of_nil|]. cbn. rewrite map_size_empty. lia. Qed.

(** Losing subscribers, and nothing else, keeps the invariant. *)
Lemma disp_ok_shrink d d' :
  disp_ok d → d_pendingWF d' = d_pendingWF d → d_pendingAct d' = d_pendingAct d → d_queries d' = d_queries d →
  (∀ k, at_key (d_subs d') k ⊆ at_key (d_subs d) k) → disp_ok d'.
Proof.
  intros [H1 H2 H3 H4 H5] E1 E2 E3 Hsub.
  assert (∀ k, at_key (d_subs d) k = [] → at_key (d_subs d') k = []) as Hnil.
  { intros k Hk. specialize (Hsub k). rewrite Hk in Hsub. by apply list_nil_subseteq. }
  split.
  - intros key s Hs. apply H1. by apply Hsub.
  - rewrite E1. naive_solver.
  - rewrite E2. naive_solver.
  - by rewrite E3.
  - by rewrite E3.
Qed.

Lemma delivered_shrink key op body ok peer d d' k :
  delivered key op body ok peer d d' → at_key (d_subs d') k ⊆ at_key (d_subs d) k.
Proof.
  intros (_ & _ & Hne & Hsub & _). destruct (decide (k = key)) as [->|]; [done|by rewrite Hne].
Qed.

Lemma delivered_ok key op body ok peer d d' :
  disp_ok d → delivered key op body ok peer d d' → disp_ok d'.
Proof.
  intros Hd Hdel. pose proof Hdel as ((_ & E1 & E2 & _ & _ & E3 & _) & _).
  eapply disp_ok_shrink; try done. intros k. by eapply delivered_shrink.
Qed.

(** The tasks of a key in the order they came: those a worker took, then those
    that wait. *)
Definition flow_wf (key : subKey) (d : dispatcher) : list json :=
  (pu_body <$> filter (λ p, pu_key p = key ∧ pu_opcode p = OpcodeDeliverWorkflowTask) (d_sent d)) ++
  (encodeWorkflowTaskDelivery <$> at_key (d_pendingWF d) key).
Definition flow_act (key : subKey) (d : dispatcher) : list json :=
  (pu_body <$> filter (λ p, pu_key p = key ∧ pu_opcode p = OpcodeDeliverActivityTask) (d_sent d)) ++
  (encodeActivityTaskDelivery <$> at_key (d_pendingAct d) key).

(** What handing out one task changes: subscribers may be pruned, one push may
    go out. *)
Record handed (key : subKey) (op : Z) (body : json) (ok : bool) (d d' : dispatcher) : Prop := {
  h_subs : subs_ok d';
  h_shrink k : at_key (d_subs d') k ⊆ at_key (d_subs d) k;
  h_none : ok = false → at_key (d_subs d') key = [];
  h_wf : d_pendingWF d' = d_pendingWF d;
  h_act : d_pendingAct d' = d_pendingAct d;
  h_queries : d_queries d' = d_queries d;
  h_wired : d_wired d' = d_wired d;
  h_sent : ∃ peer, d_sent d' = d_sent d ++ (if ok && d_wired d
    then [{| pu_key := key; pu_peer := peer; pu_opcode := op; pu_body := body |}] else [])
}.

Lemma delivered_handed key op body ok peer d d' :
  delivered key op body ok peer d d' → handed key op body ok d d'.
Proof.
  intros Hd. pose proof Hd as ((? & ? & ? & ? & ? & ? & ? & ?) & ? & ? & ? & ? & ?). split; try done.
  - intros k. by eapply delivered_shrink.
  - by exists peer.
Qed.

Lemma deliverWF_spec key t d ok t' d' :
  subs_ok d → deliverWFLocked key t d = (ok, t', d') →
  encodeWorkflowTaskDelivery t' = encodeWorkflowTaskDelivery t ∧
  handed key OpcodeDeliverWorkflowTask (encodeWorkflowTaskDelivery t) ok d d'.
Proof.
  intros Hok. unfold deliverWFLocked. destruct (deliver _ _ _ _ d) as [[ok1 peer1] d1] eqn:E.
  intros [= <- <- <-]. apply deliver_spec in E as [? ? ? ? ? ? ? ?]%delivered_handed; [|done]. by split.
Qed.

Lemma deliverAct_spec key t d ok t' d' :
  subs_ok d → deliverActLocked key t d = (ok, t', d') →
  encodeActivityTaskDelivery t' = encodeActivityTaskDelivery t ∧
  handed key OpcodeDeliverActivityTask (encodeActivityTaskDelivery t) ok d d'.
Proof.
  intros Hok. unfold deliverActLocked. destruct (deliver _ _ _ _ d) as [[ok1 peer1] d1] eqn:E.
  intros [= <- <- <-]. apply deliver_spec in E as [? ? ? ? ? ? ? ?]%delivered_handed; [|done]. by split.
Qed.

(** The pushes of an opcode on a key. *)
Definition pushed (op : Z) (key : subKey) (d : dispatcher) : list json :=
  pu_body <$> filter (λ p, pu_key p = key ∧ pu_opcode p = op) (d_sent d).

Lemma pushed_handed op' key' key op body ok d d' :
  handed key op body ok d d' →
  pushed op' key' d' = pushed op' key' d ++
    (if ok && d_wired d && bool_decide (key = key' ∧ op = op') then [body] else []).
Proof.
  intros [_ _ _ _ _ _ _ [peer E]]. unfold pushed. rewrite E, filter_app, fmap_app. f_equal.
  destruct (ok && d_wired d); [|done]. rewrite filter_cons. cbn [pu_key pu_opcode].
  by case_decide; [rewrite bool_decide_true|rewrite bool_decide_false].
Qed.

(** ** Draining a backlog *)

Record drained (key : subKey) (d d' : dispatcher) : Prop := {
  dr_subs : subs_ok d';
  dr_shrink k : at_key (d_subs d') k ⊆ at_key (d_subs d) k;
  dr_queries : d_queries d' = d_queries d;
  dr_wired : d_wired d' = d_wired d;
  dr_wf k : k ≠ key → at_key (d_pendingWF d') k = at_key (d_pendingWF d) k;
  dr_act k : k ≠ key → at_key (d_pendingAct d') k = at_key (d_pendingAct d) k;
  dr_flow_wf k : d_wired d = true → flow_wf k d' = flow_wf k d;
  dr_flow_act k : d_wired d = true → flow_act k d' = flow_act k d
}.

Lemma drained_refl key d : subs_ok d → drained key d d.
Proof. by intros; split. Qed.

Lemma drained_trans key d1 d2 d3 : drained key d1 d2 → drained key d2 d3 → drained key d1 d3.
Proof.
  intros [] []. split; try done; try congruence.
  - intros k. etrans; [apply dr_shrink1|apply dr_shrink0].
  - intros k Hk. rewrite dr_wf1, dr_wf0; done.
  - intros k Hk. rewrite dr_act1, dr_act0; done.
  - intros k Hw. rewrite dr_flow_wf1, dr_flow_wf0; congruence.
  - intros k Hw. rewrite dr_flow_act1, dr_flow_act0; congruence.
Qed.

(** Taking the head of the backlog out after it was pushed, or putting it back. *)
Lemma handed_drained_wf key t t' rest ok d d1 :
  handed key OpcodeDeliverWorkflowTask (encodeWorkflowTaskDelivery t) ok d d1 →
  encodeWorkflowTaskDelivery t' = encodeWorkflowTaskDelivery t →
  at_key (d_pendingWF d) key = t :: rest →
  drained key d (with_pendingWF (<[key := if ok then rest else t' :: rest]>) d1).
Proof.
  intros Hh Ht Hp. pose proof Hh as [H1 H2 H3 H4 H5 H6 H7 H8]. split; try done.
  - intros k Hk. cbn. rewrite at_key_insert, decide_False by done. by rewrite H4.
  - intros k Hk. cbn. by rewrite H5.
  - intros k Hw. unfold flow_wf. cbn [d_pendingWF with_pendingWF d_sent]. rewrite at_key_insert, H4.
    change (pu_body <$> filter _ (d_sent d1)) with (pushed OpcodeDeliverWorkflowTask k d1).
    rewrite (pushed_handed _ k _ _ _ _ _ _ Hh), Hw, andb_true_r.
    change (pu_body <$> filter _ (d_sent d)) with (pushed OpcodeDeliverWorkflowTask k d).
    rewrite <-app_assoc. f_equal. case_decide as Ek.
    + subst k. rewrite bool_decide_true by done. rewrite Hp. destruct ok; cbn; [done|by rewrite Ht].
    + rewrite bool_decide_false by naive_solver. by rewrite andb_false_r.
  - intros k Hw. unfold flow_act. cbn [d_pendingAct with_pendingWF d_sent]. rewrite H5.
    change (pu_body <$> filter _ (d_sent d1)) with (pushed OpcodeDeliverActivityTask k d1).
    rewrite (pushed_handed _ k _ _ _ _ _ _ Hh). rewrite bool_decide_false by (by intros []).
    by rewrite andb_false_r, app_nil_r.
Qed.

Lemma handed_drained_act key t t' rest ok d d1 :
  handed key OpcodeDeliverActivityTask (encodeActivityTaskDelivery t) ok d d1 →
  encodeActivityTaskDelivery t' = encodeActivityTaskDelivery t →
  at_key (d_pendingAct d) key = t :: rest →
  drained key d (with_pendingAct (<[key := if ok then rest else t' :: rest]>) d1).
Proof.
  intros Hh Ht Hp. pose proof Hh as [H1 H2 H3 H4 H5 H6 H7 H8]. split; try done.
  - intros k Hk. cbn. by rewrite H4.
  - intros k Hk. cbn. rewrite at_key_insert, decide_False by done. by rewrite H5.
  - intros k Hw. unfold flow_wf. cbn [d_pendingWF with_pendingAct d_sent]. rewrite H4.
    change (pu_body <$> filter _ (d_sent d1)) with (pushed OpcodeDeliverWorkflowTask k d1).
    rewrite (pushed_handed _ k _ _ _ _ _ _ Hh). rewrite bool_decide_false by (by intros []).
    by rewrite andb_false_r, app_nil_r.
  - intros k Hw. unfold flow_act. cbn [d_pendingAct with_pendingAct d_sent]. rewrite at_key_insert, H5.
    change (pu_body <$> filter _ (d_sent d1)) with (pushed OpcodeDeliverActivityTask k d1).
    rewrite (pushed_handed _ k _ _ _ _ _ _ Hh), Hw, andb_true_r.
    change (pu_body <$> filter _ (d_sent d)) with (pushed OpcodeDeliverActivityTask k d).
    rewrite <-app_assoc. f_equal. case_decide as Ek.
    + subst k. rewrite bool_decide_true by done. rewrite Hp. destruct ok; cbn; [done|by rewrite Ht].
    + rewrite bool_decide_false by naive_solver. by rewrite andb_false_r.
Qed.

Lemma drain_wf_spec key l : ∀ d,
  subs_ok d → at_key (d_pendingWF d) key = l →
  drained key d (drain_wf key l d) ∧ d_pendingAct (drain_wf key l d) = d_pendingAct d ∧
  (at_key (d_pendingWF (drain_wf key l d)) key ≠ [] → at_key (d_subs (drain_wf key l d)) key = []).
Proof.
  induction l as [|t rest IH]; intros d Hok Hp; cbn [drain_wf].
  { split_and!; [by apply drained_refl|done|by rewrite Hp]. }
  destruct (deliverWFLocked key t d) as [[ok t'] d1] eqn:E.
  apply deliverWF_spec in E as [Ht Hh]; [|done]. pose proof (handed_drained_wf _ _ _ _ _ _ _ Hh Ht Hp) as Hdr.
  destruct ok.
  - destruct (IH (with_pendingWF (<[key := rest]>) d1)) as (I1 & I2 & I3).
    + apply (dr_subs _ _ _ Hdr).
    + cbn. by rewrite at_key_insert, decide_True.
    + split_and!; [by eapply drained_trans|rewrite I2; apply (h_act _ _ _ _ _ _ Hh)|done].
  - split_and!; [done|apply (h_act _ _ _ _ _ _ Hh)|intros _; apply (h_none _ _ _ _ _ _ Hh eq_refl)].
Qed.

Lemma drain_act_spec key l : ∀ d,
  subs_ok d → at_key (d_pendingAct d) key = l →
  drained key d (drain_act key l d) ∧ d_pendingWF (drain_act key l d) = d_pendingWF d ∧
  (at_key (d_pendingAct (drain_act key l d)) key ≠ [] → at_key (d_subs (drain_act key l d)) key = []).
Proof.
  induction l as [|t rest IH]; intros d Hok Hp; cbn [drain_act].
  { split_and!; [by apply drained_refl|done|by rewrite Hp]. }
  destruct (deliverActLocked key t d) as [[ok t'] d1] eqn:E.
  apply deliverAct_spec in E as [Ht Hh]; [|done]. pose proof (handed_drained_act _ _ _ _ _ _ _ Hh Ht Hp) as Hdr.
  destruct ok.
  - destruct (IH (with_pendingAct (<[key := rest]>) d1)) as (I1 & I2 & I3).
    + apply (dr_subs _ _ _ Hdr).
    + cbn. by rewrite at_key_insert, decide_True.
    + split_and!; [by eapply drained_trans|rewrite I2; apply (h_wf _ _ _ _ _ _ Hh)|done].
  - split_and!; [done|apply (h_wf _ _ _ _ _ _ Hh)|intros _; apply (h_none _ _ _ _ _ _ Hh eq_refl)].
Qed.

(** ** Every operation keeps the invariant and the flow of tasks *)

(** An operation that only loses subscribers. *)
Record quiet (d d' : dispatcher) : Prop := {
  q_shrink k : at_key (d_subs d') k ⊆ at_key (d_subs d) k;
  q_wf : d_pendingWF d' = d_pendingWF d;
  q_act : d_pendingAct d' = d_pendingAct d;
  q_queries : d_queries d' = d_queries d;
  q_wired : d_wired d' = d_wired d;
  q_sent : d_sent d' = d_sent d
}.

Lemma quiet_refl d : quiet d d.
Proof. by split. Qed.
Lemma quiet_trans d1 d2 d3 : quiet d1 d2 → quiet d2 d3 → quiet d1 d3.
Proof.
  intros [A ? ? ? ? ?] [B ? ? ? ? ?]. split; try congruence. intros k. etrans; [apply B|apply A].
Qed.
Lemma quiet_ok d d' : quiet d d' → disp_ok d → disp_ok d'.
Proof. intros [] Hok. by eapply disp_ok_shrink. Qed.
Lemma quiet_flow d d' key : quiet d d' → flow_wf key d' = flow_wf key d ∧ flow_act key d' = flow_act key d.
Proof. intros [? E1 E2 ? ? E3]. unfold flow_wf, flow_act. by rewrite E1, E2, E3. Qed.

Lemma quiet_drop key id d : quiet d (with_subs (λ m, <[key := drop_sub id (at_key m key)]> m) d).
Proof.
  split; try done. intros k. cbn. rewrite at_key_insert. case_decide; [subst|done].
  intros x. apply drop_sub_incl.
Qed.

Lemma quiet_tidy_key key d : quiet d (tidy_key key d).
Proof.
  destruct (tidy_key_frame key d) as ((? & ? & ? & ? & ? & ? & ? & ?) & E & ? & ? & ?). split; try done.
  intros k. by rewrite E.
Qed.

Lemma Unsubscribe_quiet id d : quiet d (Unsubscribe id d).
Proof.
  unfold Unsubscribe. destruct (find_sub id d) as [s|]; [|apply quiet_refl].
  set (d1 := with_subs _ d). pose proof (quiet_drop (sub_key s) id d : quiet d d1) as Hq.
  case_match; [|done]. eapply quiet_trans; [exact Hq|]. unfold tidy_peer. by case_bool_decide.
Qed.

Lemma remove_peer_sub_quiet s d : quiet d (remove_peer_sub s d).
Proof. eapply quiet_trans; [apply quiet_drop|apply quiet_tidy_key]. Qed.

Lemma RemovePeer_quiet p d : quiet d (RemovePeer p d).
Proof.
  unfold RemovePeer. destruct (d_byPeer d !! p) as [l|]; [|apply quiet_refl].
  assert (∀ l d, quiet d (foldl (λ d s, remove_peer_sub s d) d l)) as Hf.
  { clear. induction l as [|s l IH]; intros d; cbn; [apply quiet_refl|].
    eapply quiet_trans; [apply remove_peer_sub_quiet|apply IH]. }
  eapply quiet_trans; [apply (Hf l)|]. by split.
Qed.

(** A drained subscription, seen from the state before it arrived. *)
Lemma drained_ok key d d' :
  drained key d d' → size (d_queries d) ≤ maxPendingQueries → d_queries d !! "" = None →
  (∀ k, k ≠ key → at_key (d_pendingWF d) k ≠ [] → at_key (d_subs d) k = [] ∧ sk_kind k = kindWorkflow) →
  (∀ k, k ≠ key → at_key (d_pendingAct d) k ≠ [] → at_key (d_subs d) k = [] ∧ sk_kind k = kindActivity) →
  (at_key (d_pendingWF d') key ≠ [] → at_key (d_subs d') key = [] ∧ sk_kind key = kindWorkflow) →
  (at_key (d_pendingAct d') key ≠ [] → at_key (d_subs d') key = [] ∧ sk_kind key = kindActivity) →
  disp_ok d'.
Proof.
  intros [H1 H2 H3 H4 H5 H6 _ _] Hq Ht Hwf Hact Kwf Kact.
  assert (∀ k, at_key (d_subs d) k = [] → at_key (d_subs d') k = []) as Hnil.
  { intros k Hk. specialize (H2 k). rewrite Hk in H2. by apply list_nil_subseteq. }
  split; [done| | |by rewrite H3|by rewrite H3].
  - intros k. destruct (decide (k = key)) as [->|Hk]; [done|]. rewrite H5 by done. naive_solver.
  - intros k. destruct (decide (k = key)) as [->|Hk]; [done|]. rewrite H6 by done. naive_solver.
Qed.

Lemma Subscribe_spec r peer ns queue kind d :
  disp_ok d →
  let d' := (Subscribe r peer ns queue kind d).2 in
  disp_ok d' ∧ d_wired d' = d_wired d ∧
  (d_wired d = true → ∀ key, flow_wf key d' = flow_wf key d ∧ flow_act key d' = flow_act key d).
Proof.
  intros Hd. unfold Subscribe. case_match; [done|]. cbn [snd]. set (key := Build_subKey ns queue kind).
  set (sub := Build_subscription _ _ _). unfold drainLocked. cbn [sub_key sub].
  set (d1 := with_byPeer _ _). assert (subs_ok d1) as Hok1.
  { intros k s. cbn. rewrite at_key_insert. case_decide; [subst k|by apply (ok_subs d Hd)].
    rewrite elem_of_app, list_elem_of_singleton. intros [?| ->]; [by apply (ok_subs d Hd)|done]. }
  assert (∀ k, k ≠ key → at_key (d_subs d1) k = at_key (d_subs d) k) as Hother.
  { intros k Hk. cbn. by rewrite at_key_insert, decide_False. }
  destruct kind; cbn [sk_kind key].
  - destruct (drain_wf_spec key (at_key (d_pendingWF d1) key) d1 Hok1 eq_refl) as (Hdr & Hact & Hnone).
    split_and!; [|apply (dr_wired _ _ _ Hdr)|intros Hw k; split;
      [rewrite (dr_flow_wf _ _ _ Hdr k Hw)|rewrite (dr_flow_act _ _ _ Hdr k Hw)]; done].
    eapply drained_ok; [exact Hdr|apply (ok_queries d Hd)|apply (ok_tokens d Hd)| | | |].
    + intros k Hk. rewrite Hother by done. apply (ok_wf d Hd).
    + intros k Hk. rewrite Hother by done. apply (ok_act d Hd).
    + intros Hne. split; [by apply Hnone|done].
    + rewrite Hact. intros Hne. by apply (ok_act d Hd) in Hne as [_ ?].
  - destruct (drain_act_spec key (at_key (d_pendingAct d1) key) d1 Hok1 eq_refl) as (Hdr & Hwf & Hnone).
    split_and!; [|apply (dr_wired _ _ _ Hdr)|intros Hw k; split;
      [rewrite (dr_flow_wf _ _ _ Hdr k Hw)|rewrite (dr_flow_act _ _ _ Hdr k Hw)]; done].
    eapply drained_ok; [exact Hdr|apply (ok_queries d Hd)|apply (ok_tokens d Hd)| | | |].
    + intros k Hk. rewrite Hother by done. apply (ok_wf d Hd).
    + intros k Hk. rewrite Hother by done. apply (ok_act d Hd).
    + rewrite Hwf. intros Hne. by apply (ok_wf d Hd) in Hne as [_ ?].
    + intros Hne. split; [by apply Hnone|done].
Qed.

Lemma handed_ok key op body ok d d' : handed key op body ok d d' → disp_ok d → disp_ok d'.
Proof. intros [] Hd. by eapply disp_ok_shrink. Qed.

(** The task an enqueue creates. *)
Definition newWorkflowTask (now r : Z) (principal : Principal) (ns queue workflowID runID workflowType : string) (input : raw) : pendingWorkflowTask :=
  {| wt_token := mintToken "wf" (workflowID +:+ "|" +:+ runID +:+ "|" +:+ newRandID r);
     wt_principal := principal; wt_ns := ns; wt_queue := queue; wt_workflowID := workflowID; wt_runID := runID;
     wt_workflowType := workflowType; wt_input := input; wt_scheduledAt := now; wt_workerPeer := "" |}.
Definition newActivityTask (now r : Z) (principal : Principal) (ns queue workflowID runID : string) (seq : Z) (activityID activityType : string) (input : raw) (startToCloseMs heartbeatMs : Z) : pendingActivityTask :=
  {| at_token := mintToken "act" (activityID +:+ "|" +:+ newRandID r);
     at_principal := principal; at_ns := ns; at_queue := queue; at_activityID := activityID;
     at_activityType := activityType; at_input := input; at_workflowID := workflowID; at_runID := runID;
     at_seq := seq; at_startToCloseMs := startToCloseMs; at_heartbeatMs := heartbeatMs;
     at_scheduledAt := now; at_dispatchedToPeer := "" |}.

Definition wfKeyOf (ns queue : string) : subKey := {| sk_ns := ns; sk_queue := queue; sk_kind := kindWorkflow |}.
Definition actKeyOf (ns queue : string) : subKey := {| sk_ns := ns; sk_queue := queue; sk_kind := kindActivity |}.

(** A task is handed out at once only where someone subscribes. *)
Lemma deliver_true_subs key op body peer d peer' d' :
  deliver key op body peer d = (true, peer', d') → at_key (d_subs d) key ≠ [].
Proof.
  unfold deliver. cbn [deliver_loop]. unfold pickLocked.
  case_bool_decide as E; [done|]. by intros _.
Qed.

Lemma EnqueueWorkflowTask_spec now r p ns queue wf run ty input d :
  disp_ok d →
  let d' := EnqueueWorkflowTask now r p ns queue wf run ty input d in
  disp_ok d' ∧ d_wired d' = d_wired d ∧
  (d_wired d = true → ∀ key,
    flow_wf key d' = flow_wf key d ++ (if bool_decide (wfKeyOf ns queue = key)
      then [encodeWorkflowTaskDelivery (newWorkflowTask now r p ns queue wf run ty input)] else []) ∧
    flow_act key d' = flow_act key d).
Proof.
  intros Hd. unfold EnqueueWorkflowTask. fold (newWorkflowTask now r p ns queue wf run ty input).
  fold (wfKeyOf ns queue). set (t := newWorkflowTask _ _ _ _ _ _ _ _ _). set (key0 := wfKeyOf ns queue).
  set (d0 := with_wfByToken _ d).
  assert (disp_ok d0) as Hd0 by (eapply quiet_ok; [|exact Hd]; by split).
  destruct (deliverWFLocked key0 t d0) as [[ok t'] d1] eqn:E.
  assert (ok = true → at_key (d_pendingWF d) key0 = []) as Hempty.
  { intros ->. unfold deliverWFLocked in E. destruct (deliver _ _ _ _ d0) as [[ok1 q1] e1] eqn:E1.
    injection E as -> _ _. apply deliver_true_subs in E1.
    destruct (at_key (d_pendingWF d) key0) eqn:Ep; [done|]. destruct (ok_wf d0 Hd0 key0) as [? _]; [|done].
    change (d_pendingWF d0) with (d_pendingWF d). by rewrite Ep. }
  apply deliverWF_spec in E as [Ht Hh]; [|apply (ok_subs _ Hd0)].
  pose proof (handed_ok _ _ _ _ _ _ Hh Hd0) as Hd1.
  assert (∀ k, pushed OpcodeDeliverWorkflowTask k d1 = pushed OpcodeDeliverWorkflowTask k d ++
    (if ok && d_wired d && bool_decide (key0 = k) then [encodeWorkflowTaskDelivery t] else [])) as Hp.
  { intros k. rewrite (pushed_handed _ k _ _ _ _ _ _ Hh). f_equal.
    by rewrite (bool_decide_ext _ (key0 = k)) by naive_solver. }
  assert (∀ k, pushed OpcodeDeliverActivityTask k d1 = pushed OpcodeDeliverActivityTask k d) as Hpa.
  { intros k. rewrite (pushed_handed _ k _ _ _ _ _ _ Hh), bool_decide_false by (by intros []).
    by rewrite andb_false_r, app_nil_r. }
  pose proof (h_wf _ _ _ _ _ _ Hh) as Hwf. pose proof (h_act _ _ _ _ _ _ Hh) as Hact.
  pose proof (h_wired _ _ _ _ _ _ Hh) as Hwired. cbn in Hwf, Hact, Hwired.
  destruct ok; cbv zeta.
  - split_and!; [done|done|]. intros Hw key. unfold flow_wf, flow_act.
    fold (pushed OpcodeDeliverWorkflowTask key d1) (pushed OpcodeDeliverActivityTask key d1).
    rewrite Hp, Hpa, Hwf, Hact, Hw. split; [|done]. cbn [andb]. case_bool_decide as Ek.
    + subst key. rewrite Hempty by done. cbn. by rewrite !app_nil_r.
    + by rewrite !app_nil_r.
  - split_and!; [|done|].
    + destruct Hd1 as [K1 K2 K3 K4 K5]. split; try done. intros k. cbn. rewrite at_key_insert.
      case_decide; [subst k|apply K2]. intros _. split; [by apply (h_none _ _ _ _ _ _ Hh)|done].
    + intros Hw key. unfold flow_wf, flow_act. cbn [with_pendingWF d_pendingWF d_pendingAct d_sent].
      fold (pushed OpcodeDeliverWorkflowTask key d1) (pushed OpcodeDeliverActivityTask key d1).
      rewrite Hp, Hpa, Hact, app_nil_r. split; [|done]. rewrite at_key_insert, Hwf.
      case_decide as Ek; [rewrite bool_decide_true by done|rewrite bool_decide_false by done; by rewrite app_nil_r].
      subst key. rewrite fmap_app, app_assoc. cbn. by rewrite Ht.
Qed.

Lemma DispatchActivity_spec now r p ns queue wf run seq aid ty input stc hb d :
  disp_ok d →
  let d' := (DispatchActivity now r p ns queue wf run seq aid ty input stc hb d).2 in
  disp_ok d' ∧ d_wired d' = d_wired d ∧
  (d_wired d = true → ∀ key,
    flow_act key d' = flow_act key d ++ (if bool_decide (actKeyOf ns queue = key)
      then [encodeActivityTaskDelivery (newActivityTask now r p ns queue wf run seq aid ty input stc hb)] else []) ∧
    flow_wf key d' = flow_wf key d).
Proof.
  intros Hd. unfold DispatchActivity. fold (newActivityTask now r p ns queue wf run seq aid ty input stc hb).
  fold (actKeyOf ns queue). set (t := newActivityTask _ _ _ _ _ _ _ _ _ _ _ _ _). set (key0 := actKeyOf ns queue).
  set (d0 := with_actByToken _ d).
  assert (disp_ok d0) as Hd0 by (eapply quiet_ok; [|exact Hd]; by split).
  destruct (deliverActLocked key0 t d0) as [[ok t'] d1] eqn:E.
  assert (ok = true → at_key (d_pendingAct d) key0 = []) as Hempty.
  { intros ->. unfold deliverActLocked in E. destruct (deliver _ _ _ _ d0) as [[ok1 q1] e1] eqn:E1.
    injection E as -> _ _. apply deliver_true_subs in E1.
    destruct (at_key (d_pendingAct d) key0) eqn:Ep; [done|]. destruct (ok_act d0 Hd0 key0) as [? _]; [|done].
    change (d_pendingAct d0) with (d_pendingAct d). by rewrite Ep. }
  apply deliverAct_spec in E as [Ht Hh]; [|apply (ok_subs _ Hd0)].
  pose proof (handed_ok _ _ _ _ _ _ Hh Hd0) as Hd1.
  assert (∀ k, pushed OpcodeDeliverActivityTask k d1 = pushed OpcodeDeliverActivityTask k d ++
    (if ok && d_wired d && bool_decide (key0 = k) then [encodeActivityTaskDelivery t] else [])) as Hp.
  { intros k. rewrite (pushed_handed _ k _ _ _ _ _ _ Hh). f_equal.
    by rewrite (bool_decide_ext _ (key0 = k)) by naive_solver. }
  assert (∀ k, pushed OpcodeDeliverWorkflowTask k d1 = pushed OpcodeDeliverWorkflowTask k d) as Hpa.
  { intros k. rewrite (pushed_handed _ k _ _ _ _ _ _ Hh), bool_decide_false by (by intros []).
    by rewrite andb_false_r, app_nil_r. }
  pose proof (h_wf _ _ _ _ _ _ Hh) as Hwf. pose proof (h_act _ _ _ _ _ _ Hh) as Hact.
  pose proof (h_wired _ _ _ _ _ _ Hh) as Hwired. cbn in Hwf, Hact, Hwired. cbn [snd].
  destruct ok; cbv zeta.
  - split_and!; [done|done|]. intros Hw key. unfold flow_wf, flow_act.
    fold (pushed OpcodeDeliverWorkflowTask key d1) (pushed OpcodeDeliverActivityTask key d1).
    rewrite Hp, Hpa, Hwf, Hact, Hw. split; [|done]. cbn [andb]. case_bool_decide as Ek.
    + subst key. rewrite Hempty by done. cbn. by rewrite !app_nil_r.
    + by rewrite !app_nil_r.
  - split_and!; [|done|].
    + destruct Hd1 as [K1 K2 K3 K4 K5]. split; try done. intros k. cbn. rewrite at_key_insert.
      case_decide; [subst k|apply K3]. intros _. split; [by apply (h_none _ _ _ _ _ _ Hh)|done].
    + intros Hw key. unfold flow_wf, flow_act. cbn [with_pendingAct d_pendingWF d_pendingAct d_sent].
      fold (pushed OpcodeDeliverWorkflowTask key d1) (pushed OpcodeDeliverActivityTask key d1).
      rewrite Hp, Hpa, Hwf, app_nil_r. split; [|done]. rewrite at_key_insert, Hact.
      case_decide as Ek; [rewrite bool_decide_true by done|rewrite bool_decide_false by done; by rewrite app_nil_r].
      subst key. rewrite fmap_app, app_assoc. cbn. by rewrite Ht.
Qed.

(** ** Queries *)

Lemma oldest_query_elem l : ∀ acc,
  (∀ kv, kv ∈ l → kv.1 ≠ "") →
  let r := foldl (λ acc kv, if String.eqb acc.1 "" || (pq_at kv.2 <? acc.2)%Z then (kv.1, pq_at kv.2) else acc) acc l in
  (r.1 = acc.1 ∨ r.1 ∈ l.*1) ∧ (acc.1 ≠ "" ∨ l ≠ [] → r.1 ≠ "").
Proof.
  induction l as [|kv l IH]; intros acc Hne; cbn [foldl].
  { split; [by left|]. by intros [?|?]. }
  set (acc' := if _ || _ then _ else _).
  assert (acc'.1 = acc.1 ∨ acc'.1 = kv.1) as Hacc by (unfold acc'; case_match; auto).
  assert (acc'.1 ≠ "") as Hn.
  { unfold acc'. pose proof (Hne kv ltac:(by left)). destruct (String.eqb_spec acc.1 ""); [done|].
    case_match; done. }
  destruct (IH acc' ltac:(set_solver)) as [H1 H2]. split; [|intros _; apply H2; by left].
  destruct H1 as [->|?]; [|right; set_solver]. destruct Hacc as [->| ->]; [by left|right; set_solver].
Qed.

Lemma evictOldest_size d :
  d_queries d !! "" = None → d_queries d ≠ ∅ →
  size (d_queries (evictOldestQueryLocked d)) < size (d_queries d).
Proof.
  intros Ht Hne. unfold evictOldestQueryLocked, oldest_query.
  assert (∀ kv, kv ∈ map_to_list (d_queries d) → kv.1 ≠ "") as Hkeys.
  { intros [k v] Hin%elem_of_map_to_list E. cbn in E. subst k. by rewrite Ht in Hin. }
  destruct (oldest_query_elem (map_to_list (d_queries d)) ("", 0%Z) Hkeys) as [Hin Hn].
  cbv zeta in Hin, Hn. set (tok := (foldl _ _ _).1) in *.
  assert (tok ≠ "") as Htok.
  { apply Hn. right. by rewrite map_to_list_empty_iff. }
  destruct (String.eqb_spec tok "") as [|_]; [done|]. cbn. destruct Hin as [?|Hin]; [done|].
  apply list_elem_of_fmap in Hin as ([k v] & -> & Hin%elem_of_map_to_list). cbn.
  rewrite map_size_delete, Hin. cbn. assert (size (d_queries d) ≠ 0); [|lia].
  by apply map_size_non_empty_iff.
Qed.

Lemma hex_not_empty w n : w ≠ 0 → hex w n ≠ "".
Proof. intros Hw E. pose proof (hex_length w n) as Hl. rewrite E in Hl. by destruct w. Qed.

(** An operation that neither takes nor hands out a task. *)
Record calm (d d' : dispatcher) : Prop := {
  c_shrink k : at_key (d_subs d') k ⊆ at_key (d_subs d) k;
  c_wf : d_pendingWF d' = d_pendingWF d;
  c_act : d_pendingAct d' = d_pendingAct d;
  c_queries : size (d_queries d') ≤ maxPendingQueries;
  c_tokens : d_queries d' !! "" = None;
  c_wired : d_wired d' = d_wired d;
  c_pushed op key : op ≠ OpcodeDeliverCancelRequest → op ≠ OpcodeDeliverQuery → pushed op key d' = pushed op key d
}.

Lemma calm_spec d d' :
  disp_ok d → calm d d' →
  disp_ok d' ∧ d_wired d' = d_wired d ∧ (∀ key, flow_wf key d' = flow_wf key d ∧ flow_act key d' = flow_act key d).
Proof.
  intros [H1 H2 H3 H4 H5] [C1 C2 C3 C4 C5 C6 C7].
  assert (∀ k, at_key (d_subs d) k = [] → at_key (d_subs d') k = []) as Hnil.
  { intros k Hk. specialize (C1 k). rewrite Hk in C1. by apply list_nil_subseteq. }
  split_and!; [|done|].
  - split; try done; [intros k s Hs; apply H1; by apply C1|rewrite C2; naive_solver|rewrite C3; naive_solver].
  - intros key. unfold flow_wf, flow_act.
    fold (pushed OpcodeDeliverWorkflowTask key d') (pushed OpcodeDeliverActivityTask key d').
    by rewrite C2, C3, !C7.
Qed.

Lemma calm_refl d : disp_ok d → calm d d.
Proof. intros Hd. split; try done; [apply (ok_queries d Hd)|apply (ok_tokens d Hd)]. Qed.

Lemma calm_trans d1 d2 d3 : calm d1 d2 → calm d2 d3 → calm d1 d3.
Proof.
  intros [A ? ? _ _ ? A'] [B ? ? ? ? ? B']. split; try done; try congruence.
  - intros k. etrans; [apply B|apply A].
  - intros op key H1 H2. by rewrite B', A'.
Qed.

Lemma calm_queries f d :
  size (f (d_queries d)) ≤ maxPendingQueries → f (d_queries d) !! "" = None → calm d (with_queries f d).
Proof. by intros; split. Qed.

Lemma calm_send key peer op body d :
  disp_ok d → op = OpcodeDeliverCancelRequest ∨ op = OpcodeDeliverQuery → calm d (send key peer op body d).2.
Proof.
  intros Hd Hop. split; try done; [apply (ok_queries d Hd)|apply (ok_tokens d Hd)|].
  intros op' key' Hc Hq. unfold pushed, send. cbn. destruct (env_send _ _ _); [|done].
  rewrite filter_app, fmap_app, filter_cons_False, filter_nil, app_nil_r by (cbn; naive_solver). done.
Qed.

Lemma query_delete_calm tok d : disp_ok d → calm d (with_queries (delete tok) d).
Proof.
  intros Hd. apply calm_queries.
  - etrans; [|apply (ok_queries d Hd)]. apply map_subseteq_size, delete_subseteq.
  - rewrite lookup_delete_None. right. apply (ok_tokens d Hd).
Qed.

(** Making room for one more query. *)
Lemma evict_calm now d :
  disp_ok d →
  let d2 := evictExpiredQueriesLocked now d in
  let d3 := if (maxPendingQueries <=? size (d_queries d2))%nat then evictOldestQueryLocked d2 else d2 in
  calm d d3 ∧ size (d_queries d3) < maxPendingQueries.
Proof.
  intros Hd d2. assert (calm d d2) as Hc2.
  { apply calm_queries; [etrans; [|apply (ok_queries d Hd)]; apply map_subseteq_size, map_filter_subseteq|].
    rewrite map_lookup_filter_None; left; apply (ok_tokens d Hd). }
  destruct (calm_spec _ _ Hd Hc2) as [Hd2 _].
  destruct (Nat.leb_spec maxPendingQueries (size (d_queries d2))) as [Hle|Hlt]; cbv zeta; [|by split].
  assert (d_queries d2 ≠ ∅) as Hne.
  { intros E. rewrite E, map_size_empty in Hle. unfold maxPendingQueries in Hle. lia. }
  split.
  - eapply calm_trans; [exact Hc2|]. unfold evictOldestQueryLocked. case_match; [|by apply query_delete_calm].
    by apply calm_refl.
  - eapply Nat.lt_le_trans; [apply evictOldest_size|apply (ok_queries d2 Hd2)]; [apply (ok_tokens d2 Hd2)|done].
Qed.

Lemma PushQuery_calm now1 now2 r ns queue wf run ty args d :
  disp_ok d → calm d (PushQuery now1 now2 r ns queue wf run ty args d).2.
Proof.
  intros Hd. unfold PushQuery. destruct (pickLocked _ d) as [[s|] d1] eqn:E; cbn [snd].
  2: { apply pick_none in E as [-> _]. by apply calm_refl. }
  apply pick_some in E as (_ & i & ->). set (d1 := with_rrIdx _ d).
  assert (calm d d1) as Hc1 by (split; try done; [apply (ok_queries d Hd)|apply (ok_tokens d Hd)]).
  destruct (calm_spec _ _ Hd Hc1) as [Hd1 _].
  destruct (evict_calm now1 d1 Hd1) as [Hc3 Hs3]. set (d3 := if (maxPendingQueries <=? _)%nat then _ else _) in *.
  destruct (calm_spec _ _ Hd1 Hc3) as [Hd3 _]. clearbody d3. set (d4 := with_chans _ _ _).
  assert (calm d3 d4) as Hc4.
  { split; try done; cbn [d4 d_queries with_chans with_queries]; [rewrite map_size_insert; case_match; cbn; lia|].
    rewrite lookup_insert_ne; [apply (ok_tokens d3 Hd3)|by apply (hex_not_empty 24 r)]. }
  destruct (calm_spec _ _ Hd3 Hc4) as [Hd4 _]. clearbody d4.
  eapply calm_trans; [exact Hc1|]. eapply calm_trans; [exact Hc3|]. eapply calm_trans; [exact Hc4|].
  case_match; cbn [snd]; [by apply query_delete_calm|].
  destruct (send _ _ _ _ d4) as [ok d5] eqn:Es.
  pose proof (calm_send {| sk_ns := ns; sk_queue := queue; sk_kind := kindWorkflow |} (sub_peerID s) OpcodeDeliverQuery
    (queryDelivery (newRandID r) ns wf run ty args) d4 Hd4 ltac:(by right)) as Hc5.
  rewrite Es in Hc5. cbn in Hc5. destruct ok; cbn [snd]; [done|].
  eapply calm_trans; [exact Hc5|]. apply query_delete_calm. by eapply calm_spec.
Qed.

Lemma push_each_calm key body l : ∀ d, disp_ok d → calm d (push_each key body l d).2.
Proof.
  induction l as [|s l IH]; intros d Hd; cbn [push_each].
  { by apply calm_refl. }
  destruct (send key (sub_peerID s) OpcodeDeliverCancelRequest body d) as [ok d1] eqn:Es.
  pose proof (calm_send key (sub_peerID s) OpcodeDeliverCancelRequest body d Hd ltac:(by left)) as Hc.
  rewrite Es in Hc. cbn in Hc. destruct (push_each key body l d1) as [n d2] eqn:Ep. cbn.
  eapply calm_trans; [exact Hc|]. specialize (IH d1). rewrite Ep in IH. apply IH. by eapply calm_spec.
Qed.

(** ** Runs of the dispatcher *)

Inductive dop :=
| OpSubscribe (r : Z) (peerID ns queue : string) (kind : taskKind)
| OpUnsubscribe (subID : string)
| OpRemovePeer (peerID : string)
| OpEnqueue (now r : Z) (p : Principal) (ns queue wf run ty : string) (input : raw)
| OpDispatch (now r : Z) (p : Principal) (ns queue wf run : string) (seq : Z) (aid ty : string) (input : raw) (stc hb : Z)
| OpCompleteWF (token : string)
| OpResolveAct (token : string)
| OpPushCancel (ns queue wf run reason identity : string)
| OpPushQuery (now1 now2 r : Z) (ns queue wf run ty : string) (args : raw)
| OpCompleteQuery (token : string) (result : raw) (errMsg : string)
| OpCancelQuery (token : string).

Definition dstep (d : dispatcher) (o : dop) : dispatcher :=
  match o with
  | OpSubscribe r peer ns q k => (Subscribe r peer ns q k d).2
  | OpUnsubscribe id => Unsubscribe id d
  | OpRemovePeer p => RemovePeer p d
  | OpEnqueue now r p ns q wf run ty i => EnqueueWorkflowTask now r p ns q wf run ty i d
  | OpDispatch now r p ns q wf run seq aid ty i stc hb => (DispatchActivity now r p ns q wf run seq aid ty i stc hb d).2
  | OpCompleteWF tok => (CompleteWorkflowTask tok d).2
  | OpResolveAct tok => (ResolveActivityToken tok d).2
  | OpPushCancel ns q wf run re id => (PushCancelRequest ns q wf run re id d).2
  | OpPushQuery n1 n2 r ns q wf run ty a => (PushQuery n1 n2 r ns q wf run ty a d).2
  | OpCompleteQuery tok res e => (CompleteQuery tok res e d).2
  | OpCancelQuery tok => CancelQuery tok d
  end.

Definition dexec (b : bool) (ops : list dop) : dispatcher := foldl dstep (newDispatcher b) ops.

(** The task deliveries an operation adds to a key. *)
Definition added_wf (key : subKey) (o : dop) : list json :=
  match o with
  | OpEnqueue now r p ns q wf run ty i =>
      if bool_decide (wfKeyOf ns q = key) then [encodeWorkflowTaskDelivery (newWorkflowTask now r p ns q wf run ty i)] else []
  | _ => []
  end.
Definition added_act (key : subKey) (o : dop) : list json :=
  match o with
  | OpDispatch now r p ns q wf run seq aid ty i stc hb =>
      if bool_decide (actKeyOf ns q = key) then [encodeActivityTaskDelivery (newActivityTask now r p ns q wf run seq aid ty i stc hb)] else []
  | _ => []
  end.

Lemma quiet_calm d d' : disp_ok d → quiet d d' → calm d d'.
Proof.
  intros Hd [Q1 Q2 Q3 Q4 Q5 Q6]. split; try done; [rewrite Q4; apply (ok_queries d Hd)|rewrite Q4; apply (ok_tokens d Hd)|].
  intros op key _ _. unfold pushed. by rewrite Q6.
Qed.

Lemma dstep_calm d o :
  disp_ok d → match o with OpSubscribe _ _ _ _ _ | OpEnqueue _ _ _ _ _ _ _ _ _ | OpDispatch _ _ _ _ _ _ _ _ _ _ _ _ _ => True | _ => calm d (dstep d o) end.
Proof.
  intros Hd. destruct o; cbn [dstep]; try done.
  - by apply quiet_calm, Unsubscribe_quiet.
  - by apply quiet_calm, RemovePeer_quiet.
  - unfold CompleteWorkflowTask. case_match; [|by apply calm_refl]. apply quiet_calm; [done|by split].
  - unfold ResolveActivityToken. case_match; [|by apply calm_refl]. apply quiet_calm; [done|by split].
  - unfold PushCancelRequest. case_match; [by apply calm_refl|by apply push_each_calm].
  - by apply PushQuery_calm.
  - unfold CompleteQuery. case_match; [|by apply calm_refl]. cbn [snd].
    eapply calm_trans; [by apply (query_delete_calm token)|]. apply quiet_calm; [|by split].
    by eapply calm_spec, query_delete_calm.
  - by apply query_delete_calm.
Qed.

Lemma dstep_spec d o :
  disp_ok d →
  disp_ok (dstep d o) ∧ d_wired (dstep d o) = d_wired d ∧
  (d_wired d = true → ∀ key,
    flow_wf key (dstep d o) = flow_wf key d ++ added_wf key o ∧
    flow_act key (dstep d o) = flow_act key d ++ added_act key o).
Proof.
  intros Hd. pose proof (dstep_calm d o Hd) as Hc.
  assert (calm d (dstep d o) → (∀ key, added_wf key o = [] ∧ added_act key o = []) →
    disp_ok (dstep d o) ∧ d_wired (dstep d o) = d_wired d ∧
    (d_wired d = true → ∀ key,
      flow_wf key (dstep d o) = flow_wf key d ++ added_wf key o ∧
      flow_act key (dstep d o) = flow_act key d ++ added_act key o)) as Hcalm.
  { intros Hc' Hadd. destruct (calm_spec _ _ Hd Hc') as (? & ? & Hf). split_and!; [done|done|].
    intros _ key. destruct (Hf key) as [-> ->]. destruct (Hadd key) as [-> ->]. by rewrite !app_nil_r. }
  destruct o; try (by apply Hcalm); clear Hcalm Hc; cbn [dstep added_wf added_act].
  - destruct (Subscribe_spec r peerID ns queue kind d Hd) as (? & ? & Hf). split_and!; [done|done|].
    intros Hw key. destruct (Hf Hw key) as [-> ->]. by rewrite !app_nil_r.
  - destruct (EnqueueWorkflowTask_spec now r p ns queue wf run ty input d Hd) as (? & ? & Hf). split_and!; [done|done|].
    intros Hw key. destruct (Hf Hw key) as [-> ->]. by rewrite app_nil_r.
  - destruct (DispatchActivity_spec now r p ns queue wf run seq aid ty input stc hb d Hd) as (? & ? & Hf). split_and!; [done|done|].
    intros Hw key. destruct (Hf Hw key) as [-> ->]. by rewrite app_nil_r.
Qed.

Lemma dexec_spec b ops :
  disp_ok (dexec b ops) ∧ d_wired (dexec b ops) = b ∧
  (b = true → ∀ key, flow_wf key (dexec b ops) = ops ≫= added_wf key ∧ flow_act key (dexec b ops) = ops ≫= added_act key).
Proof.
  unfold dexec. induction ops as [|o ops IH] using rev_ind; [split; [apply newDispatcher_ok|done]|].
  rewrite foldl_app. cbn [foldl]. destruct IH as (Hd & Hw & Hf).
  destruct (dstep_spec _ o Hd) as (Hd' & Hw' & Hf'). split_and!; [done|congruence|]. intros Hb key.
  destruct (Hf' ltac:(congruence) key) as [-> ->]. destruct (Hf Hb key) as [-> ->].
  rewrite !bind_app. cbn. by rewrite !app_nil_r.
Qed.

(** Successive picks on a key. *)
Fixpoint picks (n : nat) (key : subKey) (d : dispatcher) : list (option subscription) :=
  match n with
  | 0 => []
  | S n => let '(s, d) := pickLocked key d in s :: picks n key d
  end.

Lemma rotate_nat_add_next i j n : 0 < n → rotate_nat_add ((i `mod` n + 1) `mod` n) j n = rotate_nat_add i (S j) n.
Proof.
  intros Hn. unfold rotate_nat_add. f_equal. rewrite !Nat2Z.inj_mod, Nat2Z.inj_add, Nat2Z.inj_mod.
  rewrite Zplus_mod_idemp_l, <- Z.add_assoc, Zplus_mod_idemp_l. f_equal. lia.
Qed.

Lemma picks_lookup key l k : ∀ d,
  at_key (d_subs d) key = l → l ≠ [] →
  picks k key d = (λ j, l !! rotate_nat_add (default 0 (d_rrIdx d !! key)) j (length l)) <$> seq 0 k.
Proof.
  induction k as [|k IH]; intros d Hl Hne; [done|]. cbn [picks]. unfold pickLocked at 1. rewrite Hl.
  assert (0 < length l) by (destruct l; [done|cbn; lia]).
  rewrite bool_decide_false by done. cbn [seq fmap list_fmap]. f_equal.
  - f_equal. rewrite rotate_nat_add_add_mod, rotate_nat_add_0; [done|]. apply Nat.mod_upper_bound. lia.
  - rewrite IH by done. cbn [d_rrIdx with_rrIdx]. rewrite lookup_insert_eq. cbn [default].
    rewrite <- fmap_S_seq, <- list_fmap_compose. apply list_fmap_ext. intros j x _. cbn.
    by rewrite rotate_nat_add_next.
Qed.

Lemma rotate_Permutation {A} n (l : list A) : rotate n l ≡ₚ l.
Proof. unfold rotate. rewrite Permutation_app_comm. by rewrite take_drop. Qed.

Lemma picks_rotate key d :
  at_key (d_subs d) key ≠ [] →
  picks (length (at_key (d_subs d) key)) key d =
  Some <$> rotate (default 0 (d_rrIdx d !! key)) (at_key (d_subs d) key).
Proof.
  intros Hne. rewrite (picks_lookup key _ _ d eq_refl Hne). apply list_eq. intros j.
  rewrite !list_lookup_fmap. destruct (decide (j < length (at_key (d_subs d) key))) as [Hj|Hj].
  - rewrite lookup_seq_lt by done. cbn. rewrite lookup_rotate_r by done.
    destruct (at_key (d_subs d) key !! _) eqn:E; [done|]. apply lookup_ge_None in E.
    pose proof (rotate_nat_add_lt (default 0 (d_rrIdx d !! key)) j (length (at_key (d_subs d) key)) ltac:(lia)). lia.
  - rewrite lookup_seq_ge by lia. rewrite (lookup_ge_None_2 (rotate _ _)) by (rewrite length_rotate; lia). done.
Qed.

(** ** Properties *)

(** (C32) At every point of every run of the dispatcher, a key with queued tasks
    has no subscriber (so no task waits while a worker could take it), every
    subscription is filed under its own key, and at most [maxPendingQueries]
    queries are pending. *)
Theorem dispatcher_invariant b ops : disp_ok (dexec b ops).
Proof. apply dexec_spec. Qed.

(** (C33) Over any run with a transport, the workflow tasks of a key that were
    pushed and accepted, followed by the ones still queued, are exactly the tasks
    enqueued for it in the order they were enqueued; and likewise for activity
    tasks. No task is lost, duplicated or reordered. *)
Theorem dispatcher_fifo ops key :
  flow_wf key (dexec true ops) = ops ≫= added_wf key ∧ flow_act key (dexec true ops) = ops ≫= added_act key.
Proof. by apply dexec_spec. Qed.

(** The delivery loop of the source: from any reachable state the bounded
    loop is the unbounded one, so it terminates having tried each subscriber at
    most once. *)
Theorem deliver_terminates b ops key op body peer :
  let d := dexec b ops in
  deliver key op body peer d =
  match pickLocked key d with
  | (None, d) => (false, peer, d)
  | (Some sub, d) =>
      if negb (d_wired d) then (true, sub_peerID sub, d)
      else let '(ok, d) := send key (sub_peerID sub) op body d in
           if ok : bool then (true, sub_peerID sub, d)
           else deliver key op body (sub_peerID sub) (removeSubLocked sub d)
  end.
Proof. intros d. apply deliver_unfold, ok_subs, dexec_spec. Qed.

(** Round robin is fair: as many picks as a key has subscribers choose each
    of them exactly once. *)
Theorem round_robin_fair b ops key :
  let d := dexec b ops in
  picks (length (at_key (d_subs d) key)) key d ≡ₚ Some <$> at_key (d_subs d) key.
Proof.
  intros d. destruct (decide (at_key (d_subs d) key = [])) as [->|Hne]; [done|].
  rewrite picks_rotate by done. by rewrite rotate_Permutation.
Qed.

(** A workflow-task token works once: right after a task is enqueued its
    token resolves to that task, with the tenant and run it was enqueued for, and
    a second response with the token finds nothing. *)
Theorem workflow_token_once b ops now r p ns queue wf run ty input :
  let t := newWorkflowTask now r p ns queue wf run ty input in
  let d := EnqueueWorkflowTask now r p ns queue wf run ty input (dexec b ops) in
  ∃ peer d', CompleteWorkflowTask (wt_token t) d = (Some (wt_set_peer peer t), d') ∧
             CompleteWorkflowTask (wt_token t) d' = (None, d').
Proof.
  intros t d. assert (∃ peer, d_wfByToken d !! wt_token t = Some (wt_set_peer peer t)) as [peer Hp].
  { unfold d, EnqueueWorkflowTask. fold (newWorkflowTask now r p ns queue wf run ty input). fold t.
    destruct (deliverWFLocked _ t _) as [[ok t'] d1] eqn:E. unfold deliverWFLocked in E.
    destruct (deliver _ _ _ _ _) as [[ok1 peer] d2] eqn:E2. injection E as <- <- <-.
    apply deliver_spec in E2 as ((_ & _ & _ & Htok & _) & _); [|apply (ok_subs _ (proj1 (dexec_spec b ops)))].
    exists peer. destruct ok1; cbn; by rewrite Htok, lookup_alter_eq; cbn; rewrite lookup_insert_eq. }
  exists peer, (with_wfByToken (delete (wt_token t)) d). unfold CompleteWorkflowTask at 1.
  rewrite Hp. split; [done|]. unfold CompleteWorkflowTask. cbn. by rewrite lookup_delete_eq.
Qed.

End Dispatcher.
