(* ===== verification/Events.v ===== *)
(** The event broker: [pkg/tasks/events.go]. Each subscriber has a bounded
    buffer; a publisher never blocks, and a full buffer loses its oldest event. *)

From Stdlib Require Import Ascii ZArith Lia.
From stdpp Require Import prelude strings gmap.
From S2P Require Import Prelude GoStrings Json.

Record Event := {
  ev_Kind : string;
  ev_OrgID : string;
  ev_Namespace : string;
  ev_WorkflowID : string;
  ev_RunID : string;
  ev_ScheduleID : string;
  ev_BatchID : string;
  ev_At : string;
  ev_Data : json }.

(** An event with the members every engine event carries; the rest are zero. *)
Definition event (kind ns wf run : string) (data : json) : Event :=
  {| ev_Kind := kind; ev_OrgID := ""; ev_Namespace := ns; ev_WorkflowID := wf; ev_RunID := run;
     ev_ScheduleID := ""; ev_BatchID := ""; ev_At := ""; ev_Data := data |}.

Definition ev_set_org (o : string) (e : Event) : Event :=
  {| ev_Kind := ev_Kind e; ev_OrgID := o; ev_Namespace := ev_Namespace e; ev_WorkflowID := ev_WorkflowID e;
     ev_RunID := ev_RunID e; ev_ScheduleID := ev_ScheduleID e; ev_BatchID := ev_BatchID e;
     ev_At := ev_At e; ev_Data := ev_Data e |}.
Definition ev_set_at (t : string) (e : Event) : Event :=
  {| ev_Kind := ev_Kind e; ev_OrgID := ev_OrgID e; ev_Namespace := ev_Namespace e; ev_WorkflowID := ev_WorkflowID e;
     ev_RunID := ev_RunID e; ev_ScheduleID := ev_ScheduleID e; ev_BatchID := ev_BatchID e;
     ev_At := t; ev_Data := ev_Data e |}.

Record broker := {
  b_nextID : nat;
  b_subs : gmap nat (list Event);
  b_bufSize : nat }.

Definition newBroker : broker := {| b_nextID := 0; b_subs := ∅; b_bufSize := 256 |}.

Definition b_subscribe (b : broker) : nat * broker :=
  let id := S (b_nextID b) in
  (id, {| b_nextID := id; b_subs := <[id := []]> (b_subs b); b_bufSize := b_bufSize b |}).

Definition b_unsubscribe (id : nat) (b : broker) : broker :=
  {| b_nextID := b_nextID b; b_subs := delete id (b_subs b); b_bufSize := b_bufSize b |}.

(** The three selects of [publish], on one channel: send; else drop the oldest
    and send again. *)
Definition offer (cap : nat) (e : Event) (ch : list Event) : list Event :=
  if (length ch <? cap)%nat then ch ++ [e]
  else let ch := tail ch in
       if (length ch <? cap)%nat then ch ++ [e] else ch.

(** [now] is the clock reading used for an event that carries no time. *)
Definition publish (now : string) (e : Event) (b : broker) : broker :=
  let e := if String.eqb (ev_At e) "" then ev_set_at now e else e in
  {| b_nextID := b_nextID b; b_subs := offer (b_bufSize b) e <$> b_subs b; b_bufSize := b_bufSize b |}.

(** A receive on a subscriber's channel. *)
Definition receive (id : nat) (b : broker) : option Event * broker :=
  match b_subs b !! id with
  | Some (e :: ch) => (Some e, {| b_nextID := b_nextID b; b_subs := <[id := ch]> (b_subs b); b_bufSize := b_bufSize b |})
  | _ => (None, b)
  end.

(** What [feed] writes of the events it receives: the org's own, or all of them
    for the unscoped stream. *)
Definition feed (org : string) (evs : list Event) : list Event :=
  filter (λ e, org = "" ∨ ev_OrgID e = org) evs.

(** ** Lemmas *)

(** The last [n] elements. *)
Definition last_n {A} (n : nat) (l : list A) : list A := drop (length l - n) l.

Lemma last_n_length {A} n (l : list A) : length (last_n n l) = n `min` length l.
Proof. unfold last_n. rewrite length_drop. lia. Qed.

Lemma offer_last_n cap e (l : list Event) :
  cap ≠ 0 → offer cap e (last_n cap l) = last_n cap (l ++ [e]).
Proof.
  intros Hc. unfold offer. rewrite last_n_length. unfold last_n. rewrite length_app. cbn [length].
  destruct (Nat.ltb_spec (cap `min` length l) cap).
  - replace (length l - cap) with 0 by lia. replace (length l + 1 - cap) with 0 by lia. by rewrite !drop_0.
  - assert (∀ l : list Event, tail l = drop 1 l) as Ht by (by intros []). rewrite Ht, drop_drop, length_drop.
    destruct (Nat.ltb_spec (length l - (length l - cap + 1)) cap); [|lia].
    rewrite drop_app_le by lia. f_equal. f_equal. lia.
Qed.

(** Publishing a list of events in order. *)
Definition publish_all (evs : list (string * Event)) (b : broker) : broker :=
  foldl (λ b te, publish te.1 te.2 b) b evs.

(** The event as it is delivered. *)
Definition stamped (te : string * Event) : Event :=
  if String.eqb (ev_At te.2) "" then ev_set_at te.1 te.2 else te.2.

Lemma publish_all_buffer evs : ∀ b id l,
  b_bufSize b ≠ 0 → b_subs b !! id = Some (last_n (b_bufSize b) l) →
  b_subs (publish_all evs b) !! id = Some (last_n (b_bufSize b) (l ++ (stamped <$> evs))).
Proof.
  induction evs as [|te evs IH]; intros b id l Hc Hb; cbn [publish_all foldl fmap list_fmap]; [by rewrite app_nil_r|].
  replace (l ++ stamped te :: (stamped <$> evs)) with ((l ++ [stamped te]) ++ (stamped <$> evs)) by (by rewrite <-app_assoc).
  apply (IH (publish te.1 te.2 b)); [done|]. cbn. rewrite lookup_fmap, Hb. cbn. by rewrite <- offer_last_n.
Qed.

(** ** Properties *)

(** A subscriber that has not read yet holds the latest events published
    since it subscribed, in order, at most [bufSize] of them: what is lost under
    back-pressure is the oldest. *)
Theorem broker_keeps_latest b evs :
  b_bufSize b ≠ 0 →
  let '(id, b1) := b_subscribe b in
  b_subs (publish_all evs b1) !! id = Some (last_n (b_bufSize b) (stamped <$> evs)).
Proof.
  intros Hc. cbn [b_subscribe]. apply (publish_all_buffer evs (b_subscribe b).2 _ []); [done|]. cbn. by rewrite lookup_insert_eq.
Qed.

Lemma broker_keeps_latest_witness :
  b_bufSize newBroker ≠ 0 ∧
  b_subs (publish_all [("t", event "workflow.started" "default" "w" "r" JNull)] (b_subscribe newBroker).2) !! 1 =
  Some (last_n 256 [ev_set_at "t" (event "workflow.started" "default" "w" "r" JNull)]).
Proof.
  split; [done|].
  apply (broker_keeps_latest newBroker [("t", event "workflow.started" "default" "w" "r" JNull)]). done.
Defined.
