(* ===== verification/World.v ===== *)
(** The engine's state and the store under it: [pkg/tasks/store/shard.go] (the
    shard manager), [replication/local.go] (the driver every write goes through)
    and [pkg/tasks/store.go] (the facade the engine calls).

    One [world] is one process with its data directory. Every operation of the
    facade is a computation over it; an operation on a shard's database may fail
    ([env_fault]), and a failure leaves what was written before it. A process that
    stops between two writes is the schedule in which every later operation
    fails. *)

From Stdlib Require Import Ascii ZArith Lia.
From stdpp Require Import prelude strings gmap sorting.
From S2P Require Import Prelude GoStrings Json Env Principal Router Shard GoTime Dispatch Events.

(** ** State *)

(** The errors the modelled code returns. *)
Inductive err :=
| ErrClosed
| ErrBadName (e : name_error)
| ErrBadPrincipal (e : principal_error)
| ErrIO
| ErrUnknownOp (op : string)
| ErrRoute (key : string)
| ErrMarshal
| ErrDecode
| ErrNotFound (what : string)
| ErrUnregistered (ns : string)
| ErrRequired (what : string)
| ErrInvalid (what : string)
| ErrExists (what : string)
| ErrConflict (workflowId : string)
| ErrNotRunning (status : string)
| ErrVanished (ns : string)
| ErrQuery (e : query_error)
| ErrNilDeref.  (* a nil pointer dereference: the goroutine panics *)

(** [replication.LocalReplicator]: its counters. Its one handler is the one
    [Manager.WithReplicator] subscribes when [Embed] installs the driver. *)
Record local_repl := { lr_accepted : Z; lr_rejected : Z; lr_nextSeq : Z }.

(** A line of the structured log: level, message and its key/value pairs. *)
Inductive level := LInfo | LWarn | LError.
Record log_line := { ll_level : level; ll_msg : string; ll_args : list (string * json) }.

(** A pending [time.AfterFunc] of [scheduleActivityRetry]. *)
Record retry_timer := {
  rt_principal : Principal; rt_ns : string; rt_wf : string; rt_run : string; rt_seq : Z; rt_delay : Z }.

Record world := {
  w_shards : gmap (Principal * string) table;   (* the shards of the data directory *)
  w_closed : bool;
  w_repl : option local_repl;
  w_disp : dispatcher;
  w_broker : broker;
  w_events : list Event;                        (* every event published, in order *)
  w_cancelling : gmap string Z;
  w_fails : gmap string Z;
  w_log : list log_line;
  w_timers : list retry_timer;
  w_clock : nat;                                (* readings of the clock, draws of *)
  w_rand : nat;                                 (* entropy and database operations *)
  w_ops : nat                                   (* so far                          *)
}.

Abbreviation W := (M world err).

Definition with_shards (f : gmap (Principal * string) table → gmap (Principal * string) table) (w : world) : world :=
  {| w_shards := f (w_shards w); w_closed := w_closed w; w_repl := w_repl w; w_disp := w_disp w; w_broker := w_broker w;
     w_events := w_events w; w_cancelling := w_cancelling w; w_fails := w_fails w; w_log := w_log w;
     w_timers := w_timers w; w_clock := w_clock w; w_rand := w_rand w; w_ops := w_ops w |}.
Definition with_repl (r : option local_repl) (w : world) : world :=
  {| w_shards := w_shards w; w_closed := w_closed w; w_repl := r; w_disp := w_disp w; w_broker := w_broker w;
     w_events := w_events w; w_cancelling := w_cancelling w; w_fails := w_fails w; w_log := w_log w;
     w_timers := w_timers w; w_clock := w_clock w; w_rand := w_rand w; w_ops := w_ops w |}.
Definition with_disp (d : dispatcher) (w : world) : world :=
  {| w_shards := w_shards w; w_closed := w_closed w; w_repl := w_repl w; w_disp := d; w_broker := w_broker w;
     w_events := w_events w; w_cancelling := w_cancelling w; w_fails := w_fails w; w_log := w_log w;
     w_timers := w_timers w; w_clock := w_clock w; w_rand := w_rand w; w_ops := w_ops w |}.
Definition with_broker (b : broker) (l : list Event) (w : world) : world :=
  {| w_shards := w_shards w; w_closed := w_closed w; w_repl := w_repl w; w_disp := w_disp w; w_broker := b;
     w_events := l; w_cancelling := w_cancelling w; w_fails := w_fails w; w_log := w_log w;
     w_timers := w_timers w; w_clock := w_clock w; w_rand := w_rand w; w_ops := w_ops w |}.
Definition with_cancelling (f : gmap string Z → gmap string Z) (w : world) : world :=
  {| w_shards := w_shards w; w_closed := w_closed w; w_repl := w_repl w; w_disp := w_disp w; w_broker := w_broker w;
     w_events := w_events w; w_cancelling := f (w_cancelling w); w_fails := w_fails w; w_log := w_log w;
     w_timers := w_timers w; w_clock := w_clock w; w_rand := w_rand w; w_ops := w_ops w |}.
Definition with_fails (f : gmap string Z → gmap string Z) (w : world) : world :=
  {| w_shards := w_shards w; w_closed := w_closed w; w_repl := w_repl w; w_disp := w_disp w; w_broker := w_broker w;
     w_events := w_events w; w_cancelling := w_cancelling w; w_fails := f (w_fails w); w_log := w_log w;
     w_timers := w_timers w; w_clock := w_clock w; w_rand := w_rand w; w_ops := w_ops w |}.
Definition with_log (l : list log_line) (w : world) : world :=
  {| w_shards := w_shards w; w_closed := w_closed w; w_repl := w_repl w; w_disp := w_disp w; w_broker := w_broker w;
     w_events := w_events w; w_cancelling := w_cancelling w; w_fails := w_fails w; w_log := l;
     w_timers := w_timers w; w_clock := w_clock w; w_rand := w_rand w; w_ops := w_ops w |}.
Definition with_timers (l : list retry_timer) (w : world) : world :=
  {| w_shards := w_shards w; w_closed := w_closed w; w_repl := w_repl w; w_disp := w_disp w; w_broker := w_broker w;
     w_events := w_events w; w_cancelling := w_cancelling w; w_fails := w_fails w; w_log := w_log w;
     w_timers := l; w_clock := w_clock w; w_rand := w_rand w; w_ops := w_ops w |}.
Definition with_counters (c r o : nat) (w : world) : world :=
  {| w_shards := w_shards w; w_closed := w_closed w; w_repl := w_repl w; w_disp := w_disp w; w_broker := w_broker w;
     w_events := w_events w; w_cancelling := w_cancelling w; w_fails := w_fails w; w_log := w_log w;
     w_timers := w_timers w; w_clock := c; w_rand := r; w_ops := o |}.

(** A fresh process over an empty data directory, with the local replicator
    installed as [Embed] does. *)
Definition new_world (wired : bool) : world := {|
  w_shards := ∅; w_closed := false;
  w_repl := Some {| lr_accepted := 0; lr_rejected := 0; lr_nextSeq := 0 |};
  w_disp := newDispatcher wired; w_broker := newBroker; w_events := []; w_cancelling := ∅; w_fails := ∅; w_log := [];
  w_timers := []; w_clock := 0; w_rand := 0; w_ops := 0 |}.

Section Store.
Context `{Env}.

(** ** The outside world *)

Definition time_now : W Z := λ w,
  (with_counters (S (w_clock w)) (w_rand w) (w_ops w) w, inr (env_now (w_clock w))).
Definition rand_draw : W Z := λ w,
  (with_counters (w_clock w) (S (w_rand w)) (w_ops w) w, inr (env_rand (w_rand w))).
Definition nowRFC3339 : W string := t ← time_now; mret (format_rfc3339 t).

(** One statement against a database. *)
Definition db_op : W unit := λ w,
  (with_counters (w_clock w) (w_rand w) (S (w_ops w)) w, if env_fault (w_ops w) then inl ErrIO else inr tt).

Definition lift_name (o : option name_error) : W unit :=
  match o with Some e => throw (ErrBadName e) | None => mret tt end.
Definition lift_principal (o : option principal_error) : W unit :=
  match o with Some e => throw (ErrBadPrincipal e) | None => mret tt end.

(** ** The shard manager *)

Definition has_shard (p : Principal) (ns : string) (w : world) : bool := bool_decide (is_Some (w_shards w !! (p, ns))).

(** [Manager.Get]: the shard is created on first use. *)
Definition Manager_Get (p : Principal) (ns : string) : W unit :=
  closed ← gets w_closed;
  if closed : bool then throw ErrClosed else
  lift_name (ValidName ns);;
  lift_principal (Valid p);;
  lift_principal (Placeable p);;
  there ← gets (has_shard p ns);
  if there : bool then mret tt
  else db_op;; modify (with_shards (<[(p, ns) := ∅]>)).

Definition insert_sorted (l : list string) : list string := merge_sort sle_rel l.

(** [shardNames]: every namespace [p] owns, sorted. *)
Definition shardNames (p : Principal) (w : world) : list string :=
  insert_sorted (snd <$> filter (λ k, k.1 = p) (map_to_list (w_shards w)).*1).

Definition ListShards (p : Principal) : W (list string) :=
  names ← gets (shardNames p);
  for_each (Manager_Get p) names;;
  mret names.

Definition principal_le (p q : Principal) : Prop := sle_rel (Principal_String p) (Principal_String q).
#[global] Instance principal_le_dec : RelDecision principal_le := λ p q, _ : Decision (sle_rel _ _).

(** [ListPrincipals]: every tenant that owns a shard, ordered by its text. *)
Definition ListPrincipals : W (list Principal) :=
  db_op;;
  gets (λ w, merge_sort principal_le (remove_dups (fst <$> (map_to_list (w_shards w)).*1))).

(** ** Replicated writes *)

Record Frame := { f_Principal : string; f_Namespace : string; f_Seq : Z; f_Op : string; f_Key : string; f_Value : json }.

Definition shard_localPut (p : Principal) (ns key : string) (v : json) : W unit :=
  db_op;; modify (with_shards (alter (localPut key v) (p, ns))).
Definition shard_localDel (p : Principal) (ns key : string) : W unit :=
  db_op;; modify (with_shards (alter (localDel key) (p, ns))).

Definition applyFrame (p : Principal) (ns : string) (f : Frame) : W unit :=
  if String.eqb (f_Op f) "put" then shard_localPut p ns (f_Key f) (f_Value f)
  else if String.eqb (f_Op f) "del" then shard_localDel p ns (f_Key f)
  else if String.eqb (f_Op f) "migration.lock" || String.eqb (f_Op f) "migration.unlock" then mret tt
  else throw (ErrUnknownOp (f_Op f)).

(** The handler [WithReplicator] subscribes: the frame names its shard. *)
Definition frame_handler (f : Frame) : W unit :=
  match ParsePrincipal (f_Principal f) with
  | inl e => throw (ErrBadPrincipal e)
  | inr p => Manager_Get p (f_Namespace f);; applyFrame p (f_Namespace f) f
  end.

Definition bump_repl (f : local_repl → local_repl) : W unit := modify (λ w, with_repl (f <$> w_repl w) w).

(** [LocalReplicator.Propose]: run the handler, then accept. *)
Definition Propose (f : Frame) : W unit :=
  bump_repl (λ r, {| lr_accepted := lr_accepted r; lr_rejected := lr_rejected r;
                     lr_nextSeq := lr_nextSeq r + (if (f_Seq f =? 0)%Z then 1 else 0) |});;
  res ← attempt (frame_handler f);
  match res with
  | inl e =>
      bump_repl (λ r, {| lr_accepted := lr_accepted r; lr_rejected := lr_rejected r + 1; lr_nextSeq := lr_nextSeq r |});;
      throw e
  | inr _ =>
      bump_repl (λ r, {| lr_accepted := lr_accepted r + 1; lr_rejected := lr_rejected r; lr_nextSeq := lr_nextSeq r |})
  end.

(** [Shard.replicate]: without a driver the write is applied directly; with one
    it is proposed, and the driver's handler applies it. *)
Definition replicate_frame (f : Frame) (apply : W unit) : W unit :=
  r ← gets w_repl;
  match r with
  | None => apply
  | Some _ => Propose f
  end.

Definition Shard_Put (p : Principal) (ns key : string) (v : json) : W unit :=
  replicate_frame {| f_Principal := Principal_String p; f_Namespace := ns; f_Seq := 0; f_Op := "put"; f_Key := key; f_Value := v |}
    (shard_localPut p ns key v).

Definition Shard_Del (p : Principal) (ns key : string) : W unit :=
  replicate_frame {| f_Principal := Principal_String p; f_Namespace := ns; f_Seq := 0; f_Op := "del"; f_Key := key; f_Value := JNull |}
    (shard_localDel p ns key).

Definition shard_table (p : Principal) (ns : string) (w : world) : table := default ∅ (w_shards w !! (p, ns)).

Definition Shard_Get (p : Principal) (ns key : string) : W (option json) :=
  db_op;; gets (λ w, shard_table p ns w !! key).

Definition Shard_Scan (p : Principal) (ns prefix after : string) (limit : Z) : W (list (string * json)) :=
  db_op;; gets (λ w, Scan prefix after limit (shard_table p ns w)).

(** ** The facade, scoped to a tenant *)

Definition shardFor (p : Principal) (key : string) : W string :=
  match NsFromKey key with
  | None => throw (ErrRoute key)
  | Some (_, ns, _) => Manager_Get p ns;; mret ns
  end.

Definition store_put {A} `{Codec A} (p : Principal) (key : string) (v : A) : W unit :=
  if negb (marshal_ok v) then throw ErrMarshal else
  ns ← shardFor p key;
  Shard_Put p ns key (to_json v).

Definition store_get {A} `{Codec A} (p : Principal) (key : string) : W (option A) :=
  ns ← shardFor p key;
  body ← Shard_Get p ns key;
  match body with
  | None => mret None
  | Some j => match of_json j with
              | Some v => mret (Some v)
              | None => throw ErrDecode
              end
  end.

Definition store_del (p : Principal) (key : string) : W unit :=
  ns ← shardFor p key;
  Shard_Del p ns key.

(** A scan of every shard of the tenant, in the order of their names. *)
Fixpoint scan_shards (p : Principal) (prefix : string) (l : list string) : W (list (string * json)) :=
  match l with
  | [] => mret []
  | ns :: l => rows ← Shard_Scan p ns prefix "" 0;
               rest ← scan_shards p prefix l;
               mret (rows ++ rest)
  end.

Definition store_list (p : Principal) (prefix : string) : W (list (string * json)) :=
  if IsCrossNamespacePrefix prefix then names ← ListShards p; scan_shards p prefix names
  else
    let '(_, ns, _) := SplitPrefix prefix in
    if String.eqb ns "" then throw (ErrInvalid ("store.list: missing namespace in prefix " +:+ quote prefix))
    else Manager_Get p ns;; Shard_Scan p ns prefix "" 0.

Definition store_scan (p : Principal) (prefix after : string) (limit : Z) : W (list (string * json)) :=
  let '(_, ns, _) := SplitPrefix prefix in
  if String.eqb ns "" || IsCrossNamespacePrefix prefix then throw (ErrInvalid ("store.scan: prefix " +:+ quote prefix +:+ " does not name one namespace"))
  else Manager_Get p ns;; Shard_Scan p ns prefix after limit.

(** [Shard.Reclaim]: three pragmas, then a vacuum if the shard has pages to give
    back. Pages are not part of the model: the statements only can fail. *)
Definition Shard_Reclaim (rebuild : bool) : W unit :=
  i ← gets w_ops;
  db_op;; db_op;; db_op;;
  let '(mode, free, total) := env_pages i in
  if (free =? 0)%Z then mret tt
  else if (mode =? 2)%Z then db_op
  else if (mode =? 0)%Z && rebuild && (total <=? free * 4)%Z then db_op;; db_op
  else mret tt.

Definition store_reclaim (p : Principal) (ns : string) (rebuild : bool) : W unit :=
  Manager_Get p ns;; Shard_Reclaim rebuild.

(** [listInto]: a row that does not decode fails the whole listing. *)
Definition listInto (A : Type) `{Codec A} (p : Principal) (prefix : string) : W (list A) :=
  rows ← store_list p prefix;
  match mapM (λ r, of_json r.2) rows with
  | Some l => mret l
  | None => throw ErrDecode
  end.

(** [listEveryTenant] calls its function on the rows of one shard after another,
    each tagged with its tenant; an error ends the walk, and the rows already
    visited stay visited. *)
Fixpoint scan_tenant (p : Principal) (prefix : string) (names : list string) : W (list (Principal * (string * json)) * option err) :=
  match names with
  | [] => mret ([], None)
  | ns :: names =>
      r ← attempt (Shard_Scan p ns prefix "" 0);
      match r with
      | inl e => mret ([], Some e)
      | inr rows => r ← scan_tenant p prefix names; mret (((p,.) <$> rows) ++ r.1, r.2)
      end
  end.

Fixpoint scan_tenants (prefix : string) (l : list Principal) : W (list (Principal * (string * json)) * option err) :=
  match l with
  | [] => mret ([], None)
  | p :: l =>
      r ← attempt (ListShards p);
      match r with
      | inl e => mret ([], Some e)
      | inr names =>
          r ← scan_tenant p prefix names;
          match r with
          | (rows, Some e) => mret (rows, Some e)
          | (rows, None) => r ← scan_tenants prefix l; mret (rows ++ r.1, r.2)
          end
      end
  end.

Definition listEveryTenant (prefix : string) : W (list (Principal * (string * json)) * option err) :=
  r ← attempt ListPrincipals;
  match r with
  | inl e => mret ([], Some e)
  | inr tenants => scan_tenants prefix tenants
  end.

(** ** Events, log lines and the dispatcher, from the engine *)

(** [broker.publish]. *)
Definition broker_publish (e : Event) : W unit :=
  t ← (if String.eqb (ev_At e) "" then nowRFC3339 else mret "");
  modify (λ w, with_broker (publish t e (w_broker w)) (w_events w ++ [stamped (t, e)]) w).

(** [engine.emit]: every event carries the org of the view that emits it. *)
Definition emit (p : Principal) (e : Event) : W unit := broker_publish (ev_set_org (Org p) e).

Definition log (l : log_line) : W unit := modify (λ w, with_log (w_log w ++ [l]) w).

Definition newRunId : W string := r ← rand_draw; mret (hex 32 r).

Definition disp_EnqueueWorkflowTask (p : Principal) (ns queue wf run ty : string) (input : raw) : W unit :=
  now ← time_now; r ← rand_draw;
  modify (λ w, with_disp (EnqueueWorkflowTask now r p ns queue wf run ty input (w_disp w)) w).

Definition disp_DispatchActivity (p : Principal) (ns queue wf run : string) (seq : Z) (aid ty : string) (input : raw) (stc hb : Z) : W unit :=
  now ← time_now; r ← rand_draw;
  modify (λ w, with_disp (DispatchActivity now r p ns queue wf run seq aid ty input stc hb (w_disp w)).2 w).

Definition disp_PushCancelRequest (ns queue wf run reason identity : string) : W unit :=
  modify (λ w, with_disp (PushCancelRequest ns queue wf run reason identity (w_disp w)).2 w).

Definition disp_HasSubscribers (ns queue : string) (kind : taskKind) : W bool :=
  gets (λ w, HasSubscribers ns queue kind (w_disp w)).

End Store.
