(* ===== verification/WorldFacts.v ===== *)
(** Reasoning about the store: the rows a tenant sees, what each operation of
    the facade does to them, and when it cannot fail. *)

From Stdlib Require Import Ascii ZArith Lia.
From stdpp Require Import prelude strings gmap sorting.
From S2P Require Import Prelude GoStrings Json Env Principal Router Shard GoTime Dispatch Events World.

(** No operation on a database fails. *)
Class NoFaults `{Env} : Prop := no_faults i : env_fault i = false.

Section Facts.
Context `{Env}.

(** ** Views of a world *)

(** The row a tenant reads at a key. *)
Definition row (w : world) (p : Principal) (key : string) : option json :=
  match NsFromKey key with
  | Some (_, ns, _) => shard_table p ns w !! key
  | None => None
  end.

(** Everything the store does not own is equal. *)
Definition same_rest (w w' : world) : Prop :=
  w_closed w' = w_closed w ∧ w_disp w' = w_disp w ∧ w_broker w' = w_broker w ∧ w_events w' = w_events w ∧
  w_cancelling w' = w_cancelling w ∧ w_fails w' = w_fails w ∧ w_log w' = w_log w ∧ w_timers w' = w_timers w ∧
  w_clock w' = w_clock w ∧ w_rand w' = w_rand w.

(** The tables are equal (a shard that was only created is still empty). *)
Definition same_tables (w w' : world) : Prop := ∀ p ns, shard_table p ns w' = shard_table p ns w.

(** Nothing a later read can see has changed. *)
Definition still (w w' : world) : Prop := same_tables w w' ∧ same_rest w w'.

#[export] Instance same_rest_equiv : Equivalence same_rest.
Proof.
  unfold same_rest. split.
  - by intros w.
  - intros w w' ?. naive_solver.
  - intros w w' w'' ? ?. naive_solver congruence.
Qed.
#[export] Instance same_tables_equiv : Equivalence same_tables.
Proof.
  unfold same_tables. split.
  - by intros w.
  - intros w w' ? ? ?. symmetry. auto.
  - intros w w' w'' H1 H2 ? ?. by rewrite H2, H1.
Qed.
#[export] Instance still_equiv : Equivalence still.
Proof.
  unfold still. split.
  - by intros w.
  - intros w w' [H1 H2]. by split; symmetry.
  - intros w w' w'' [] []. by split; etrans.
Qed.

Lemma still_row w w' p k : still w w' → row w' p k = row w p k.
Proof. intros [H1 _]. unfold row. case_match; [|done]. destruct p0 as [[? ?] ?]. by rewrite H1. Qed.

(** The store accepts operations of tenant [p] on namespace [ns]. *)
Definition serves (w : world) (p : Principal) (ns : string) : Prop :=
  w_closed w = false ∧ ValidName ns = None ∧ Placeable p = None.

Lemma serves_rest w w' p ns : same_rest w w' → serves w p ns → serves w' p ns.
Proof. unfold serves, same_rest. naive_solver congruence. Qed.

Lemma Placeable_Valid p : Placeable p = None → Valid p = None.
Proof. unfold Placeable. by case_match. Qed.

(** The effect of a write. *)
Definition wrote (p : Principal) (ns : string) (f : table → table) (w w' : world) : Prop :=
  (∀ q m, shard_table q m w' = if decide ((q, m) = (p, ns)) then f (shard_table p ns w) else shard_table q m w) ∧
  same_rest w w'.

Lemma wrote_still p ns f w1 w2 w3 w4 : still w1 w2 → wrote p ns f w2 w3 → still w3 w4 → wrote p ns f w1 w4.
Proof.
  intros [A1 A2] [B1 B2] [C1 C2]. split; [|by etrans; [|etrans]].
  intros q m. rewrite C1, B1. by case_decide; rewrite A1.
Qed.

(** ** The manager *)

Lemma wp_db_op (Q : err + unit → world → Prop) w :
  (∀ w', still w w' → ¬ NoFaults → Q (inl ErrIO) w') → (∀ w', still w w' → w_shards w' = w_shards w → Q (inr tt) w') →
  wp db_op Q w.
Proof.
  intros Hf Hok. unfold wp, db_op. destruct (env_fault (w_ops w)) eqn:E.
  - apply Hf; [done|]. intros Hn. by rewrite (Hn (w_ops w)) in E.
  - by apply Hok.
Qed.

Lemma shard_table_create p ns w q m :
  w_shards w !! (p, ns) = None → shard_table q m (with_shards (<[(p, ns) := ∅]>) w) = shard_table q m w.
Proof.
  intros Hn. unfold shard_table. cbn. destruct (decide ((p, ns) = (q, m))) as [<-|Hne].
  - by rewrite lookup_insert_eq, Hn.
  - by rewrite lookup_insert_ne.
Qed.

Lemma wp_lift_name (Q : err + unit → world → Prop) o w :
  (∀ e, o = Some e → Q (inl (ErrBadName e)) w) → (o = None → Q (inr tt) w) → wp (lift_name o) Q w.
Proof. destruct o; cbn [lift_name]; intros; wp_step; auto. Qed.
Lemma wp_lift_principal (Q : err + unit → world → Prop) o w :
  (∀ e, o = Some e → Q (inl (ErrBadPrincipal e)) w) → (o = None → Q (inr tt) w) → wp (lift_principal o) Q w.
Proof. destruct o; cbn [lift_principal]; intros; wp_step; auto. Qed.

Lemma wp_Get (Q : err + unit → world → Prop) p ns w :
  (∀ e w', still w w' → ¬ (NoFaults ∧ serves w p ns) → Q (inl e) w') →
  (∀ w', still w w' → serves w p ns → is_Some (w_shards w' !! (p, ns)) → Q (inr tt) w') →
  wp (Manager_Get p ns) Q w.
Proof.
  intros Herr Hok. unfold Manager_Get. wp_step. wp_step. unfold serves in *.
  destruct (w_closed w) eqn:Ec. { wp_step. apply Herr; [done|]. by intros (_ & ? & _). }
  wp_step. apply wp_lift_name; [intros e E; apply Herr; [done|]; naive_solver|intros Hn].
  wp_step. apply wp_lift_principal; [intros e E; apply Herr; [done|]|intros Hv].
  { intros (_ & _ & _ & Hp%Placeable_Valid). congruence. }
  wp_step. apply wp_lift_principal; [intros e E; apply Herr; [done|]; naive_solver|intros Hp].
  wp_step. wp_step. unfold has_shard. case_bool_decide as Hs.
  { wp_step. by apply Hok. }
  wp_step. apply wp_db_op.
  - intros w' Hw Hnf. apply Herr; [done|]. tauto.
  - intros w' Hw Hsh. wp_step. rewrite <- eq_None_not_Some in Hs. apply Hok.
    + etrans; [exact Hw|]. split; [|done]. intros q m. rewrite shard_table_create; [done|by rewrite Hsh].
    + done.
    + cbn. rewrite lookup_insert_eq. eauto.
Qed.

(** ** Writes *)

Lemma alter_wrote p ns f w :
  is_Some (w_shards w !! (p, ns)) → wrote p ns f w (with_shards (alter f (p, ns)) w).
Proof.
  intros [t Ht]. split; [|done]. intros q m. unfold shard_table. cbn. case_decide as E.
  - rewrite E, lookup_alter_eq, Ht. done.
  - by rewrite lookup_alter_ne.
Qed.

(** What a shard write does, with or without a driver. *)
Definition applies (m : W unit) (p : Principal) (ns : string) (f : table → table) : Prop :=
  ∀ w (Q : err + unit → world → Prop), serves w p ns → is_Some (w_shards w !! (p, ns)) →
  (∀ e w', still w w' → ¬ NoFaults → Q (inl e) w') → (∀ w', wrote p ns f w w' → Q (inr tt) w') → wp m Q w.

Lemma local_applies p ns f : applies (db_op;; modify (with_shards (alter f (p, ns)))) p ns f.
Proof.
  intros w Q Hs Hsh Herr Hok. wp_step. apply wp_db_op; [by eauto|]. intros w' Hw Hsame. wp_step. apply Hok.
  eapply wrote_still; [exact Hw|apply alter_wrote; by rewrite Hsame|done].
Qed.

Lemma bump_repl_still f w : still w (with_repl (f <$> w_repl w) w).
Proof. done. Qed.

Lemma Propose_applies `{!SegmentRule} fr p ns f :
  f_Principal fr = Principal_String p → f_Namespace fr = ns →
  applies (applyFrame p ns fr) p ns f → applies (Propose fr) p ns f.
Proof.
  intros Hp Hns Happ w Q Hs Hsh Herr Hok. unfold Propose, bump_repl. do 2 wp_step.
  wp_step. wp_step. unfold frame_handler. rewrite Hp, Hns.
  rewrite parse_string by (by apply Placeable_Valid, Hs).
  wp_step. apply wp_Get.
  - intros e w1 H1 Hn. do 3 wp_step. apply Herr; [|cbn in Hn; tauto]. exact H1.
  - intros w1 H1 _ Hsh1. apply Happ; [by eapply serves_rest; [apply H1|]|done| |].
    + intros e w2 H2 Hn. do 3 wp_step. apply Herr; [|done]. by etrans; [exact H1|].
    + intros w2 H2. wp_step. apply Hok. eapply wrote_still; [exact H1|exact H2|done].
Qed.

Lemma Shard_Put_applies `{!SegmentRule} p ns key v : applies (Shard_Put p ns key v) p ns (localPut key v).
Proof.
  intros w Q Hs Hsh Herr Hok. unfold Shard_Put, replicate_frame. wp_step. wp_step.
  destruct (w_repl w); [|by eapply local_applies].
  eapply (Propose_applies _ p ns); [done|done| |done..]. apply local_applies.
Qed.

Lemma Shard_Del_applies `{!SegmentRule} p ns key : applies (Shard_Del p ns key) p ns (localDel key).
Proof.
  intros w Q Hs Hsh Herr Hok. unfold Shard_Del, replicate_frame. wp_step. wp_step.
  destruct (w_repl w); [|by eapply local_applies].
  eapply (Propose_applies _ p ns); [done|done| |done..]. apply local_applies.
Qed.

(** ** The facade *)

(** An operation on [key] as tenant [p] cannot fail in the store. *)
Definition can (w : world) (p : Principal) (key : string) : Prop :=
  NoFaults ∧ ∃ kind ns rest, NsFromKey key = Some (kind, ns, rest) ∧ serves w p ns.

Lemma wp_shardFor (Q : err + string → world → Prop) p key w :
  (∀ e w', still w w' → ¬ can w p key → Q (inl e) w') →
  (∀ w' kind ns rest, still w w' → NsFromKey key = Some (kind, ns, rest) → serves w p ns →
    is_Some (w_shards w' !! (p, ns)) → Q (inr ns) w') →
  wp (shardFor p key) Q w.
Proof.
  intros Herr Hok. unfold shardFor, can in *. destruct (NsFromKey key) as [[[kind ns] rest]|] eqn:E.
  - wp_step. apply wp_Get.
    + intros e w' Hw Hn. apply Herr; [done|]. naive_solver.
    + intros w' Hw Hs Hsh. wp_step. by eapply Hok.
  - wp_step. apply Herr; [done|]. naive_solver.
Qed.

(** The rows after a write or a delete. *)
Definition row_put (p : Principal) (key : string) (v : option json) (w w' : world) : Prop :=
  (∀ q k, row w' q k = if decide (q = p ∧ k = key) then v else row w q k) ∧ same_rest w w'.

Lemma wrote_row p key kind ns rest f (v : option json) w w' :
  NsFromKey key = Some (kind, ns, rest) →
  (∀ t k, f t !! k = if decide (k = key) then v else t !! k) →
  wrote p ns f w w' → row_put p key v w w'.
Proof.
  intros Hk Hf [Hw Hr]. split; [|done]. intros q k. unfold row. destruct (decide (q = p ∧ k = key)) as [[-> ->]|Hne].
  - rewrite Hk, Hw, decide_True, Hf, decide_True by done. done.
  - destruct (NsFromKey k) as [[[kind' ns'] rest']|]; [|done]. rewrite Hw. case_decide as E; [|done].
    injection E as -> ->. rewrite Hf, decide_False by naive_solver. done.
Qed.

Lemma localPut_lookup key v t k : localPut key v t !! k = if decide (k = key) then Some v else t !! k.
Proof. unfold localPut. case_decide; subst; [by rewrite lookup_insert_eq|by rewrite lookup_insert_ne]. Qed.
Lemma localDel_lookup key t k : localDel key t !! k = if decide (k = key) then None else t !! k.
Proof. unfold localDel. case_decide; subst; [by rewrite lookup_delete_eq|by rewrite lookup_delete_ne]. Qed.

Lemma wp_put `{!SegmentRule} {A} `{Codec A} (Q : err + unit → world → Prop) p key (v : A) w :
  (∀ e w', still w w' → ¬ (can w p key ∧ marshal_ok v = true) → Q (inl e) w') →
  (∀ w' kind ns rest, NsFromKey key = Some (kind, ns, rest) → serves w p ns →
     wrote p ns (localPut key (to_json v)) w w' → row_put p key (Some (to_json v)) w w' → Q (inr tt) w') →
  wp (store_put p key v) Q w.
Proof.
  intros Herr Hok. unfold store_put. destruct (marshal_ok v) eqn:Em; cbn [negb].
  2: { wp_step. apply Herr; [done|]. naive_solver. }
  wp_step. apply wp_shardFor.
  - intros e w' Hw Hn. apply Herr; [done|]. naive_solver.
  - intros w1 kind ns rest St1 Hk Hs Hsh. apply Shard_Put_applies; [by eapply serves_rest; [apply St1|]|done| |].
    + intros e w2 St2 Hn. apply Herr; [by etrans|]. intros [[? _] _]. done.
    + intros w2 St2. assert (wrote p ns (localPut key (to_json v)) w w2) as Hw by (by eapply wrote_still).
      eapply Hok; [done|done|done|]. eapply wrote_row; [done| |done]. intros t k. apply localPut_lookup.
Qed.

Lemma wp_del `{!SegmentRule} (Q : err + unit → world → Prop) p key w :
  (∀ e w', still w w' → ¬ can w p key → Q (inl e) w') →
  (∀ w' kind ns rest, NsFromKey key = Some (kind, ns, rest) → serves w p ns →
     wrote p ns (localDel key) w w' → row_put p key None w w' → Q (inr tt) w') →
  wp (store_del p key) Q w.
Proof.
  intros Herr Hok. unfold store_del. wp_step. apply wp_shardFor; [done|].
  intros w1 kind ns rest St1 Hk Hs Hsh. apply Shard_Del_applies; [by eapply serves_rest; [apply St1|]|done| |].
  - intros e w2 St2 Hn. apply Herr; [by etrans|]. by intros [? _].
  - intros w2 St2. assert (wrote p ns (localDel key) w w2) as Hw by (by eapply wrote_still).
    eapply Hok; [done|done|done|]. eapply wrote_row; [done| |done]. intros t k. apply localDel_lookup.
Qed.

Lemma wp_get {A} `{Codec A} (Q : err + option A → world → Prop) p key w :
  (∀ e w', still w w' → ¬ can w p key ∨ (∃ j, row w p key = Some j ∧ of_json (A := A) j = None) → Q (inl e) w') →
  (∀ w', still w w' → row w p key = None → Q (inr None) w') →
  (∀ w' j a, still w w' → row w p key = Some j → of_json j = Some a → Q (inr (Some a)) w') →
  wp (store_get p key) Q w.
Proof.
  intros Herr Hnone Hsome. unfold store_get. wp_step. apply wp_shardFor.
  - intros e w' Hw Hn. apply Herr; [done|]. by left.
  - intros w1 kind ns rest St1 Hk Hs Hsh. wp_step. unfold Shard_Get. wp_step. apply wp_db_op.
    + intros w2 St2 Hn. apply Herr; [by etrans|]. left. by intros [? _].
    + intros w2 St2 _. wp_step.
      assert (shard_table p ns w2 !! key = row w p key) as ->.
      { unfold row. rewrite Hk. destruct St1 as [St1 _], St2 as [St2 _]. by rewrite St2, St1. }
      destruct (row w p key) as [j|] eqn:Er.
      * destruct (of_json j) as [a|] eqn:Ej; wp_step.
        -- eapply Hsome; [by etrans|done|done].
        -- apply Herr; [by etrans|]. right. eauto.
      * wp_step. apply Hnone; [by etrans|done].
Qed.

(** ** Listings *)

(** A kind whose prefixes name one namespace. *)
Definition engine_kind (kind : string) : Prop := segment kind ∧ kind ≠ "" ∧ kind ∉ CrossNamespaceKinds.

Lemma engine_plain kind : engine_kind kind → plain_kind kind.
Proof. intros (? & ? & Hc). split_and!; [done|done|]. intros ->. apply Hc. by left. Qed.

(** The prefix [<kind>/<ns>/<s>], re-read at its first separators. *)
Lemma prefix_resplit kind ns s :
  ∃ ns' s', segment ns' ∧ kind +:+ "/" +:+ ns +:+ "/" +:+ s = kind +:+ "/" +:+ ns' +:+ "/" +:+ s'.
Proof.
  destruct (cut_first "/" ns s) as (ns' & s' & _ & Hseg & E). exists ns', s'. split; [done|].
  change (String "/" s) with ("/" +:+ s) in E. change (String "/" s') with ("/" +:+ s') in E. by rewrite E.
Qed.

(** A listing of one namespace: the tenant's rows under the prefix, in order. *)
Definition listed (w : world) (p : Principal) (prefix : string) (rows : list (string * json)) : Prop :=
  ∃ kind ns s, prefix = kind +:+ "/" +:+ ns +:+ "/" +:+ s ∧ segment kind ∧ segment ns ∧ serves w p ns ∧
    rows = List prefix (shard_table p ns w).

Lemma elem_of_listed w p prefix rows k v :
  listed w p prefix rows → good_prefix prefix → (∀ kind s, prefix = kind +:+ "/" +:+ s → segment kind → plain_kind kind) →
  (k, v) ∈ rows ↔ row w p k = Some v ∧ has_prefix k prefix = true.
Proof.
  intros (kind & ns & s & E & Hk & Hns & Hs & ->) Hg Hplain.
  assert (plain_kind kind) as Hpk by (by eapply Hplain). rewrite elem_of_List by done.
  split; intros [Hr Hp]; (split; [|done]); apply has_prefix_spec in Hp as [r Hr'].
  - unfold row. subst k prefix. rewrite !sapp_assoc. rewrite NsFromKey_key; [|done|done|].
    + by rewrite !sapp_assoc in Hr.
    + by apply ValidName_not_empty, Hs.
  - unfold row in Hr. subst k prefix. rewrite !sapp_assoc in Hr |- *. rewrite NsFromKey_key in Hr; [done|done|done|].
    by apply ValidName_not_empty, Hs.
Qed.

(** A listing of [prefix] cannot fail in the store. *)
Definition can_list (w : world) (p : Principal) (prefix : string) : Prop :=
  NoFaults ∧ ∃ kind ns s, prefix = kind +:+ "/" +:+ ns +:+ "/" +:+ s ∧ segment kind ∧ segment ns ∧ serves w p ns.

Lemma resplit_inv kind ns s kind' ns' s' :
  segment kind → segment ns → segment kind' → segment ns' →
  kind +:+ "/" +:+ ns +:+ "/" +:+ s = kind' +:+ "/" +:+ ns' +:+ "/" +:+ s' → kind = kind' ∧ ns = ns'.
Proof.
  intros Hk Hn Hk' Hn' E. apply segment_inj in E as [-> E]; [|done|done].
  apply segment_inj in E as [-> _]; done.
Qed.

Lemma IsCross_plain kind ns s : engine_kind kind → segment ns →
  IsCrossNamespacePrefix (kind +:+ "/" +:+ ns +:+ "/" +:+ s) = false.
Proof.
  intros (Hk & Hke & Hkc) Hns. unfold IsCrossNamespacePrefix, str_split_n. cbv zeta.
  destruct (has_suffix_slash _); rewrite ?sapp_assoc;
    cbn [pred str_split_go]; rewrite !cut_app by done; by rewrite bool_decide_false.
Qed.

Lemma wp_scan_namespace (Q : err + list (string * json) → world → Prop) p ns prefix after limit w :
  (∀ e w', still w w' → ¬ (NoFaults ∧ serves w p ns) → Q (inl e) w') →
  (∀ w', still w w' → serves w p ns → Q (inr (Scan prefix after limit (shard_table p ns w))) w') →
  wp (Manager_Get p ns;; Shard_Scan p ns prefix after limit) Q w.
Proof.
  intros Herr Hok. wp_step. apply wp_Get; [done|]. intros w1 St1 Hs Hsh.
  unfold Shard_Scan. wp_step. apply wp_db_op.
  - intros w2 St2 Hn. apply Herr; [by etrans|]. naive_solver.
  - intros w2 St2 _. wp_step. replace (shard_table p ns w2) with (shard_table p ns w); [apply Hok; [by etrans|done]|].
    destruct St1 as [St1 _], St2 as [St2 _]. by rewrite St2, St1.
Qed.

Lemma wp_list (Q : err + list (string * json) → world → Prop) p kind ns s w :
  engine_kind kind → let prefix := kind +:+ "/" +:+ ns +:+ "/" +:+ s in
  (∀ e w', still w w' → ¬ can_list w p prefix → Q (inl e) w') →
  (∀ w' rows, still w w' → listed w p prefix rows → Q (inr rows) w') →
  wp (store_list p prefix) Q w.
Proof.
  intros Hk prefix Herr Hok. unfold store_list.
  destruct (prefix_resplit kind ns s) as (ns' & s' & Hseg & E). fold prefix in E.
  assert (¬ (NoFaults ∧ serves w p ns') → ¬ can_list w p prefix) as Hcan.
  { intros Hn (Hf & k0 & n0 & s0 & E0 & Hk0 & Hn0 & Hs0). rewrite E in E0.
    apply resplit_inv in E0 as [_ ->]; [naive_solver|apply Hk|done..]. }
  rewrite E at 1. rewrite IsCross_plain by done. rewrite E at 1. rewrite SplitPrefix_prefix by (done || apply Hk).
  destruct (String.eqb_spec ns' "") as [->|Hne].
  { wp_step. apply Herr; [done|]. apply Hcan. intros (_ & _ & Hv & _). by vm_compute in Hv. }
  apply wp_scan_namespace.
  - intros e w' St Hn. apply Herr; [done|]. by apply Hcan.
  - intros w' St Hs. apply Hok; [done|]. exists kind, ns', s'. split_and!; [done|apply Hk|done|done|done].
Qed.

Lemma wp_listInto {A} `{Codec A} (Q : err + list A → world → Prop) p kind ns s w :
  engine_kind kind → let prefix := kind +:+ "/" +:+ ns +:+ "/" +:+ s in
  (∀ e w', still w w' → ¬ can_list w p prefix ∨
     (∃ rows, listed w p prefix rows ∧ mapM (λ r, of_json (A := A) r.2) rows = None) → Q (inl e) w') →
  (∀ w' rows l, still w w' → listed w p prefix rows → mapM (λ r, of_json r.2) rows = Some l → Q (inr l) w') →
  wp (listInto A p prefix) Q w.
Proof.
  intros Hk prefix Herr Hok. unfold listInto. wp_step. apply wp_list; [done| |].
  - intros e w' St Hn. apply Herr; auto.
  - intros w' rows St Hl. destruct (mapM _ rows) as [l|] eqn:E; wp_step; [by eapply Hok|].
    apply Herr; [done|]. right. eauto.
Qed.

(** A page of one namespace. *)
Lemma wp_store_scan (Q : err + list (string * json) → world → Prop) p kind ns s after limit w :
  engine_kind kind → segment ns → ns ≠ "" → let prefix := kind +:+ "/" +:+ ns +:+ "/" +:+ s in
  (∀ e w', still w w' → ¬ (NoFaults ∧ serves w p ns) → Q (inl e) w') →
  (∀ w', still w w' → serves w p ns → Q (inr (Scan prefix after limit (shard_table p ns w))) w') →
  wp (store_scan p prefix after limit) Q w.
Proof.
  intros Hk Hns Hne prefix Herr Hok. unfold store_scan, prefix. rewrite SplitPrefix_prefix by (done || apply Hk).
  rewrite IsCross_plain by done. destruct (String.eqb_spec ns "") as [|_]; [done|]. by apply wp_scan_namespace.
Qed.

(** ** Everything else leaves the tables alone *)

Definition keeps_tables {A} (m : W A) : Prop := ∀ w, wp m (λ _ w', same_tables w w') w.

Lemma keeps_use {A} (m : W A) (Q : err + A → world → Prop) w :
  keeps_tables m → (∀ r w', same_tables w w' → Q r w') → wp m Q w.
Proof. intros Hm HQ. eapply wp_mono; [apply Hm|]. auto. Qed.

Lemma keeps_ret {A} (a : A) : keeps_tables (mret a).
Proof. by intros w. Qed.
Lemma keeps_bind {A B} (m : W A) (f : A → W B) :
  keeps_tables m → (∀ a, keeps_tables (f a)) → keeps_tables (m ≫= f).
Proof.
  intros Hm Hf w. wp_step. eapply wp_mono; [apply Hm|]. intros [e|a] w' Hw; [done|].
  eapply wp_mono; [apply Hf|]. intros r w'' Hw'. by etrans.
Qed.
Lemma keeps_gets {A} (f : world → A) : keeps_tables (gets f).
Proof. by intros w. Qed.
Lemma keeps_throw {A} e : keeps_tables (A := A) (throw e).
Proof. by intros w. Qed.
Lemma keeps_modify f : (∀ w, w_shards (f w) = w_shards w) → keeps_tables (modify f).
Proof. intros Hf w q m. unfold shard_table. by rewrite Hf. Qed.

Lemma keeps_time_now : keeps_tables time_now. Proof. by intros w. Qed.
Lemma keeps_rand : keeps_tables rand_draw. Proof. by intros w. Qed.
Lemma keeps_now : keeps_tables nowRFC3339.
Proof. apply keeps_bind; [apply keeps_time_now|intros; apply keeps_ret]. Qed.
Lemma keeps_newRunId : keeps_tables newRunId.
Proof. apply keeps_bind; [apply keeps_rand|intros; apply keeps_ret]. Qed.
Lemma keeps_publish e : keeps_tables (broker_publish e).
Proof. apply keeps_bind; [case_match; [apply keeps_now|apply keeps_ret]|intros; by apply keeps_modify]. Qed.
Lemma keeps_emit p e : keeps_tables (emit p e).
Proof. apply keeps_publish. Qed.
Lemma keeps_log l : keeps_tables (log l).
Proof. by apply keeps_modify. Qed.
Lemma keeps_enqueue p ns q wf run ty i : keeps_tables (disp_EnqueueWorkflowTask p ns q wf run ty i).
Proof. apply keeps_bind; [apply keeps_time_now|intros]. apply keeps_bind; [apply keeps_rand|intros; by apply keeps_modify]. Qed.
Lemma keeps_dispatch p ns q wf run seq aid ty i a b : keeps_tables (disp_DispatchActivity p ns q wf run seq aid ty i a b).
Proof. apply keeps_bind; [apply keeps_time_now|intros]. apply keeps_bind; [apply keeps_rand|intros; by apply keeps_modify]. Qed.
Lemma keeps_push_cancel ns q wf run r i : keeps_tables (disp_PushCancelRequest ns q wf run r i).
Proof. by apply keeps_modify. Qed.

End Facts.

#[export] Hint Resolve keeps_ret keeps_gets keeps_throw keeps_time_now keeps_rand keeps_now keeps_newRunId keeps_publish
  keeps_emit keeps_log keeps_enqueue keeps_dispatch keeps_push_cancel : tasks.
