(* ===== verification/Manager.v ===== *)
(** The shard manager over its data directory ([store/shard.go], [store/shard_db.go]): the
    cache of open shards, the files they are sealed into, the sweep that evicts and seals,
    and the walks that list tenants and namespaces. The rest of the development sees one
    table per tenant and namespace ([World.w_shards]); here that view is the contract the
    manager is shown to keep. *)

From Stdlib Require Import Ascii ZArith Lia.
From stdpp Require Import prelude strings gmap sorting.
From S2P Require Import Prelude GoStrings Json Env Principal Router Shard GoTime World WorldFacts.

Local Open Scope Z_scope.

Definition shardSuffix : string := ".db".
Definition IdleEvictAfter : Z := 10 * 60 * 1000000000.

(** The segments [hanzoai/namespace] lays its tree out with. *)
Class Layout := { orgsRoot : string; platformSlug : string; projectsDir : string }.
(** Its documented rule: the directory of the deployment is no name of an organization. *)
Class LayoutRule `{Env, Layout} : Prop := { platform_named : platformSlug ≠ ""; platform_rule : ValidName platformSlug ≠ None }.

(** ** State *)

Abbreviation shardKey := (Principal * string)%type.
Record shard := { sh_table : table; sh_last : Z }.
(** The directories that exist, and the files as they were last sealed. *)
Record manager := {
  m_shards : gmap shardKey shard;
  m_dirs : gset (list string);
  m_files : gmap (list string * string) table;
  m_closed : bool }.

Definition with_open (f : gmap shardKey shard → gmap shardKey shard) (m : manager) : manager :=
  {| m_shards := f (m_shards m); m_dirs := m_dirs m; m_files := m_files m; m_closed := m_closed m |}.

Section Manager.
Context `{Env, Layout}.
(** Whether the database writes its file at every commit (the linked codec) or only when
    it is sealed (the pure-Go envelope); which seals fail; which files do not open. *)
Context (per_commit : bool) (seal_fails open_fails : shardKey → bool).

(** ** Paths *)

(** [Principal.Namespace] and [namespace.Path], as the comment on it lists them. *)
Definition tenant_dir (p : Principal) : list string :=
  if Root p then [orgsRoot; platformSlug]
  else if String.eqb (Project p) "" then [orgsRoot; Org p]
  else [orgsRoot; Org p; projectsDir; Project p].
Definition tenantDir (p : Principal) : option (list string) := match Placeable p with None => Some (tenant_dir p) | Some _ => None end.
Definition shard_file (k : shardKey) : list string * string := (tenant_dir k.1, k.2 +:+ shardSuffix).

(** [MkdirAll]. *)
Fixpoint prefixes {A} (l : list A) : list (list A) :=
  match l with [] => [[]] | x :: l => [] :: ((x ::.) <$> prefixes l) end.
Definition mkdirs (d : list string) (dirs : gset (list string)) : gset (list string) := list_to_set (prefixes d) ∪ dirs.

(** ** Shards *)

Definition seal (k : shardKey) (t : table) (m : manager) : manager :=
  if seal_fails k then m
  else {| m_shards := m_shards m; m_dirs := m_dirs m; m_files := <[shard_file k := t]> (m_files m); m_closed := m_closed m |}.
(** A commit of the database. *)
Definition commit (k : shardKey) (s : shard) (m : manager) : manager :=
  let m := with_open (<[k := s]>) m in
  if per_commit then {| m_shards := m_shards m; m_dirs := m_dirs m; m_files := <[shard_file k := sh_table s]> (m_files m); m_closed := m_closed m |} else m.

(** [openShard]: the directory is made, the file read, the schema committed. *)
Definition openShard (now : Z) (k : shardKey) : M manager err unit := λ m,
  if open_fails k then (m, inl ErrIO)
  else let m := {| m_shards := m_shards m; m_dirs := mkdirs (tenant_dir k.1) (m_dirs m); m_files := m_files m; m_closed := m_closed m |} in
       (commit k {| sh_table := default ∅ (m_files m !! shard_file k); sh_last := now |} m, inr tt).

Definition touch (now : Z) (s : shard) : shard := {| sh_table := sh_table s; sh_last := now |}.

(** [Manager.Get], one call at a time. *)
Definition mgr_Get (now : Z) (p : Principal) (ns : string) : M manager err unit :=
  closed ← gets m_closed;
  if closed : bool then throw ErrClosed else
  match ValidName ns with Some e => throw (ErrBadName e) | None =>
  match Valid p with Some e => throw (ErrBadPrincipal e) | None =>
  match Placeable p with Some e => throw (ErrBadPrincipal e) | None =>
    s ← gets (λ m, m_shards m !! (p, ns));
    match s with
    | Some s => modify (with_open (<[(p, ns) := touch now s]>))
    | None => openShard now (p, ns)
    end
  end end end.

(** [Shard.Get], [Scan], [localPut] and [localDel] on the open shard; a shard that is not
    open any more is closed. *)
Definition mgr_read {A} (now : Z) (k : shardKey) (f : table → A) : M manager err A := λ m,
  match m_shards m !! k with
  | Some s => (with_open (<[k := touch now s]>) m, inr (f (sh_table s)))
  | None => (m, inl ErrClosed)
  end.
Definition mgr_write (now : Z) (k : shardKey) (f : table → table) : M manager err unit := λ m,
  match m_shards m !! k with
  | Some s => (commit k {| sh_table := f (sh_table s); sh_last := now |} m, inr tt)
  | None => (m, inl ErrClosed)
  end.

(** [Shard.Close], [Shard.Checkpoint]; an error of the first is dropped with the shard. *)
Definition close_shard (k : shardKey) (m : manager) : manager :=
  match m_shards m !! k with
  | Some s => with_open (delete k) (seal k (sh_table s) m)
  | None => m
  end.
Definition checkpoint (k : shardKey) (m : manager) : manager :=
  match m_shards m !! k with Some s => seal k (sh_table s) m | None => m end.

(** ** The sweep and the end *)

Definition resident (m : manager) : list shardKey := (map_to_list (m_shards m)).*1.
Definition idle (now : Z) (m : manager) (k : shardKey) : bool :=
  match m_shards m !! k with Some s => sh_last s <? now - IdleEvictAfter | None => false end.
Definition evictIdle (now : Z) (m : manager) : manager := foldl (λ m k, if idle now m k then close_shard k m else m) m (resident m).
Definition checkpointAll (m : manager) : manager := foldl (λ m k, checkpoint k m) m (resident m).
(** One tick of [gc]. *)
Definition gc_tick (now : Z) (m : manager) : manager := checkpointAll (evictIdle now m).

Definition mgr_Close (m : manager) : manager :=
  if m_closed m then m
  else let m := foldl (λ m k, close_shard k m) m (resident m) in
       {| m_shards := m_shards m; m_dirs := m_dirs m; m_files := m_files m; m_closed := true |}.
(** [New] over a directory. *)
Definition mgr_New (m : manager) : manager := {| m_shards := ∅; m_dirs := m_dirs m; m_files := m_files m; m_closed := false |}.
Definition OpenShardCount (m : manager) : nat := size (m_shards m).

(** ** Walks *)

Fixpoint has_suffix_go (suf s : string) : option string :=
  if String.eqb s suf then Some "" else match s with EmptyString => None | String c s => String c <$> has_suffix_go suf s end.
(** The name of a shard file without its suffix; a name that starts with a dash is none. *)
Definition shard_name (file : string) : option string := if has_prefix file "-" then None else has_suffix_go shardSuffix file.

Definition file_names (d : list string) (m : manager) : list string :=
  omap (λ x, if decide (x.1 = d) then Some x.2 else None) (map_to_list (m_files m)).*1.
(** The names of both, without repetition, sorted. *)
Definition mgr_shardNames (p : Principal) (m : manager) : list string :=
  let on_disk := match tenantDir p with Some d => omap shard_name (file_names d m) | None => [] end in
  let open_ := snd <$> filter (λ k, k.1 = p) (resident m) in
  merge_sort sle_rel (remove_dups (on_disk ++ open_)).
Definition holdsShard (p : Principal) (m : manager) : bool := negb (bool_decide (mgr_shardNames p m = [])).

(** The names directly under a directory, in the order of [ReadDir]. *)
Definition subdirs (d : list string) (m : manager) : list string :=
  merge_sort sle_rel (omap (λ x, match reverse x with n :: up => if decide (reverse up = d) then Some n else None | [] => None end) (elements (m_dirs m))).

Definition org_principal (org : string) : Principal := if String.eqb org platformSlug then root else {| Org := org; Project := ""; User := "" |}.
Definition mgr_ListPrincipals (m : manager) : list Principal :=
  let walked := org ← subdirs [orgsRoot] m;
    filter (λ p, holdsShard p m = true) [org_principal org] ++
    (if String.eqb org platformSlug then []
     else filter (λ p, holdsShard p m = true) ((λ proj, {| Org := org; Project := proj; User := "" |}) <$> subdirs [orgsRoot; org; projectsDir] m)) in
  merge_sort principal_le walked.

Definition mgr_ListShards (now : Z) (p : Principal) : M manager err (list string) :=
  names ← gets (mgr_shardNames p);
  for_each (mgr_Get now p) names;;
  mret names.
End Manager.
