(* ===== verification/ManagerSpec.v ===== *)
(** The shard manager keeps the contract of [World]: whatever is cached, evicted, sealed
    and reopened, every call answers what it would over one table per tenant and
    namespace, and the walks of the directory find every tenant. *)

From Stdlib Require Import Ascii ZArith Lia.
From stdpp Require Import prelude strings gmap sorting.
From S2P Require Import Prelude GoStrings Json Env Principal Router Shard GoTime World WorldFacts Manager.

Local Open Scope Z_scope.

(** ** Names of files *)

Lemma shard_name_file ns : has_prefix ns "-" = false → ns ≠ "" → shard_name (ns +:+ shardSuffix) = Some ns.
Proof.
  intros Hd Hn. unfold shard_name. assert (has_prefix (ns +:+ shardSuffix) "-" = false) as ->.
  { destruct ns as [|c ns]; [done|]. change (String c ns +:+ shardSuffix) with (String c (ns +:+ shardSuffix)).
    unfold has_prefix in *. cbn [strip_prefix] in *. by destruct (Ascii.eqb "-" c). }
  clear Hd Hn. induction ns as [|c ns IH]; [done|]. change (String c ns +:+ shardSuffix) with (String c (ns +:+ shardSuffix)). cbn [has_suffix_go].
  destruct (String.eqb_spec (String c (ns +:+ shardSuffix)) shardSuffix) as [E|_].
  { apply (f_equal String.length) in E. cbn in E. rewrite slen_app in E. cbn in E. lia. }
  by rewrite IH.
Qed.
Lemma suffix_inj a b : a +:+ shardSuffix = b +:+ shardSuffix → a = b.
Proof.
  intros E. revert b E. induction a as [|x a IH]; intros b E.
  - destruct b as [|y b]; [done|]. apply (f_equal String.length) in E. rewrite !slen_app in E. cbn in E. lia.
  - destruct b as [|y b]; [apply (f_equal String.length) in E; rewrite !slen_app in E; cbn in E; lia|].
    change (String x (a +:+ shardSuffix) = String y (b +:+ shardSuffix)) in E. injection E as -> E. f_equal. by apply IH.
Qed.

#[local] Instance principal_le_trans : Transitive principal_le.
Proof. intros p q r. unfold principal_le. apply (transitivity (R := sle_rel)). Qed.
#[local] Instance principal_le_total : Total principal_le.
Proof. intros p q. apply (total sle_rel). Qed.

Section Spec.
Context `{Env, Layout, !SegmentRule, !LayoutRule}.
Context (per_commit : bool) (seal_fails : shardKey → bool).
Abbreviation mGet := (mgr_Get per_commit (λ _, false)).
Abbreviation mWrite := (mgr_write per_commit).

(** The keys the layout has a place for; a name that starts with a dash is skipped by the
    walk of a directory. *)
Definition undashed (ns : string) : Prop := has_prefix ns "-" = false.
Definition good (k : shardKey) : Prop := Placeable k.1 = None ∧ ValidName k.2 = None ∧ undashed k.2.

Lemma placeable_legs p : Placeable p = None → Valid p = None ∧ User p = "" ∧ (Org p = "" → Project p = "").
Proof.
  unfold Placeable. destruct (Valid p) as [|] eqn:Ev; [done|]. destruct (String.eqb_spec (User p) ""); [|done]. intros _. split_and!; [done..|].
  unfold Valid in Ev. intros E. rewrite E in Ev. cbn in Ev. destruct (String.eqb_spec (Project p) ""); [done|]. by cbn in Ev.
Qed.
Lemma org_not_platform p : Placeable p = None → Org p ≠ platformSlug.
Proof.
  intros Hp E. destruct (placeable_legs p Hp) as (Hv & _ & _). pose proof (Valid_legs p Hv) as HF. unfold legs in HF.
  apply Forall_cons in HF as [Ho _]. rewrite E in Ho. destruct Ho as [Ho|Ho]; [by apply platform_named|by apply platform_rule].
Qed.

Lemma tenant_dir_inj p q : Placeable p = None → Placeable q = None → tenant_dir p = tenant_dir q → p = q.
Proof.
  intros Hp Hq. pose proof (org_not_platform p Hp). pose proof (org_not_platform q Hq).
  destruct (placeable_legs p Hp) as (_ & Up & Op). destruct (placeable_legs q Hq) as (_ & Uq & Oq).
  unfold tenant_dir, Root. destruct p as [o pr u], q as [o' pr' u']. cbn in *. subst.
  repeat case_bool_decide; repeat match goal with |- context [String.eqb ?a ""] => destruct (String.eqb_spec a "") end;
    intros E; simplify_eq/=; first [done|congruence].
Qed.
Lemma shard_file_inj k l : good k → good l → shard_file k = shard_file l → k = l.
Proof.
  destruct k as [p a], l as [q b]. intros (Hp & _) (Hq & _) [= Hd Hf]. cbn in *. f_equal; [by apply tenant_dir_inj|by apply suffix_inj].
Qed.

(** ** The view *)

(** The table of a key: the open one, or the file. *)
Definition view (m : manager) (k : shardKey) : option table :=
  match m_shards m !! k with Some s => Some (sh_table s) | None => m_files m !! shard_file k end.

Record tracks (m : manager) (w : world) : Prop := {
  tr_live : w_closed w = false ∧ m_closed m = false;
  tr_view k : good k → w_shards w !! k = view m k;
  tr_good k : is_Some (w_shards w !! k) → good k;
  tr_open k : is_Some (m_shards m !! k) → good k;
  tr_files x : is_Some (m_files m !! x) → ∃ k, good k ∧ x = shard_file k;
  tr_dirs k d : is_Some (w_shards w !! k) → d ∈ prefixes (tenant_dir k.1) → d ∈ m_dirs m;
  tr_place d : d ∈ m_dirs m → ∃ p, Placeable p = None ∧ d ∈ prefixes (tenant_dir p);
  tr_synced k s : per_commit = true → m_shards m !! k = Some s → m_files m !! shard_file k = Some (sh_table s)
}.

(** A computation of the manager and one of the store that agree. *)
Definition agree (P : manager → Prop) {A} (x : M manager err A) (y : W A) (Q : A → manager → Prop) : Prop :=
  ∀ m w, tracks m w → P m → (x m).2 = (y w).2 ∧ tracks (x m).1 (y w).1 ∧ ∀ a, (x m).2 = inr a → Q a (x m).1.

Lemma agree_bind P {A B} (x : M manager err A) (y : W A) Q (f : A → M manager err B) (g : A → W B) R :
  agree P x y Q → (∀ a, agree (Q a) (f a) (g a) R) → agree P (x ≫= f) (y ≫= g) R.
Proof.
  intros Hx Hf m w Ht Hp. destruct (Hx m w Ht Hp) as (E & Ht' & HQ). unfold mbind, M_bind.
  destruct (x m) as [m' [e|a]], (y w) as [w' [e'|a']]; cbn in *; simplify_eq.
  - split; [done|]. split; [done|]. by intros b ?.
  - apply (Hf a'); [done|]. by apply HQ.
Qed.
Lemma agree_ret P {A} (a : A) (Q : A → manager → Prop) : (∀ m, P m → Q a m) → agree P (mret a) (mret a) Q.
Proof. intros HQ m w Ht Hp. split; [done|]. split; [done|]. intros a' E. injection E as <-. by apply HQ. Qed.
Lemma agree_throw P {A} e Q : agree P (throw e : M manager err A) (throw e) Q.
Proof. intros m w Ht _. split; [done|]. split; [done|]. by intros a' E. Qed.
Lemma agree_weaken (P P' : manager → Prop) {A} (x : M manager err A) y (Q Q' : A → manager → Prop) :
  (∀ m, P' m → P m) → (∀ a m, Q a m → Q' a m) → agree P x y Q → agree P' x y Q'.
Proof. intros HP HQ Hx m w Ht Hp. destruct (Hx m w Ht (HP m Hp)) as (? & ? & ?). eauto. Qed.

Definition open_at (k : shardKey) (m : manager) : Prop := is_Some (m_shards m !! k).

(** Touching an open shard shows nothing. *)
Lemma tracks_touch m w k s now : tracks m w → m_shards m !! k = Some s → tracks (with_open (<[k := touch now s]>) m) w.
Proof.
  intros [C V G O F D L S] Hk. constructor; cbn; try done.
  - intros l Hl. rewrite V by done. unfold view. cbn. destruct (decide (k = l)) as [<-|?]; [by rewrite lookup_insert_eq, Hk|by rewrite lookup_insert_ne].
  - intros l. destruct (decide (k = l)) as [<-|?]; [intros _; apply O; by exists s|rewrite lookup_insert_ne by done; apply O].
  - intros l s' Hc. destruct (decide (k = l)) as [<-|?]; [rewrite lookup_insert_eq; intros [= <-]; exact (S k s Hc Hk)|rewrite lookup_insert_ne by done; by apply S].
Qed.

(** A commit changes the table of its key and no other. *)
Lemma tracks_commit m w w' k s :
  tracks m w → good k → w_closed w' = w_closed w → w_shards w' = <[k := sh_table s]> (w_shards w) →
  (∀ d, d ∈ prefixes (tenant_dir k.1) → d ∈ m_dirs m) → tracks (commit per_commit k s m) w'.
Proof.
  intros [C V G O F D L S] Hk Ec Es Hd.
  assert (∀ l, good l → view (commit per_commit k s m) l = if decide (k = l) then Some (sh_table s) else view m l) as Hv.
  { intros l Hl. unfold view, commit. destruct (decide (k = l)) as [<-|Hne]; destruct per_commit; cbn; rewrite ?lookup_insert_eq, ?lookup_insert_ne by done; try done.
    rewrite lookup_insert_ne; [done|]. intros E. by apply shard_file_inj in E. }
  assert (m_closed (commit per_commit k s m) = m_closed m ∧ m_dirs (commit per_commit k s m) = m_dirs m ∧
          m_shards (commit per_commit k s m) = <[k := s]> (m_shards m)) as (E1 & E2 & E3) by (unfold commit; by destruct per_commit).
  constructor.
  - by rewrite E1, Ec.
  - intros l Hl. rewrite Hv, Es by done. destruct (decide (k = l)) as [<-|?]; [by rewrite lookup_insert_eq|]. rewrite lookup_insert_ne by done. by apply V.
  - intros l. rewrite Es. destruct (decide (k = l)) as [<-|?]; [done|]. rewrite lookup_insert_ne by done. apply G.
  - intros l. rewrite E3. destruct (decide (k = l)) as [<-|?]; [done|]. rewrite lookup_insert_ne by done. apply O.
  - intros x. unfold commit. destruct per_commit; cbn; [|apply F]. destruct (decide (shard_file k = x)) as [<-|?]; [by exists k|].
    rewrite lookup_insert_ne by done. apply F.
  - intros l d. rewrite Es, E2. destruct (decide (k = l)) as [<-|?]; [auto|]. rewrite lookup_insert_ne by done. apply D.
  - intros d. rewrite E2. apply L.
  - intros l s' Hc. rewrite E3. unfold commit. rewrite Hc. cbn. destruct (decide (k = l)) as [<-|?].
    + rewrite !lookup_insert_eq. by intros [= <-].
    + rewrite lookup_insert_ne by done. intros Hs. rewrite lookup_insert_ne; [by apply S|]. intros E. apply shard_file_inj in E; [done..|]. apply O. by exists s'.
Qed.

Lemma tracks_same m w w' : w_closed w' = w_closed w → w_shards w' = w_shards w → tracks m w → tracks m w'.
Proof. intros Ec Es [C V G O F D L S]. constructor; rewrite ?Ec, ?Es; done. Qed.

Definition with_dirs (f : gset (list string) → gset (list string)) (m : manager) : manager :=
  {| m_shards := m_shards m; m_dirs := f (m_dirs m); m_files := m_files m; m_closed := m_closed m |}.
Lemma tracks_mkdirs m w p : Placeable p = None → tracks m w → tracks (with_dirs (mkdirs (tenant_dir p)) m) w.
Proof.
  intros Hp [C V G O F D L S]. constructor; cbn; try done.
  - intros k d Hk Hd. unfold mkdirs. apply elem_of_union. right. by apply (D k).
  - intros d. unfold mkdirs. rewrite elem_of_union, elem_of_list_to_set. intros [Hd|Hd]; [by exists p|by apply L].
Qed.
Lemma mkdirs_there d dirs x : x ∈ prefixes d → x ∈ mkdirs d dirs.
Proof. intros Hx. unfold mkdirs. apply elem_of_union. left. by apply elem_of_list_to_set. Qed.

Section Quiet.
Context `{!NoFaults}.

Lemma db_op_quiet w : ∃ w', db_op w = (w', inr tt) ∧ w_closed w' = w_closed w ∧ w_shards w' = w_shards w.
Proof. unfold db_op. rewrite (no_faults (w_ops w)). by eexists. Qed.

Lemma open_agree now p ns m w :
  tracks m w → good (p, ns) → m_shards m !! (p, ns) = None →
  let '(m', r) := openShard per_commit (λ _, false) now (p, ns) m in
  let '(w', r') := (there ← gets (has_shard p ns); if there : bool then mret tt else db_op;; modify (with_shards (<[(p, ns) := ∅]>))) w in
  r = r' ∧ r = inr tt ∧ tracks m' w' ∧ open_at (p, ns) m'.
Proof.
  intros Ht Hg Hn. unfold openShard. fold (with_dirs (mkdirs (tenant_dir (p, ns).1)) m). cbn [m_files with_dirs fst].
  pose proof (tracks_mkdirs m w p (proj1 Hg) Ht) as Ht'. pose proof (tr_view _ _ Ht (p, ns) Hg) as Hv. unfold view in Hv. rewrite Hn in Hv.
  assert (∀ s m, open_at (p, ns) (commit per_commit (p, ns) s m)) as Ho by (intros; unfold open_at, commit; destruct per_commit; cbn; by rewrite lookup_insert_eq).
  unfold mbind, M_bind, gets, has_shard. rewrite Hv. destruct (m_files m !! shard_file (p, ns)) as [t|]; cbn [default].
  - rewrite bool_decide_true by done. split_and!; [done..| |done]. eapply (tracks_commit _ w); [done..| |].
    + cbn. by rewrite insert_id.
    + intros d Hd. by apply mkdirs_there.
  - rewrite bool_decide_false by (by intros []). destruct (db_op_quiet w) as (w1 & -> & Ec & Es). split_and!; [done..| |done].
    eapply (tracks_commit _ w); [done..|by cbn; rewrite Es|]. intros d Hd. by apply mkdirs_there.
Qed.

Lemma get_agree now p ns : undashed ns → agree (λ _, True) (mGet now p ns) (Manager_Get p ns) (λ _, open_at (p, ns)).
Proof.
  intros Hd m w Ht _. unfold mgr_Get, Manager_Get, lift_name, lift_principal.
  assert (∀ e : err, @inl err unit e = inl e ∧ tracks m w ∧ ∀ a, @inl err unit e = inr a → open_at (p, ns) m) as Herr by done.
  cbv [mbind M_bind gets throw]. destruct (tr_live _ _ Ht) as [-> ->].
  destruct (ValidName ns) as [e|] eqn:En; [apply Herr|]. cbv [mret M_ret]. destruct (Valid p) as [e|] eqn:Ev; [apply Herr|].
  destruct (Placeable p) as [e|] eqn:Ep; [apply Herr|]. assert (good (p, ns)) as Hg by done.
  destruct (m_shards m !! (p, ns)) as [s|] eqn:Es.
  - assert (has_shard p ns w = true) as ->.
    { unfold has_shard. rewrite (tr_view _ _ Ht) by done. unfold view. rewrite Es. by apply bool_decide_eq_true. }
    split; [done|]. split; [by apply tracks_touch|]. intros _ _. unfold open_at. cbn. by rewrite lookup_insert_eq.
  - pose proof (open_agree now p ns m w Ht Hg Es) as Ho. cbv [mbind M_bind gets mret M_ret] in Ho.
    destruct (openShard per_commit (λ _, false) now (p, ns) m) as [m1 r]. revert Ho. case_match. intros (-> & -> & ? & ?). done.
Qed.

Lemma view_open m w k s : tracks m w → m_shards m !! k = Some s → good k ∧ w_shards w !! k = Some (sh_table s).
Proof.
  intros Ht Hs. assert (good k) as Hg by (apply (tr_open _ _ Ht); by exists s). split; [done|]. rewrite (tr_view _ _ Ht) by done.
  unfold view. by rewrite Hs.
Qed.
Lemma read_agree {A} now p ns (f : table → A) Q :
  (∀ a m, Q a m) → agree (open_at (p, ns)) (mgr_read now (p, ns) f) (db_op;; gets (λ w, f (shard_table p ns w))) Q.
Proof.
  intros HQ m w Ht [s Hs]. destruct (view_open _ _ _ _ Ht Hs) as [Hg Hw]. unfold mgr_read. rewrite Hs. cbv [mbind M_bind gets].
  destruct (db_op_quiet w) as (w1 & -> & Ec & Es). cbn [fst snd]. unfold shard_table. rewrite Es, Hw. split; [done|]. split; [|auto].
  apply tracks_touch; [|done]. by apply (tracks_same _ w).
Qed.
Lemma write_agree now p ns (f : table → table) Q :
  (∀ a m, Q a m) → agree (open_at (p, ns)) (mWrite now (p, ns) f) (db_op;; modify (with_shards (alter f (p, ns)))) Q.
Proof.
  intros HQ m w Ht [s Hs]. destruct (view_open _ _ _ _ Ht Hs) as [Hg Hw]. unfold mgr_write. rewrite Hs. cbv [mbind M_bind modify].
  destruct (db_op_quiet w) as (w1 & -> & Ec & Es). cbn [fst snd]. split; [done|]. split; [|auto].
  apply (tracks_commit _ w); [done..| |].
  - cbn [w_shards with_shards sh_table]. rewrite Es. apply map_eq. intros l. destruct (decide ((p, ns) = l)) as [<-|?].
    + by rewrite lookup_alter_eq, lookup_insert_eq, Hw.
    + by rewrite lookup_alter_ne, lookup_insert_ne.
  - intros d. apply (tr_dirs _ _ Ht). by exists (sh_table s).
Qed.

(** ** Walks *)

Lemma elem_of_keys {K V} `{Countable K} (m : gmap K V) k : k ∈ (map_to_list m).*1 ↔ is_Some (m !! k).
Proof.
  rewrite list_elem_of_fmap. split.
  - intros ([k' v] & -> & Hin%elem_of_map_to_list). by exists v.
  - intros [v Hv]. exists (k, v). by rewrite elem_of_map_to_list.
Qed.

(** The names a tenant holds are those of the store. *)
Lemma elem_of_names m w p ns : tracks m w → ns ∈ mgr_shardNames p m ↔ is_Some (w_shards w !! (p, ns)).
Proof.
  intros Ht. unfold mgr_shardNames. rewrite merge_sort_Permutation, elem_of_remove_dups, elem_of_app, list_elem_of_fmap.
  unfold tenantDir, resident, file_names. split.
  - intros [Hin|([q n] & -> & [Hq Hin]%list_elem_of_filter)].
    + destruct (Placeable p) as [|] eqn:Ep; [by apply not_elem_of_nil in Hin|].
      apply list_elem_of_omap in Hin as (file & Hin & Hn). apply list_elem_of_omap in Hin as ([d x] & Hin & Hx). case_decide; [|done]. simplify_eq/=.
      apply elem_of_keys in Hin. destruct (tr_files _ _ Ht _ Hin) as ([q n] & Hg & E). destruct Hg as (Hq & Hv & Hd). unfold shard_file in E. cbn in *.
      injection E as Ed ->. rewrite shard_name_file in Hn by (done || by apply ValidName_not_empty). injection Hn as <-.
      apply tenant_dir_inj in Ed as ->; [|done..]. rewrite (tr_view _ _ Ht) by done. unfold view. by case_match.
    + cbn in *. subst q. apply elem_of_keys in Hin as [s Hs]. destruct (view_open _ _ _ _ Ht Hs) as [_ ->]. by exists (sh_table s).
  - intros Hs. destruct (tr_good _ _ Ht _ Hs) as (Hp & Hv & Hd). cbn in *. rewrite (tr_view _ _ Ht) in Hs by done. unfold view in Hs. rewrite Hp.
    destruct (m_shards m !! (p, ns)) as [s|] eqn:Es.
    + right. exists (p, ns). split; [done|]. apply list_elem_of_filter. split; [done|]. apply elem_of_keys. by exists s.
    + left. apply list_elem_of_omap. exists (ns +:+ shardSuffix). split; [|by apply shard_name_file; [|apply ValidName_not_empty]].
      apply list_elem_of_omap. exists (shard_file (p, ns)). split; [by apply elem_of_keys|]. cbn. by rewrite decide_True.
Qed.

Lemma same_elements {A} (R : relation A) `{!RelDecision R, !Transitive R, !Total R} (l k : list A) :
  (∀ x y, x ∈ l → y ∈ l → R x y → R y x → x = y) → NoDup l → NoDup k → (∀ x, x ∈ l ↔ x ∈ k) → merge_sort R l = merge_sort R k.
Proof.
  intros Ha Hl Hk Hlk. apply (StronglySorted_unique_strong R).
  - intros x y. rewrite !merge_sort_Permutation. intros Hx Hy%Hlk. by apply Ha.
  - apply (StronglySorted_merge_sort R l).
  - apply (StronglySorted_merge_sort R k).
  - rewrite !merge_sort_Permutation. by apply NoDup_Permutation.
Qed.
Lemma names_agree m w p : tracks m w → mgr_shardNames p m = shardNames p w.
Proof.
  intros Ht. unfold shardNames, insert_sorted.
  assert (NoDup (snd <$> filter (λ k, k.1 = p) (map_to_list (w_shards w)).*1)) as Hn.
  { apply NoDup_fmap_2_strong; [|apply NoDup_filter, NoDup_fst_map_to_list].
    intros [q a] [q' b] [Hq _]%list_elem_of_filter [Hq' _]%list_elem_of_filter. cbn in *. congruence. }
  assert (∀ ns, ns ∈ mgr_shardNames p m ↔ ns ∈ snd <$> filter (λ k, k.1 = p) (map_to_list (w_shards w)).*1) as He.
  { intros ns. rewrite (elem_of_names m w p ns Ht), list_elem_of_fmap. split.
    - intros Hs. exists (p, ns). split; [done|]. apply list_elem_of_filter. split; [done|]. by apply elem_of_keys.
    - intros ([q n] & -> & [Hq Hin%elem_of_keys]%list_elem_of_filter). cbn in *. by subst. }
  unfold mgr_shardNames in *. cbv zeta in *. refine (same_elements sle_rel _ _ _ (NoDup_remove_dups _) Hn _).
  - intros x y _ _. apply (anti_symm sle_rel).
  - intros x. by rewrite <-He, merge_sort_Permutation.
Qed.

Lemma for_each_agree {A} (f : A → M manager err unit) g l :
  (∀ x, x ∈ l → agree (λ _, True) (f x) (g x) (λ _ _, True)) → agree (λ _, True) (for_each f l) (for_each g l) (λ _ _, True).
Proof.
  induction l as [|x l IH]; intros Hf; [by apply agree_ret|]. cbn [for_each]. eapply agree_bind; [apply Hf; by left|]. intros u. cbn beta. apply IH. intros y Hy.
  apply Hf. by right.
Qed.
Lemma shards_agree now p : agree (λ _, True) (mgr_ListShards per_commit (λ _, false) now p) (ListShards p) (λ _ _, True).
Proof.
  intros m w Ht _. change (mgr_ListShards per_commit (λ _, false) now p m) with ((for_each (mGet now p) (mgr_shardNames p m);; mret (mgr_shardNames p m)) m).
  change (ListShards p w) with ((for_each (Manager_Get p) (shardNames p w);; mret (shardNames p w)) w). rewrite (names_agree m w p Ht).
  refine (agree_bind (λ _, True) _ _ (λ _ _, True) _ _ (λ _ _, True) _ _ m w Ht I); [|intros; by apply agree_ret]. apply for_each_agree. intros ns Hns.
  apply (agree_weaken (λ _, True) _ _ _ (λ _, open_at (p, ns)) _); [done..|]. apply get_agree.
  rewrite <-(names_agree m w p Ht) in Hns. apply (elem_of_names m w p ns Ht) in Hns. by apply (tr_good _ _ Ht) in Hns as (_ & _ & ?).
Qed.

Lemma holds_spec m w p : tracks m w → holdsShard p m = true ↔ ∃ ns, is_Some (w_shards w !! (p, ns)).
Proof.
  intros Ht. unfold holdsShard. rewrite negb_true_iff, bool_decide_eq_false. setoid_rewrite <-(elem_of_names m w p _ Ht).
  destruct (mgr_shardNames p m) as [|n l]; split; [done|intros [ns Hns]; by apply not_elem_of_nil in Hns| |done]. intros _. exists n. by left.
Qed.

Lemma NoDup_omap {A B} (f : A → option B) l : (∀ x y b, f x = Some b → f y = Some b → x = y) → NoDup l → NoDup (omap f l).
Proof.
  intros Hf. induction 1 as [|x l Hx Hl IH]; [constructor|]. cbn. destruct (f x) as [b|] eqn:E; [|done]. constructor; [|done].
  intros (y & Hy & Ey)%list_elem_of_omap. apply Hx. by rewrite (Hf x y b E Ey).
Qed.
Lemma elem_of_subdirs d m n : n ∈ subdirs d m ↔ d ++ [n] ∈ m_dirs m.
Proof.
  unfold subdirs. rewrite merge_sort_Permutation, list_elem_of_omap. split.
  - intros (x & Hx%elem_of_elements & E). destruct (reverse x) as [|y up] eqn:Er; [done|]. case_decide as Hd; [|done]. injection E as <-.
    apply (f_equal reverse) in Er. rewrite reverse_involutive, reverse_cons, Hd in Er. by rewrite <-Er.
  - intros Hin. exists (d ++ [n]). split; [by apply elem_of_elements|]. rewrite reverse_app. cbn. by rewrite decide_True by apply reverse_involutive.
Qed.
Lemma NoDup_subdirs d m : NoDup (subdirs d m).
Proof.
  unfold subdirs. rewrite merge_sort_Permutation. apply NoDup_omap; [|apply NoDup_elements].
  intros x y n Ex Ey. destruct (reverse x) as [|a up] eqn:Er; [done|]. destruct (reverse y) as [|b uq] eqn:Es; [done|].
  repeat case_decide; simplify_eq. apply (inj reverse). rewrite Er, Es. f_equal.
Qed.

(** The directories that exist name organizations and projects. *)
Lemma org_dir m w org : tracks m w → org ∈ subdirs [orgsRoot] m → org = platformSlug ∨ org ≠ "" ∧ org ≠ platformSlug.
Proof.
  intros Ht Hin%elem_of_subdirs. destruct (tr_place _ _ Ht _ Hin) as (p & Hp & Hd). pose proof (org_not_platform p Hp).
  unfold tenant_dir, Root in Hd. destruct (placeable_legs p Hp) as (_ & Hu & Hop).
  case_bool_decide as Er; [left; cbn in Hd; set_solver|]. right. assert (org = Org p) as -> by (destruct (String.eqb (Project p) ""); cbn in Hd; set_solver).
  split; [|done]. intros Ho. apply Er. destruct p as [o pr u]. cbn in *. subst. by rewrite Hop.
Qed.
Lemma project_dir m w org proj : tracks m w → proj ∈ subdirs [orgsRoot; org; projectsDir] m → proj ≠ "".
Proof.
  intros Ht Hin%elem_of_subdirs. destruct (tr_place _ _ Ht _ Hin) as (p & Hp & Hd). unfold tenant_dir in Hd.
  case_match; [cbn in Hd; set_solver|]. destruct (String.eqb_spec (Project p) ""); [cbn in Hd; set_solver|].
  assert (proj = Project p) as -> by (cbn in Hd; set_solver). done.
Qed.

Definition in_org (m : manager) (org : string) : list Principal :=
  filter (λ p, holdsShard p m = true) [org_principal org] ++
  (if String.eqb org platformSlug then []
   else filter (λ p, holdsShard p m = true) ((λ proj, {| Org := org; Project := proj; User := "" |}) <$> subdirs [orgsRoot; org; projectsDir] m)).
Lemma elem_of_in_org m org p :
  p ∈ in_org m org ↔ holdsShard p m = true ∧
    (p = org_principal org ∨ org ≠ platformSlug ∧ ∃ proj, p = {| Org := org; Project := proj; User := "" |} ∧ proj ∈ subdirs [orgsRoot; org; projectsDir] m).
Proof.
  unfold in_org. rewrite elem_of_app, list_elem_of_filter, list_elem_of_singleton.
  destruct (String.eqb_spec org platformSlug); [rewrite elem_of_nil; naive_solver|]. rewrite list_elem_of_filter, list_elem_of_fmap. naive_solver.
Qed.

Lemma walked_elements m w p : tracks m w →
  p ∈ subdirs [orgsRoot] m ≫= in_org m ↔ ∃ ns, is_Some (w_shards w !! (p, ns)).
Proof.
  intros Ht. rewrite list_elem_of_bind. split.
  - intros (org & [Hh _]%elem_of_in_org & _). by apply (holds_spec m w p Ht).
  - intros [ns Hs]. destruct (tr_good _ _ Ht _ Hs) as (Hp & _ & _). cbn in Hp. pose proof (org_not_platform p Hp) as Hnp.
    destruct (placeable_legs p Hp) as (_ & Hu & Hop). pose proof (λ d, tr_dirs _ _ Ht _ d Hs) as Hd. cbn [fst] in Hd. unfold tenant_dir, Root in Hd.
    assert (holdsShard p m = true) as Hh by (apply (holds_spec m w p Ht); by exists ns).
    case_bool_decide as Er.
    + exists platformSlug. rewrite elem_of_in_org, elem_of_subdirs. split; [|apply Hd; cbn; set_solver]. split; [done|]. left. unfold org_principal. by rewrite String.eqb_refl.
    + exists (Org p). rewrite elem_of_in_org, elem_of_subdirs. split; [|apply Hd; destruct (String.eqb (Project p) ""); cbn; set_solver].
      split; [done|]. unfold org_principal. rewrite (proj2 (String.eqb_neq _ _)) by done. destruct p as [o pr u]. cbn in *. subst u.
      destruct (String.eqb_spec pr "") as [->|]; [by left|]. right. split; [done|]. exists pr. split; [done|]. apply elem_of_subdirs, Hd. cbn. set_solver.
Qed.
Lemma walked_once m w : tracks m w → NoDup (subdirs [orgsRoot] m ≫= in_org m).
Proof.
  intros Ht. apply NoDup_bind; [| |apply NoDup_subdirs].
  - intros o o' p Ho Ho' [_ A1]%elem_of_in_org [_ A2]%elem_of_in_org. pose proof (org_dir m w o Ht Ho) as K1. pose proof (org_dir m w o' Ht Ho') as K2.
    unfold org_principal, root in *. destruct (String.eqb_spec o platformSlug), (String.eqb_spec o' platformSlug); naive_solver.
  - intros o Ho. unfold in_org. apply NoDup_app. split; [apply NoDup_filter, NoDup_singleton|]. split.
    + intros p [_ ->%list_elem_of_singleton]%list_elem_of_filter. destruct (String.eqb_spec o platformSlug); [by apply not_elem_of_nil|].
      intros [_ (proj & E & Hin)%list_elem_of_fmap]%list_elem_of_filter. apply (project_dir m w _ _ Ht) in Hin.
      unfold org_principal in E. rewrite (proj2 (String.eqb_neq _ _)) in E by done. by injection E as <-.
    + destruct (String.eqb o platformSlug); [constructor|]. apply NoDup_filter, NoDup_fmap_2_strong; [|apply NoDup_subdirs]. by intros x y _ _ [= ->].
Qed.
Lemma principals_agree m w : tracks m w → mgr_ListPrincipals m = merge_sort principal_le (remove_dups (fst <$> (map_to_list (w_shards w)).*1)).
Proof.
  intros Ht. unfold mgr_ListPrincipals. cbv zeta. fold (in_org m).
  refine (same_elements principal_le _ _ _ (walked_once m w Ht) (NoDup_remove_dups _) _).
  - intros p q Hp Hq Hpq Hqp. apply (walked_elements m w p Ht) in Hp as [? Hp]. apply (walked_elements m w q Ht) in Hq as [? Hq].
    apply (tr_good _ _ Ht) in Hp as (Hp & _), Hq as (Hq & _). apply placeable_legs in Hp as (Hp & _), Hq as (Hq & _).
    cbn [fst] in *. apply parse_string in Hp, Hq. unfold principal_le in *. assert (Principal_String p = Principal_String q) as E by (by apply (anti_symm sle_rel)).
    rewrite E in Hp. congruence.
  - intros p. rewrite (walked_elements m w p Ht), elem_of_remove_dups, list_elem_of_fmap. split.
    + intros [ns Hs]. exists (p, ns). split; [done|]. by apply elem_of_keys.
    + intros ([q ns] & -> & Hin%elem_of_keys). by exists ns.
Qed.

(** ** The sweep *)

(** What is lost with a seal that fails is in the file already, or no seal fails. *)
Context (Hseal : per_commit = true ∨ ∀ k, seal_fails k = false).

Lemma tracks_file m w k s :
  tracks m w → m_shards m !! k = Some s →
  tracks {| m_shards := m_shards m; m_dirs := m_dirs m; m_files := <[shard_file k := sh_table s]> (m_files m); m_closed := m_closed m |} w.
Proof.
  intros Ht Hs. destruct (view_open _ _ _ _ Ht Hs) as [Hg _]. destruct Ht as [C V G O F D L S]. constructor; cbn; try done.
  - intros l Hl. rewrite V by done. unfold view. cbn. destruct (m_shards m !! l) eqn:El; [done|].
    rewrite lookup_insert_ne; [done|]. intros E. apply shard_file_inj in E as <-; [by rewrite Hs in El|done..].
  - intros x. destruct (decide (shard_file k = x)) as [<-|?]; [by exists k|]. rewrite lookup_insert_ne by done. apply F.
  - intros l t Hc Hl. destruct (decide (shard_file k = shard_file l)) as [E|?]; [|rewrite lookup_insert_ne by done; by apply S].
    rewrite E, lookup_insert_eq. apply shard_file_inj in E as <-; [by rewrite Hs in Hl; simplify_eq|done|apply O; by exists t].
Qed.
Lemma tracks_seal m w k s : tracks m w → m_shards m !! k = Some s → tracks (seal seal_fails k (sh_table s) m) w.
Proof. intros Ht Hs. unfold seal. case_match; [done|]. by apply tracks_file. Qed.

(** Closing a shard shows nothing. *)
Lemma tracks_close m w k : tracks m w → tracks (close_shard seal_fails k m) w.
Proof.
  intros Ht. unfold close_shard. destruct (m_shards m !! k) as [s|] eqn:Hs; [|done]. destruct (view_open _ _ _ _ Ht Hs) as [Hg Hw].
  pose proof (tracks_seal m w k s Ht Hs) as Ht'.
  assert (m_files (seal seal_fails k (sh_table s) m) !! shard_file k = Some (sh_table s)) as Hf.
  { unfold seal. destruct (seal_fails k) eqn:E; cbn; [|by rewrite lookup_insert_eq]. destruct Hseal as [Hc|Hc]; [|by rewrite Hc in E]. by apply (tr_synced _ _ Ht). }
  destruct Ht' as [C V G O F D L S]. constructor; cbn; try done.
  - intros l Hl. rewrite V by done. unfold view. cbn. destruct (decide (k = l)) as [<-|?]; [|by rewrite lookup_delete_ne].
    rewrite lookup_delete_eq, Hf.
    assert (m_shards (seal seal_fails k (sh_table s) m) = m_shards m) as -> by (unfold seal; by destruct (seal_fails k)). by rewrite Hs.
  - intros l [t [_ Hl]%lookup_delete_Some]. apply O. by exists t.
  - intros l t Hc [_ Hl]%lookup_delete_Some. by apply S.
Qed.
Lemma tracks_foldl (f : manager → shardKey → manager) l m w : (∀ m k, tracks m w → tracks (f m k) w) → tracks m w → tracks (foldl f m l) w.
Proof. intros Hf. revert m. induction l as [|k l IH]; intros m Ht; cbn [foldl]; auto. Qed.
Lemma tracks_tick now m w : tracks m w → tracks (gc_tick seal_fails now m) w.
Proof.
  intros Ht. unfold gc_tick, checkpointAll, evictIdle. apply tracks_foldl.
  - intros m' k Ht'. unfold checkpoint. destruct (m_shards m' !! k) eqn:E; [by apply tracks_seal|done].
  - apply tracks_foldl; [|done]. intros m' k Ht'. case_match; [by apply tracks_close|done].
Qed.

(** A restart over the directory: closing seals every shard. *)
Lemma tracks_restart m w : tracks m w → tracks (mgr_New (mgr_Close seal_fails m)) w.
Proof.
  intros Ht. destruct (tr_live _ _ Ht) as [Hw Hc]. unfold mgr_Close. rewrite Hc. set (m' := foldl _ m (resident m)).
  assert (tracks m' w) as Ht' by (apply tracks_foldl; [intros; by apply tracks_close|done]).
  assert (m_shards m' = ∅) as He.
  { assert (∀ l m, (∀ k, is_Some (m_shards m !! k) → k ∈ l) → m_shards (foldl (λ m k, close_shard seal_fails k m) m l) = ∅) as Hl.
    { induction l as [|k l IH]; intros m1 Hk; cbn [foldl].
      - apply map_empty. intros k. apply eq_None_not_Some. intros Hs%Hk. by apply not_elem_of_nil in Hs.
      - apply IH. intros k' Hk'. unfold close_shard in Hk'. destruct (m_shards m1 !! k) as [s|] eqn:E.
        + assert (k' ≠ k ∧ is_Some (m_shards m1 !! k')) as [? Hs].
          { cbn in Hk'. assert (m_shards (seal seal_fails k (sh_table s) m1) = m_shards m1) as Es by (unfold seal; by destruct (seal_fails k)).
            rewrite Es in Hk'. destruct (decide (k = k')) as [->|]; [|rewrite lookup_delete_ne in Hk' by done; done].
            rewrite lookup_delete_eq in Hk'. by destruct Hk'. }
          apply Hk, elem_of_cons in Hs as [->|]; done.
        + assert (k' ≠ k) by (intros ->; rewrite E in Hk'; by destruct Hk'). apply Hk, elem_of_cons in Hk' as [->|]; done. }
    apply Hl. intros k. unfold resident. by rewrite elem_of_keys. }
  destruct Ht' as [C V G O F D L S]. constructor; cbn; try done.
  - intros k Hk. rewrite V by done. unfold view. cbn. by rewrite He, !lookup_empty.
  - intros k. rewrite lookup_empty. by intros [].
Qed.

(** ** Sequences of calls *)

Inductive mop :=
| MOpen (p : Principal) (ns : string)
| MRead (p : Principal) (ns key : string)
| MScan (p : Principal) (ns prefix after : string) (limit : Z)
| MPut (p : Principal) (ns key : string) (v : json)
| MDel (p : Principal) (ns key : string)
| MShards (p : Principal)
| MTenants
| MTick
| MRestart.
Inductive mans := ADone | AValue (v : option json) | ARows (l : list (string * json)) | ANames (l : list string) | ATenants (l : list Principal).

(** A call at an instant, on the manager. *)
Definition mgr_step (now : Z) (o : mop) : M manager err mans :=
  match o with
  | MOpen p ns => mGet now p ns;; mret ADone
  | MRead p ns key => mGet now p ns;; v ← mgr_read now (p, ns) (λ t, t !! key); mret (AValue v)
  | MScan p ns prefix after limit => mGet now p ns;; l ← mgr_read now (p, ns) (Scan prefix after limit); mret (ARows l)
  | MPut p ns key v => mGet now p ns;; mWrite now (p, ns) (localPut key v);; mret ADone
  | MDel p ns key => mGet now p ns;; mWrite now (p, ns) (localDel key);; mret ADone
  | MShards p => l ← mgr_ListShards per_commit (λ _, false) now p; mret (ANames l)
  | MTenants => l ← gets mgr_ListPrincipals; mret (ATenants l)
  | MTick => modify (gc_tick seal_fails now);; mret ADone
  | MRestart => modify (λ m, mgr_New (mgr_Close seal_fails m));; mret ADone
  end.
(** The same call on the store the engine is proved against; a sweep and a restart are
    nothing to it. *)
Definition store_step (o : mop) : W mans :=
  match o with
  | MOpen p ns => Manager_Get p ns;; mret ADone
  | MRead p ns key => Manager_Get p ns;; v ← Shard_Get p ns key; mret (AValue v)
  | MScan p ns prefix after limit => Manager_Get p ns;; l ← Shard_Scan p ns prefix after limit; mret (ARows l)
  | MPut p ns key v => Manager_Get p ns;; shard_localPut p ns key v;; mret ADone
  | MDel p ns key => Manager_Get p ns;; shard_localDel p ns key;; mret ADone
  | MShards p => l ← ListShards p; mret (ANames l)
  | MTenants => l ← ListPrincipals; mret (ATenants l)
  | MTick | MRestart => mret ADone
  end.
Definition plain_names (o : mop) : Prop :=
  match o with
  | MOpen _ ns | MRead _ ns _ | MScan _ ns _ _ _ | MPut _ ns _ _ | MDel _ ns _ => undashed ns
  | _ => True
  end.

Fixpoint mgr_run (l : list (Z * mop)) (m : manager) : list (err + mans) :=
  match l with [] => [] | (now, o) :: l => let '(m', r) := mgr_step now o m in r :: mgr_run l m' end.
Fixpoint store_run (l : list mop) (w : world) : list (err + mans) :=
  match l with [] => [] | o :: l => let '(w', r) := store_step o w in r :: store_run l w' end.
Definition fresh_manager : manager := {| m_shards := ∅; m_dirs := ∅; m_files := ∅; m_closed := false |}.

Lemma after_get {A} now p ns (x : M manager err A) y : undashed ns →
  agree (open_at (p, ns)) x y (λ _ _, True) → agree (λ _, True) (mGet now p ns;; x) (Manager_Get p ns;; y) (λ _ _, True).
Proof. intros Hn Hx. eapply agree_bind; [by apply get_agree|]. by intros u. Qed.
Lemma then_ret {P A B} (x : M manager err A) y (f : A → B) :
  agree P x y (λ _ _, True) → agree P (a ← x; mret (f a)) (a ← y; mret (f a)) (λ _ _, True).
Proof. intros Hx. eapply agree_bind; [exact Hx|]. intros a. by apply agree_ret. Qed.

Lemma step_agree now o : plain_names o → agree (λ _, True) (mgr_step now o) (store_step o) (λ _ _, True).
Proof.
  destruct o; cbn [plain_names mgr_step store_step]; intros Hn; try (apply after_get; [done|]); try apply then_ret.
  - by apply agree_ret.
  - by apply read_agree.
  - by apply read_agree.
  - by apply write_agree.
  - by apply write_agree.
  - apply shards_agree.
  - intros m w Ht _. unfold ListPrincipals. cbv [mbind M_bind gets]. destruct (db_op_quiet w) as (w1 & -> & Ec & Es). cbn [fst snd]. rewrite Es.
    split; [by rewrite (principals_agree m w Ht)|]. split; [by apply (tracks_same _ w)|done].
  - intros m w Ht _. split; [done|]. split; [by apply tracks_tick|done].
  - intros m w Ht _. split; [done|]. split; [by apply tracks_restart|done].
Qed.
Lemma fresh_tracks wired : tracks fresh_manager (new_world wired).
Proof.
  constructor; cbn; try done.
  - by intros k [].
  - by intros k [].
  - by intros x [].
  - by intros k d [].
Qed.
Lemma run_agree l m w : Forall (λ x, plain_names x.2) l → tracks m w → mgr_run l m = store_run l.*2 w.
Proof.
  intros Hl. revert m w. induction Hl as [|[now o] l Hx Hl IH]; intros m w Ht; [done|]. cbn [mgr_run store_run fmap list_fmap snd].
  destruct (step_agree now o Hx m w Ht I) as (E & Ht' & _). destruct (mgr_step now o m), (store_step o w). cbn in E, Ht'. subst. f_equal. by apply IH.
Qed.

End Quiet.
End Spec.

Module ManagerDemo.
#[local] Existing Instance test_env.
#[local] Existing Instance test_segment_rule.
#[local] Instance test_layout : Layout := {| orgsRoot := "orgs"; platformSlug := "_platform"; projectsDir := "projects" |}.
#[local] Instance test_layout_rule : LayoutRule.
Proof. by split. Qed.
#[local] Instance test_quiet : NoFaults.
Proof. by intros i. Qed.

Definition minute : Z := 60 * 1000000000.
Definition acme : Principal := {| Org := "acme"; Project := ""; User := "" |}.
Definition acme_web : Principal := {| Org := "acme"; Project := "web"; User := "" |}.
(** Two tenants write; a sweep a quarter of an hour later evicts both; they are read. *)
Definition day : list (Z * mop) :=
  [(0, MPut acme "default" "a" (JNum 1)); (0, MPut acme_web "jobs" "b" (JNum 2)); (1, MPut root "default" "c" (JNum 3));
   (15 * minute, MTick); (15 * minute, MTenants); (16 * minute, MRead acme "default" "a"); (16 * minute, MShards acme_web); (17 * minute, MRestart);
   (18 * minute, MDel acme "default" "a"); (19 * minute, MScan acme "default" "" "" 0); (19 * minute, MOpen {| Org := "acme"; Project := ""; User := "zoe" |} "x")].
Example day_answers : mgr_run false (λ _, false) day fresh_manager =
  [inr ADone; inr ADone; inr ADone; inr ADone; inr (ATenants [root; acme; acme_web]); inr (AValue (Some (JNum 1))); inr (ANames ["jobs"]); inr ADone;
   inr ADone; inr (ARows []); inl (ErrBadPrincipal PUserLeg)].
Proof. by vm_compute. Qed.

(** The error of a seal is dropped with the shard when the sweep evicts it: what was
    written since the last seal is gone. *)
Example failed_seal_loses :
  mgr_run false (λ _, true) [(0, MPut acme "default" "a" (JNum 1)); (15 * minute, MTick); (15 * minute, MRead acme "default" "a")] fresh_manager =
  [inr ADone; inr ADone; inr (AValue None)].
Proof. by vm_compute. Qed.
(** A namespace that starts with a dash is listed while it is open, and not after. *)
Example dashed_vanishes :
  mgr_run false (λ _, false) [(0, MPut acme "-x" "a" (JNum 1)); (0, MShards acme); (15 * minute, MTick); (15 * minute, MShards acme); (15 * minute, MTenants)] fresh_manager =
  [inr ADone; inr (ANames ["-x"]); inr ADone; inr (ANames []); inr (ATenants [])].
Proof. by vm_compute. Qed.
End ManagerDemo.
