(* ===== verification/Failure.v ===== *)
(** Failure reporting: [pkg/tasks/failure.go]. A failing identity has one durable
    row, deleted on the first success, and a throttled log line. *)

From Stdlib Require Import Ascii ZArith Lia.
From stdpp Require Import prelude strings gmap sorting.
From S2P Require Import Prelude GoStrings Sha256 Json Types EngineTypes Env Principal Router Shard GoTime Dispatch Events World WorldFacts.

Local Open Scope Z_scope.

Definition failReportThrottle : Z := 60.
Definition failPersistentAfter : Z := 15 * Minute.

(** The one throttle rule: the first failure of a streak, then every [every]-th. *)
Definition shouldReport (n every : Z) : bool := (n =? 1) || ((0 <? every) && (n mod every =? 0)).

(** [failTracker.fail] and [failTracker.ok], on the tracker's map. *)
Definition tracker_fail (key : string) (n : gmap string Z) : Z * bool * gmap string Z :=
  let c := default 0 (n !! key) + 1 in (c, shouldReport c failReportThrottle, <[key := c]> n).
Definition tracker_ok (key : string) (n : gmap string Z) : Z * gmap string Z :=
  (default 0 (n !! key), delete key n).

Record failureIdentity := {
  fi_Namespace : string;
  fi_WorkflowType : string;
  fi_ActivityType : string;
  fi_TaskQueue : string;
  fi_ScheduleId : string;
  fi_WorkflowId : string;
  fi_RunId : string;
  fi_Attempt : Z }.

Definition failKey (ns fingerprint : string) : string := "fail" +:+ "/" +:+ ns +:+ "/" +:+ fingerprint.

Definition msgActivityFailed : string := "tasks: activity failed".
Definition msgActivityPersistent : string := "tasks: activity failing persistently".
Definition msgActivityRecovered : string := "tasks: activity recovered".
Definition msgWorkflowFailed : string := "tasks: workflow failed".
Definition msgWorkflowPersistent : string := "tasks: workflow failing persistently".
Definition msgWorkflowRecovered : string := "tasks: workflow recovered".

Definition searchAttrScheduleID : string := "ScheduleId".
Definition searchAttrScheduledStart : string := "TemporalScheduledStartTime".

(** A string member of the search attributes; anything else reads as empty. *)
Definition attr_string (m : gmap string json) (k : string) : string :=
  match m !! k with Some (JStr s) => s | _ => "" end.

Definition ScheduledStart (wf : option WorkflowExecution) : option Z :=
  match wf with
  | None => None
  | Some wf => parse_rfc3339 (attr_string (SearchAttrs wf) searchAttrScheduledStart)
  end.

Definition scheduleIDOf (wf : option WorkflowExecution) : string :=
  match wf with None => "" | Some wf => attr_string (SearchAttrs wf) searchAttrScheduleID end.

Definition activityFailureIdentity (wf : option WorkflowExecution) (ns wfID runID : string) (rec : workflowActivity) : failureIdentity :=
  {| fi_Namespace := ns;
     fi_WorkflowType := match wf with Some wf => TypeName (Type_ wf) | None => "" end;
     fi_ActivityType := wa_ActivityType rec;
     fi_TaskQueue := match wf with
                     | Some wf => if String.eqb (wa_TaskQueue rec) "" then TaskQueue wf else wa_TaskQueue rec
                     | None => wa_TaskQueue rec
                     end;
     fi_ScheduleId := scheduleIDOf wf;
     fi_WorkflowId := wfID; fi_RunId := runID; fi_Attempt := wa_Attempt rec |}.

Definition standaloneFailureIdentity (ns : string) (a : StandaloneActivity) : failureIdentity :=
  {| fi_Namespace := ns; fi_WorkflowType := ""; fi_ActivityType := TypeName (act_Type a);
     fi_TaskQueue := act_TaskQueue a; fi_ScheduleId := ""; fi_WorkflowId := WorkflowId (act_Execution a);
     fi_RunId := RunId (act_Execution a); fi_Attempt := act_Attempt a |}.

Definition workflowFailureIdentity (ns : string) (wf : WorkflowExecution) : failureIdentity :=
  {| fi_Namespace := ns; fi_WorkflowType := TypeName (Type_ wf); fi_ActivityType := "";
     fi_TaskQueue := TaskQueue wf; fi_ScheduleId := scheduleIDOf (Some wf);
     fi_WorkflowId := WorkflowId (Execution wf); fi_RunId := RunId (Execution wf); fi_Attempt := 0 |}.

(** An unreadable stamp reads as the default. *)
Definition parseTime (s : string) (def : Z) : Z := default def (parse_rfc3339 s).

(** The row after one more failure: [old] is the row read, if any. *)
Definition next_streak (org : string) (now : Z) (id : failureIdentity) (retrying : bool) (errText : string)
    (old : option FailureStreak) : FailureStreak :=
  let rec := default {|
    fs_Org := org; fs_Namespace := fi_Namespace id; fs_WorkflowType := fi_WorkflowType id;
    fs_ActivityType := fi_ActivityType id; fs_TaskQueue := fi_TaskQueue id; fs_ScheduleId := fi_ScheduleId id;
    fs_ConsecutiveFailures := 0; fs_Attempt := 0; fs_Retrying := false; fs_Persistent := false;
    fs_FirstFailureTime := format_rfc3339 now; fs_LastFailureTime := ""; fs_LastError := "";
    fs_LastWorkflowId := ""; fs_LastRunId := "" |} old in
  let n := fs_ConsecutiveFailures rec + 1 in
  {| fs_Org := fs_Org rec; fs_Namespace := fs_Namespace rec; fs_WorkflowType := fs_WorkflowType rec;
     fs_ActivityType := fs_ActivityType rec; fs_TaskQueue := fs_TaskQueue rec; fs_ScheduleId := fs_ScheduleId rec;
     fs_ConsecutiveFailures := n; fs_Attempt := fi_Attempt id; fs_Retrying := retrying;
     fs_Persistent := (1 <? n) && (failPersistentAfter <=? now - parseTime (fs_FirstFailureTime rec) now);
     fs_FirstFailureTime := fs_FirstFailureTime rec; fs_LastFailureTime := format_rfc3339 now;
     fs_LastError := errText; fs_LastWorkflowId := fi_WorkflowId id; fs_LastRunId := fi_RunId id |}.

Definition report_msg (activityType : string) (persistent : bool) : string :=
  if String.eqb activityType "" then (if persistent then msgWorkflowPersistent else msgWorkflowFailed)
  else (if persistent then msgActivityPersistent else msgActivityFailed).

Section Failures.
Context `{Env}.

Definition fingerprint (id : failureIdentity) : string :=
  hex_of (take 16 (Sum256 (str_join (String "000" "") [fi_WorkflowType id; fi_ActivityType id; fi_TaskQueue id; fi_ScheduleId id]))).

Definition fails_fail (key : string) : W (Z * bool) := λ w,
  let '(n, report, m) := tracker_fail key (w_fails w) in (with_fails (λ _, m) w, inr (n, report)).
Definition fails_ok (key : string) : W Z := λ w,
  let '(n, m) := tracker_ok key (w_fails w) in (with_fails (λ _, m) w, inr n).

Definition found {A} (r : err + option A) : option A := match r with inr o => o | inl _ => None end.

Definition recordFailure (p : Principal) (id : failureIdentity) (retrying : bool) (errText : string) : W unit :=
  let key := failKey (fi_Namespace id) (fingerprint id) in
  now ← time_now;
  old ← attempt (store_get (A := FailureStreak) p key);
  let old := found old in
  let rec := next_streak (Org p) now id retrying errText old in
  let wasPersistent := match old with Some r => fs_Persistent r | None => false end in
  ignore (store_put p key rec);;
  t ← fails_fail (Principal_String p +:+ "|" +:+ key);
  if negb t.2 && negb (fs_Persistent rec && negb wasPersistent) then mret tt
  else log {| ll_level := if fs_Persistent rec then LError else LWarn;
              ll_msg := report_msg (fi_ActivityType id) (fs_Persistent rec);
              ll_args := [("org", JStr (Org p)); ("namespace", JStr (fi_Namespace id));
                          ("workflowType", JStr (fi_WorkflowType id)); ("activityType", JStr (fi_ActivityType id));
                          ("taskQueue", JStr (fi_TaskQueue id)); ("scheduleId", JStr (fi_ScheduleId id));
                          ("workflowId", JStr (fi_WorkflowId id)); ("runId", JStr (fi_RunId id));
                          ("attempt", JNum (fi_Attempt id)); ("retrying", JBool retrying);
                          ("consecutiveFailures", JNum (fs_ConsecutiveFailures rec));
                          ("failingSince", JStr (fs_FirstFailureTime rec)); ("error", JStr errText)] |}.

Definition clearFailure (p : Principal) (id : failureIdentity) : W unit :=
  let key := failKey (fi_Namespace id) (fingerprint id) in
  fails_ok (Principal_String p +:+ "|" +:+ key);;
  old ← attempt (store_get (A := FailureStreak) p key);
  match found old with
  | None => mret tt
  | Some rec =>
      ignore (store_del p key);;
      log {| ll_level := LInfo;
             ll_msg := if String.eqb (fi_ActivityType id) "" then msgWorkflowRecovered else msgActivityRecovered;
             ll_args := [("org", JStr (Org p)); ("namespace", JStr (fi_Namespace id));
                         ("workflowType", JStr (fi_WorkflowType id)); ("activityType", JStr (fi_ActivityType id));
                         ("taskQueue", JStr (fi_TaskQueue id)); ("scheduleId", JStr (fi_ScheduleId id));
                         ("afterConsecutiveFailures", JNum (fs_ConsecutiveFailures rec));
                         ("failingSince", JStr (fs_FirstFailureTime rec))] |}
  end.

(** The listing order: worst first, then by type. [sort.Slice] may order rows
    that compare equal either way; here they keep their order. *)
Definition streak_le (a b : FailureStreak) : Prop :=
  (if negb (fs_ConsecutiveFailures a =? fs_ConsecutiveFailures b)
   then fs_ConsecutiveFailures b <? fs_ConsecutiveFailures a
   else if negb (String.eqb (fs_WorkflowType a) (fs_WorkflowType b)) then slt (fs_WorkflowType a) (fs_WorkflowType b)
   else negb (slt (fs_ActivityType b) (fs_ActivityType a))) = true.
#[local] Instance streak_le_dec : RelDecision streak_le := λ a b, _ : Decision (_ = true).

Definition FailureStreaks (p : Principal) (ns : string) : W (list FailureStreak) :=
  rows ← listInto FailureStreak p ("fail" +:+ "/" +:+ ns +:+ "/");
  mret (merge_sort streak_le rows).

End Failures.
