(* ===== verification/Workflow.v ===== *)
(** The workflow engine: [pkg/tasks/engine.go] (namespaces, workflow lifecycle,
    history, cancel, signal, reset) with the open-run index and the workflow-task
    delivery of [durable.go]. Every method of [*engine] takes the tenant of the
    view it runs on ([engine.As]) as its first argument. Methods run one at a
    time: the per-run mutex serializes the writers of a run. *)

From Stdlib Require Import Ascii ZArith Lia.
From stdpp Require Import prelude strings gmap.
From S2P Require Import Prelude GoStrings Json Types EngineTypes Env Principal Router Shard GoTime Temporal Dispatch Events World Failure.

Local Open Scope Z_scope.

(** ** Statuses and keys *)

Definition RUNNING : string := "WORKFLOW_EXECUTION_STATUS_RUNNING".
Definition CANCELING : string := "WORKFLOW_EXECUTION_STATUS_CANCELING".
Definition COMPLETED : string := "WORKFLOW_EXECUTION_STATUS_COMPLETED".
Definition FAILED : string := "WORKFLOW_EXECUTION_STATUS_FAILED".
Definition CANCELED : string := "WORKFLOW_EXECUTION_STATUS_CANCELED".
Definition TERMINATED : string := "WORKFLOW_EXECUTION_STATUS_TERMINATED".
Definition TIMED_OUT : string := "WORKFLOW_EXECUTION_STATUS_TIMED_OUT".
Definition CONTINUED_AS_NEW : string := "WORKFLOW_EXECUTION_STATUS_CONTINUED_AS_NEW".

Definition isTerminal (status : string) : bool :=
  bool_decide (status ∈ [COMPLETED; FAILED; CANCELED; TERMINATED; TIMED_OUT; CONTINUED_AS_NEW]).

Definition runKey (ns wf run : string) : string := "wf" +:+ "/" +:+ ns +:+ "/" +:+ wf +:+ "/" +:+ run.
Definition openKey (ns wf run : string) : string := "wfopen" +:+ "/" +:+ ns +:+ "/" +:+ wf +:+ "/" +:+ run.
Definition openPrefix (ns : string) : string := "wfopen" +:+ "/" +:+ ns +:+ "/".
Definition openIndexKey (ns : string) : string := "wfidx" +:+ "/" +:+ ns.
Definition histPrefix (ns wf run : string) : string := "wfh" +:+ "/" +:+ ns +:+ "/" +:+ wf +:+ "/" +:+ run +:+ "/".
Definition histKey (ns wf run : string) (id : Z) : string := histPrefix ns wf run +:+ pad 20 id.
Definition idemKey (ns wf req : string) : string := "idem" +:+ "/" +:+ ns +:+ "/" +:+ wf +:+ "/" +:+ req.

(** The attributes of a history event. *)
Definition attrs (l : list (string * json)) : gmap string json := list_to_map l.

(** ** Updating a run row *)

Definition wf_set_status (s : string) (w : WorkflowExecution) : WorkflowExecution :=
  {| Execution := Execution w; Type_ := Type_ w; StartTime := StartTime w; CloseTime := CloseTime w; Status := s;
     TaskQueue := TaskQueue w; HistoryLen := HistoryLen w; Memo := Memo w; SearchAttrs := SearchAttrs w;
     Input := Input w; Result := Result w; UserMetadata := UserMetadata w |}.
Definition wf_set_close (s t : string) (w : WorkflowExecution) : WorkflowExecution :=
  {| Execution := Execution w; Type_ := Type_ w; StartTime := StartTime w; CloseTime := t; Status := s;
     TaskQueue := TaskQueue w; HistoryLen := HistoryLen w; Memo := Memo w; SearchAttrs := SearchAttrs w;
     Input := Input w; Result := Result w; UserMetadata := UserMetadata w |}.
Definition wf_set_len (n : Z) (w : WorkflowExecution) : WorkflowExecution :=
  {| Execution := Execution w; Type_ := Type_ w; StartTime := StartTime w; CloseTime := CloseTime w; Status := Status w;
     TaskQueue := TaskQueue w; HistoryLen := n; Memo := Memo w; SearchAttrs := SearchAttrs w;
     Input := Input w; Result := Result w; UserMetadata := UserMetadata w |}.

(** Which of two runs of one workflow id is the current one. *)
Definition moreCurrentRun (a b : WorkflowExecution) : bool :=
  let aTerm := isTerminal (Status a) in let bTerm := isTerminal (Status b) in
  if negb (Bool.eqb aTerm bTerm) then negb aTerm
  else
    let aCAN := String.eqb (Status a) CONTINUED_AS_NEW in let bCAN := String.eqb (Status b) CONTINUED_AS_NEW in
    if negb (Bool.eqb aCAN bCAN) then negb aCAN
    else if negb (String.eqb (StartTime a) (StartTime b)) then slt (StartTime b) (StartTime a)
    else slt (RunId (Execution b)) (RunId (Execution a)).

(** The loop of [DescribeWorkflow] over the rows of a workflow id. *)
Definition best_run (l : list WorkflowExecution) : option WorkflowExecution :=
  match l with
  | [] => None
  | x :: l => Some (foldl (λ best r, if moreCurrentRun r best then r else best) x l)
  end.

Definition normalizeConflictPolicy (p : string) : string := trim_prefix (to_upper p) "WORKFLOW_ID_CONFLICT_POLICY_".

Definition defaultRetention : string := "720h".

Section Engine.
Context `{Env}.

(** ** Namespaces *)

Definition set_if_empty (s d : string) : string := if String.eqb s "" then d else s.

Definition RegisterNamespace (p : Principal) (n : Namespace) : W unit :=
  let i := ns_Info n in let c := ns_Config n in
  if String.eqb (ni_Name i) "" then throw (ErrRequired "namespace name") else
  t ← (if String.eqb (ni_CreateTime i) "" then nowRFC3339 else mret (ni_CreateTime i));
  let state := set_if_empty (ni_State i) "NAMESPACE_STATE_REGISTERED" in
  let n' := {| ns_Info := {| ni_Name := ni_Name i; ni_State := state; ni_Description := ni_Description i;
                            ni_OwnerEmail := ni_OwnerEmail i; ni_Region := set_if_empty (ni_Region i) "embedded";
                            ni_CreateTime := t |};
               ns_Config := {| WorkflowExecutionRetentionTtl := set_if_empty (WorkflowExecutionRetentionTtl c) defaultRetention;
                              APSLimit := if APSLimit c =? 0 then 400 else APSLimit c;
                              HistoryArchivalState := HistoryArchivalState c; HistoryArchivalUri := HistoryArchivalUri c;
                              VisibilityArchivalState := VisibilityArchivalState c;
                              VisibilityArchivalUri := VisibilityArchivalUri c; CustomData := CustomData c |};
               IsActive := String.eqb state "NAMESPACE_STATE_REGISTERED" |} in
  store_put p ("ns" +:+ "/" +:+ ni_Name i) n';;
  emit p (event "namespace.registered" (ni_Name i) "" "" (to_json n')).

Definition DescribeNamespace (p : Principal) (name : string) : W (option Namespace) := store_get p ("ns" +:+ "/" +:+ name).

(** [engine.namespace]: the registry row, created on first use. *)
Definition namespace (p : Principal) (name : string) : W Namespace :=
  lift_name (ValidName name);;
  o ← DescribeNamespace p name;
  match o with
  | Some n => mret n
  | None =>
      RegisterNamespace p {| ns_Info := {| ni_Name := name; ni_State := ""; ni_Description := ""; ni_OwnerEmail := "";
                                          ni_Region := ""; ni_CreateTime := "" |};
                             ns_Config := zero; IsActive := false |};;
      o ← DescribeNamespace p name;
      match o with
      | Some n => mret n
      | None => throw (ErrVanished name)
      end
  end.

Definition ListNamespaces (p : Principal) : W (list Namespace) := listInto Namespace p ("ns" +:+ "/").

(** ** Reading runs *)

Definition DescribeWorkflow (p : Principal) (ns wf run : string) : W (option WorkflowExecution) :=
  if String.eqb run "" then
    rows ← listInto WorkflowExecution p ("wf" +:+ "/" +:+ ns +:+ "/" +:+ wf +:+ "/");
    mret (best_run rows)
  else store_get p (runKey ns wf run).

Definition ListWorkflows (p : Principal) (ns : string) : W (list WorkflowExecution) :=
  listInto WorkflowExecution p ("wf" +:+ "/" +:+ ns +:+ "/").

Definition lookupIdempotency (p : Principal) (ns wf req : string) : W (option string) := store_get p (idemKey ns wf req).

(** [v, ok, err := f(); if !ok { return notFound }]: an error reads as absent. *)
Definition must_find {A} (m : W (option A)) (e : err) : W A :=
  r ← attempt m;
  match found r with
  | Some a => mret a
  | None => throw e
  end.

(** [v, _, _ = f()] followed by a use of [v]: an absent value is a nil pointer. *)
Definition must_deref {A} (m : W (option A)) : W A :=
  r ← attempt m;
  match found r with
  | Some a => mret a
  | None => throw ErrNilDeref
  end.

(** ** The open-run index *)

Definition openRun (p : Principal) (ns : string) (ref : ExecutionRef) : W unit :=
  store_put p (openKey ns (WorkflowId ref) (RunId ref)) ref.

Definition closeRun (p : Principal) (ns : string) (wf : WorkflowExecution) : W unit :=
  store_put p (runKey ns (WorkflowId (Execution wf)) (RunId (Execution wf))) wf;;
  store_del p (openKey ns (WorkflowId (Execution wf)) (RunId (Execution wf))).

(** ** History *)

Definition appendHistory (p : Principal) (ns wfID runID eventType : string) (a : gmap string json) : W HistoryEvent :=
  wf ← must_find (DescribeWorkflow p ns wfID runID) (ErrNotFound ("workflow " +:+ ns +:+ "/" +:+ wfID +:+ "/" +:+ runID));
  let wf := wf_set_len (HistoryLen wf + 1) wf in
  t ← nowRFC3339;
  let ev := {| EventId := HistoryLen wf; EventTime := t; EventType := eventType; Attributes := a |} in
  store_put p (histKey ns (WorkflowId (Execution wf)) (RunId (Execution wf)) (EventId ev)) ev;;
  store_put p (runKey ns (WorkflowId (Execution wf)) (RunId (Execution wf))) wf;;
  mret ev.

Definition workflowHistoryBytes (p : Principal) (ns wf run : string) : W raw :=
  events ← listInto HistoryEvent p (histPrefix ns wf run);
  mret (RJson (to_json events)).

Definition scheduleWorkflowTask (p : Principal) (ns wf run : string) : W unit :=
  o ← DescribeWorkflow p ns wf run;
  match o with
  | None => throw (ErrNotFound "workflow")
  | Some wfe =>
      if isTerminal (Status wfe) then mret tt
      else hist ← workflowHistoryBytes p ns wf run;
           disp_EnqueueWorkflowTask p ns (TaskQueue wfe) wf run (TypeName (Type_ wfe)) hist
  end.

(** The page loop of [GetWorkflowHistory]. *)
Definition page_events (after : Z) (pageSize : nat) (reverse : bool) (all : list HistoryEvent) : list HistoryEvent :=
  take pageSize (filter (λ ev, (if reverse then (after <=? 0) || (EventId ev <? after) else after <? EventId ev) = true)
    (if reverse then rev all else all)).

Definition GetWorkflowHistory (p : Principal) (ns wfID runID : string) (after pageSize : Z) (reverse : bool)
    : W (list HistoryEvent * Z) :=
  let pageSize := if pageSize <=? 0 then 100 else pageSize in
  wf ← must_find (DescribeWorkflow p ns wfID runID) (ErrNotFound "workflow");
  all ← listInto HistoryEvent p (histPrefix ns (WorkflowId (Execution wf)) (RunId (Execution wf)));
  let out := page_events after (Z.to_nat pageSize) reverse all in
  let next := if Z.of_nat (length out) =? pageSize then match last out with Some ev => EventId ev | None => 0 end else 0 in
  mret (out, next).

(** ** Terminal transitions *)

(** The failure text of a terminal transition's attributes; [temporal.Decode]
    reads the JSON the string holds. *)
Definition workflowFailureText (a : gmap string json) : string :=
  let s := attr_string a "failure" in
  if String.eqb s "" then "" else error_text (Decode (env_parse s)).

Definition terminalTransition (p : Principal) (ns wfID runID status evKind eventType : string) (a : gmap string json)
    : W WorkflowExecution :=
  wf ← must_find (DescribeWorkflow p ns wfID runID) (ErrNotFound ("workflow " +:+ ns +:+ "/" +:+ wfID +:+ "/" +:+ runID));
  if isTerminal (Status wf) then mret wf else
  t ← nowRFC3339;
  let wf := wf_set_close status t wf in
  closeRun p ns wf;;
  appendHistory p ns (WorkflowId (Execution wf)) (RunId (Execution wf)) eventType a;;
  wf ← must_deref (DescribeWorkflow p ns (WorkflowId (Execution wf)) (RunId (Execution wf)));
  emit p (event evKind ns (WorkflowId (Execution wf)) (RunId (Execution wf)) (to_json wf));;
  (if String.eqb status FAILED then recordFailure p (workflowFailureIdentity ns wf) false (workflowFailureText a)
   else if String.eqb status COMPLETED then clearFailure p (workflowFailureIdentity ns wf)
   else mret tt);;
  mret wf.

Definition reason_attrs (reason identity : string) : gmap string json :=
  attrs [("reason", JStr reason); ("identity", JStr identity)].

Definition TerminateWorkflowWithReason (p : Principal) (ns wfID runID reason identity : string) : W WorkflowExecution :=
  terminalTransition p ns wfID runID TERMINATED "workflow.terminated" "WORKFLOW_EXECUTION_TERMINATED"
    (reason_attrs reason identity).

(** ** Cancellation *)

Definition cancelTimeout : Z := 60 * Second.

Definition cancel_transition (p : Principal) (ns wfID runID reason identity : string) : W WorkflowExecution :=
  terminalTransition p ns wfID runID CANCELED "workflow.canceled" "WORKFLOW_EXECUTION_CANCELED" (reason_attrs reason identity).

Definition CancelWorkflowWithReason (p : Principal) (ns wfID runID reason identity : string) : W WorkflowExecution :=
  wf ← must_find (DescribeWorkflow p ns wfID runID) (ErrNotFound ("workflow " +:+ ns +:+ "/" +:+ wfID +:+ "/" +:+ runID));
  if isTerminal (Status wf) then mret wf else
  if String.eqb (Status wf) CANCELING then
    disp_PushCancelRequest ns (TaskQueue wf) (WorkflowId (Execution wf)) (RunId (Execution wf)) reason identity;;
    mret wf
  else
    appendHistory p ns wfID runID "WORKFLOW_EXECUTION_CANCEL_REQUESTED" (reason_attrs reason identity);;
    wf ← must_deref (DescribeWorkflow p ns wfID runID);
    subscribed ← disp_HasSubscribers ns (TaskQueue wf) kindWorkflow;
    if negb subscribed then cancel_transition p ns wfID runID reason identity
    else
      let wf := wf_set_status CANCELING wf in
      store_put p (runKey ns (WorkflowId (Execution wf)) (RunId (Execution wf))) wf;;
      now ← time_now;
      modify (with_cancelling (<[wfKey ns (WorkflowId (Execution wf)) (RunId (Execution wf)) := now]>));;
      disp_PushCancelRequest ns (TaskQueue wf) (WorkflowId (Execution wf)) (RunId (Execution wf)) reason identity;;
      emit p (event "workflow.cancel_requested" ns (WorkflowId (Execution wf)) (RunId (Execution wf)) (to_json wf));;
      mret wf.

Definition AckCanceled (p : Principal) (ns wfID runID reason identity : string) : W WorkflowExecution :=
  modify (with_cancelling (delete (wfKey ns wfID runID)));;
  cancel_transition p ns wfID runID reason identity.

(** [cancelTracker.expired]. *)
Definition expired (now : Z) (m : gmap string Z) : list string :=
  (filter (λ kv, kv.2 < now - cancelTimeout) (map_to_list m)).*1.

(** [sweepCanceling], run by the scheduler of the root view. *)
Definition sweepCanceling (p : Principal) : W unit :=
  now ← time_now;
  keys ← gets (λ w, expired now (w_cancelling w));
  for_each (λ k,
    match str_split_n "|" k 3 with
    | [ns; wf; run] => ignore (AckCanceled p ns wf run "sweep:cancel-timeout" "engine")
    | _ => modify (with_cancelling (delete k))
    end) keys.

(** ** Start *)

(** [Some existing] short-circuits the start. *)
Definition resolveWorkflowIdConflict (p : Principal) (ns wfID policy : string) : W (option WorkflowExecution) :=
  if String.eqb policy "" then mret None else
  r ← attempt (DescribeWorkflow p ns wfID "");
  match found r with
  | None => mret None
  | Some existing =>
      if isTerminal (Status existing) then mret None else
      let pol := normalizeConflictPolicy policy in
      if String.eqb pol "USE_EXISTING" then mret (Some existing)
      else if String.eqb pol "TERMINATE_EXISTING" then
        TerminateWorkflowWithReason p ns (WorkflowId (Execution existing)) (RunId (Execution existing))
          "superseded by workflow-id conflict policy" "engine";;
        mret None
      else if String.eqb pol "FAIL" then throw (ErrConflict wfID)
      else mret None
  end.

(** The run a prior start under the same request id created, if it is there. *)
Definition prior_start (p : Principal) (ns wfID requestID : string) : W (option WorkflowExecution) :=
  if String.eqb requestID "" then mret None else
  r ← attempt (lookupIdempotency p ns wfID requestID);
  match found r with
  | None => mret None
  | Some run => r ← attempt (DescribeWorkflow p ns wfID run); mret (found r)
  end.

(** The part of [startWorkflowFull] that creates the run. *)
Definition create_run (p : Principal) (ns wfID runID : string) (typ : TypeRef) (taskQueue : string) (input : json)
    (requestID : string) (searchAttrs : gmap string json) (memo : json) : W WorkflowExecution :=
  startTime ← nowRFC3339;
  let wf := {| Execution := {| WorkflowId := wfID; RunId := runID |}; Type_ := typ; StartTime := startTime;
               CloseTime := ""; Status := RUNNING; TaskQueue := taskQueue; HistoryLen := 0; Memo := memo;
               SearchAttrs := searchAttrs; Input := input; Result := JNull; UserMetadata := None |} in
  openRun p ns (Execution wf);;
  store_put p (runKey ns wfID runID) wf;;
  (if String.eqb requestID "" then mret tt else ignore (store_put p (idemKey ns wfID requestID) runID));;
  appendHistory p ns wfID runID "WORKFLOW_EXECUTION_STARTED"
    (attrs [("workflowType", JStr (TypeName typ)); ("taskQueue", JStr taskQueue); ("input", input)]);;
  r ← attempt (DescribeWorkflow p ns wfID runID);
  let wf := default wf (found r) in
  scheduleWorkflowTask p ns wfID runID;;
  emit p (event "workflow.started" ns wfID runID (to_json wf));;
  mret wf.

Definition startWorkflowFull (p : Principal) (ns wfID runID : string) (typ : TypeRef) (taskQueue : string) (input : json)
    (requestID : string) (searchAttrs : gmap string json) (memo : json) (conflictPolicy : string) : W WorkflowExecution :=
  namespace p ns;;
  if String.eqb (TypeName typ) "" then throw (ErrRequired "workflow type") else
  wfID ← (if String.eqb wfID "" then r ← newRunId; mret (to_lower (TypeName typ) +:+ "-" +:+ String.substring 0 8 r) else mret wfID);
  prior ← prior_start p ns wfID requestID;
  match prior with
  | Some wf => mret wf
  | None =>
      existing ← resolveWorkflowIdConflict p ns wfID conflictPolicy;
      match existing with
      | Some wf => mret wf
      | None =>
          runID ← (if String.eqb runID "" then newRunId else mret runID);
          create_run p ns wfID runID typ (set_if_empty taskQueue "default") input requestID searchAttrs memo
      end
  end.

Definition StartWorkflow (p : Principal) (ns wfID runID : string) (typ : TypeRef) (taskQueue : string) (input : json) : W WorkflowExecution :=
  startWorkflowFull p ns wfID runID typ taskQueue input "" ∅ JNull "".

Definition StartWorkflowWithRequestID (p : Principal) (ns wfID runID : string) (typ : TypeRef) (taskQueue : string) (input : json) (requestID : string) : W WorkflowExecution :=
  startWorkflowFull p ns wfID runID typ taskQueue input requestID ∅ JNull "".

(** ** Signals *)

Definition signalWorkflow (p : Principal) (ns wfID runID name : string) (payload : json) (identity : string) : W unit :=
  wf ← must_find (DescribeWorkflow p ns wfID runID) (ErrNotFound "workflow");
  if isTerminal (Status wf) then throw (ErrNotRunning (Status wf)) else
  let wfID := WorkflowId (Execution wf) in let run := RunId (Execution wf) in
  appendHistory p ns wfID run "WORKFLOW_EXECUTION_SIGNALED"
    (attrs [("signalName", JStr name); ("input", payload); ("identity", JStr identity)]);;
  wf ← must_deref (DescribeWorkflow p ns wfID run);
  emit p (event "workflow.signaled" ns wfID run
    (JObj [("signal", JStr name); ("input", payload); ("history_length", JNum (HistoryLen wf))]));;
  scheduleWorkflowTask p ns wfID run.

Definition SignalWorkflow (p : Principal) (ns wfID runID name : string) (payload : json) : W unit :=
  signalWorkflow p ns wfID runID name payload "".

Definition signalWithStartFull (p : Principal) (ns wfID runID : string) (typ : TypeRef) (taskQueue : string) (input : json)
    (signalName : string) (signalPayload : json) (requestID : string) (searchAttrs : gmap string json) (memo : json)
    : W (option WorkflowExecution) :=
  r ← attempt (DescribeWorkflow p ns wfID "");
  match found r with
  | Some existing =>
      if isTerminal (Status existing) then
        wf ← startWorkflowFull p ns wfID runID typ taskQueue input requestID searchAttrs memo "";
        SignalWorkflow p ns (WorkflowId (Execution wf)) (RunId (Execution wf)) signalName signalPayload;;
        r ← attempt (DescribeWorkflow p ns (WorkflowId (Execution wf)) (RunId (Execution wf)));
        mret (found r)
      else
        SignalWorkflow p ns (WorkflowId (Execution existing)) (RunId (Execution existing)) signalName signalPayload;;
        mret (Some existing)
  | None =>
      wf ← startWorkflowFull p ns wfID runID typ taskQueue input requestID searchAttrs memo "";
      SignalWorkflow p ns (WorkflowId (Execution wf)) (RunId (Execution wf)) signalName signalPayload;;
      r ← attempt (DescribeWorkflow p ns (WorkflowId (Execution wf)) (RunId (Execution wf)));
      mret (found r)
  end.

(** ** Reset *)

(** The copy loop: events in order until the first one past the cut. *)
Fixpoint copy_events (p : Principal) (ns wfID newRun : string) (cut : Z) (l : list HistoryEvent) : W unit :=
  match l with
  | [] => mret tt
  | ev :: l =>
      if cut <? EventId ev then mret tt
      else store_put p (histKey ns wfID newRun (EventId ev)) ev;; copy_events p ns wfID newRun cut l
  end.

Definition ResetWorkflow (p : Principal) (ns wfID runID : string) (eventID : Z) (reason identity : string) : W WorkflowExecution :=
  src ← must_find (DescribeWorkflow p ns wfID runID) (ErrNotFound "workflow");
  if (eventID <? 1) || (HistoryLen src <? eventID) then throw (ErrInvalid ("invalid eventId " +:+ itoa eventID +:+ " (history has " +:+ itoa (HistoryLen src) +:+ " events)")) else
  let wf := WorkflowId (Execution src) in
  all ← listInto HistoryEvent p (histPrefix ns wf (RunId (Execution src)));
  newRun ← newRunId;
  t ← nowRFC3339;
  let newWf := {| Execution := {| WorkflowId := wf; RunId := newRun |}; Type_ := Type_ src; StartTime := t; CloseTime := "";
                  Status := RUNNING; TaskQueue := TaskQueue src; HistoryLen := 0;
                  Memo := JObj [("resetFromRunId", JStr (RunId (Execution src))); ("resetFromEventId", JNum eventID);
                                ("resetReason", JStr reason); ("resetIdentity", JStr identity)];
                  SearchAttrs := ∅; Input := Input src; Result := JNull; UserMetadata := None |} in
  openRun p ns (Execution newWf);;
  store_put p (runKey ns wf newRun) newWf;;
  copy_events p ns wf newRun eventID all;;
  store_put p (runKey ns wf newRun) (wf_set_len eventID newWf);;
  appendHistory p ns wf newRun "WORKFLOW_EXECUTION_RESET"
    (attrs [("baseRunId", JStr (RunId (Execution src))); ("eventId", JNum eventID); ("reason", JStr reason); ("identity", JStr identity)]);;
  t ← nowRFC3339;
  ignore (closeRun p ns (wf_set_close TERMINATED t src));;
  scheduleWorkflowTask p ns wf newRun;;
  out ← must_deref (DescribeWorkflow p ns wf newRun);
  emit p (event "workflow.reset" ns (WorkflowId (Execution out)) (RunId (Execution out)) (to_json out));;
  mret out.

(** ** Queries *)

(** A query either answers at once or waits on a channel. *)
Inductive query_start := QNow (j : json) | QWait (token : string) (ch : nat).

Definition QueryWorkflow_begin (p : Principal) (ns wfID runID queryType : string) (args : json) : W query_start :=
  wf ← must_find (DescribeWorkflow p ns wfID runID) (ErrNotFound "workflow");
  if String.eqb queryType "__stack_trace" then mret (QNow (JObj [("stack", JStr "")]))
  else if String.eqb queryType "__workflow_metadata" then
    mret (QNow (JObj [("workflowType", JStr (TypeName (Type_ wf))); ("status", JStr (Status wf)); ("historyLen", JNum (HistoryLen wf))]))
  else
    now1 ← time_now; r ← rand_draw; now2 ← time_now;
    res ← (λ w, let '(res, d) := PushQuery now1 now2 r ns (TaskQueue wf) (WorkflowId (Execution wf)) (RunId (Execution wf)) queryType (if is_empty args then RNone else RJson args) (w_disp w) in
                (with_disp d w, inr res));
    match res with
    | inl e => throw (ErrQuery e)
    | inr (token, ch) => mret (QWait token ch)
    end.

(** The select: the response if the channel holds one, else the timeout (or the
    caller's deadline), which drops the pending query. *)
Definition QueryWorkflow_end (token : string) (ch : nat) : W json :=
  o ← gets (λ w, d_chans (w_disp w) !! ch);
  match o with
  | Some res =>
      if negb (String.eqb (qr_errMsg res) "") then throw (ErrInvalid ("query failed: " +:+ qr_errMsg res))
      else match qr_result res with
           | RNone => mret JNull
           | RJson j => mret j
           | RBad => mret (JStr (env_bytes RBad))
           end
  | None => modify (λ w, with_disp (CancelQuery token (w_disp w)) w);; throw (ErrInvalid "query timeout after 5s")
  end.

End Engine.
