(* ===== verification/Durable.v ===== *)
(** The durable activity core: [pkg/tasks/durable.go]. Activities are recorded
    once per sequence number, completed or retried on the same record, and
    re-driven from the open-run index after a restart. *)

From Stdlib Require Import Ascii ZArith Lia.
From stdpp Require Import prelude strings gmap.
From S2P Require Import Prelude GoStrings Json Types EngineTypes Env Principal Router Shard GoTime Temporal Dispatch Events World Failure Workflow.

Local Open Scope Z_scope.

Definition evtActivityScheduled : string := "ACTIVITY_TASK_SCHEDULED".
Definition evtActivityStarted : string := "ACTIVITY_TASK_STARTED".
Definition evtActivityCompleted : string := "ACTIVITY_TASK_COMPLETED".
Definition evtActivityFailed : string := "ACTIVITY_TASK_FAILED".

Definition wfActScheduled : string := "SCHEDULED".
Definition wfActStarted : string := "STARTED".
Definition wfActCompleted : string := "COMPLETED".
Definition wfActFailed : string := "FAILED".

Definition act_terminal (a : workflowActivity) : bool :=
  String.eqb (wa_Status a) wfActCompleted || String.eqb (wa_Status a) wfActFailed.

Definition wfActPrefix (ns wf run : string) : string := "wfact" +:+ "/" +:+ ns +:+ "/" +:+ wf +:+ "/" +:+ run +:+ "/".
Definition wfActKey (ns wf run : string) (seq : Z) : string := wfActPrefix ns wf run +:+ pad 10 seq.
Definition wfActivityID (run : string) (seq : Z) : string := run +:+ "-act-" +:+ itoa seq.

(** The record with a new status, attempt, result and failure. *)
Definition wa_set (status : string) (attempt : Z) (result failure : raw) (a : workflowActivity) : workflowActivity :=
  {| wa_Seq := wa_Seq a; wa_ActivityID := wa_ActivityID a; wa_ActivityType := wa_ActivityType a; wa_Input := wa_Input a;
     wa_TaskQueue := wa_TaskQueue a; wa_Status := status; wa_Attempt := attempt; wa_Result := result; wa_Failure := failure;
     wa_StartToCloseMs := wa_StartToCloseMs a; wa_HeartbeatMs := wa_HeartbeatMs a; wa_RetryPolicy := wa_RetryPolicy a |}.

Definition indexPage : Z := 1024.

Section Durable.
Context `{Env}.

(** [lockRun]: the key of the mutex that serializes the writers of a run. *)
Definition lockRun_key (p : Principal) (ns wf run : string) : string :=
  Principal_String p +:+ "|" +:+ ns +:+ "|" +:+ wf +:+ "|" +:+ run.

(** ** Activity records *)

Definition getWorkflowActivity (p : Principal) (ns wf run : string) (seq : Z) : W (option workflowActivity) :=
  store_get p (wfActKey ns wf run seq).
Definition putWorkflowActivity (p : Principal) (ns wf run : string) (a : workflowActivity) : W unit :=
  store_put p (wfActKey ns wf run (wa_Seq a)) a.
Definition listWorkflowActivities (p : Principal) (ns wf run : string) : W (list workflowActivity) :=
  listInto workflowActivity p (wfActPrefix ns wf run).

Definition dispatchActivityAttempt (p : Principal) (ns wf run : string) (rec : workflowActivity) (appendStarted : bool) : W unit :=
  let rec := wa_set wfActStarted (wa_Attempt rec) (wa_Result rec) (wa_Failure rec) rec in
  putWorkflowActivity p ns wf run rec;;
  (if appendStarted then
     appendHistory p ns wf run evtActivityStarted
       (attrs [("seq", JNum (wa_Seq rec)); ("activityId", JStr (wa_ActivityID rec)); ("attempt", JNum (wa_Attempt rec))]);; mret tt
   else mret tt);;
  disp_DispatchActivity p ns (wa_TaskQueue rec) wf run (wa_Seq rec) (wa_ActivityID rec) (wa_ActivityType rec) (wa_Input rec)
    (wa_StartToCloseMs rec) (wa_HeartbeatMs rec).

Definition applyScheduleActivity (p : Principal) (ns wf run : string) (seq : Z) (actType : string) (input : raw)
    (taskQueue : string) (startToCloseMs heartbeatMs : Z) (rp : option RetryPolicyJSON) : W unit :=
  o ← getWorkflowActivity p ns wf run seq;
  match o with
  | Some _ => mret tt
  | None =>
      taskQueue ← (if String.eqb taskQueue "" then
                     r ← attempt (DescribeWorkflow p ns wf run);
                     mret (match found r with Some wfe => TaskQueue wfe | None => "" end)
                   else mret taskQueue);
      let rec := {| wa_Seq := seq; wa_ActivityID := wfActivityID run seq; wa_ActivityType := actType; wa_Input := input;
                    wa_TaskQueue := taskQueue; wa_Status := wfActScheduled; wa_Attempt := 1; wa_Result := RNone;
                    wa_Failure := RNone; wa_StartToCloseMs := startToCloseMs; wa_HeartbeatMs := heartbeatMs;
                    wa_RetryPolicy := rp |} in
      putWorkflowActivity p ns wf run rec;;
      appendHistory p ns wf run evtActivityScheduled
        (attrs [("seq", JNum seq); ("activityId", JStr (wa_ActivityID rec)); ("activityType", JStr actType);
                ("input", to_json input); ("taskQueue", JStr taskQueue); ("retryPolicy", to_json rp); ("attempt", JNum 1)]);;
      emit p (event "activity.scheduled" ns wf run (JObj [("seq", JNum seq); ("activityType", JStr actType)]));;
      dispatchActivityAttempt p ns wf run rec true
  end.

(** ** Completion *)

(** [scheduleActivityRetry]: arm the timer ... *)
Definition scheduleActivityRetry (p : Principal) (ns wf run : string) (seq delay : Z) : W unit :=
  let delay := if delay <? 0 then 0 else delay in
  modify (λ w, with_timers (w_timers w ++ [{| rt_principal := p; rt_ns := ns; rt_wf := wf; rt_run := run; rt_seq := seq; rt_delay := delay |}]) w).

(** ... and what it does when it fires. *)
Definition fire_retry (t : retry_timer) : W unit :=
  r ← attempt (getWorkflowActivity (rt_principal t) (rt_ns t) (rt_wf t) (rt_run t) (rt_seq t));
  match found r with
  | None => mret tt
  | Some rec =>
      if act_terminal rec then mret tt
      else ignore (dispatchActivityAttempt (rt_principal t) (rt_ns t) (rt_wf t) (rt_run t) rec true)
  end.

(** The success branch of [completeWorkflowActivity]. *)
Definition complete_activity (p : Principal) (ns wf run : string) (seq : Z) (result : raw) (wfe : option WorkflowExecution)
    (rec : workflowActivity) : W unit :=
  let rec := wa_set wfActCompleted (wa_Attempt rec) result (wa_Failure rec) rec in
  putWorkflowActivity p ns wf run rec;;
  appendHistory p ns wf run evtActivityCompleted
    (attrs [("seq", JNum seq); ("activityId", JStr (wa_ActivityID rec)); ("result", to_json (wa_Result rec))]);;
  emit p (event "activity.completed" ns wf run (JObj [("seq", JNum seq)]));;
  clearFailure p (activityFailureIdentity wfe ns wf run rec);;
  scheduleWorkflowTask p ns wf run.

(** The failure branch: retry per policy, else terminal. *)
Definition fail_activity (p : Principal) (ns wf run : string) (seq : Z) (failure : raw) (wfe : option WorkflowExecution)
    (rec : workflowActivity) : W unit :=
  let failID := activityFailureIdentity wfe ns wf run rec in
  let terr := Decode failure in
  let pol := effectiveRetryPolicy (wa_RetryPolicy rec) in
  if ShouldRetry pol (Some terr) (wrap32 (wa_Attempt rec)) then
    let delay := NextInterval pol (wrap32 (wa_Attempt rec)) in
    recordFailure p failID true (error_text terr);;
    let rec := wa_set wfActScheduled (wa_Attempt rec + 1) (wa_Result rec) failure rec in
    putWorkflowActivity p ns wf run rec;;
    emit p (event "activity.retrying" ns wf run
      (JObj [("seq", JNum seq); ("attempt", JNum (wa_Attempt rec)); ("delayMs", JNum (delay / Millisecond))]));;
    scheduleActivityRetry p ns wf run seq delay
  else
    let rec := wa_set wfActFailed (wa_Attempt rec) (wa_Result rec) failure rec in
    putWorkflowActivity p ns wf run rec;;
    appendHistory p ns wf run evtActivityFailed
      (attrs [("seq", JNum seq); ("activityId", JStr (wa_ActivityID rec)); ("failure", to_json (wa_Failure rec))]);;
    emit p (event "activity.failed" ns wf run (JObj [("seq", JNum seq); ("attempts", JNum (wa_Attempt rec))]));;
    recordFailure p failID false (error_text terr);;
    scheduleWorkflowTask p ns wf run.

Definition completeWorkflowActivity (p : Principal) (ns wf run : string) (seq : Z) (result failure : raw) : W unit :=
  o ← getWorkflowActivity p ns wf run seq;
  match o with
  | None => throw (ErrNotFound "activity")
  | Some rec =>
      if act_terminal rec then mret tt else
      r ← attempt (DescribeWorkflow p ns wf run);
      let wfe := found r in
      if match wfe with Some w => isTerminal (Status w) | None => false end then mret tt else
      match failure with
      | RNone => complete_activity p ns wf run seq result wfe rec
      | _ => fail_activity p ns wf run seq failure wfe rec
      end
  end.

(** ** Recovery *)

(** [page]: the rows read that decode, the last key read, and how many were read. *)
Definition page (p : Principal) (prefix after : string) (limit : Z) : W (list runRow * string * Z) :=
  rows ← store_scan p prefix after limit;
  mret (omap (λ r, of_json r.2) rows, default after (last rows.*1), Z.of_nat (length rows)).

Definition index_rows (p : Principal) (ns : string) (rows : list runRow) : W unit :=
  for_each (λ r, if isTerminal (rr_Status r) then mret tt else openRun p ns (rr_Execution r)) rows.

(** The walk of [indexOpenRuns]. A full page is not the last one; the fuel counts
    pages, and one more than the shard holds is enough. *)
Fixpoint index_walk (fuel : nat) (p : Principal) (ns after : string) : W unit :=
  match fuel with
  | 0%nat => mret tt
  | S fuel =>
      r ← page p ("wf" +:+ "/" +:+ ns +:+ "/") after indexPage;
      let '(rows, last, n) := r in
      index_rows p ns rows;;
      if n <? indexPage then mret tt else index_walk fuel p ns last
  end.

Definition index_fuel (p : Principal) (ns : string) (w : world) : nat := S (size (shard_table p ns w)).

Definition indexOpenRuns (p : Principal) (ns : string) : W unit :=
  o ← store_get (A := string) p (openIndexKey ns);
  match o with
  | Some _ => mret tt
  | None =>
      fuel ← gets (index_fuel p ns);
      index_walk fuel p ns "";;
      t ← nowRFC3339;
      store_put p (openIndexKey ns) t
  end.

Definition recoverRun (p : Principal) (ns wf run : string) : W unit :=
  o ← DescribeWorkflow p ns wf run;
  if match o with Some row => isTerminal (Status row) | None => true end
  then store_del p (openKey ns wf run)
  else
    acts ← listWorkflowActivities p ns wf run;
    for_each (λ rec, if act_terminal rec then mret tt else dispatchActivityAttempt p ns wf run rec false) acts;;
    scheduleWorkflowTask p ns wf run.

(** The body of [Recover]'s loop over the namespaces. *)
Definition recover_namespace (p : Principal) (ns : string) : W unit :=
  indexOpenRuns p ns;;
  open ← listInto ExecutionRef p (openPrefix ns);
  for_each (λ ref, recoverRun p ns (WorkflowId ref) (RunId ref)) open.

Definition Recover (p : Principal) : W unit :=
  namespaces ← ListNamespaces p;
  for_each (λ n, recover_namespace p (ni_Name (ns_Info n))) namespaces.

(** A process that stops and starts over the same data directory: what memory
    held is gone. *)
Definition restart (wired : bool) (w : world) : world :=
  {| w_shards := w_shards w; w_closed := false; w_repl := w_repl w; w_disp := newDispatcher wired; w_broker := newBroker;
     w_events := []; w_cancelling := ∅; w_fails := ∅; w_log := w_log w; w_timers := [];
     w_clock := w_clock w; w_rand := w_rand w; w_ops := w_ops w |}.

End Durable.
