(* ===== verification/Commands.v ===== *)
(** The commands a worker answers a workflow task with: the appliers of
    [pkg/tasks/engine_commands.go] and the [Respond*] handlers of [embed.go]. *)

From Corelib Require Import SpecFloat.
From Stdlib Require Import Ascii ZArith Lia.
From stdpp Require Import prelude strings gmap.
From S2P Require Import Prelude GoStrings Json Types EngineTypes Env Principal Router Shard GoTime Temporal Dispatch Events World Failure Workflow Durable.

Local Open Scope Z_scope.

Definition evtContinuedAsNew : string := "WORKFLOW_EXECUTION_CONTINUED_AS_NEW".
Definition evtChildStarted : string := "CHILD_WORKFLOW_EXECUTION_STARTED".

(** [int(toFloat(v))]: a JSON number truncated; anything else is zero. *)
Definition attr_int (j : json) : Z :=
  match j with
  | JNum n => n
  | JFloat f => to_int64 f
  | _ => 0
  end.

(** One entry of the command batch; the fields [omitempty] leaves out are zero. *)
Record command := {
  c_Kind : Z;
  c_Result : raw;
  c_Failure : raw;
  c_Seq : Z;
  c_ActivityType : string;
  c_WorkflowType : string;
  c_ChildWorkflowId : string;
  c_Input : raw;
  c_TaskQueue : string;
  c_SearchAttrs : gmap string json;
  c_StartToCloseMs : Z;
  c_HeartbeatMs : Z;
  c_RetryPolicy : option RetryPolicyJSON }.

Section Commands.
Context `{Env}.

(** [json.Unmarshal(input, &args)]; no bytes is nil. *)
Definition decode_args (input : raw) : W json :=
  match input with
  | RNone => mret JNull
  | RJson j => mret j
  | RBad => throw ErrDecode
  end.

Definition applyContinueAsNew (p : Principal) (ns wf run : string) (input : raw) (wfType taskQueue : string) : W unit :=
  o ← DescribeWorkflow p ns wf run;
  match o with
  | None => mret tt
  | Some cur =>
      if isTerminal (Status cur) then mret tt else
      let wfType := set_if_empty wfType (TypeName (Type_ cur)) in
      let taskQueue := set_if_empty taskQueue (TaskQueue cur) in
      args ← decode_args input;
      newRun ← newRunId;
      terminalTransition p ns wf run CONTINUED_AS_NEW "workflow.continued_as_new" evtContinuedAsNew
        (attrs [("newExecutionRunId", JStr newRun)]);;
      startWorkflowFull p ns wf newRun {| TypeName := wfType |} taskQueue args "" (SearchAttrs cur) (Memo cur) "";;
      mret tt
  end.

Definition childStartRecorded (p : Principal) (ns wf run : string) (seq : Z) : W bool :=
  r ← attempt (listInto HistoryEvent p (histPrefix ns wf run));
  mret (match r with
        | inl _ => false
        | inr events =>
            existsb (λ ev, String.eqb (EventType ev) evtChildStarted &&
                           match Attributes ev !! "seq" with Some s => attr_int s =? seq | None => false end) events
        end).

Definition applyStartChild (p : Principal) (ns parentWf parentRun : string) (seq : Z) (childWfId childType taskQueue : string)
    (input : raw) (searchAttrs : gmap string json) : W unit :=
  if String.eqb childType "" then throw (ErrRequired "child workflow type") else
  recorded ← childStartRecorded p ns parentWf parentRun seq;
  if recorded : bool then mret tt else
  args ← decode_args input;
  childWfId ← (if String.eqb childWfId "" then r ← newRunId; mret (childType +:+ "-child-" +:+ String.substring 0 12 r) else mret childWfId);
  child ← startWorkflowFull p ns childWfId "" {| TypeName := childType |} taskQueue args "" searchAttrs JNull
    "WORKFLOW_ID_CONFLICT_POLICY_USE_EXISTING";
  let data := [("seq", JNum seq); ("childWorkflowId", JStr (WorkflowId (Execution child))); ("childRunId", JStr (RunId (Execution child)))] in
  appendHistory p ns parentWf parentRun evtChildStarted (attrs data);;
  emit p (event "workflow.child_started" ns parentWf parentRun (JObj data));;
  scheduleWorkflowTask p ns parentWf parentRun.

(** ** Worker responses *)

(** One command of the batch, on the run the task was minted for. *)
Definition apply_command (t : pendingWorkflowTask) (c : command) : W unit :=
  let p := wt_principal t in let ns := wt_ns t in let wf := wt_workflowID t in let run := wt_runID t in
  match c_Kind c with
  | 0 => ignore (terminalTransition p ns wf run COMPLETED "workflow.completed" "WORKFLOW_EXECUTION_COMPLETED"
                   (attrs [("result", JStr (env_bytes (c_Result c)))]))
  | 1 => ignore (terminalTransition p ns wf run FAILED "workflow.failed" "WORKFLOW_EXECUTION_FAILED"
                   (attrs [("failure", JStr (env_bytes (c_Failure c)))]))
  | 2 => ignore (applyScheduleActivity p ns wf run (c_Seq c) (c_ActivityType c) (c_Input c) (c_TaskQueue c)
                   (c_StartToCloseMs c) (c_HeartbeatMs c) (c_RetryPolicy c))
  | 3 => ignore (AckCanceled p ns wf run (env_bytes (c_Failure c)) "")
  | 4 => ignore (applyContinueAsNew p ns wf run (c_Input c) (c_WorkflowType c) (c_TaskQueue c))
  | 5 => ignore (applyStartChild p ns wf run (c_Seq c) (c_ChildWorkflowId c) (c_WorkflowType c) (c_TaskQueue c) (c_Input c) (c_SearchAttrs c))
  | _ => mret tt
  end.

(** The status of the acknowledgement and the error whose text is its message. *)
Record ack := { ack_status : Z; ack_error : option err }.
Definition ack_ok : ack := {| ack_status := 200; ack_error := None |}.
Definition ack_not_found : ack := {| ack_status := 404; ack_error := Some (ErrNotFound "task token") |}.

Definition respondWorkflowHandler (token : string) (cmds : list command) : W ack :=
  o ← (λ w, let '(o, d) := CompleteWorkflowTask token (w_disp w) in (with_disp d w, inr o));
  match o with
  | None => mret ack_not_found
  | Some t => for_each (apply_command t) cmds;; mret ack_ok
  end.

Definition respond_activity (token : string) (result failure : raw) : W ack :=
  o ← (λ w, let '(o, d) := ResolveActivityToken token (w_disp w) in (with_disp d w, inr o));
  match o with
  | None => mret ack_not_found
  | Some t =>
      r ← attempt (completeWorkflowActivity (at_principal t) (at_ns t) (at_workflowID t) (at_runID t) (at_seq t) result failure);
      mret (match r with inl e => {| ack_status := 500; ack_error := Some e |} | inr _ => ack_ok end)
  end.

Definition respondActivityCompletedHandler (token : string) (result : raw) : W ack := respond_activity token result RNone.
Definition respondActivityFailedHandler (token : string) (failure : raw) : W ack := respond_activity token RNone failure.

End Commands.
