(* ===== verification/Visibility.v ===== *)
(** Visibility queries: the tokenizer, the recursive-descent parser and the
    evaluator of [pkg/tasks/engine.go] behind [ListWorkflowExecutions]. Case and
    white space are those of ASCII. *)

From Stdlib Require Import Ascii ZArith Lia.
From stdpp Require Import prelude strings gmap.
From S2P Require Import Prelude GoStrings Json Types Env Principal GoFloat World Failure Workflow.

(** ** Tokens *)

Inductive vkind := KIdent | KStr | KNum | KSym | KKw.
#[export] Instance vkind_eq_dec : EqDecision vkind.
Proof. solve_decision. Defined.

Record vtok := { vt_kind : vkind; vt_val : string }.
#[export] Instance vtok_eq_dec : EqDecision vtok.
Proof. solve_decision. Defined.

Definition sym (s : string) : vtok := {| vt_kind := KSym; vt_val := s |}.
Definition kw (s : string) : vtok := {| vt_kind := KKw; vt_val := s |}.

(** The errors of the tokenizer and the parser, with what their messages quote.
    [VFuel] is no error of the source: it marks a bounded loop cut short. *)
Inductive vis_error :=
| VBang (i : nat)
| VUnterminated (i : nat)
| VChar (c : ascii) (i : nat)
| VExpected (s : string)
| VEnd
| VIdent (t : option vtok)
| VNoOperator (id : string)
| VKeyword (v : string)
| VOperatorToken (t : vtok)
| VOperator (v : string)
| VInAfterNot
| VAndInBetween
| VNoValue
| VValue (t : vtok)
| VTrailing (pos : nat)
| VFuel.

Definition is_blank (c : ascii) : bool := Ascii.eqb c " " || Ascii.eqb c "009" || Ascii.eqb c "010".
Definition is_digit (c : ascii) : bool := in_range "0" "9" c.
Definition is_letter (c : ascii) : bool := in_range "A" "Z" c || in_range "a" "z" c || Ascii.eqb c "_".
Definition ident_byte (c : ascii) : bool := is_letter c || is_digit c.
Definition num_byte (c : ascii) : bool := is_digit c || Ascii.eqb c ".".
Definition squote : ascii := "039".
Definition dquote : ascii := "034".

(** [for i < len(q) && f(q[i]) { i++ }]: what is passed over, and what is left. *)
Fixpoint span (f : ascii → bool) (s : string) : string * string :=
  match s with
  | EmptyString => (EmptyString, EmptyString)
  | String c r => if f c then let '(a, b) := span f r in (String c a, b) else (EmptyString, s)
  end.

Definition keywords : list string := ["AND"; "OR"; "NOT"; "IN"; "BETWEEN"].
Definition word_token (word : string) : vtok :=
  let upper := to_upper word in
  if bool_decide (upper ∈ keywords) then kw upper else {| vt_kind := KIdent; vt_val := word |}.

Definition cons_tok (t : vtok) (r : vis_error + list vtok) : vis_error + list vtok :=
  match r with inr l => inr (t :: l) | inl e => inl e end.

(** The loop of [vtokenize] at position [i], with [q] left to read. *)
Fixpoint vtokenize_go (fuel i : nat) (q : string) : vis_error + list vtok :=
  match q, fuel with
  | EmptyString, _ => inr []
  | _, 0 => inl VFuel
  | String c r, S fuel =>
      let one (t : vtok) := cons_tok t (vtokenize_go fuel (S i) r) in
      let two (t : vtok) (r : string) := cons_tok t (vtokenize_go fuel (S (S i)) r) in
      if is_blank c then vtokenize_go fuel (S i) r
      else if Ascii.eqb c "(" || Ascii.eqb c ")" || Ascii.eqb c "," then one (sym (String c ""))
      else if Ascii.eqb c "=" then one (sym "=")
      else if Ascii.eqb c "!" then match r with String "=" r => two (sym "!=") r | _ => inl (VBang i) end
      else if Ascii.eqb c ">" then match r with String "=" r => two (sym ">=") r | _ => one (sym ">") end
      else if Ascii.eqb c "<" then match r with String "=" r => two (sym "<=") r | _ => one (sym "<") end
      else if Ascii.eqb c squote || Ascii.eqb c dquote then
        match span (λ x, negb (Ascii.eqb x c)) r with
        | (_, EmptyString) => inl (VUnterminated i)
        | (s, String _ r) => cons_tok {| vt_kind := KStr; vt_val := s |} (vtokenize_go fuel (i + String.length s + 2) r)
        end
      else if is_digit c || Ascii.eqb c "-" || Ascii.eqb c "+" then
        let '(s, r) := span num_byte r in
        cons_tok {| vt_kind := KNum; vt_val := String c s |} (vtokenize_go fuel (S (i + String.length s)) r)
      else if is_letter c then
        let '(s, r) := span ident_byte q in
        cons_tok (word_token s) (vtokenize_go fuel (i + String.length s) r)
      else inl (VChar c i)
  end.

Definition vtokenize (q : string) : vis_error + list vtok := vtokenize_go (String.length q) 0 q.

(** ** Queries *)

Record visCmp := {
  vc_field : string;
  vc_op : string;
  vc_value : string;
  vc_list : list string;
  vc_low : string;
  vc_high : string }.

Inductive visNode :=
| visAnd (a b : visNode)
| visOr (a b : visNode)
| visNot (a : visNode)
| visLeaf (c : visCmp).

(** ** The parser

    The state is what is left of the tokens. *)

Notation P := (M (list vtok) vis_error).

Definition peek : P (option vtok) := gets head.
Definition eat : P (option vtok) := λ s, (tail s, inr (head s)).
Definition is_tok (t : vtok) (o : option vtok) : bool := bool_decide (o = Some t).

Definition expectSym (s : string) : P unit :=
  t ← eat; if is_tok (sym s) t then mret tt else throw (VExpected s).

Definition parseValue : P string :=
  t ← eat;
  match t with
  | None => throw VNoValue
  | Some t => match vt_kind t with
              | KStr | KNum | KIdent => mret (vt_val t)
              | _ => throw (VValue t)
              end
  end.

(** The loop of [parseValueList]; it eats a token per turn. *)
Fixpoint value_loop (fuel : nat) (out : list string) : P (list string) :=
  match fuel with
  | 0 => throw VFuel
  | S fuel =>
      v ← parseValue; t ← peek;
      if is_tok (sym ",") t then eat ;; value_loop fuel (out ++ [v]) else mret (out ++ [v])
  end.

Definition parseValueList : P (list string) :=
  expectSym "(";; out ← (λ s, value_loop (S (length s)) [] s); expectSym ")";; mret out.

Definition cmp (field op : string) : visCmp :=
  {| vc_field := field; vc_op := op; vc_value := ""; vc_list := []; vc_low := ""; vc_high := "" |}.
Definition cmp_value (field op v : string) : visCmp :=
  {| vc_field := field; vc_op := op; vc_value := v; vc_list := []; vc_low := ""; vc_high := "" |}.
Definition cmp_list (field op : string) (l : list string) : visCmp :=
  {| vc_field := field; vc_op := op; vc_value := ""; vc_list := l; vc_low := ""; vc_high := "" |}.
Definition cmp_range (field lo hi : string) : visCmp :=
  {| vc_field := field; vc_op := "BETWEEN"; vc_value := ""; vc_list := []; vc_low := lo; vc_high := hi |}.

Definition operators : list string := ["="; "!="; ">"; "<"; ">="; "<="].

Definition parse_keyword (id op : string) : P visNode :=
  if String.eqb op "IN" then vs ← parseValueList; mret (visLeaf (cmp_list id "IN" vs))
  else if String.eqb op "NOT" then
    n2 ← eat;
    if is_tok (kw "IN") n2 then vs ← parseValueList; mret (visLeaf (cmp_list id "NOT_IN" vs)) else throw VInAfterNot
  else if String.eqb op "BETWEEN" then
    lo ← parseValue; a ← eat;
    if is_tok (kw "AND") a then hi ← parseValue; mret (visLeaf (cmp_range id lo hi)) else throw VAndInBetween
  else throw (VKeyword op).

Definition parseComparison : P visNode :=
  id ← eat;
  match id with
  | Some {| vt_kind := KIdent; vt_val := id |} =>
      op ← eat;
      match op with
      | None => throw (VNoOperator id)
      | Some t =>
          match vt_kind t with
          | KKw => parse_keyword id (vt_val t)
          | KSym => if bool_decide (vt_val t ∈ operators) then v ← parseValue; mret (visLeaf (cmp_value id (vt_val t) v))
                    else throw (VOperator (vt_val t))
          | _ => throw (VOperatorToken t)
          end
      end
  | _ => throw (VIdent id)
  end.

(** The descent. Every call and every turn of a loop takes one unit of fuel. *)
Fixpoint parseOr (fuel : nat) : P visNode :=
  match fuel with 0 => throw VFuel | S fuel => a ← parseAnd fuel; or_loop fuel a end
with or_loop (fuel : nat) (a : visNode) : P visNode :=
  match fuel with
  | 0 => throw VFuel
  | S fuel => t ← peek; if is_tok (kw "OR") t then eat ;; b ← parseAnd fuel; or_loop fuel (visOr a b) else mret a
  end
with parseAnd (fuel : nat) : P visNode :=
  match fuel with 0 => throw VFuel | S fuel => a ← parseNot fuel; and_loop fuel a end
with and_loop (fuel : nat) (a : visNode) : P visNode :=
  match fuel with
  | 0 => throw VFuel
  | S fuel => t ← peek; if is_tok (kw "AND") t then eat ;; b ← parseNot fuel; and_loop fuel (visAnd a b) else mret a
  end
with parseNot (fuel : nat) : P visNode :=
  match fuel with
  | 0 => throw VFuel
  | S fuel => t ← peek; if is_tok (kw "NOT") t then eat ;; a ← parseNot fuel; mret (visNot a) else parseAtom fuel
  end
with parseAtom (fuel : nat) : P visNode :=
  match fuel with
  | 0 => throw VFuel
  | S fuel =>
      t ← peek;
      match t with
      | None => throw VEnd
      | Some t => if decide (t = sym "(") then eat ;; n ← parseOr fuel; expectSym ")";; mret n else parseComparison
      end
  end.

Definition parse_fuel (toks : list vtok) : nat := 6 * length toks + 6.

Definition parseVisibilityQuery (q : string) : vis_error + option visNode :=
  let q := trim_space q in
  if String.eqb q "" then inr None else
  match vtokenize q with
  | inl e => inl e
  | inr toks =>
      match parseOr (parse_fuel toks) toks with
      | (_, inl e) => inl e
      | (rest, inr n) => if bool_decide (rest = []) then inr (Some n) else inl (VTrailing (length toks - length rest))
      end
  end.

(** ** Evaluation *)

Definition normalizeStatus (s : string) : string :=
  let s := to_upper s in
  if has_prefix s "WORKFLOW_EXECUTION_STATUS_" then s else "WORKFLOW_EXECUTION_STATUS_" +:+ s.

Definition compareValue (field want : string) : string :=
  if String.eqb field "ExecutionStatus" then normalizeStatus want else want.

Definition fieldValue (wf : WorkflowExecution) (f : string) : string :=
  if String.eqb f "WorkflowType" then TypeName (Type_ wf)
  else if String.eqb f "WorkflowId" then WorkflowId (Execution wf)
  else if String.eqb f "RunId" then RunId (Execution wf)
  else if String.eqb f "ExecutionStatus" then Status wf
  else if String.eqb f "StartTime" then StartTime wf
  else if String.eqb f "CloseTime" then CloseTime wf
  else if String.eqb f "TaskQueue" then TaskQueue wf
  else match SearchAttrs wf !! f with Some v => sprint v | None => "" end.

Definition matchCmp (wf : WorkflowExecution) (c : visCmp) : bool :=
  let f := vc_field c in
  let got := fieldValue wf f in
  let got := if String.eqb f "ExecutionStatus" then normalizeStatus got else got in
  let want := compareValue f (vc_value c) in
  let hit v := String.eqb got (compareValue f v) in
  let op := vc_op c in
  if String.eqb op "=" then String.eqb got want
  else if String.eqb op "!=" then negb (String.eqb got want)
  else if String.eqb op ">" then slt want got
  else if String.eqb op "<" then slt got want
  else if String.eqb op ">=" then sle want got
  else if String.eqb op "<=" then sle got want
  else if String.eqb op "IN" then existsb hit (vc_list c)
  else if String.eqb op "NOT_IN" then negb (existsb hit (vc_list c))
  else if String.eqb op "BETWEEN" then sle (compareValue f (vc_low c)) got && sle got (compareValue f (vc_high c))
  else false.

Fixpoint eval (n : visNode) (wf : WorkflowExecution) : bool :=
  match n with
  | visAnd a b => eval a wf && eval b wf
  | visOr a b => eval a wf || eval b wf
  | visNot a => negb (eval a wf)
  | visLeaf c => matchCmp wf c
  end.

Section Listing.
Context `{Env}.

(** [ListWorkflowExecutions]. The rows are read before the query is parsed; the
    text of a syntax error is not modelled. *)
Definition ListWorkflowExecutions (p : Principal) (ns query : string) : W (list WorkflowExecution) :=
  rows ← ListWorkflows p ns;
  match parseVisibilityQuery query with
  | inl e => throw (ErrInvalid "visibility query")
  | inr None => mret rows
  | inr (Some n) => mret (base.filter (λ wf, eval n wf = true) rows)
  end.
End Listing.

(** ** Termination *)

(** A parser with more fuel answers what it answered with less, unless it ran out. *)
Definition below {A} (p q : P A) : Prop := ∀ s, (p s).2 ≠ inl VFuel → q s = p s.

Lemma below_refl {A} (p : P A) : below p p.
Proof. by intros s. Qed.
Lemma below_fuel {A} (q : P A) : below (throw VFuel) q.
Proof. by intros s []. Qed.
Lemma below_bind {A B} (p q : P A) (f g : A → P B) :
  below p q → (∀ a, below (f a) (g a)) → below (p ≫= f) (q ≫= g).
Proof.
  intros Hp Hf s. unfold mbind, M_bind. intros Hs.
  rewrite (Hp s) by (by destruct (p s) as [? [?|?]]; cbn in *; congruence).
  destruct (p s) as [s' [e|a]]; [done|]. by apply Hf.
Qed.

Create HintDb below.
#[local] Hint Resolve below_refl below_fuel : below.

Ltac below :=
  repeat first
    [ progress intros
    | apply below_bind
    | match goal with |- context [if ?b then _ else _] => destruct b end
    | match goal with |- below (match ?o with Some _ => _ | None => _ end) _ => destruct o end
    | solve [eauto with below] ].

Lemma fuel_step n :
  below (parseOr n) (parseOr (S n)) ∧ (∀ a, below (or_loop n a) (or_loop (S n) a)) ∧
  below (parseAnd n) (parseAnd (S n)) ∧ (∀ a, below (and_loop n a) (and_loop (S n) a)) ∧
  below (parseNot n) (parseNot (S n)) ∧ below (parseAtom n) (parseAtom (S n)).
Proof.
  induction n as [|n (IO & IOL & IA & IAL & IN & IAt)]; [split_and!; below|].
  split_and!; intros;
    [ change (below (a ← parseAnd n; or_loop n a) (a ← parseAnd (S n); or_loop (S n) a))
    | change (or_loop (S (S n)) a) with (t ← peek; if is_tok (kw "OR") t then eat ;; b ← parseAnd (S n); or_loop (S n) (visOr a b) else mret a); cbn [or_loop]
    | change (below (a ← parseNot n; and_loop n a) (a ← parseNot (S n); and_loop (S n) a))
    | change (and_loop (S (S n)) a) with (t ← peek; if is_tok (kw "AND") t then eat ;; b ← parseNot (S n); and_loop (S n) (visAnd a b) else mret a); cbn [and_loop]
    | change (parseNot (S (S n))) with (t ← peek; if is_tok (kw "NOT") t then eat ;; a ← parseNot (S n); mret (visNot a) else parseAtom (S n)); cbn [parseNot]
    | change (parseAtom (S (S n))) with (t ← peek; match t with None => throw VEnd | Some t => if decide (t = sym "(") then eat ;; m ← parseOr (S n); expectSym ")";; mret m else parseComparison end); cbn [parseAtom] ];
    below.
Qed.

(** What a parser started with the tokens [s] does: it does not run out of fuel,
    and when it succeeds it has eaten at least [c] of them. *)
Definition uses {A} (c : nat) (s : list vtok) : vis_error + A → list vtok → Prop :=
  λ r s', r ≠ inl VFuel ∧ match r with inr _ => length s' + c ≤ length s | inl _ => True end.

Lemma uses_bind {A B} c d (m : P A) (f : A → P B) s :
  wp m (uses c s) s → (∀ a s', length s' + c ≤ length s → wp (f a) (uses d s') s') → wp (m ≫= f) (uses (c + d) s) s.
Proof.
  intros Hm Hf. apply wp_bind. eapply wp_mono; [apply Hm|]. intros [e|a] s' [Hr Hl]; [split; [congruence|done]|].
  eapply wp_mono; [by apply Hf|]. intros [e|b] s'' [Hr' Hl']; (split; [done|cbn in *; done || lia]).
Qed.
Lemma uses_ret {A} (a : A) s : wp (mret a) (uses 0 s) s.
Proof. split; [done|]. lia. Qed.
Lemma uses_throw {A} c e s : e ≠ VFuel → wp (throw e : P A) (uses c s) s.
Proof. intros He. split; [congruence|done]. Qed.
Lemma uses_weaken {A} c d (m : P A) s : c ≤ d → wp m (uses d s) s → wp m (uses c s) s.
Proof. intros Hc Hm. eapply wp_mono; [apply Hm|]. intros [e|a] s' [Hr Hl]; (split; [done|cbn in *; done || lia]). Qed.

(** Eating a token: either there is one, or the continuation gets [None]. *)
Lemma uses_eat {A} c (f : option vtok → P A) s :
  (s = [] → wp (f None) (uses c []) []) →
  (∀ t s', s = t :: s' → wp (f (Some t)) (uses (pred c) s') s') → wp (eat ≫= f) (uses c s) s.
Proof.
  intros Hn Hs. destruct s as [|t s']; [by apply Hn|]. apply wp_bind. specialize (Hs t s' eq_refl).
  change (wp (f (Some t)) (uses c (t :: s')) s'). eapply wp_mono; [apply Hs|].
  intros [e|a] s'' [Hr Hl]; (split; [done|cbn in *; done || lia]).
Qed.
Lemma uses_peek {A} c (f : option vtok → P A) s : wp (f (head s)) (uses c s) s → wp (peek ≫= f) (uses c s) s.
Proof. done. Qed.

Ltac uses :=
  repeat first
    [ apply uses_ret
    | apply uses_throw; discriminate
    | apply uses_eat; [intros ->|intros ? ? ->]
    | apply uses_peek
    | match goal with |- wp (if ?b then _ else _) _ _ => destruct b eqn:? end
    | match goal with |- wp (match ?o with _ => _ end) _ _ => destruct o eqn:? end ].

Lemma expectSym_uses x s : wp (expectSym x) (uses 1 s) s.
Proof. unfold expectSym. uses. Qed.
Lemma parseValue_uses s : wp parseValue (uses 1 s) s.
Proof. unfold parseValue. uses. Qed.

Lemma is_tok_head t (s : list vtok) : is_tok t (head s) = true → ∃ s', s = t :: s'.
Proof. unfold is_tok. rewrite bool_decide_eq_true. destruct s as [|x s]; cbn; [done|]. intros [= ->]. by exists s. Qed.

Lemma value_loop_uses fuel out s : length s < fuel → wp (value_loop fuel out) (uses 1 s) s.
Proof.
  revert out s. induction fuel as [|fuel IH]; intros out s Hf; [lia|]. cbn [value_loop].
  apply (uses_bind 1 0); [apply parseValue_uses|]. intros v s' Hl. apply uses_peek.
  destruct (is_tok (sym ",") (head s')) eqn:E; [|uses]. apply is_tok_head in E as [s'' ->].
  apply uses_eat; [done|]. intros t x [= <- <-]. apply (uses_weaken _ 1); [lia|]. apply IH. cbn in *. lia.
Qed.

Lemma parseValueList_uses s : wp parseValueList (uses 1 s) s.
Proof.
  unfold parseValueList. apply (uses_weaken _ (1 + (1 + (1 + 0)))); [lia|].
  apply uses_bind; [apply expectSym_uses|]. intros _ s1 _. apply uses_bind; [apply value_loop_uses; lia|].
  intros out s2 _. apply uses_bind; [apply expectSym_uses|]. intros _ s3 _. apply uses_ret.
Qed.

Lemma parse_keyword_uses id op s : wp (parse_keyword id op) (uses 0 s) s.
Proof.
  unfold parse_keyword. uses; try (apply (uses_weaken _ (1 + 0)); [cbn; lia|];
    apply uses_bind; [apply parseValueList_uses || apply parseValue_uses|]; intros; uses).
  apply (uses_weaken _ (1 + 0)); [cbn; lia|]. apply uses_bind; [apply parseValue_uses|]. intros. uses.
Qed.

Lemma parseComparison_uses s : wp parseComparison (uses 1 s) s.
Proof.
  unfold parseComparison. uses; [|apply parse_keyword_uses].
  apply (uses_weaken _ (1 + 0)); [cbn; lia|]. apply uses_bind; [apply parseValue_uses|]. intros. uses.
Qed.

Lemma descent_uses n :
  (∀ s, 6 * length s + 6 ≤ n → wp (parseOr n) (uses 1 s) s) ∧
  (∀ a s, 6 * length s + 1 ≤ n → wp (or_loop n a) (uses 0 s) s) ∧
  (∀ s, 6 * length s + 5 ≤ n → wp (parseAnd n) (uses 1 s) s) ∧
  (∀ a s, 6 * length s + 1 ≤ n → wp (and_loop n a) (uses 0 s) s) ∧
  (∀ s, 6 * length s + 4 ≤ n → wp (parseNot n) (uses 1 s) s) ∧
  (∀ s, 6 * length s + 3 ≤ n → wp (parseAtom n) (uses 1 s) s).
Proof.
  induction n as [|n (IO & IOL & IA & IAL & IN & IAt)]; [split_and!; intros; lia|].
  split_and!; intros; cbn [parseOr or_loop parseAnd and_loop parseNot parseAtom].
  - apply (uses_bind 1 0); [apply IA; lia|]. intros. apply IOL. lia.
  - apply uses_peek. destruct (is_tok (kw "OR") (head s)) eqn:E; [|uses]. apply is_tok_head in E as [s1 ->].
    apply uses_eat; [done|]. intros t s2 [= <- <-]. apply (uses_weaken _ (1 + 0)); [cbn; lia|]. cbn [length] in *.
    apply (uses_bind 1 _); [apply IA; lia|]. intros. apply IOL. lia.
  - apply (uses_bind 1 0); [apply IN; lia|]. intros. apply IAL. lia.
  - apply uses_peek. destruct (is_tok (kw "AND") (head s)) eqn:E; [|uses]. apply is_tok_head in E as [s1 ->].
    apply uses_eat; [done|]. intros t s2 [= <- <-]. apply (uses_weaken _ (1 + 0)); [cbn; lia|]. cbn [length] in *.
    apply (uses_bind 1 _); [apply IN; lia|]. intros. apply IAL. lia.
  - apply uses_peek. destruct (is_tok (kw "NOT") (head s)) eqn:E; [|apply IAt; lia]. apply is_tok_head in E as [s1 ->].
    apply uses_eat; [done|]. intros t s2 [= <- <-]. apply (uses_weaken _ (1 + 0)); [cbn; lia|]. cbn [length] in *.
    apply (uses_bind 1 _); [apply IN; lia|]. intros. uses.
  - apply uses_peek. destruct s as [|t s]; cbn [head]; [uses|]. case_decide; [|apply parseComparison_uses].
    apply uses_eat; [done|]. intros t' s2 [= <- <-]. apply (uses_weaken _ (1 + (1 + 0))); [cbn; lia|]. cbn [length] in *.
    apply (uses_bind 1 _); [apply IO; lia|]. intros. apply uses_bind; [apply expectSym_uses|]. intros. uses.
Qed.

(** *** The tokenizer *)

Lemma span_app f s : (span f s).1 +:+ (span f s).2 = s.
Proof. induction s as [|c s IH]; [done|]. cbn [span]. destruct (f c); [|done]. destruct (span f s) as [a b]. cbn in *. by rewrite <-IH. Qed.
Lemma span_length f s a b : span f s = (a, b) → String.length b ≤ String.length s.
Proof. intros E. pose proof (span_app f s) as Ha. rewrite E in Ha. cbn in Ha. rewrite <-Ha, slen_app. lia. Qed.

Lemma cons_tok_fuel t r : r ≠ inl VFuel → cons_tok t r ≠ inl VFuel.
Proof. by destruct r as [[]|]. Qed.

Lemma tokenizer_fuel fuel i q : String.length q ≤ fuel → vtokenize_go fuel i q ≠ inl VFuel.
Proof.
  revert i q. induction fuel as [|fuel IH]; intros i [|c r] Hl; try done; cbn [String.length] in Hl; [lia|].
  cbn [vtokenize_go]. repeat case_match; try done; try apply cons_tok_fuel; try (apply IH; cbn in *; lia); try congruence;
    try (apply IH; match goal with Hs : span _ _ = _ |- _ => apply span_length in Hs; cbn in Hs end; lia).
  apply IH. match goal with Hs : span _ _ = _, Hi : is_letter c = true |- _ =>
    cbn [span] in Hs; replace (ident_byte c) with true in Hs by (unfold ident_byte; by rewrite Hi) end.
  destruct (span ident_byte r) as [a b] eqn:E. simplify_eq. apply span_length in E. lia.
Qed.

(** Every query is decided: the tokenizer and the parser, whose recursion the
    model bounds by the length of the query, never run out of that bound, so the
    loops of the source end on every input. *)
Theorem visibility_terminates q : parseVisibilityQuery q ≠ inl VFuel.
Proof.
  unfold parseVisibilityQuery. case_match; [done|]. pose proof (tokenizer_fuel _ 0 (trim_space q) (le_n _)) as Ht.
  change (vtokenize (trim_space q) ≠ inl VFuel) in Ht. destruct (vtokenize (trim_space q)) as [e|toks]; [congruence|].
  destruct (descent_uses (parse_fuel toks)) as [Ho _]. specialize (Ho toks (le_n _)). unfold wp, uses in Ho.
  destruct (parseOr (parse_fuel toks) toks) as [s [e|n]]; [destruct Ho as [Ho _]; congruence|]. by case_match.
Qed.

(** ** Printing a query

    With the parentheses the precedence of the operators needs and no others:
    [OR] is level 0, [AND] level 1, [NOT] and the atoms level 2; both binary
    operators associate to the left. *)

Definition quoted (v : string) : vtok := {| vt_kind := KStr; vt_val := v |}.
Definition ident (v : string) : vtok := {| vt_kind := KIdent; vt_val := v |}.

Fixpoint comma_list (l : list string) : list vtok :=
  match l with
  | [] => []
  | [v] => [quoted v]
  | v :: l => quoted v :: sym "," :: comma_list l
  end.

Definition list_toks (l : list string) : list vtok := sym "(" :: comma_list l ++ [sym ")"].

Definition cmp_toks (c : visCmp) : list vtok :=
  ident (vc_field c) ::
  (if String.eqb (vc_op c) "IN" then kw "IN" :: list_toks (vc_list c)
   else if String.eqb (vc_op c) "NOT_IN" then kw "NOT" :: kw "IN" :: list_toks (vc_list c)
   else if String.eqb (vc_op c) "BETWEEN" then [kw "BETWEEN"; quoted (vc_low c); kw "AND"; quoted (vc_high c)]
   else [sym (vc_op c); quoted (vc_value c)]).

Definition paren (b : bool) (l : list vtok) : list vtok := if b then sym "(" :: l ++ [sym ")"] else l.

Fixpoint node_toks (level : nat) (n : visNode) : list vtok :=
  match n with
  | visOr a b => paren (0 <? level) (node_toks 0 a ++ kw "OR" :: node_toks 1 b)
  | visAnd a b => paren (1 <? level) (node_toks 1 a ++ kw "AND" :: node_toks 2 b)
  | visNot a => kw "NOT" :: node_toks 2 a
  | visLeaf c => cmp_toks c
  end.

Definition render (t : vtok) : string :=
  match vt_kind t with
  | KStr => let q := if contains_byte squote (vt_val t) then dquote else squote in String q (vt_val t +:+ String q "")
  | _ => vt_val t
  end.

Definition print (n : visNode) : string := str_join " " (render <$> node_toks 0 n).

(** What a query can say: an identifier that is no keyword, one of the operators
    with its own operands, a list that is not empty, and values that do not hold
    both kinds of quote. *)
Fixpoint all_bytes (f : ascii → bool) (s : string) : bool :=
  match s with EmptyString => true | String c s => f c && all_bytes f s end.
Definition field_ok (f : string) : bool :=
  match f with EmptyString => false | String c _ => is_letter c && all_bytes ident_byte f && negb (bool_decide (to_upper f ∈ keywords)) end.
Definition value_ok (v : string) : bool := negb (contains_byte squote v && contains_byte dquote v).

Inductive cmp_ok : visCmp → Prop :=
| ok_value f op v : op ∈ operators → value_ok v = true → cmp_ok (cmp_value f op v)
| ok_list f op l : op ∈ ["IN"; "NOT_IN"] → l ≠ [] → forallb value_ok l = true → cmp_ok (cmp_list f op l)
| ok_range f lo hi : value_ok lo = true → value_ok hi = true → cmp_ok (cmp_range f lo hi).

Fixpoint node_ok (n : visNode) : Prop :=
  match n with
  | visAnd a b | visOr a b => node_ok a ∧ node_ok b
  | visNot a => node_ok a
  | visLeaf c => field_ok (vc_field c) = true ∧ cmp_ok c
  end.

(** ** Parsing what was printed: tokens *)

(** [p], given enough fuel, reads [a] from [s] and leaves [rest]. *)
Definition parses {A} (p : nat → P A) (s : list vtok) (a : A) (rest : list vtok) : Prop :=
  ∃ k, ∀ n, k ≤ n → p n s = (rest, inr a).

(** [parses_step k]: run the parser one step, the calls it makes as hypotheses say. *)
Ltac parses_step k :=
  exists k; intros [|n] Hn; [lia|];
  cbn [parseOr or_loop parseAnd and_loop parseNot parseAtom];
  unfold mbind, M_bind, peek, gets, eat, is_tok; cbn [head tail];
  repeat first
    [ rewrite bool_decide_eq_true_2 by done
    | rewrite bool_decide_eq_false_2 by done
    | match goal with Hk : ∀ n, ?k ≤ n → _ |- _ => rewrite Hk by lia end ].

Section parses.
Implicit Types (a b c : visNode) (s rest : list vtok).

Lemma parses_or s s1 a b rest :
  parses parseAnd s a s1 → parses (λ n, or_loop n a) s1 b rest → parses parseOr s b rest.
Proof. intros [k Hk] [k' Hk']. parses_step (S (Nat.max k k')). done. Qed.
Lemma parses_or_more s s1 a b c rest :
  parses parseAnd s b s1 → parses (λ n, or_loop n (visOr a b)) s1 c rest → parses (λ n, or_loop n a) (kw "OR" :: s) c rest.
Proof. intros [k Hk] [k' Hk']. parses_step (S (Nat.max k k')). done. Qed.
Lemma parses_or_end a s : head s ≠ Some (kw "OR") → parses (λ n, or_loop n a) s a s.
Proof. intros Hs. parses_step 1. done. Qed.

Lemma parses_and s s1 a b rest :
  parses parseNot s a s1 → parses (λ n, and_loop n a) s1 b rest → parses parseAnd s b rest.
Proof. intros [k Hk] [k' Hk']. parses_step (S (Nat.max k k')). done. Qed.
Lemma parses_and_more s s1 a b c rest :
  parses parseNot s b s1 → parses (λ n, and_loop n (visAnd a b)) s1 c rest → parses (λ n, and_loop n a) (kw "AND" :: s) c rest.
Proof. intros [k Hk] [k' Hk']. parses_step (S (Nat.max k k')). done. Qed.
Lemma parses_and_end a s : head s ≠ Some (kw "AND") → parses (λ n, and_loop n a) s a s.
Proof. intros Hs. parses_step 1. done. Qed.

Lemma parses_not s a rest : parses parseNot s a rest → parses parseNot (kw "NOT" :: s) (visNot a) rest.
Proof. intros [k Hk]. parses_step (S k). done. Qed.
Lemma parses_atom t s a rest : t ≠ kw "NOT" → parses parseAtom (t :: s) a rest → parses parseNot (t :: s) a rest.
Proof. intros Ht [k Hk]. parses_step (S k). rewrite bool_decide_eq_false_2 by congruence. by apply Hk; lia. Qed.
Lemma parses_paren s a rest : parses parseOr s a (sym ")" :: rest) → parses parseAtom (sym "(" :: s) a rest.
Proof. intros [k Hk]. parses_step (S k). rewrite decide_True by done. cbn [tail]. rewrite Hk by lia. done. Qed.
Lemma parses_leaf t s a rest : t ≠ sym "(" → parseComparison (t :: s) = (rest, inr a) → parses parseAtom (t :: s) a rest.
Proof. intros Ht Hc. parses_step 1. by rewrite decide_False. Qed.

(** *** Comparisons *)

Lemma parseValue_quoted v s : parseValue (quoted v :: s) = (s, inr v).
Proof. done. Qed.

Lemma value_loop_list l fuel out rest :
  l ≠ [] → length l ≤ fuel → head rest ≠ Some (sym ",") → value_loop fuel out (comma_list l ++ rest) = (rest, inr (out ++ l)).
Proof.
  revert fuel out. induction l as [|v l IH]; intros fuel out Hne Hf Hr; [done|].
  destruct fuel as [|fuel]; cbn in Hf; [lia|]. destruct l as [|v' l].
  - assert (is_tok (sym ",") (head rest) = false) as E by (by apply bool_decide_eq_false_2).
    cbn -[is_tok]. unfold mbind, M_bind. rewrite parseValue_quoted. cbn -[is_tok]. by rewrite E.
  - specialize (IH fuel (out ++ [v]) ltac:(done) ltac:(cbn in *; lia) Hr).
    rewrite <-app_assoc in IH. exact IH.
Qed.

Lemma expectSym_sym x s : expectSym x (sym x :: s) = (s, inr tt).
Proof. unfold expectSym, mbind, M_bind, eat, is_tok. cbn [head tail]. by rewrite bool_decide_eq_true_2. Qed.

Lemma parseValueList_toks l rest : l ≠ [] → parseValueList (list_toks l ++ rest) = (rest, inr l).
Proof.
  intros Hl. unfold parseValueList, list_toks, mbind, M_bind. cbn [app]. rewrite expectSym_sym, <-app_assoc.
  rewrite value_loop_list; [|done| |done].
  - cbn [app]. by rewrite expectSym_sym.
  - rewrite length_app. assert (length l ≤ length (comma_list l)); [|lia].
    clear. induction l as [|v [|v' l] IH]; cbn in *; lia.
Qed.

Lemma parse_in f l rest : l ≠ [] → parse_keyword f "IN" (list_toks l ++ rest) = (rest, inr (visLeaf (cmp_list f "IN" l))).
Proof. intros Hl. unfold parse_keyword, mbind, M_bind. cbn [String.eqb Ascii.eqb Bool.eqb]. by rewrite parseValueList_toks. Qed.
Lemma parse_not_in f l rest :
  l ≠ [] → parse_keyword f "NOT" (kw "IN" :: list_toks l ++ rest) = (rest, inr (visLeaf (cmp_list f "NOT_IN" l))).
Proof.
  intros Hl. unfold parse_keyword, mbind, M_bind, eat, is_tok. cbn [String.eqb Ascii.eqb Bool.eqb head tail].
  rewrite bool_decide_eq_true_2 by done. by rewrite parseValueList_toks.
Qed.

Lemma parseComparison_toks (c : visCmp) rest : cmp_ok c → parseComparison (cmp_toks c ++ rest) = (rest, inr (visLeaf c)).
Proof.
  intros [f op v Hop _|f op l Hop Hl _|f lo hi _ _].
  - unfold operators in Hop. repeat (apply elem_of_cons in Hop as [->|Hop]; [done|]). by apply elem_of_nil in Hop.
  - repeat (apply elem_of_cons in Hop as [->|Hop]; [|]); [by apply parse_in|by apply parse_not_in|by apply elem_of_nil in Hop].
  - done.
Qed.

End parses.

(** *** Whole queries *)

(** What each level of the grammar reads of the tokens [T] of a query [n]. *)
Definition reads_not (T : list vtok) (n : visNode) : Prop := ∀ rest, parses parseNot (T ++ rest) n rest.
Definition reads_and (T : list vtok) (n : visNode) : Prop := ∀ rest m rest',
  parses (λ k, and_loop k n) rest m rest' → parses parseAnd (T ++ rest) m rest'.
Definition reads_or (T : list vtok) (n : visNode) : Prop := ∀ rest m rest',
  head rest ≠ Some (kw "AND") → parses (λ k, or_loop k n) rest m rest' → parses parseOr (T ++ rest) m rest'.

Lemma reads_not_and T n : reads_not T n → reads_and T n.
Proof. intros Hn rest m rest' Hl. by eapply parses_and; [apply Hn|]. Qed.
Lemma reads_and_or T n : reads_and T n → reads_or T n.
Proof. intros Ha rest m rest' Hr Hl. eapply parses_or; [|done]. by apply Ha, parses_and_end. Qed.
Lemma reads_paren T n : reads_or T n → reads_not (sym "(" :: T ++ [sym ")"]) n.
Proof.
  intros Ho rest. cbn [app]. rewrite <-app_assoc. apply parses_atom; [done|]. apply parses_paren.
  apply Ho; [done|]. by apply parses_or_end.
Qed.

Lemma node_reads n :
  node_ok n → reads_or (node_toks 0 n) n ∧ reads_and (node_toks 1 n) n ∧ reads_not (node_toks 2 n) n.
Proof.
  induction n as [a IHa b IHb|a IHa b IHb|a IHa|c]; cbn [node_ok node_toks].
  - intros [(_ & Ha & _)%IHa (_ & _ & Hb)%IHb].
    assert (reads_and (node_toks 1 a ++ kw "AND" :: node_toks 2 b) (visAnd a b)) as Hand.
    { intros rest m rest' Hl. rewrite <-app_assoc. apply Ha. cbn [app]. by eapply parses_and_more; [apply Hb|]. }
    cbn. split_and!; [by apply reads_and_or|done|by apply reads_paren, reads_and_or].
  - intros [(Ha & _ & _)%IHa (_ & Hb & _)%IHb].
    assert (reads_or (node_toks 0 a ++ kw "OR" :: node_toks 1 b) (visOr a b)) as Hor.
    { intros rest m rest' Hr Hl. rewrite <-app_assoc. apply Ha; [done|]. cbn [app].
      eapply parses_or_more; [|done]. by apply Hb, parses_and_end. }
    cbn. split_and!; [done|by apply reads_not_and, reads_paren|by apply reads_paren].
  - intros (_ & _ & Ha)%IHa. assert (reads_not (kw "NOT" :: node_toks 2 a) (visNot a)) as Hn.
    { intros rest. apply parses_not, Ha. }
    split_and!; [by apply reads_and_or, reads_not_and|by apply reads_not_and|done].
  - intros [_ Hc]. assert (reads_not (cmp_toks c) (visLeaf c)) as Hn.
    { intros rest. pose proof (parseComparison_toks c rest Hc) as Hp. unfold cmp_toks in *. cbn [app] in *.
      apply parses_atom; [done|]. by apply parses_leaf. }
    split_and!; [by apply reads_and_or, reads_not_and|by apply reads_not_and|done].
Qed.

(** More fuel than enough changes nothing, so [parse_fuel] reads what some fuel reads. *)
Lemma fuel_enough n m toks : parse_fuel toks ≤ n → n ≤ m → parseOr m toks = parseOr n toks.
Proof.
  intros Hn. induction 1 as [|m Hm IH]; [done|]. rewrite <-IH. apply fuel_step.
  destruct (descent_uses m) as [Ho _]. specialize (Ho toks). unfold parse_fuel in Hn.
  apply (wp_elim _ _ _ (Ho ltac:(lia))).
Qed.

Lemma parse_toks n : node_ok n → parseOr (parse_fuel (node_toks 0 n)) (node_toks 0 n) = ([], inr n).
Proof.
  intros [Ho _]%node_reads. destruct (Ho [] n []) as [k Hk]; [done|by apply parses_or_end|].
  rewrite app_nil_r in Hk. rewrite <-(fuel_enough _ (Nat.max k (parse_fuel (node_toks 0 n)))); [apply Hk|done|]; lia.
Qed.

(** ** Parsing what was printed: bytes *)

Definition tok_ok (t : vtok) : Prop :=
  match vt_kind t with
  | KIdent => field_ok (vt_val t) = true
  | KStr => value_ok (vt_val t) = true
  | KNum => False
  | KSym => vt_val t ∈ "(" :: ")" :: "," :: operators
  | KKw => vt_val t ∈ keywords
  end.

(** The bytes [q] read as the tokens [l], wherever they stand. *)
Definition reads (q : string) (l : list vtok) : Prop :=
  ∀ fuel i, String.length q ≤ fuel → vtokenize_go fuel i q = inr l.

Lemma reads_nil : reads "" [].
Proof. by intros [|fuel] i _. Qed.
Lemma reads_blank q l : reads q l → reads (String " " q) l.
Proof. intros Hq [|fuel] i Hl; cbn in Hl; [lia|]. cbn. apply Hq. lia. Qed.

(** A token ends at a blank or at the end. *)
Definition delimited (q : string) : Prop := match q with EmptyString => True | String c _ => c = " "%char end.

Lemma sapp_nil q : "" +:+ q = q.
Proof. done. Qed.
Lemma sapp_cons c s q : String c s +:+ q = String c (s +:+ q).
Proof. done. Qed.

Lemma span_stop f s rest : all_bytes f s = true → (∀ c r, rest = String c r → f c = false) → span f (s +:+ rest) = (s, rest).
Proof.
  intros Hs Hr. induction s as [|c s IH].
  - rewrite sapp_nil. destruct rest as [|c r]; [done|]. cbn. by rewrite (Hr c r).
  - rewrite sapp_cons. cbn in *. apply andb_true_iff in Hs as [-> Hs]. by rewrite IH.
Qed.

Lemma reads_sym v q l : v ∈ "(" :: ")" :: "," :: operators → delimited q → reads q l → reads (v +:+ q) (sym v :: l).
Proof.
  intros Hv Hd Hq fuel i Hl. rewrite slen_app in Hl.
  unfold operators in Hv. repeat (apply elem_of_cons in Hv as [->|Hv]; [|]); [..|by apply elem_of_nil in Hv].
  all: cbn in Hl; destruct fuel as [|fuel]; [lia|].
  all: rewrite ?sapp_cons, sapp_nil; destruct q as [|c q]; [|cbn in Hd; subst c]; cbn; rewrite Hq by (cbn in *; lia); done.
Qed.

Lemma reads_word c s q l :
  is_letter c = true → all_bytes ident_byte s = true → delimited q → reads q l →
  reads (String c s +:+ q) (word_token (String c s) :: l).
Proof.
  intros Hc Hs Hd Hq fuel i Hl. rewrite slen_app in Hl. destruct fuel as [|fuel]; cbn in Hl; [lia|].
  assert (span ident_byte (String c s +:+ q) = (String c s, q)) as Hsp.
  { apply span_stop; [cbn; unfold ident_byte at 1; by rewrite Hc|]. intros x r ->. by cbn in Hd; subst x. }
  rewrite sapp_cons in *. cbn [vtokenize_go]. rewrite Hsp, Hc.
  assert (∀ x, is_letter x = false → Ascii.eqb c x = false) as Hx by (intros x Hx; apply Ascii.eqb_neq; congruence).
  unfold is_blank. rewrite !Hx by done. cbn [orb].
  replace (is_digit c) with false; [cbn [orb]; rewrite Hq; [done|lia]|].
  symmetry. apply not_true_iff_false. intros Hd'. revert Hc Hd'. clear. by destruct c as [[] [] [] [] [] [] [] []].
Qed.

Lemma contains_all c s : contains_byte c s = false → all_bytes (λ x, negb (Ascii.eqb x c)) s = true.
Proof.
  induction s as [|x s IH]; [done|]. cbn. rewrite orb_false_iff, andb_true_iff, negb_true_iff. intros [Hx Hs]. split; [done|by apply IH].
Qed.

Lemma reads_quoted c v q l :
  c = squote ∨ c = dquote → contains_byte c v = false → reads q l → reads (String c (v +:+ String c "") +:+ q) (quoted v :: l).
Proof.
  intros Hc Hv Hq fuel i Hl. rewrite slen_app in Hl. destruct fuel as [|fuel]; cbn in Hl; [lia|]. rewrite slen_app in Hl. cbn in Hl.
  rewrite sapp_cons, sapp_assoc, sapp_cons, sapp_nil. cbn [vtokenize_go].
  rewrite span_stop by (by apply contains_all || (intros x r [= <- <-]; by rewrite Ascii.eqb_refl)).
  destruct Hc as [-> | ->]; cbn; by rewrite Hq by lia.
Qed.

Lemma keyword_reads v : v ∈ keywords → ∃ c s, v = String c s ∧ is_letter c = true ∧ all_bytes ident_byte s = true ∧ word_token v = kw v.
Proof.
  unfold keywords. intros Hv. repeat (apply elem_of_cons in Hv as [->|Hv]; [by eexists _, _|]). by apply elem_of_nil in Hv.
Qed.

Lemma reads_tok t q l : tok_ok t → delimited q → reads q l → reads (render t +:+ q) (t :: l).
Proof.
  destruct t as [k v]. unfold tok_ok, render. cbn [vt_kind vt_val]. intros Ht Hd Hq. destruct k; [| |done|by apply reads_sym|].
  - destruct v as [|c s]; cbn [field_ok] in Ht; [done|]. apply andb_true_iff in Ht as [[Hc [_ Hs]%andb_true_iff]%andb_true_iff Hk].
    replace {| vt_kind := KIdent; vt_val := String c s |} with (word_token (String c s)); [by apply reads_word|].
    unfold word_token. cbn zeta. by apply negb_true_iff in Hk as ->.
  - unfold value_ok in Ht. apply negb_true_iff, andb_false_iff in Ht.
    destruct (contains_byte squote v) eqn:E; apply reads_quoted; auto. by destruct Ht.
  - destruct (keyword_reads v Ht) as (c & s & -> & Hc & Hs & Hw). change {| vt_kind := KKw; vt_val := String c s |} with (kw (String c s)).
    rewrite <-Hw. by apply reads_word.
Qed.

Lemma reads_join l : Forall tok_ok l → reads (str_join " " (render <$> l)) l.
Proof.
  induction 1 as [|t l Ht Hl IH]; [apply reads_nil|]. destruct l as [|t' l].
  - cbn. rewrite <-(sapp_nil_r (render t)). apply reads_tok; [done|done|apply reads_nil].
  - change (str_join " " (render <$> t :: t' :: l)) with (render t +:+ " " +:+ str_join " " (render <$> t' :: l)).
    apply reads_tok; [done|done|]. rewrite sapp_cons, sapp_nil. by apply reads_blank.
Qed.

Lemma comma_list_ok l : forallb value_ok l = true → Forall tok_ok (comma_list l).
Proof.
  induction l as [|v [|v' l] IH]; cbn; rewrite ?andb_true_iff; [done|intros [Hv _]; by repeat constructor|].
  intros [Hv Hl]. constructor; [done|]. constructor; [cbn; set_solver|]. apply IH. by apply andb_true_iff.
Qed.

Lemma list_toks_ok l : forallb value_ok l = true → Forall tok_ok (list_toks l).
Proof.
  intros Hl. constructor; [cbn; set_solver|]. apply Forall_app. split; [by apply comma_list_ok|]. constructor; [cbn; set_solver|done].
Qed.

Lemma tok_keyword v : v ∈ keywords → tok_ok (kw v).
Proof. done. Qed.
Lemma tok_symbol v : v ∈ "(" :: ")" :: "," :: operators → tok_ok (sym v).
Proof. done. Qed.

Lemma cmp_toks_ok c : field_ok (vc_field c) = true → cmp_ok c → Forall tok_ok (cmp_toks c).
Proof.
  intros Hf Hc. constructor; [done|]. destruct Hc as [f op v Hop Hv|f op l Hop Hl Hv|f lo hi Hlo Hhi]; cbn.
  - assert (∀ x, x ∈ operators → x ≠ "IN" ∧ x ≠ "NOT_IN" ∧ x ≠ "BETWEEN") as Hn.
    { unfold operators. intros x Hx. repeat (apply elem_of_cons in Hx as [->|Hx]; [done|]). by apply elem_of_nil in Hx. }
    apply Hn in Hop as Ho. destruct Ho as (H1 & H2 & H3). apply String.eqb_neq in H1, H2, H3. rewrite H1, H2, H3.
    constructor; [apply tok_symbol; by do 3 right|]. by constructor.
  - repeat (apply elem_of_cons in Hop as [->|Hop]; [|]); [..|by apply elem_of_nil in Hop]; cbn.
    + constructor; [apply tok_keyword; set_solver|by apply list_toks_ok].
    + do 2 (constructor; [apply tok_keyword; set_solver|]). by apply list_toks_ok.
  - repeat constructor; try done; apply tok_keyword; set_solver.
Qed.

Lemma node_toks_ok n level : node_ok n → Forall tok_ok (node_toks level n).
Proof.
  revert level. induction n as [a IHa b IHb|a IHa b IHb|a IHa|c]; intros level; cbn [node_ok node_toks].
  - intros [Ha Hb]. unfold paren. case_match; repeat (apply Forall_app_2 || constructor || apply tok_symbol || apply tok_keyword); auto; set_solver.
  - intros [Ha Hb]. unfold paren. case_match; repeat (apply Forall_app_2 || constructor || apply tok_symbol || apply tok_keyword); auto; set_solver.
  - intros Ha. constructor; [apply tok_keyword; set_solver|auto].
  - intros [Hf Hc]. by apply cmp_toks_ok.
Qed.

(** *** Nothing to trim *)

Definition visible (c : ascii) : bool := negb (is_space c).

Lemma trim_right_app a b : trim_right b = b → b ≠ "" → trim_right (a +:+ b) = a +:+ b.
Proof.
  intros Hb Hne. induction a as [|c a IH]; [by rewrite sapp_nil|]. rewrite sapp_cons. cbn [trim_right]. rewrite IH.
  by destruct a, b.
Qed.
Lemma trim_right_visible s : all_bytes visible s = true → trim_right s = s.
Proof.
  induction s as [|c s IH]; [done|]. cbn [all_bytes trim_right]. unfold visible at 1. rewrite andb_true_iff, negb_true_iff. intros [Hc Hs].
  rewrite IH, Hc by done. by destruct s.
Qed.

Lemma all_bytes_impl (f g : ascii → bool) s : (∀ c, f c = true → g c = true) → all_bytes f s = true → all_bytes g s = true.
Proof. intros Hfg. induction s as [|c s IH]; cbn; [done|]. rewrite !andb_true_iff. intros [Hc Hs]. auto. Qed.

Lemma ident_visible c : ident_byte c = true → visible c = true.
Proof. by destruct c as [[] [] [] [] [] [] [] []]. Qed.

(** A rendered token starts and ends with a byte that is no space. *)
Lemma render_trim t : tok_ok t → trim_right (render t) = render t ∧ ∃ c s, render t = String c s ∧ visible c = true.
Proof.
  destruct t as [k v]. unfold tok_ok, render. cbn [vt_kind vt_val]. intros Ht.
  assert (∀ w, all_bytes visible w = true → w ≠ "" → trim_right w = w ∧ ∃ c s, w = String c s ∧ visible c = true) as Hw.
  { intros [|c s] Ha Hne; [done|]. split; [by apply trim_right_visible|]. cbn in Ha. apply andb_true_iff in Ha as [Ha _]. by eexists _, _. }
  destruct k; [| |done| |].
  - apply Hw; [|by intros ->]. destruct v as [|c s]; [done|]. cbn [field_ok] in Ht.
    apply andb_true_iff in Ht as [[_ Hs]%andb_true_iff _]. by apply (all_bytes_impl ident_byte), Hs; apply ident_visible.
  - set (q := if contains_byte squote v then dquote else squote).
    assert (visible q = true) as Hq by (unfold q; by case_match). split; [|by eexists _, _].
    rewrite <-(sapp_cons q v (String q "")). apply trim_right_app; [|done]. by apply trim_right_visible; cbn; rewrite Hq.
  - unfold operators in Ht. repeat (apply elem_of_cons in Ht as [->|Ht]; [by apply Hw|]). by apply elem_of_nil in Ht.
  - unfold keywords in Ht. repeat (apply elem_of_cons in Ht as [->|Ht]; [by apply Hw|]). by apply elem_of_nil in Ht.
Qed.

Lemma join_trim l : Forall tok_ok l → trim_right (str_join " " (render <$> l)) = str_join " " (render <$> l).
Proof.
  induction 1 as [|t l Ht Hl IH]; [done|]. destruct l as [|t' l]; [by apply render_trim|].
  change (str_join " " (render <$> t :: t' :: l)) with (render t +:+ (" " +:+ str_join " " (render <$> t' :: l))).
  rewrite <-sapp_assoc. apply trim_right_app; [done|].
  inversion Hl as [|? ? Ht' _]; subst. destruct (render_trim t' Ht') as (_ & c & s & E & _).
  destruct l; cbn; rewrite E; [done|]. by rewrite sapp_cons.
Qed.

Lemma node_toks_cons n level : ∃ t l, node_toks level n = t :: l.
Proof.
  revert level. induction n as [a IHa b _|a IHa b _|a _|c]; intros level; cbn [node_toks]; [| |by eexists _, _..].
  all: unfold paren; case_match; [by eexists _, _|].
  - destruct (IHa 1) as (t & l & ->). by eexists _, _.
  - destruct (IHa 0) as (t & l & ->). by eexists _, _.
Qed.

Lemma print_trim n : node_ok n → trim_space (print n) = print n ∧ print n ≠ "".
Proof.
  intros Hn. pose proof (node_toks_ok n 0 Hn) as Hok. unfold print, trim_space.
  destruct (node_toks_cons n 0) as (t & l & E). rewrite E in *. inversion Hok as [|? ? Ht _]; subst.
  destruct (render_trim t Ht) as (_ & c & s & Er & Hc). apply negb_true_iff in Hc.
  assert (∃ r, str_join " " (render <$> t :: l) = String c r) as [r Hr].
  { destruct l; cbn; rewrite Er; [by eexists|]. rewrite sapp_cons. by eexists. }
  split; [|by rewrite Hr]. rewrite <-(join_trim (t :: l) Hok) at 2. rewrite Hr. cbn [trim_left]. by rewrite Hc.
Qed.

(** (C40) Print and parse: a query printed with only the parentheses its precedence
    needs parses back to itself - [NOT] binds tighter than [AND], [AND] than [OR],
    both associating to the left - and listing with the text returns exactly the
    runs of the namespace that satisfy the query, in the order they are listed. *)
Theorem visibility_roundtrip `{Env} p ns n :
  node_ok n → parseVisibilityQuery (print n) = inr (Some n) ∧
  ListWorkflowExecutions p ns (print n) = (rows ← ListWorkflows p ns; mret (base.filter (λ wf, eval n wf = true) rows)).
Proof.
  intros Hn. assert (parseVisibilityQuery (print n) = inr (Some n)) as Hp; [|split; [done|unfold ListWorkflowExecutions; by rewrite Hp]].
  destruct (print_trim n Hn) as [Ht Hne]. unfold parseVisibilityQuery. rewrite Ht.
  apply String.eqb_neq in Hne as ->. unfold vtokenize, print.
  rewrite (reads_join _ (node_toks_ok n 0 Hn) _ 0 (le_n _)). by rewrite (parse_toks n Hn).
Qed.

(** [(ExecutionStatus = 'running' OR WorkflowId IN ('a', "it's")) AND NOT NOT StartTime BETWEEN '2026' AND '2027'] *)
Definition demo_query : visNode :=
  visAnd (visOr (visLeaf (cmp_value "ExecutionStatus" "=" "running")) (visLeaf (cmp_list "WorkflowId" "IN" ["a"; "it's"])))
         (visNot (visNot (visLeaf (cmp_range "StartTime" "2026" "2027")))).

Lemma visibility_roundtrip_witness : parseVisibilityQuery (print demo_query) = inr (Some demo_query).
Proof.
  refine (proj1 (visibility_roundtrip (H := test_env) {| Org := ""; Project := ""; User := "" |} "default" demo_query _)).
  repeat split; try reflexivity; constructor; first [reflexivity | by left | by (right; left) | discriminate].
Defined.
