(* ===== verification/Activities.v ===== *)
(** Standalone activities: [pkg/tasks/activities.go]. A worker claims the oldest
    scheduled activity of a queue under a lease; a lease that expires returns the
    activity to the queue, or fails it when its attempts are spent. *)

From Stdlib Require Import Ascii ZArith Lia.
From stdpp Require Import prelude strings gmap sorting.
From S2P Require Import Prelude GoStrings Json Types Env Principal GoTime GoDuration Events World Failure Workflow.

#[local] Open Scope Z_scope.

Definition activityStateScheduled : string := "ACTIVITY_TASK_STATE_SCHEDULED".
Definition activityStateStarted : string := "ACTIVITY_TASK_STATE_STARTED".
Definition activityStateCompleted : string := "ACTIVITY_TASK_STATE_COMPLETED".
Definition activityStateFailed : string := "ACTIVITY_TASK_STATE_FAILED".
Definition activityStateCanceled : string := "ACTIVITY_TASK_STATE_CANCELED".

Definition isActivityTerminal (s : string) : bool :=
  String.eqb s activityStateCompleted || String.eqb s activityStateFailed || String.eqb s activityStateCanceled.

(** The run a request id started. *)
Record activityIdempotency := { ai_RunId : string }.
#[export] Instance activityIdempotency_codec : Codec activityIdempotency := {|
  to_json x := JObj (fld "runId" (ai_RunId x));
  of_json j := o ← as_obj j; r ← rd o "runId"; Some {| ai_RunId := r |};
  zero := {| ai_RunId := zero |};
  is_empty := λ _, false;
  marshal_ok := λ _, true
|}.

Definition actKey (ns activityID runID : string) : string := "act" +:+ "/" +:+ ns +:+ "/" +:+ activityID +:+ "/" +:+ runID.
Definition actPrefix (ns : string) : string := "act" +:+ "/" +:+ ns +:+ "/".
Definition ahistPrefix (ns activityID runID : string) : string :=
  "ahist" +:+ "/" +:+ ns +:+ "/" +:+ activityID +:+ "/" +:+ runID +:+ "/".
Definition ahistKey (ns activityID runID : string) (i : Z) : string := ahistPrefix ns activityID runID +:+ pad 20 i.
Definition aidemKey (ns activityID requestID : string) : string :=
  "aidem" +:+ "/" +:+ ns +:+ "/" +:+ activityID +:+ "/" +:+ requestID.

(** The members an operation sets; the others are kept. *)
Definition act_with (a : StandaloneActivity) (status close : string) (result : json) (cause identity : string)
    (attempt : Z) (beat lease : string) (len : Z) : StandaloneActivity :=
  {| act_Execution := act_Execution a; act_Type := act_Type a; act_TaskQueue := act_TaskQueue a; act_Status := status;
     act_StartTime := act_StartTime a; act_CloseTime := close; act_RetryPolicy := act_RetryPolicy a; act_Input := act_Input a;
     act_Result := result; FailureCause := cause; act_Identity := identity; act_Attempt := attempt;
     MaximumAttempts := MaximumAttempts a; ScheduleToCloseTimeout := ScheduleToCloseTimeout a;
     ScheduleToStartTimeout := ScheduleToStartTimeout a; StartToCloseTimeout := StartToCloseTimeout a;
     HeartbeatTimeout := HeartbeatTimeout a; LastHeartbeatTime := beat; LeaseExpiry := lease; HistoryLength := len |}.

Definition act_len (n : Z) (a : StandaloneActivity) : StandaloneActivity :=
  act_with a (act_Status a) (act_CloseTime a) (act_Result a) (FailureCause a) (act_Identity a) (act_Attempt a)
    (LastHeartbeatTime a) (LeaseExpiry a) n.
Definition act_claim (identity beat lease : string) (a : StandaloneActivity) : StandaloneActivity :=
  act_with a activityStateStarted (act_CloseTime a) (act_Result a) (FailureCause a) identity (act_Attempt a) beat lease (HistoryLength a).
Definition act_requeue (a : StandaloneActivity) : StandaloneActivity :=
  act_with a activityStateScheduled (act_CloseTime a) (act_Result a) (FailureCause a) "" (act_Attempt a + 1)
    (LastHeartbeatTime a) "" (HistoryLength a).
Definition act_beat (beat lease : string) (a : StandaloneActivity) : StandaloneActivity :=
  act_with a (if String.eqb (act_Status a) activityStateScheduled then activityStateStarted else act_Status a)
    (act_CloseTime a) (act_Result a) (FailureCause a) (act_Identity a) (act_Attempt a) beat lease (HistoryLength a).
Definition act_close (status close : string) (result : option json) (cause : string) (a : StandaloneActivity) : StandaloneActivity :=
  act_with a status close (default (act_Result a) result) (if String.eqb cause "" then FailureCause a else cause)
    (act_Identity a) (act_Attempt a) (LastHeartbeatTime a) (LeaseExpiry a) (HistoryLength a).

Definition defaultLeaseTTL : Z := 60 * Second.

Definition activityLeaseTTL (a : StandaloneActivity) (fallback : Z) : Z :=
  match ParseDuration (HeartbeatTimeout a) with
  | Some d => if 0 <? d then d else if 0 <? fallback then fallback else defaultLeaseTTL
  | None => if 0 <? fallback then fallback else defaultLeaseTTL
  end.

(** The order of a claim: oldest first, then by id. [sort.Slice] may order rows
    that compare equal either way; here they keep their order. *)
Definition claim_le (a b : StandaloneActivity) : Prop :=
  (if String.eqb (act_StartTime a) (act_StartTime b) then sle (WorkflowId (act_Execution a)) (WorkflowId (act_Execution b))
   else slt (act_StartTime a) (act_StartTime b)) = true.
#[export] Instance claim_le_dec : RelDecision claim_le := λ a b, _ : Decision (_ = true).

(** The order of a listing. *)
Definition act_le (a b : StandaloneActivity) : Prop :=
  (if String.eqb (WorkflowId (act_Execution a)) (WorkflowId (act_Execution b))
   then sle (RunId (act_Execution a)) (RunId (act_Execution b))
   else slt (WorkflowId (act_Execution a)) (WorkflowId (act_Execution b))) = true.
#[export] Instance act_le_dec : RelDecision act_le := λ a b, _ : Decision (_ = true).

Definition claimable (taskQueue : string) (a : StandaloneActivity) : bool :=
  String.eqb (act_Status a) activityStateScheduled && (String.eqb taskQueue "" || String.eqb (act_TaskQueue a) taskQueue).

(** The row a claim takes: the first that is free, in the order of claims. *)
Definition next_claim (taskQueue : string) (rows : list StandaloneActivity) : option StandaloneActivity :=
  head (filter (λ a, claimable taskQueue a = true) (merge_sort claim_le rows)).

(** Whether the reaper takes an activity: claimed, with a readable lease that has
    passed. *)
Definition lease_expired (now : Z) (a : StandaloneActivity) : bool :=
  String.eqb (act_Status a) activityStateStarted && negb (String.eqb (LeaseExpiry a) "") &&
  match parse_rfc3339 (LeaseExpiry a) with Some t => t <? now | None => false end.

Definition attempts_spent (a : StandaloneActivity) : bool := (0 <? MaximumAttempts a) && (MaximumAttempts a <=? act_Attempt a).

Definition act_cursor (a : StandaloneActivity) : string := WorkflowId (act_Execution a) +:+ "|" +:+ RunId (act_Execution a).

(** Where a page starts: after the row the cursor names, else at the beginning. *)
Definition cursor_start (cursor : string) (rows : list StandaloneActivity) : nat :=
  if String.eqb cursor "" then 0%nat
  else match list_find (λ a, act_cursor a = cursor) rows with Some (i, _) => S i | None => 0%nat end.

Definition page_activities (cursor : string) (pageSize : nat) (rows : list StandaloneActivity) : list StandaloneActivity * string :=
  let start := cursor_start cursor rows in
  let page := take pageSize (drop start rows) in
  (page, if (Nat.min (start + pageSize) (length rows) <? length rows)%nat
         then match last page with Some a => act_cursor a | None => "" end else "").

Section Activities.
Context `{Env}.

Definition DescribeActivity (p : Principal) (ns activityID runID : string) : W (option StandaloneActivity) :=
  store_get p (actKey ns activityID runID).

Definition appendActivityHistory (p : Principal) (ns activityID runID eventType : string) (a : gmap string json) : W HistoryEvent :=
  x ← must_find (DescribeActivity p ns activityID runID) (ErrNotFound "activity");
  let x := act_len (HistoryLength x + 1) x in
  t ← nowRFC3339;
  let ev := {| EventId := HistoryLength x; EventTime := t; EventType := eventType; Attributes := a |} in
  store_put p (ahistKey ns activityID runID (EventId ev)) ev;;
  store_put p (actKey ns activityID runID) x;;
  mret ev.

(** [out, _, _ := DescribeActivity(...)] as the data of an event. *)
Definition describe_data (p : Principal) (ns activityID runID : string) : W (option StandaloneActivity) :=
  r ← attempt (DescribeActivity p ns activityID runID); mret (found r).

(** The activity a request id started before, if it is there. *)
Definition prior_activity (p : Principal) (ns activityID requestID : string) : W (option StandaloneActivity) :=
  if String.eqb requestID "" then mret None else
  r ← attempt (store_get (A := activityIdempotency) p (aidemKey ns activityID requestID));
  match found r with
  | Some prev => if String.eqb (ai_RunId prev) "" then mret None else describe_data p ns activityID (ai_RunId prev)
  | None => mret None
  end.

Definition StartActivity (p : Principal) (ns activityID runID : string) (typ : TypeRef) (taskQueue : string) (input : json)
    (retry : option RetryPolicy) (scheduleToClose scheduleToStart startToClose heartbeat identity requestID : string)
    : W (option StandaloneActivity) :=
  r ← attempt (DescribeNamespace p ns);
  match found r with
  | None => throw (ErrUnregistered ns)
  | Some _ =>
      if String.eqb (TypeName typ) "" then throw (ErrRequired "activity type") else
      if String.eqb activityID "" then throw (ErrRequired "activityId") else
      prior ← prior_activity p ns activityID requestID;
      match prior with
      | Some a => mret (Some a)
      | None =>
          runID ← (if String.eqb runID "" then newRunId else mret runID);
          let taskQueue := set_if_empty taskQueue "default" in
          t ← nowRFC3339;
          let a := {| act_Execution := {| WorkflowId := activityID; RunId := runID |}; act_Type := typ; act_TaskQueue := taskQueue;
                      act_Status := activityStateScheduled; act_StartTime := t; act_CloseTime := ""; act_RetryPolicy := retry;
                      act_Input := input; act_Result := JNull; FailureCause := ""; act_Identity := identity; act_Attempt := 1;
                      MaximumAttempts := match retry with Some r => rp_MaximumAttempts r | None => 0 end;
                      ScheduleToCloseTimeout := scheduleToClose; ScheduleToStartTimeout := scheduleToStart;
                      StartToCloseTimeout := startToClose; HeartbeatTimeout := heartbeat; LastHeartbeatTime := "";
                      LeaseExpiry := ""; HistoryLength := 0 |} in
          store_put p (actKey ns activityID runID) a;;
          (if String.eqb requestID "" then mret tt
           else ignore (store_put p (aidemKey ns activityID requestID) {| ai_RunId := runID |}));;
          appendActivityHistory p ns activityID runID "ACTIVITY_TASK_SCHEDULED"
            (attrs [("activityType", JStr (TypeName typ)); ("taskQueue", JStr taskQueue); ("input", input); ("identity", JStr identity)]);;
          out ← describe_data p ns activityID runID;
          emit p (event "activity.scheduled" ns activityID runID (to_json out));;
          mret out
      end
  end.

(** ** Terminal transitions *)

Definition activityTerminal (p : Principal) (ns activityID runID status eventType evKind : string) (a : gmap string json)
    (result : option json) (cause : string) : W unit :=
  x ← must_find (DescribeActivity p ns activityID runID) (ErrNotFound "activity");
  if isActivityTerminal (act_Status x) then throw (ErrInvalid ("activity terminal: status=" +:+ act_Status x)) else
  t ← nowRFC3339;
  let x := act_close status t result cause x in
  store_put p (actKey ns activityID runID) x;;
  appendActivityHistory p ns activityID runID eventType a;;
  out ← describe_data p ns activityID runID;
  emit p (event evKind ns activityID runID (to_json out));;
  if String.eqb status activityStateFailed then recordFailure p (standaloneFailureIdentity ns x) false cause
  else if String.eqb status activityStateCompleted then clearFailure p (standaloneFailureIdentity ns x)
  else mret tt.

Definition CancelActivity (p : Principal) (ns activityID runID reason identity : string) : W unit :=
  activityTerminal p ns activityID runID activityStateCanceled "ACTIVITY_TASK_CANCELED" "activity.canceled"
    (reason_attrs reason identity) None "".

Definition CompleteActivity (p : Principal) (ns activityID runID : string) (result : json) (identity : string) : W unit :=
  activityTerminal p ns activityID runID activityStateCompleted "ACTIVITY_TASK_COMPLETED" "activity.completed"
    (attrs [("result", result); ("identity", JStr identity)]) (Some result) "".

Definition FailActivity (p : Principal) (ns activityID runID cause identity : string) : W unit :=
  activityTerminal p ns activityID runID activityStateFailed "ACTIVITY_TASK_FAILED" "activity.failed"
    (attrs [("cause", JStr cause); ("identity", JStr identity)]) None cause.

(** ** Leases *)

(** The body of the reaper's loop, on a row [a] of the listing. *)
Definition reap_row (p : Principal) (ns : string) (now : Z) (a : StandaloneActivity) : W unit :=
  if negb (lease_expired now a) then mret tt else
  let wf := WorkflowId (act_Execution a) in let run := RunId (act_Execution a) in
  if attempts_spent a then ignore (FailActivity p ns wf run "lease expired: worker unresponsive" "reaper")
  else
    let a := act_requeue a in
    store_put p (actKey ns wf run) a;;
    appendActivityHistory p ns wf run "ACTIVITY_TASK_TIMED_OUT"
      (attrs [("reason", JStr "lease expired"); ("attempt", JNum (act_Attempt a))]);;
    out ← describe_data p ns wf run;
    emit p (event "activity.timedout" ns wf run (to_json out)).

Definition reapExpiredLeases (p : Principal) (ns : string) : W unit :=
  rows ← listInto StandaloneActivity p (actPrefix ns);
  now ← time_now;
  for_each (reap_row p ns now) rows.

Definition claim_row (p : Principal) (ns identity : string) (lease : Z) (a : StandaloneActivity) : W (option StandaloneActivity) :=
  let wf := WorkflowId (act_Execution a) in let run := RunId (act_Execution a) in
  now ← time_now;
  let a := act_claim identity (format_rfc3339 now) (format_rfc3339 (now + activityLeaseTTL a lease)) a in
  store_put p (actKey ns wf run) a;;
  appendActivityHistory p ns wf run "ACTIVITY_TASK_STARTED"
    (attrs [("identity", JStr identity); ("attempt", JNum (act_Attempt a)); ("leaseExpiry", JStr (LeaseExpiry a))]);;
  out ← describe_data p ns wf run;
  emit p (event "activity.started" ns wf run (to_json out));;
  mret out.

(** [None] when the queue is empty; [Some out] is the activity read back. *)
Definition ClaimNextActivity (p : Principal) (ns taskQueue identity : string) (lease : Z) : W (option (option StandaloneActivity)) :=
  r ← attempt (DescribeNamespace p ns);
  match found r with
  | None => throw (ErrUnregistered ns)
  | Some _ =>
      reapExpiredLeases p ns;;
      rows ← listInto StandaloneActivity p (actPrefix ns);
      match next_claim taskQueue rows with
      | None => mret None
      | Some a => out ← claim_row p ns identity lease a; mret (Some out)
      end
  end.

Definition HeartbeatActivity (p : Principal) (ns activityID runID : string) (details : json) : W unit :=
  a ← must_find (DescribeActivity p ns activityID runID) (ErrNotFound "activity");
  if isActivityTerminal (act_Status a) then throw (ErrInvalid ("activity terminal: status=" +:+ act_Status a)) else
  beat ← nowRFC3339;
  lease ← (if String.eqb (LeaseExpiry a) "" then mret ""
           else now ← time_now; mret (format_rfc3339 (now + activityLeaseTTL a 0)));
  store_put p (actKey ns activityID runID) (act_beat beat lease a);;
  appendActivityHistory p ns activityID runID "ACTIVITY_TASK_HEARTBEAT" (attrs [("details", details)]);;
  emit p (event "activity.heartbeat" ns activityID runID (JObj [("details", details)])).

(** [sweepLeases], run by the scheduler of the root view. *)
Definition sweepLeases (p : Principal) : W unit :=
  r ← attempt (ListNamespaces p);
  match r with
  | inl _ => mret tt
  | inr l => for_each (λ n, ignore (reapExpiredLeases p (ni_Name (ns_Info n)))) l
  end.

(** ** Listings *)

Definition ListActivities (p : Principal) (ns cursor : string) (pageSize : Z) : W (list StandaloneActivity * string) :=
  let pageSize := if pageSize <=? 0 then 100 else pageSize in
  rows ← listInto StandaloneActivity p (actPrefix ns);
  mret (page_activities cursor (Z.to_nat pageSize) (merge_sort act_le rows)).

Definition GetActivityHistory (p : Principal) (ns activityID runID : string) (after pageSize : Z) (reverse : bool)
    : W (list HistoryEvent * Z) :=
  let pageSize := if pageSize <=? 0 then 100 else pageSize in
  must_find (DescribeActivity p ns activityID runID) (ErrNotFound "activity");;
  all ← listInto HistoryEvent p (ahistPrefix ns activityID runID);
  let out := page_events after (Z.to_nat pageSize) reverse all in
  mret (out, if Z.of_nat (length out) =? pageSize then match last out with Some ev => EventId ev | None => 0 end else 0).

End Activities.
