(* ===== verification/Schedules.v ===== *)
(** Schedules: the operations on schedule rows and the sweep that fires them,
    [pkg/tasks/engine.go] and [engine_extras.go]. The crontab parser is the
    [robfig/cron] of the environment. *)

From Stdlib Require Import Ascii ZArith Lia.
From stdpp Require Import prelude strings gmap sorting.
From S2P Require Import Prelude GoStrings Json Types Env Principal GoTime GoDuration Dispatch Events World Failure Workflow Activities.

#[local] Open Scope Z_scope.

(** [time.Time{}], and what [robfig/cron] answers when a spec never fires. *)
Definition zero_time : Z := -62135596800 * Second.

(** ** The next fire *)

(** One candidate: it replaces a zero [earliest], or a later one. *)
Definition earlier (earliest t : Z) : Z := if (earliest =? zero_time) || (t <? earliest) then t else earliest.

Section NextFire.
Context `{Env}.

Definition cron_fire (after earliest : Z) (cs : string) : Z :=
  match env_cron cs with
  | None => earliest
  | Some next => earlier earliest (next after)
  end.

Definition interval_fire (after earliest : Z) (iv : IntervalSpec) : Z :=
  match ParseDuration (Interval iv) with
  | None => earliest
  | Some d => if d <=? 0 then earliest else earlier earliest (after + d)
  end.

Definition nextScheduleFire (s : Schedule) (after : Z) : option Z :=
  let earliest := foldl (cron_fire after) zero_time (CronString (Spec s)) in
  let earliest := foldl (interval_fire after) earliest (IntervalList (Spec s)) in
  if earliest =? zero_time then None else Some earliest.

End NextFire.

(** The first stamp that is there and reads. *)
Definition read_stamp (ts : string) : option Z := if String.eqb ts "" then None else parse_rfc3339 ts.
Definition anchorTime (s : Schedule) (fallback : Z) : Z :=
  match read_stamp (si_UpdateTime (Info s)) with
  | Some t => t
  | None => default fallback (read_stamp (si_CreateTime (Info s)))
  end.

(** ** Keys and members *)

Definition schedKey (ns id : string) : string := "sc" +:+ "/" +:+ ns +:+ "/" +:+ id.
Definition sctrigKey (ns id req : string) : string := "sctrig" +:+ "/" +:+ ns +:+ "/" +:+ id +:+ "/" +:+ req.
Definition scheduleKey (p : Principal) (ns id : string) : string := Principal_String p +:+ "|" +:+ ns +:+ "|" +:+ id.
Definition sweepAllKey : string := scheduleKey {| Org := ""; Project := ""; User := "" |} "" "".

Definition msgActionFailed : string := "tasks: cron schedule action failed".
Definition msgActionRecovered : string := "tasks: cron schedule action recovered".
Definition msgSweepFailed : string := "tasks: schedule sweep failed, no schedule fired this tick".

Definition sc_event (kind ns id : string) (data : json) : Event :=
  {| ev_Kind := kind; ev_OrgID := ""; ev_Namespace := ns; ev_WorkflowID := ""; ev_RunID := "";
     ev_ScheduleID := id; ev_BatchID := ""; ev_At := ""; ev_Data := data |}.

Definition sc_with (s : Schedule) (spec : ScheduleSpec) (action : ScheduleAction) (state : ScheduleState) (info : ScheduleInfo) : Schedule :=
  {| ScheduleId := ScheduleId s; sc_Namespace := sc_Namespace s; Spec := spec; Action := action; State := state; Info := info |}.
Definition sc_info (info : ScheduleInfo) (s : Schedule) : Schedule := sc_with s (Spec s) (Action s) (State s) info.

Definition info_with (i : ScheduleInfo) (create update : string) (count : Z) (next : string) : ScheduleInfo :=
  {| si_CreateTime := create; si_UpdateTime := update; ActionCount := count; NextActionTime := next |}.

(** [NextActionTime] is kept when the schedule has no next fire. *)
Definition next_action `{Env} (s : Schedule) (after : Z) : string :=
  match nextScheduleFire s after with Some t => format_rfc3339 t | None => NextActionTime (Info s) end.

(** The row after a fire at [now]. *)
Definition fired `{Env} (now : Z) (s : Schedule) : Schedule :=
  let s1 := sc_info (info_with (Info s) (si_CreateTime (Info s)) (format_rfc3339 now) (ActionCount (Info s) + 1) (NextActionTime (Info s))) s in
  sc_info (info_with (Info s1) (si_CreateTime (Info s1)) (si_UpdateTime (Info s1)) (ActionCount (Info s1)) (next_action s1 now)) s1.

Section Schedules.
Context `{Env}.

Definition CreateSchedule (p : Principal) (s : Schedule) : W unit :=
  if String.eqb (ScheduleId s) "" then throw (ErrRequired "scheduleId") else
  if String.eqb (sc_Namespace s) "" then throw (ErrRequired "namespace") else
  t ← nowRFC3339;
  let s := sc_info (info_with (Info s) t (si_UpdateTime (Info s)) (ActionCount (Info s)) (NextActionTime (Info s))) s in
  now ← time_now;
  let s := sc_info (info_with (Info s) (si_CreateTime (Info s)) (si_UpdateTime (Info s)) (ActionCount (Info s)) (next_action s now)) s in
  store_put p (schedKey (sc_Namespace s) (ScheduleId s)) s;;
  emit p (sc_event "schedule.created" (sc_Namespace s) (ScheduleId s) (to_json s)).

Definition DescribeSchedule (p : Principal) (ns id : string) : W (option Schedule) := store_get p (schedKey ns id).

Definition ListSchedules (p : Principal) (ns : string) : W (list Schedule) := listInto Schedule p ("sc" +:+ "/" +:+ ns +:+ "/").

Definition DeleteSchedule (p : Principal) (ns id : string) : W unit :=
  fails_ok (scheduleKey p ns id);;
  store_del p (schedKey ns id).

Definition PauseSchedule (p : Principal) (ns id : string) (paused : bool) (note : string) : W unit :=
  s ← must_find (DescribeSchedule p ns id) (ErrNotFound "schedule");
  t ← nowRFC3339;
  store_put p (schedKey ns id)
    (sc_with s (Spec s) (Action s) {| Paused := paused; Note := note |}
       (info_with (Info s) (si_CreateTime (Info s)) t (ActionCount (Info s)) (NextActionTime (Info s)))).

Definition UpdateSchedule (p : Principal) (ns id : string) (in_ : Schedule) : W Schedule :=
  cur ← must_find (DescribeSchedule p ns id) (ErrNotFound "schedule");
  t ← nowRFC3339;
  let cur := sc_with cur (Spec in_) (Action in_) (State in_)
               (info_with (Info cur) (si_CreateTime (Info cur)) t (ActionCount (Info cur)) (NextActionTime (Info cur))) in
  now ← time_now;
  let cur := sc_info (info_with (Info cur) (si_CreateTime (Info cur)) (si_UpdateTime (Info cur)) (ActionCount (Info cur)) (next_action cur now)) cur in
  store_put p (schedKey ns id) cur;;
  broker_publish (sc_event "schedule.updated" ns id (to_json cur));;
  mret cur.

(** The start a schedule stands for, stamped with the schedule it is of. *)
Definition start_action (p : Principal) (s : Schedule) (stamps : list (string * json)) : W WorkflowExecution :=
  startWorkflowFull p (sc_Namespace s) "" "" (sa_WorkflowType (Action s)) (sa_TaskQueue (Action s)) (sa_Input (Action s)) ""
    (attrs stamps) JNull "".

(** The run a request id triggered before, if it is there. *)
Definition prior_trigger (p : Principal) (ns id requestID : string) : W (option WorkflowExecution) :=
  if String.eqb requestID "" then mret None else
  r ← attempt (store_get (A := ExecutionRef) p (sctrigKey ns id requestID));
  match found r with
  | Some prev => if String.eqb (RunId prev) "" then mret None
                 else r ← attempt (DescribeWorkflow p ns (WorkflowId prev) (RunId prev)); mret (found r)
  | None => mret None
  end.

Definition TriggerSchedule (p : Principal) (ns id requestID : string) : W WorkflowExecution :=
  s ← must_find (DescribeSchedule p ns id) (ErrNotFound "schedule");
  prior ← prior_trigger p ns id requestID;
  match prior with
  | Some wf => mret wf
  | None =>
      wf ← start_action p s [(searchAttrScheduleID, JStr (ScheduleId s))];
      t ← nowRFC3339;
      store_put p (schedKey ns id)
        (sc_info (info_with (Info s) (si_CreateTime (Info s)) t (ActionCount (Info s) + 1) (NextActionTime (Info s))) s);;
      (if String.eqb requestID "" then mret tt else ignore (store_put p (sctrigKey ns id requestID) (Execution wf)));;
      broker_publish (sc_event "schedule.triggered" ns id (to_json wf));;
      mret wf
  end.

(** The loop of [ScheduleMatchingTimes]: at most [n] more times. *)
Fixpoint matching_times (n : nat) (s : Schedule) (cursor to : Z) : list Z :=
  match n with
  | 0%nat => []
  | S n => match nextScheduleFire s cursor with
           | Some next => if to <? next then [] else next :: matching_times n s (next + Second) to
           | None => []
           end
  end.

Definition ScheduleMatchingTimes (p : Principal) (ns id : string) (from to : Z) : W (list Z) :=
  s ← must_find (DescribeSchedule p ns id) (ErrNotFound "schedule");
  if to <? from then throw (ErrInvalid "to before from") else
  mret (matching_times 1000 s from to).

(** ** The sweep *)

Definition unreached (ns queue : string) : W (option err) :=
  b ← disp_HasSubscribers ns queue kindWorkflow;
  mret (if b : bool then None else Some (ErrQuery ErrNoWorkersSubscribed)).

(** The text of the fault is not modelled, so the line has no [error] member. *)
Definition reportFire (p : Principal) (s : Schedule) (fault : option err) : W unit :=
  let key := scheduleKey p (sc_Namespace s) (ScheduleId s) in
  match fault with
  | None =>
      n ← fails_ok key;
      if 0 <? n then
        log {| ll_level := LInfo; ll_msg := msgActionRecovered;
               ll_args := [("org", JStr (Org p)); ("namespace", JStr (sc_Namespace s)); ("scheduleId", JStr (ScheduleId s));
                           ("afterConsecutiveFailures", JNum n)] |}
      else mret tt
  | Some _ =>
      r ← fails_fail key;
      if r.2 : bool then
        log {| ll_level := LError; ll_msg := msgActionFailed;
               ll_args := [("org", JStr (Org p)); ("namespace", JStr (sc_Namespace s)); ("scheduleId", JStr (ScheduleId s));
                           ("workflowType", JStr (TypeName (sa_WorkflowType (Action s)))); ("taskQueue", JStr (sa_TaskQueue (Action s)));
                           ("consecutiveFailures", JNum r.1)] |}
      else mret tt
  end.

(** A due schedule: its tenant, its row, and the nominal fire made up. *)
Record due := { due_principal : Principal; due_s : Schedule; due_tick : Z }.

Definition due_of (now : Z) (e : Principal * (string * json)) : option due :=
  s ← of_json (A := Schedule) e.2.2;
  if Paused (State s) then None else
  next ← nextScheduleFire s (anchorTime s now);
  if now <? next then None else Some {| due_principal := e.1; due_s := s; due_tick := next |}.

(** The body of the second phase. *)
Definition fire_due (now : Z) (d : due) : W unit :=
  let p := due_principal d in let s := due_s d in
  r ← attempt (start_action p s [(searchAttrScheduleID, JStr (ScheduleId s));
                                 (searchAttrScheduledStart, JStr (format_rfc3339 (due_tick d)))]);
  match r with
  | inl e => reportFire p s (Some e)
  | inr wf =>
      fault ← unreached (sc_Namespace s) (TaskQueue wf);
      reportFire p s fault;;
      store_put p (schedKey (sc_Namespace s) (ScheduleId s)) (fired now s)
  end.

Definition sweepSchedules : W unit :=
  now ← time_now;
  r ← listEveryTenant ("sc" +:+ "/");
  match r.2 with
  | Some e => throw e
  | None => for_each (fire_due now) (omap (due_of now) r.1)
  end.

(** One tick of the scheduler of the root view [p]. *)
Definition sweepOnce (p : Principal) : W unit :=
  r ← attempt sweepSchedules;
  (match r with
   | inl _ => t ← fails_fail sweepAllKey;
              if t.2 : bool then
                log {| ll_level := LError; ll_msg := msgSweepFailed;
                       ll_args := [("org", JStr (Org p)); ("consecutiveFailures", JNum t.1)] |}
              else mret tt
   | inr _ => fails_ok sweepAllKey;; mret tt
   end);;
  sweepCanceling p;;
  sweepLeases p.

End Schedules.
