(* ===== verification/Deployments.v ===== *)
(** Worker deployments: [pkg/tasks/engine.go], [activities.go] and
    [engine_extras.go]. A deployment series is a list of versions, one of which is
    current; the pure part of each operation is separated from the row it reads
    and writes. *)

From Stdlib Require Import Ascii ZArith Lia.
From stdpp Require Import prelude strings gmap.
From S2P Require Import Prelude GoStrings Json Types Env Principal GoTime World Failure Workflow.

Definition DEPLOYMENT_DRAFT : string := "DEPLOYMENT_STATE_DRAFT".
Definition DEPLOYMENT_CURRENT : string := "DEPLOYMENT_STATE_CURRENT".
Definition DEPLOYMENT_RETIRED : string := "DEPLOYMENT_STATE_RETIRED".

Definition depKey (ns name : string) : string := "dp" +:+ "/" +:+ ns +:+ "/" +:+ name.

Definition dp_with (d : Deployment) (description ownerEmail compute : string) (versions : list DeploymentVersion)
    (default update : string) : Deployment :=
  {| dp_Name := dp_Name d; dp_Namespace := dp_Namespace d; dp_Description := description; dp_OwnerEmail := ownerEmail;
     DefaultCompute := compute; Versions := versions; DefaultBuildId := default; dp_CreateTime := dp_CreateTime d;
     dp_UpdateTime := update |}.
Definition dp_set_versions (versions : list DeploymentVersion) (default update : string) (d : Deployment) : Deployment :=
  dp_with d (dp_Description d) (dp_OwnerEmail d) (DefaultCompute d) versions default update.

Definition dv_set_state (state : string) (v : DeploymentVersion) : DeploymentVersion :=
  {| BuildId := BuildId v; dv_State := state; dv_Description := dv_Description v; Compute := Compute v; Image := Image v;
     Env_ := Env_ v; dv_CreateTime := dv_CreateTime v; dv_UpdateTime := dv_UpdateTime v |}.

(** ** The pure parts *)

(** The loop of [SetCurrentDeploymentVersion]. *)
Definition make_current (buildId : string) (v : DeploymentVersion) : DeploymentVersion :=
  if String.eqb (BuildId v) buildId then dv_set_state DEPLOYMENT_CURRENT v
  else if String.eqb (dv_State v) DEPLOYMENT_CURRENT then dv_set_state DEPLOYMENT_RETIRED v
  else v.

Definition has_build (buildId : string) (d : Deployment) : bool := existsb (λ v, String.eqb (BuildId v) buildId) (Versions d).

Definition set_current (buildId now : string) (d : Deployment) : Deployment :=
  dp_set_versions (make_current buildId <$> Versions d) buildId now d.

Definition delete_version (buildId now : string) (d : Deployment) : Deployment :=
  dp_set_versions (filter (λ v, String.eqb (BuildId v) buildId = false) (Versions d)) (DefaultBuildId d) now d.

Definition new_version (buildId description compute image : string) (env : gmap string string) (now : string) (d : Deployment) : DeploymentVersion :=
  {| BuildId := buildId; dv_State := if String.eqb (DefaultBuildId d) "" then DEPLOYMENT_CURRENT else DEPLOYMENT_DRAFT;
     dv_Description := description; Compute := compute; Image := image; Env_ := env; dv_CreateTime := now; dv_UpdateTime := "" |}.
Definition add_version (v : DeploymentVersion) (now : string) (d : Deployment) : Deployment :=
  dp_set_versions (Versions d ++ [v]) (set_if_empty (DefaultBuildId d) (BuildId v)) now d.

Record DeploymentVersionPatch := {
  vp_Description : option string; vp_Compute : option string; vp_Image : option string; vp_Env : option (gmap string string) }.
Definition patch_version (p : DeploymentVersionPatch) (now : string) (v : DeploymentVersion) : DeploymentVersion :=
  {| BuildId := BuildId v; dv_State := dv_State v; dv_Description := default (dv_Description v) (vp_Description p);
     Compute := default (Compute v) (vp_Compute p); Image := default (Image v) (vp_Image p); Env_ := default (Env_ v) (vp_Env p);
     dv_CreateTime := dv_CreateTime v; dv_UpdateTime := now |}.

(** The loop of [UpdateVersion]: the first version with the build id. *)
Fixpoint patch_first (buildId : string) (p : DeploymentVersionPatch) (now : string) (l : list DeploymentVersion)
    : option (DeploymentVersion * list DeploymentVersion) :=
  match l with
  | [] => None
  | v :: l => if String.eqb (BuildId v) buildId then let v := patch_version p now v in Some (v, v :: l)
              else '(x, l) ← patch_first buildId p now l; Some (x, v :: l)
  end.

Record DeploymentPatch := { pa_Description : option string; pa_OwnerEmail : option string; pa_DefaultCompute : option string }.
Definition patch_deployment (p : DeploymentPatch) (now : string) (d : Deployment) : Deployment :=
  dp_with d (default (dp_Description d) (pa_Description p)) (default (dp_OwnerEmail d) (pa_OwnerEmail p))
    (default (DefaultCompute d) (pa_DefaultCompute p)) (Versions d) (DefaultBuildId d) now.

Definition new_deployment (ns name description ownerEmail compute now : string) : Deployment :=
  {| dp_Name := name; dp_Namespace := ns; dp_Description := description; dp_OwnerEmail := ownerEmail; DefaultCompute := compute;
     Versions := []; DefaultBuildId := ""; dp_CreateTime := now; dp_UpdateTime := "" |}.

(** ** The operations *)

Section Deployments.
Context `{Env}.

Definition DescribeDeployment (p : Principal) (ns name : string) : W (option Deployment) := store_get p (depKey ns name).
Definition ListDeployments (p : Principal) (ns : string) : W (list Deployment) := listInto Deployment p ("dp" +:+ "/" +:+ ns +:+ "/").

Definition CreateDeployment (p : Principal) (ns name description ownerEmail compute : string) : W Deployment :=
  if String.eqb name "" then throw (ErrRequired "name") else
  r ← attempt (DescribeDeployment p ns name);
  match found r with
  | Some _ => throw (ErrExists ("deployment " +:+ quote name))
  | None =>
      t ← nowRFC3339;
      let d := new_deployment ns name description ownerEmail compute t in
      store_put p (depKey ns name) d;;
      mret d
  end.

Definition UpdateDeployment (p : Principal) (ns name : string) (patch : DeploymentPatch) : W Deployment :=
  d ← must_find (DescribeDeployment p ns name) (ErrNotFound "deployment");
  t ← nowRFC3339;
  let d := patch_deployment patch t d in
  store_put p (depKey ns name) d;;
  mret d.

Definition DeleteDeployment (p : Principal) (ns name : string) (force : bool) : W unit :=
  d ← must_find (DescribeDeployment p ns name) (ErrNotFound "deployment");
  if negb force && negb (bool_decide (Versions d = [])) then throw (ErrInvalid ("deployment has " +:+ itoa (Z.of_nat (length (Versions d))) +:+ " versions; use force=true to delete"))
  else store_del p (depKey ns name).

Definition CreateVersion (p : Principal) (ns name buildId description compute image : string) (env : gmap string string) : W DeploymentVersion :=
  if String.eqb buildId "" then throw (ErrRequired "buildId") else
  d ← must_find (DescribeDeployment p ns name) (ErrNotFound "deployment");
  if has_build buildId d then throw (ErrExists ("buildId " +:+ quote buildId)) else
  t ← nowRFC3339;
  let v := new_version buildId description compute image env t d in
  t ← nowRFC3339;
  store_put p (depKey ns name) (add_version v t d);;
  mret v.

Definition UpdateVersion (p : Principal) (ns name buildId : string) (patch : DeploymentVersionPatch) : W DeploymentVersion :=
  d ← must_find (DescribeDeployment p ns name) (ErrNotFound "deployment");
  if negb (has_build buildId d) then throw (ErrNotFound ("buildId " +:+ quote buildId)) else
  t ← nowRFC3339;
  match patch_first buildId patch t (Versions d) with
  | None => throw (ErrNotFound ("buildId " +:+ quote buildId))
  | Some (v, l) => store_put p (depKey ns name) (dp_set_versions l (DefaultBuildId d) t d);; mret v
  end.

Definition SetCurrentDeploymentVersion (p : Principal) (ns name buildId : string) : W Deployment :=
  if String.eqb buildId "" then throw (ErrRequired "buildId") else
  d ← must_find (DescribeDeployment p ns name) (ErrNotFound "deployment");
  if String.eqb (DefaultBuildId d) buildId then mret d else
  if negb (has_build buildId d) then throw (ErrInvalid ("buildId " +:+ quote buildId +:+ " not in deployment")) else
  t ← nowRFC3339;
  let d := set_current buildId t d in
  store_put p (depKey ns name) d;;
  mret d.

Definition DeleteDeploymentVersion (p : Principal) (ns name buildId : string) : W Deployment :=
  d ← must_find (DescribeDeployment p ns name) (ErrNotFound "deployment");
  if String.eqb (DefaultBuildId d) buildId then throw (ErrInvalid "cannot delete current buildId; set-current to another first") else
  if negb (has_build buildId d) then throw (ErrNotFound ("buildId " +:+ quote buildId)) else
  t ← nowRFC3339;
  let d := delete_version buildId t d in
  store_put p (depKey ns name) d;;
  mret d.

(** What a validation reports; [workers] counts the workers registered in [ns]. *)
Record VersionValidationResult := {
  NetworkOk : bool; WorkerRegistered : bool; HeartbeatReceived : bool; LatencyMs : Z; Errors : list string }.

Definition ValidateVersion (p : Principal) (workers : nat) (ns name buildId : string) : W VersionValidationResult :=
  d ← must_find (DescribeDeployment p ns name) (ErrNotFound "deployment");
  if negb (has_build buildId d) then throw (ErrNotFound ("buildId " +:+ quote buildId)) else
  start ← time_now;
  ignore (DescribeDeployment p ns name);;
  stop ← time_now;
  mret {| NetworkOk := true; WorkerRegistered := (0 <? workers)%nat; HeartbeatReceived := false;
          LatencyMs := Z.quot (stop - start) Millisecond; Errors := [] |}.

End Deployments.

(** ** One current version *)

(** The invariant of a series: build ids are distinct and not empty; the default,
    once there is one, is the one version that is current. *)
Record series_ok (d : Deployment) : Prop := {
  so_nodup : NoDup (BuildId <$> Versions d);
  so_named : Forall (λ v, BuildId v ≠ "") (Versions d);
  so_default : (DefaultBuildId d = "" ∧ Versions d = []) ∨ DefaultBuildId d ∈ BuildId <$> Versions d;
  so_current v : v ∈ Versions d → dv_State v = DEPLOYMENT_CURRENT ↔ BuildId v = DefaultBuildId d
}.

Lemma has_build_spec b d : has_build b d = true ↔ b ∈ BuildId <$> Versions d.
Proof.
  unfold has_build. rewrite existsb_exists, list_elem_of_fmap. split.
  - intros (v & Hv & E%String.eqb_eq). exists v. by rewrite list_elem_of_In.
  - intros (v & -> & Hv). exists v. by rewrite <-list_elem_of_In, String.eqb_refl.
Qed.

Lemma new_series_ok ns name de o c t : series_ok (new_deployment ns name de o c t).
Proof. split; cbn; [constructor|constructor|by left|by intros v ?%elem_of_nil]. Qed.

Lemma patch_series_ok p t d : series_ok d → series_ok (patch_deployment p t d).
Proof. by intros []. Qed.

Lemma add_series_ok b de c i e t t' d :
  series_ok d → b ≠ "" → has_build b d = false → series_ok (add_version (new_version b de c i e t d) t' d).
Proof.
  intros [S1 S2 S3 S4] Hb Hn. assert (b ∉ BuildId <$> Versions d) as Hnew by (rewrite <-has_build_spec; congruence).
  split; cbn [add_version dp_set_versions dp_with Versions DefaultBuildId].
  - rewrite fmap_app. apply NoDup_app. split_and!; [done| |apply NoDup_singleton].
    intros x Hx [->|[]%elem_of_nil]%elem_of_cons. done.
  - apply Forall_app. split; [done|]. by apply Forall_singleton.
  - right. rewrite fmap_app. unfold set_if_empty. destruct (String.eqb_spec (DefaultBuildId d) "") as [E|E]; [set_solver|].
    destruct S3 as [[? _]|S3]; [done|]. set_solver.
  - intros v. unfold set_if_empty. destruct (String.eqb_spec (DefaultBuildId d) "") as [E|E].
    + destruct S3 as [[_ ->]|(x & Ex & Hx)%list_elem_of_fmap].
      2: { rewrite Forall_forall in S2. exfalso. apply (S2 x); congruence. }
      intros [->|[]%elem_of_nil]%elem_of_cons. unfold new_version. cbn. by rewrite E.
    + intros [Hv|[->|[]%elem_of_nil]%elem_of_cons]%elem_of_app; [by apply S4|].
      unfold new_version. cbn. rewrite (proj2 (String.eqb_neq _ _) E). split; [done|].
      intros ->. destruct S3 as [[? _]|S3]; [done|]. by destruct Hnew.
Qed.

Lemma make_current_build b v : BuildId (make_current b v) = BuildId v.
Proof. unfold make_current. by repeat case_match. Qed.

Lemma current_series_ok b t d : series_ok d → has_build b d = true → series_ok (set_current b t d).
Proof.
  intros [S1 S2 S3 S4] Hb%has_build_spec.
  assert (BuildId <$> (make_current b <$> Versions d) = BuildId <$> Versions d) as E.
  { rewrite <-list_fmap_compose. apply list_fmap_ext. intros i v _. apply make_current_build. }
  split; cbn [set_current dp_set_versions dp_with Versions DefaultBuildId].
  - by rewrite E.
  - apply Forall_fmap. eapply Forall_impl; [exact S2|]. intros v. cbn. by rewrite make_current_build.
  - right. by rewrite E.
  - intros v (x & -> & Hx)%list_elem_of_fmap. rewrite make_current_build. unfold make_current.
    destruct (String.eqb_spec (BuildId x) b) as [->|Hne]; [done|].
    destruct (String.eqb_spec (dv_State x) DEPLOYMENT_CURRENT) as [Hc|Hc]; cbn; [|done]. by split.
Qed.

Lemma delete_series_ok b t d : series_ok d → DefaultBuildId d ≠ b → series_ok (delete_version b t d).
Proof.
  intros [S1 S2 S3 S4] Hb. split; cbn [delete_version dp_set_versions dp_with Versions DefaultBuildId].
  - eapply sublist_NoDup; [exact S1|]. apply fmap_sublist, sublist_filter.
  - rewrite Forall_forall in S2 |- *. intros v [_ Hv]%list_elem_of_filter. by apply S2.
  - destruct S3 as [[E1 E2]|(x & Ex & Hx)%list_elem_of_fmap]; [left; by rewrite E2|right].
    apply list_elem_of_fmap. exists x. split; [done|]. apply list_elem_of_filter. split; [|done]. apply String.eqb_neq. congruence.
  - intros v [_ Hv]%list_elem_of_filter. by apply S4.
Qed.

Lemma patch_first_spec b p t l v l' : patch_first b p t l = Some (v, l') →
  BuildId <$> l' = BuildId <$> l ∧ dv_State <$> l' = dv_State <$> l.
Proof.
  revert l'. induction l as [|x l IH]; intros l'; cbn; [done|]. case_match; [by intros [= <- <-]|].
  destruct (patch_first b p t l) as [[y l1]|]; [|done]. cbn. intros [= <- <-]. destruct (IH l1 eq_refl) as [E1 E2].
  cbn. by rewrite E1, E2.
Qed.

(** Two lists of versions with the same ids and states satisfy the invariant alike. *)
Lemma same_series_ok d l t :
  BuildId <$> l = BuildId <$> Versions d → dv_State <$> l = dv_State <$> Versions d → series_ok d →
  series_ok (dp_set_versions l (DefaultBuildId d) t d).
Proof.
  intros E1 E2 [S1 S2 S3 S4]. split; cbn [dp_set_versions dp_with Versions DefaultBuildId].
  - by rewrite E1.
  - apply Forall_forall. intros v Hv E. assert ("" ∈ BuildId <$> Versions d) as (x & Ex & Hx)%list_elem_of_fmap.
    { rewrite <-E1. apply list_elem_of_fmap. by exists v. }
    rewrite Forall_forall in S2. by apply (S2 x Hx).
  - rewrite E1. destruct S3 as [[? E]|?]; [left|by right]. split; [done|]. rewrite E in E1. by destruct l.
  - intros v [i Hi]%list_elem_of_lookup. pose proof (f_equal (.!! i) E1) as F1. pose proof (f_equal (.!! i) E2) as F2. cbn in F1, F2.
    rewrite !list_lookup_fmap, Hi in F1, F2. destruct (Versions d !! i) as [x|] eqn:Ex; [|done]. cbn in F1, F2.
    injection F1 as ->. injection F2 as ->. apply S4. by eapply list_elem_of_lookup_2.
Qed.
