(* ===== verification/Admin.v ===== *)
(** The rest of the engine's rows: search attributes, metadata, batches, nexus
    endpoints, identities and the worker registry, [pkg/tasks/engine.go] and
    [engine_extras.go]. *)

From Stdlib Require Import Ascii ZArith Lia.
From stdpp Require Import prelude strings gmap sorting.
From S2P Require Import Prelude GoStrings Json Types Env Principal Shard GoTime Events World Failure Workflow.

Definition validSearchAttrTypes : list string := ["Keyword"; "Text"; "Int"; "Double"; "Bool"; "Datetime"; "KeywordList"].
Definition reservedSearchAttrNames : list string :=
  ["WorkflowType"; "WorkflowId"; "RunId"; "ExecutionStatus"; "StartTime"; "CloseTime"; "TaskQueue"].

Definition reserved_attr (name : string) : bool :=
  bool_decide (name ∈ reservedSearchAttrNames) || has_prefix name "Temporal".

Definition attrKey (ns name : string) : string := "sa" +:+ "/" +:+ ns +:+ "/" +:+ name.
Definition batchKey (ns id : string) : string := "bt" +:+ "/" +:+ ns +:+ "/" +:+ id.
Definition nexusKey (ns name : string) : string := "nx" +:+ "/" +:+ ns +:+ "/" +:+ name.
Definition identityKey (ns email : string) : string := "id" +:+ "/" +:+ ns +:+ "/" +:+ email.

Record NamespaceMetadataPatch := {
  np_Description : option string; np_OwnerEmail : option string; np_Retention : option string;
  np_HistoryArchivalState : option string; np_HistoryArchivalUri : option string;
  np_VisibilityArchivalState : option string; np_VisibilityArchivalUri : option string;
  np_CustomData : option (gmap string string) }.

Definition patch_namespace (p : NamespaceMetadataPatch) (n : Namespace) : Namespace :=
  let i := ns_Info n in let c := ns_Config n in
  {| ns_Info := {| ni_Name := ni_Name i; ni_State := ni_State i; ni_Description := default (ni_Description i) (np_Description p);
                   ni_OwnerEmail := default (ni_OwnerEmail i) (np_OwnerEmail p); ni_Region := ni_Region i;
                   ni_CreateTime := ni_CreateTime i |};
     ns_Config := {| WorkflowExecutionRetentionTtl := default (WorkflowExecutionRetentionTtl c) (np_Retention p);
                     APSLimit := APSLimit c;
                     HistoryArchivalState := default (HistoryArchivalState c) (np_HistoryArchivalState p);
                     HistoryArchivalUri := default (HistoryArchivalUri c) (np_HistoryArchivalUri p);
                     VisibilityArchivalState := default (VisibilityArchivalState c) (np_VisibilityArchivalState p);
                     VisibilityArchivalUri := default (VisibilityArchivalUri c) (np_VisibilityArchivalUri p);
                     CustomData := default (CustomData c) (np_CustomData p) |};
     IsActive := IsActive n |}.

Definition deprecate (n : Namespace) : Namespace :=
  let i := ns_Info n in
  {| ns_Info := {| ni_Name := ni_Name i; ni_State := "NAMESPACE_STATE_DELETED"; ni_Description := ni_Description i;
                   ni_OwnerEmail := ni_OwnerEmail i; ni_Region := ni_Region i; ni_CreateTime := ni_CreateTime i |};
     ns_Config := ns_Config n; IsActive := false |}.

(** A metadata update of a run: empty texts keep what is there. *)
Definition merge_metadata (prev : option WorkflowUserMetadata) (m : WorkflowUserMetadata) (now : string) : WorkflowUserMetadata :=
  let cur := default {| Summary := ""; Details := ""; UpdatedBy := ""; UpdatedAt := "" |} prev in
  {| Summary := set_if_empty (Summary m) (Summary cur); Details := set_if_empty (Details m) (Details cur);
     UpdatedBy := UpdatedBy m; UpdatedAt := now |}.
Definition wf_set_meta (m : WorkflowUserMetadata) (x : WorkflowExecution) : WorkflowExecution :=
  {| Execution := Execution x; Type_ := Type_ x; StartTime := StartTime x; CloseTime := CloseTime x; Status := Status x;
     TaskQueue := TaskQueue x; HistoryLen := HistoryLen x; Memo := Memo x; SearchAttrs := SearchAttrs x; Input := Input x;
     Result := Result x; UserMetadata := Some m |}.

Definition BATCH_RUNNING : string := "BATCH_OPERATION_STATE_RUNNING".
Definition BATCH_TERMINATED : string := "BATCH_OPERATION_STATE_TERMINATED".
Definition bt_with (b : BatchOperation) (id state start close : string) : BatchOperation :=
  {| BatchId := id; bt_Namespace := bt_Namespace b; Operation := Operation b; Reason := Reason b; Query := Query b;
     bt_State := state; bt_StartTime := start; bt_CloseTime := close; TotalCount := TotalCount b; DoneCount := DoneCount b |}.

(** [ListWorkflowChain]: newest first. [sort.Slice] may order runs started in the
    same second either way; here they keep their order. *)
Definition newer (a b : WorkflowExecution) : Prop := sle (StartTime b) (StartTime a) = true.
#[export] Instance newer_dec : RelDecision newer := λ a b, _ : Decision (_ = true).

Section Admin.
Context `{Env}.

(** ** Search attributes *)

Definition AddSearchAttribute (p : Principal) (ns : string) (sa : SearchAttribute) : W unit :=
  namespace p ns;;
  if String.eqb (attr_Name sa) "" then throw (ErrRequired "search attribute name") else
  if reserved_attr (attr_Name sa) then throw (ErrInvalid ("search attribute " +:+ quote (attr_Name sa) +:+ " is reserved")) else
  if negb (bool_decide (attr_Type sa ∈ validSearchAttrTypes)) then throw (ErrInvalid ("invalid search attribute type " +:+ quote (attr_Type sa))) else
  r ← attempt (store_get (A := SearchAttribute) p (attrKey ns (attr_Name sa)));
  match found r with
  | Some _ => throw (ErrExists ("search attribute " +:+ quote (attr_Name sa)))
  | None => store_put p (attrKey ns (attr_Name sa)) sa
  end.

Definition ListSearchAttributes (p : Principal) (ns : string) : W (list SearchAttribute) :=
  listInto SearchAttribute p ("sa" +:+ "/" +:+ ns +:+ "/").

Definition RemoveSearchAttribute (p : Principal) (ns name : string) : W unit :=
  r ← attempt (DescribeNamespace p ns);
  match found r with
  | None => throw (ErrUnregistered ns)
  | Some _ => if String.eqb name "" then throw (ErrRequired "search attribute name") else store_del p (attrKey ns name)
  end.

(** ** Metadata *)

Definition UpdateNamespaceMetadata (p : Principal) (name : string) (patch : NamespaceMetadataPatch) : W Namespace :=
  n ← must_find (DescribeNamespace p name) (ErrUnregistered name);
  let n := patch_namespace patch n in
  store_put p ("ns" +:+ "/" +:+ name) n;;
  mret n.

Definition DeprecateNamespace (p : Principal) (name : string) : W Namespace :=
  n ← must_find (DescribeNamespace p name) (ErrUnregistered name);
  let n := deprecate n in
  store_put p ("ns" +:+ "/" +:+ name) n;;
  mret n.

Definition UpdateWorkflowMetadata (p : Principal) (ns wfID runID : string) (m : WorkflowUserMetadata) : W WorkflowExecution :=
  wf ← must_find (DescribeWorkflow p ns wfID runID) (ErrNotFound "workflow");
  t ← nowRFC3339;
  let wf := wf_set_meta (merge_metadata (UserMetadata wf) m t) wf in
  store_put p (runKey ns (WorkflowId (Execution wf)) (RunId (Execution wf))) wf;;
  mret wf.

Definition ListWorkflowChain (p : Principal) (ns wfID : string) : W (list WorkflowExecution) :=
  rows ← listInto WorkflowExecution p ("wf" +:+ "/" +:+ ns +:+ "/" +:+ wfID +:+ "/");
  mret (merge_sort newer rows).

(** ** Batches *)

Definition StartBatch (p : Principal) (b : BatchOperation) : W BatchOperation :=
  id ← (if String.eqb (BatchId b) "" then r ← newRunId; mret ("batch-" +:+ String.substring 0 12 r) else mret (BatchId b));
  t ← nowRFC3339;
  let b := bt_with b id BATCH_RUNNING t (bt_CloseTime b) in
  store_put p (batchKey (bt_Namespace b) (BatchId b)) b;;
  mret b.

Definition DescribeBatch (p : Principal) (ns id : string) : W (option BatchOperation) := store_get p (batchKey ns id).
Definition ListBatches (p : Principal) (ns : string) : W (list BatchOperation) := listInto BatchOperation p ("bt" +:+ "/" +:+ ns +:+ "/").

Definition bt_event (ns id : string) (data : json) : Event :=
  {| ev_Kind := "batch.terminated"; ev_OrgID := ""; ev_Namespace := ns; ev_WorkflowID := ""; ev_RunID := "";
     ev_ScheduleID := ""; ev_BatchID := id; ev_At := ""; ev_Data := data |}.

Definition TerminateBatch (p : Principal) (ns id reason identity : string) : W BatchOperation :=
  b ← must_find (DescribeBatch p ns id) (ErrNotFound "batch");
  if String.eqb (bt_State b) BATCH_TERMINATED then mret b else
  t ← nowRFC3339;
  let b := bt_with b (BatchId b) BATCH_TERMINATED (bt_StartTime b) t in
  store_put p (batchKey ns (BatchId b)) b;;
  emit p (bt_event ns (BatchId b) (JObj [("reason", JStr reason); ("identity", JStr identity)]));;
  mret b.

(** ** Nexus endpoints and identities *)

Definition CreateNexusEndpoint (p : Principal) (n : NexusEndpoint) : W unit :=
  if String.eqb (nx_Name n) "" then throw (ErrRequired "nexus endpoint name") else
  t ← nowRFC3339;
  store_put p (nexusKey (nx_Namespace n) (nx_Name n))
    {| nx_Name := nx_Name n; nx_Namespace := nx_Namespace n; nx_Description := nx_Description n; Target := Target n; nx_CreateTime := t |}.
Definition ListNexusEndpoints (p : Principal) (ns : string) : W (list NexusEndpoint) := listInto NexusEndpoint p ("nx" +:+ "/" +:+ ns +:+ "/").
Definition ListAllNexusEndpoints (p : Principal) : W (list NexusEndpoint) := listInto NexusEndpoint p ("nx" +:+ "/").
Definition DeleteNexusEndpoint (p : Principal) (ns name : string) : W unit :=
  if String.eqb ns "" || String.eqb name "" then throw (ErrRequired "namespace + name") else store_del p (nexusKey ns name).

Definition GrantIdentity (p : Principal) (i : Identity) : W unit :=
  if String.eqb (Email i) "" || String.eqb (id_Namespace i) "" then throw (ErrRequired "email + namespace") else
  t ← nowRFC3339;
  store_put p (identityKey (id_Namespace i) (Email i))
    {| Email := Email i; id_Namespace := id_Namespace i; Role := Role i; GrantTime := t |}.
Definition ListIdentities (p : Principal) (ns : string) : W (list Identity) := listInto Identity p ("id" +:+ "/" +:+ ns +:+ "/").
Definition RevokeIdentity (p : Principal) (ns email : string) : W unit :=
  if String.eqb ns "" || String.eqb email "" then throw (ErrRequired "namespace + email") else store_del p (identityKey ns email).

Definition QueryArchival : json :=
  JObj [("enabled", JBool false); ("executions", JArr []); ("nextPageToken", JStr ""); ("error", JStr "archival disabled")].

End Admin.

(** ** The worker registry

    In memory, by namespace and identity. *)

Record Worker := {
  wk_Identity : string; wk_Namespace : string; wk_TaskQueue : string; wk_SDKName : string; wk_SDKVersion : string;
  wk_LastHeartbeat : string; wk_FirstSeen : string }.

Definition workerRegistry : Type := gmap string (gmap string Worker).
Definition newWorkerRegistry : workerRegistry := ∅.

(** What a later registration keeps of the first one. *)
Definition refresh_worker (now : string) (w cur : Worker) : Worker :=
  {| wk_Identity := wk_Identity cur; wk_Namespace := wk_Namespace cur; wk_TaskQueue := set_if_empty (wk_TaskQueue w) (wk_TaskQueue cur);
     wk_SDKName := set_if_empty (wk_SDKName w) (wk_SDKName cur); wk_SDKVersion := set_if_empty (wk_SDKVersion w) (wk_SDKVersion cur);
     wk_LastHeartbeat := now; wk_FirstSeen := wk_FirstSeen cur |}.
Definition first_worker (now : string) (w : Worker) : Worker :=
  {| wk_Identity := wk_Identity w; wk_Namespace := wk_Namespace w; wk_TaskQueue := wk_TaskQueue w; wk_SDKName := wk_SDKName w;
     wk_SDKVersion := wk_SDKVersion w; wk_LastHeartbeat := now; wk_FirstSeen := now |}.

Definition worker_Register (now : string) (w : Worker) (r : workerRegistry) : option Worker * workerRegistry :=
  if String.eqb (wk_Namespace w) "" || String.eqb (wk_Identity w) "" then (None, r) else
  let bucket := default ∅ (r !! wk_Namespace w) in
  let x := match bucket !! wk_Identity w with Some cur => refresh_worker now w cur | None => first_worker now w end in
  (Some x, <[wk_Namespace w := <[wk_Identity w := x]> bucket]> r).

Definition worker_Get (ns identity : string) (r : workerRegistry) : option Worker := r !! ns ≫= (.!! identity).

Definition worker_le (a b : Worker) : Prop := sle (wk_Identity a) (wk_Identity b) = true.
#[export] Instance worker_le_dec : RelDecision worker_le := λ a b, _ : Decision (_ = true).
Definition worker_List (ns : string) (r : workerRegistry) : list Worker :=
  match r !! ns with
  | None => []
  | Some bucket => merge_sort worker_le (map_to_list bucket).*2
  end.
