(* ===== verification/Retention.v ===== *)
(** Retention: [pkg/tasks/retention.go]. The purge walks the run rows of a
    namespace, a page per pass, and removes every terminal run whose retention has
    passed with the keys that belong to it; the run's row goes last. *)

From Stdlib Require Import Ascii ZArith Lia.
From stdpp Require Import prelude strings gmap.
From S2P Require Import Prelude GoStrings Json Types EngineTypes Env Principal GoTime GoDuration Events World Failure Workflow Durable Activities Schedules.

#[local] Open Scope Z_scope.

Definition purgeBatch : Z := 512.
Definition msgPurgeFailed : string := "tasks: retention purge failed".

Definition purgeKey (ns : string) : string := "purge" +:+ "/" +:+ ns.

(** The two phases of a walk: workflow runs, then standalone activities. *)
Inductive phase := PhaseRuns | PhaseActivities.
Definition phase_prefix (ns : string) (f : phase) : string :=
  match f with PhaseRuns => "wf" +:+ "/" +:+ ns +:+ "/" | PhaseActivities => "act" +:+ "/" +:+ ns +:+ "/" end.
Definition runPrefixes (ns : string) : list string := phase_prefix ns <$> [PhaseRuns; PhaseActivities].

(** The phases a walk has left, from its cursor. *)
Definition phases_from (ns at_ : string) : list phase :=
  if has_prefix at_ (phase_prefix ns PhaseActivities) then [PhaseActivities] else [PhaseRuns; PhaseActivities].

Definition closedAt (closeTime startTime : string) : Z :=
  default zero_time (parse_rfc3339 (if String.eqb closeTime "" then startTime else closeTime)).

Definition retentionOf (n : Namespace) : option Z :=
  match ParseDuration (set_if_empty (WorkflowExecutionRetentionTtl (ns_Config n)) defaultRetention) with
  | Some d => if d <=? 0 then None else Some d
  | None => None
  end.

(** Whether a row read in a phase may be removed. *)
Definition purgeable (f : phase) (cutoff : Z) (status closeTime startTime : string) : bool :=
  (match f with PhaseRuns => isTerminal status | PhaseActivities => isActivityTerminal status end) &&
  (closedAt closeTime startTime <=? cutoff).

Section Retention.
Context `{Env}.

Definition delAll (p : Principal) (keys : list string) : W unit := for_each (store_del p) keys.

(** The keys under [prefix] whose row satisfies [keep]. *)
Definition keys_where (p : Principal) (prefix : string) (keep : json → bool) : W (list string) :=
  rows ← store_list p prefix; mret (filter (λ r, keep r.2 = true) rows).*1.

Definition holds_run (run : string) (j : json) : bool := bool_decide (of_json (A := string) j = Some run).
Definition holds_ref (wf run : string) (j : json) : bool :=
  match of_json (A := ExecutionRef) j with Some r => String.eqb (WorkflowId r) wf && String.eqb (RunId r) run | None => false end.
Definition holds_activity (run : string) (j : json) : bool :=
  match of_json (A := activityIdempotency) j with Some r => String.eqb (ai_RunId r) run | None => false end.

(** Every key of a workflow run but its index entry and its row. *)
Definition run_keys (p : Principal) (ns wfID run : string) (wf : WorkflowExecution) : W (list string) :=
  k1 ← keys_where p (histPrefix ns wfID run) (λ _, true);
  k2 ← keys_where p (wfActPrefix ns wfID run) (λ _, true);
  k3 ← keys_where p ("idem" +:+ "/" +:+ ns +:+ "/" +:+ wfID +:+ "/") (holds_run run);
  let sid := attr_string (SearchAttrs wf) searchAttrScheduleID in
  k4 ← (if String.eqb sid "" then mret []
        else keys_where p ("sctrig" +:+ "/" +:+ ns +:+ "/" +:+ sid +:+ "/") (holds_ref wfID run));
  mret (k1 ++ k2 ++ k3 ++ k4).

(** Whether the run is gone; a deletion that failed half way counts, and reports. *)
Definition purgeWorkflowRun (p : Principal) (ns : string) (ref : ExecutionRef) (cutoff : Z) : W (bool * option err) :=
  let wfID := WorkflowId ref in let run := RunId ref in
  o ← DescribeWorkflow p ns wfID run;
  match o with
  | None => mret (false, None)
  | Some wf =>
      if negb (purgeable PhaseRuns cutoff (Status wf) (CloseTime wf) (StartTime wf)) then mret (false, None) else
      keys ← run_keys p ns wfID run wf;
      r ← attempt (delAll p (keys ++ [openKey ns wfID run; runKey ns wfID run]));
      mret (true, match r with inl e => Some e | inr _ => None end)
  end.

Definition purgeActivityRun (p : Principal) (ns : string) (ref : ExecutionRef) (cutoff : Z) : W (bool * option err) :=
  let id := WorkflowId ref in let run := RunId ref in
  o ← DescribeActivity p ns id run;
  match o with
  | None => mret (false, None)
  | Some a =>
      if negb (purgeable PhaseActivities cutoff (act_Status a) (act_CloseTime a) (act_StartTime a)) then mret (false, None) else
      k1 ← keys_where p (ahistPrefix ns id run) (λ _, true);
      k2 ← keys_where p ("aidem" +:+ "/" +:+ ns +:+ "/" +:+ id +:+ "/") (holds_activity run);
      r ← attempt (delAll p (k1 ++ k2 ++ [actKey ns id run]));
      mret (true, match r with inl e => Some e | inr _ => None end)
  end.

Definition purge_one (f : phase) (p : Principal) (ns : string) (ref : ExecutionRef) (cutoff : Z) : W (bool * option err) :=
  match f with PhaseRuns => purgeWorkflowRun p ns ref cutoff | PhaseActivities => purgeActivityRun p ns ref cutoff end.

(** The rows of a page. A run that cannot be purged is passed over; the first
    error is kept. *)
Fixpoint purge_rows (f : phase) (p : Principal) (ns : string) (cutoff : Z) (rows : list runRow) (purged : Z) (first : option err)
    : W (Z * option err) :=
  match rows with
  | [] => mret (purged, first)
  | r :: rows =>
      if negb (purgeable f cutoff (rr_Status r) (rr_CloseTime r) (rr_StartTime r)) then purge_rows f p ns cutoff rows purged first else
      res ← attempt (purge_one f p ns (rr_Execution r) cutoff);
      let '(gone, e) := match res with inl e => (false, Some e) | inr x => x end in
      purge_rows f p ns cutoff rows (if gone : bool then purged + 1 else purged) (match first with Some _ => first | None => e end)
  end.

(** The loop of [purge], a phase per turn: a page shorter than what is left ends
    its prefix. Returns the cursor, and whether the walk reached the end. *)
Fixpoint purge_walk (phases : list phase) (p : Principal) (ns : string) (cutoff : Z) (at_ : string) (left purged : Z) (first : option err)
    : W (string * bool * Z * option err) :=
  match phases with
  | [] => mret ("", true, purged, first)
  | f :: phases =>
      if left <=? 0 then mret (at_, false, purged, first) else
      r ← page p (phase_prefix ns f) at_ left;
      let '(rows, last, read) := r in
      r ← purge_rows f p ns cutoff rows purged first;
      if 0 <? left - read then purge_walk phases p ns cutoff "" (left - read) r.1 r.2
      else mret (last, false, r.1, r.2)
  end.

(** How many runs a pass removed, and the first error it passed over; an error
    that ends the pass is thrown. *)
Definition purge (p : Principal) (n : Namespace) (now limit : Z) : W (Z * option err) :=
  let ns := ni_Name (ns_Info n) in
  match retentionOf n with
  | None => throw (ErrInvalid "retention")
  | Some keep =>
      let cutoff := now - keep in
      o ← store_get (A := string) p (purgeKey ns);
      let from := default "" o in
      r ← purge_walk (phases_from ns from) p ns cutoff from limit 0 None;
      let '(at_, walked, purged, first) := r in
      (if String.eqb at_ from then mret tt else store_put p (purgeKey ns) at_);;
      r ← attempt (store_reclaim p ns walked);
      mret (purged, match first, r with Some e, _ => Some e | None, inl e => Some e | None, inr _ => None end)
  end.

Definition reportPurge (p : Principal) (ns : string) (e : option err) : W unit :=
  let key := "purge|" +:+ Principal_String p +:+ "|" +:+ ns in
  match e with
  | None | Some ErrClosed => fails_ok key;; mret tt
  | Some _ =>
      r ← fails_fail key;
      if r.2 : bool then
        log {| ll_level := LError; ll_msg := msgPurgeFailed;
               ll_args := [("org", JStr (Org p)); ("namespace", JStr ns); ("consecutiveFailures", JNum r.1)] |}
      else mret tt
  end.

Definition purge_targets (rows : list (Principal * (string * json))) : list (Principal * Namespace) :=
  omap (λ e, n ← of_json (A := Namespace) e.2.2; if String.eqb (ni_Name (ns_Info n)) "" then None else Some (e.1, n)) rows.

(** [purgeOnce]: the namespaces listed before an error are still purged. *)
Definition purgeOnce (now : Z) : W unit :=
  r ← listEveryTenant ("ns" +:+ "/");
  reportPurge {| Org := ""; Project := ""; User := "" |} "" r.2;;
  for_each (λ t : Principal * Namespace,
    res ← attempt (purge t.1 t.2 now purgeBatch);
    reportPurge t.1 (ni_Name (ns_Info t.2)) (match res with inl e => Some e | inr x => x.2 end)) (purge_targets r.1).

End Retention.
