(* ===== verification/Surface.v ===== *)
(** The HTTP surface ([answer.go], [surface.go], the handlers of [embed.go]): a call
    in, an answer out. The operations hold no transport type; a mux that splits a path
    and a table of routes both reach them. *)

From Corelib Require Import SpecFloat.
From Stdlib Require Import Ascii ZArith Lia.
From stdpp Require Import prelude strings gmap.
From S2P Require Import Prelude GoStrings Json Types EngineTypes Env Principal Router Shard GoTime Temporal Dispatch Events World Failure Workflow Durable Visibility Activities Schedules Deployments Admin.

Local Open Scope Z_scope.

(** ** Calls and answers *)

Inductive method := GET | POST | DELETE | Verb (name : string).
#[export] Instance method_eq : EqDecision method.
Proof. solve_decision. Defined.

(** What an operation reads. [cl_unread] is the transport's failure to deliver a body;
    the body is what its bytes denote. *)
Record call := { cl_method : method; cl_query : list (string * string); cl_body : raw; cl_unread : bool }.

(** [url.Values.Get]: the first value. *)
Fixpoint first_value (k : string) (l : list (string * string)) : string :=
  match l with
  | [] => ""
  | (k', v) :: l => if String.eqb k' k then v else first_value k l
  end.
Definition query (rq : call) (k : string) : string := first_value k (cl_query rq).

(** [call.decode]; [None] is an error. An empty body leaves the zero value. *)
Definition decode {A} `{Codec A} (rq : call) : option A :=
  if cl_unread rq then None else
  match cl_body rq with
  | RNone => Some zero
  | RJson j => of_json j
  | RBad => None
  end.

(** The members of a body that is decoded into a struct. *)
Definition members (rq : call) : option (list (string * json)) :=
  if cl_unread rq then None else
  match cl_body rq with
  | RNone => Some []
  | RJson j => as_obj j
  | RBad => None
  end.
(** [_ = rq.decode(&req)]: the members whose type fits are set, the others keep their
    zero value. *)
Definition loose {A} `{Codec A} (rq : call) (k : string) : A :=
  default zero (o ← members rq; rd o k).

Inductive content := NoContent | JsonContent (j : json) | TextContent (s : string).
Record answer := { an_status : Z; an_ctype : string; an_nosniff : bool; an_body : content }.

Definition ctypeJSON : string := "application/json".
Definition ctypePlain : string := "text/plain; charset=utf-8".

(** [render]: the document; its text is not modelled. *)
Definition render (v : json) : content := JsonContent v.
Definition ok (v : json) : answer := {| an_status := 200; an_ctype := ctypeJSON; an_nosniff := false; an_body := render v |}.
Definition fault (code : Z) (msg : string) : answer :=
  {| an_status := code; an_ctype := ctypeJSON; an_nosniff := false; an_body := render (JObj [("code", JNum code); ("error", JStr msg)]) |}.
Definition plain (code : Z) (msg : string) : answer :=
  {| an_status := code; an_ctype := ctypePlain; an_nosniff := true; an_body := TextContent (msg +:+ String "010" "") |}.
Definition absent : answer := plain 404 "404 page not found".
Definition empty (code : Z) : answer := {| an_status := code; an_ctype := ""; an_nosniff := false; an_body := NoContent |}.

(** ** The grammar of paths *)

Definition ident_char (c : ascii) : bool :=
  in_range "A" "Z" c || in_range "a" "z" c || in_range "0" "9" c || Ascii.eqb c "_" || Ascii.eqb c "-" || Ascii.eqb c ".".
Fixpoint every_byte (f : ascii → bool) (s : string) : bool :=
  match s with
  | EmptyString => true
  | String c s => f c && every_byte f s
  end.
Definition validIdent (s : string) : bool :=
  if String.eqb s "" || (64 <? String.length s)%nat || String.eqb s "." || String.eqb s ".." then false
  else every_byte ident_char s.
Definition validPathSegment (s : string) : bool :=
  if String.eqb s "." || String.eqb s ".." then false
  else every_byte (λ c, negb (Ascii.eqb c "000") && negb (Ascii.eqb c "/")) s.

(** [grammar]: the refusal, if there is one. *)
Definition grammar (ns : string) (rest : list string) : option answer :=
  if negb (validIdent ns) then Some (fault 400 "invalid namespace")
  else if negb (forallb validPathSegment rest) then Some (fault 400 "invalid path segment")
  else None.

(** [parseInt64]: decimal digits, wrapping at 64 bits; anything else is zero. *)
Fixpoint parse_digits (n : Z) (s : string) : Z :=
  match s with
  | EmptyString => n
  | String c s => if in_range "0" "9" c then parse_digits (wrap64 (n * 10 + (Z.of_N (N_of_ascii c) - 48))) s else 0
  end.
Definition parseInt64 (s : string) : Z := parse_digits 0 s.

(** [parseTimeParam]: the first of two stamps that parses. *)
Definition parseTimeParam (a b : string) (def : Z) : Z :=
  match (if String.eqb a "" then None else parse_rfc3339 a) with
  | Some t => t
  | None => match (if String.eqb b "" then None else parse_rfc3339 b) with Some t => t | None => def end
  end.

(** ** Settings *)

Definition envBool (getenv : string → string) (k : string) (def : bool) : bool :=
  let v := getenv k in
  if String.eqb v "" then def
  else if bool_decide (to_lower v ∈ ["1"; "true"; "yes"; "on"]) then true
  else if bool_decide (to_lower v ∈ ["0"; "false"; "no"; "off"]) then false
  else def.
Definition tasksVersion (getenv : string → string) : string :=
  let v := getenv "TASKSD_VERSION" in if String.eqb v "" then "v3.5.0" else v.
Definition settingsResponse (getenv : string → string) : json :=
  let flag k def := JBool (envBool getenv k def) in
  JObj [("version", JStr (tasksVersion getenv));
        ("namespaceWriteDisabled", flag "TASKSD_NAMESPACE_WRITE_DISABLED" false);
        ("archivalEnabled", flag "TASKSD_ARCHIVAL_ENABLED" false);
        ("visibilityArchivalEnabled", flag "TASKSD_VISIBILITY_ARCHIVAL_ENABLED" false);
        ("advancedVisibilityEnabled", flag "TASKSD_ADVANCED_VISIBILITY_ENABLED" true);
        ("workerHeartbeatsEnabled", flag "TASKSD_WORKER_HEARTBEATS_ENABLED" true);
        ("codecEndpointsEnabled", flag "TASKSD_CODEC_ENDPOINTS_ENABLED" false);
        ("multiClusterEnabled", flag "TASKSD_MULTI_CLUSTER_ENABLED" false);
        ("capabilities", JObj (
           (λ k, (k, JBool (negb (String.eqb k "eagerWorkflowStart")))) <$>
             ["signalAndQueryHeader"; "internalErrorDifferentiation"; "activityFailureIncludeHeartbeat"; "supportsSchedules";
              "encodedFailureAttributes"; "upsertMemo"; "eagerWorkflowStart"; "sdkMetadata"; "countGroupByExecutionStatus"]))].

(** ** Task queues, read off the runs *)

Definition queue_of (wf : WorkflowExecution) : string := if String.eqb (TaskQueue wf) "" then "default" else TaskQueue wf.
Definition is_running (wf : WorkflowExecution) : bool := String.eqb (Status wf) RUNNING.

Record taskQueueSummary := { tq_Name : string; tq_Workflows : Z; tq_Running : Z; tq_LatestStart : string }.
Definition summary_json (s : taskQueueSummary) : json :=
  JObj (fld "name" (tq_Name s) ++ fld "workflows" (tq_Workflows s) ++ fld "running" (tq_Running s) ++ fld_omit "latestStart" (tq_LatestStart s)).

Definition count_run (wf : WorkflowExecution) (s : taskQueueSummary) : taskQueueSummary :=
  {| tq_Name := tq_Name s; tq_Workflows := tq_Workflows s + 1; tq_Running := tq_Running s + (if is_running wf then 1 else 0);
     tq_LatestStart := if slt (tq_LatestStart s) (StartTime wf) then StartTime wf else tq_LatestStart s |}.
Definition add_run (by_ : gmap string taskQueueSummary) (wf : WorkflowExecution) : gmap string taskQueueSummary :=
  let q := queue_of wf in
  <[q := count_run wf (default {| tq_Name := q; tq_Workflows := 0; tq_Running := 0; tq_LatestStart := "" |} (by_ !! q))]> by_.
(** The order of a Go map is not fixed; here it is that of the finite map. *)
Definition aggregateTaskQueues (rows : list WorkflowExecution) : list taskQueueSummary := (map_to_list (foldl add_run ∅ rows)).*2.

Definition taskQueueDetail (rows : list WorkflowExecution) (queue : string) : json :=
  let matches := filter (λ wf, queue_of wf = queue) rows in
  JObj [("name", JStr queue); ("running", JNum (Z.of_nat (length (filter (λ wf, is_running wf = true) matches))));
        ("total", JNum (Z.of_nat (length matches))); ("workflows", to_json matches)].

(** ** Error texts *)

(** How an operation's reply reaches the caller: an answer, or a query that waits
    for a worker. *)
Inductive reply := Answers (a : answer) | Waits (token : string) (ch : nat).

Section Surface.
Context `{Env}.
(** The texts of the errors the database, the JSON package, the transport and the
    parser of visibility queries word; the environment of the process; the workers
    that registered. *)
Context (wording : err → string) (getenv : string → string) (workers : workerRegistry).

Definition err_text (e : err) : string :=
  match e with
  | ErrClosed => "store: manager closed"
  | ErrUnknownOp op => "store.applyFrame: unknown op " +:+ quote op
  | ErrRoute key => "store: cannot route key " +:+ quote key
  | ErrNotFound what => what +:+ " not found"
  | ErrUnregistered ns => "namespace " +:+ quote ns +:+ " not registered"
  | ErrRequired what => what +:+ " required"
  | ErrInvalid what => what
  | ErrExists what => what +:+ " already exists"
  | ErrConflict id => "workflow " +:+ quote id +:+ " already running (conflict policy FAIL)"
  | ErrNotRunning status => "workflow not running: status=" +:+ status
  | ErrVanished ns => "namespace " +:+ quote ns +:+ " vanished after registration"
  | ErrQuery ErrNoWorkersSubscribed => "no workers subscribed to task queue"
  | ErrQuery ErrSendNotWired => "dispatcher send not wired"
  | _ => wording e
  end.

(** A call of the engine: its error is a value; a panic is not caught by a handler. *)
Definition run_op {A} (m : W A) : W (err + A) :=
  r ← attempt m;
  match r with
  | inl ErrNilDeref => throw ErrNilDeref
  | _ => mret r
  end.

Definition reply_with (a : answer) : W reply := mret (Answers a).
Definition refuse : W reply := reply_with absent.
(** The refusal of a body that does not decode. *)
Definition bad_body : W reply := reply_with (fault 400 (err_text ErrDecode)).

(** [data(err, v)]. *)
Definition data {A} (f : A → json) (r : err + A) : answer :=
  match r with
  | inl e => fault 500 (err_text e)
  | inr a => ok (f a)
  end.
Definition answer_data {A} (f : A → json) (m : W A) : W reply := r ← run_op m; reply_with (data f r).

(** [if err != nil { return fault(code(err), …) }; return data(nil, v)]. *)
Definition answer_or {A} (code : string → Z) (f : A → json) (m : W A) : W reply :=
  r ← run_op m;
  reply_with (match r with inl e => fault (code (err_text e)) (err_text e) | inr a => ok (f a) end).
Definition always (code : Z) : string → Z := λ _, code.

(** A description: an error is a 500, a missing row a 404. *)
Definition answer_found {A} (missing : string) (f : A → json) (m : W (option A)) : W reply :=
  r ← run_op m;
  reply_with (match r with
              | inl e => fault 500 (err_text e)
              | inr None => fault 404 missing
              | inr (Some a) => ok (f a)
              end).

Definition one (k : string) (v : json) : json := JObj [(k, v)].
Definition status_json (s : string) : json := one "status" (JStr s).

(** ** Namespaces *)

Definition settings (rq : call) : W reply :=
  match cl_method rq with
  | GET => reply_with (ok (settingsResponse getenv))
  | _ => refuse
  end.

Definition namespaces (rq : call) (p : Principal) : W reply :=
  match cl_method rq with
  | GET => answer_data (λ rows, one "namespaces" (to_json rows)) (ListNamespaces p)
  | POST => match decode (A := Namespace) rq with
            | None => bad_body
            | Some n => answer_data (λ _, to_json n) (RegisterNamespace p n)
            end
  | _ => refuse
  end.

Definition endpoints (rq : call) (p : Principal) : W reply :=
  match cl_method rq with
  | GET => answer_data (λ rows, one "endpoints" (to_json rows)) (ListAllNexusEndpoints p)
  | _ => refuse
  end.

Definition namespace (rq : call) (p : Principal) (ns : string) : W reply :=
  match cl_method rq with
  | GET => answer_found "namespace not found" to_json (DescribeNamespace p ns)
  | DELETE => answer_or (always 404) to_json (DeprecateNamespace p ns)
  | _ => refuse
  end.

(** ** Workflows *)

(** The body of a start; a signal-with-start has a signal besides. *)
Record start_body := {
  sb_WorkflowId : string; sb_RunId : string; sb_WorkflowType : TypeRef; sb_TaskQueue : string; sb_Input : json; sb_RequestId : string;
  sb_SignalName : string; sb_SignalPayload : json }.
Definition decode_start (signal : bool) (rq : call) : option start_body :=
  o ← members rq; wf ← rd o "workflowId"; run ← rd o "runId"; ty ← rd o "workflowType";
  q ← (match assoc "taskQueue" o with None => Some "" | Some j => q ← as_obj j; rd q "name" end);
  input ← rd o "input"; req ← rd o "requestId";
  name ← (if signal then rd o "signalName" else Some ""); payload ← (if signal then rd o "signalPayload" else Some JNull);
  Some {| sb_WorkflowId := wf; sb_RunId := run; sb_WorkflowType := ty; sb_TaskQueue := q; sb_Input := input; sb_RequestId := req;
          sb_SignalName := name; sb_SignalPayload := payload |}.

Definition describe_json (wf : WorkflowExecution) : json :=
  JObj [("executionConfig", one "taskQueue" (one "name" (JStr (TaskQueue wf)))); ("workflowExecutionInfo", to_json wf)].
Definition page_json (r : list HistoryEvent * Z) : json := JObj [("events", to_json r.1); ("nextCursor", JNum r.2)].

(** A query answers at once, fails, or waits; [query_answer] ends the wait. *)
Definition query_fault (e : err) : answer :=
  match e with
  | ErrQuery ErrNoWorkersSubscribed => fault 503 (err_text e)
  | _ => if contains (err_text e) "timeout" then fault 504 (err_text e) else fault 500 (err_text e)
  end.
Definition query_result (j : json) : answer := ok (one "queryResult" j).
Definition begin_query (m : W query_start) : W reply :=
  r ← run_op m;
  mret (match r with
        | inl e => Answers (query_fault e)
        | inr (QNow j) => Answers (query_result j)
        | inr (QWait token ch) => Waits token ch
        end).
Definition query_answer (token : string) (ch : nat) : W answer :=
  r ← run_op (QueryWorkflow_end token ch);
  mret (match r with inl e => query_fault e | inr j => query_result j end).

Definition SignalWithStartWorkflow (p : Principal) (ns wf run : string) (typ : TypeRef) (queue : string) (input : json) (name : string) (payload : json)
    (requestID : string) : W (option WorkflowExecution) :=
  signalWithStartFull p ns wf run typ queue input name payload requestID ∅ JNull.

Definition handleWorkflows (rq : call) (p : Principal) (ns : string) (sub : list string) : W reply :=
  match sub, cl_method rq with
  | [], GET => answer_data (λ rows, one "executions" (to_json rows)) (ListWorkflowExecutions p ns (query rq "query"))
  | [], POST =>
      match decode_start false rq with
      | None => bad_body
      | Some b => answer_data to_json
                    (StartWorkflowWithRequestID p ns (sb_WorkflowId b) (sb_RunId b) (sb_WorkflowType b) (sb_TaskQueue b) (sb_Input b) (sb_RequestId b))
      end
  | [wf], POST =>
      if String.eqb wf "signal-with-start" then
        match decode_start true rq with
        | None => bad_body
        | Some b =>
            if String.eqb (sb_SignalName b) "" then reply_with (fault 400 "signalName required")
            else answer_data to_json
                   (SignalWithStartWorkflow p ns (sb_WorkflowId b) (sb_RunId b) (sb_WorkflowType b) (sb_TaskQueue b) (sb_Input b)
                      (sb_SignalName b) (sb_SignalPayload b) (sb_RequestId b))
        end
      else refuse
  | [wf], GET =>
      let run := query rq "execution.runId" in
      let run := if String.eqb run "" then query rq "runId" else run in
      answer_found "workflow not found" describe_json (DescribeWorkflow p ns wf run)
  | [wf; verb], POST =>
      let run := query rq "runId" in
      if String.eqb verb "cancel" then
        answer_data to_json (CancelWorkflowWithReason p ns wf run (loose rq "reason") (loose rq "identity"))
      else if String.eqb verb "terminate" then
        answer_data to_json (TerminateWorkflowWithReason p ns wf run (loose rq "reason") (loose rq "identity"))
      else if String.eqb verb "signal" then
        answer_data (λ _, status_json "signaled") (SignalWorkflow p ns wf run (loose rq "name") (loose rq "payload"))
      else if String.eqb verb "query" then
        begin_query (QueryWorkflow_begin p ns wf run (loose rq "queryType") (loose rq "args"))
      else if String.eqb verb "metadata" then
        match decode (A := WorkflowUserMetadata) rq with
        | None => bad_body
        | Some m => answer_or (always 404) to_json (UpdateWorkflowMetadata p ns wf run m)
        end
      else if String.eqb verb "reset" then
        match (o ← members rq; run ← rd o "runId"; ev ← rd o "eventId"; reason ← rd o "reason"; identity ← rd o "identity";
               Some (run, ev, reason, identity)) with
        | None => bad_body
        | Some (run, ev, reason, identity) => answer_data to_json (ResetWorkflow p ns wf run ev reason identity)
        end
      else refuse
  | [wf; verb], GET =>
      if String.eqb verb "history" then
        answer_or (always 404) page_json
          (GetWorkflowHistory p ns wf (query rq "runId") (parseInt64 (query rq "after")) (parseInt64 (query rq "pageSize"))
             (String.eqb (query rq "reverse") "true"))
      else if String.eqb verb "executions" then
        answer_data (λ rows, one "executions" (to_json rows)) (ListWorkflowChain p ns wf)
      else refuse
  | _, _ => refuse
  end.

(** [req.Namespace = ns]: the path, not the body, names the namespace. *)
Definition sc_in (ns : string) (s : Schedule) : Schedule :=
  {| ScheduleId := ScheduleId s; sc_Namespace := ns; Spec := Spec s; Action := Action s; State := State s; Info := Info s |}.
Definition bt_in (ns : string) (b : BatchOperation) : BatchOperation :=
  {| BatchId := BatchId b; bt_Namespace := ns; Operation := Operation b; Reason := Reason b; Query := Query b;
     bt_State := bt_State b; bt_StartTime := bt_StartTime b; bt_CloseTime := bt_CloseTime b; TotalCount := TotalCount b; DoneCount := DoneCount b |}.
Definition nx_in (ns : string) (n : NexusEndpoint) : NexusEndpoint :=
  {| nx_Name := nx_Name n; nx_Namespace := ns; nx_Description := nx_Description n; Target := Target n; nx_CreateTime := nx_CreateTime n |}.
Definition id_in (ns : string) (i : Identity) : Identity :=
  {| Email := Email i; id_Namespace := ns; Role := Role i; GrantTime := GrantTime i |}.

(** ** Schedules *)

Definition handleSchedules (rq : call) (p : Principal) (ns : string) (sub : list string) : W reply :=
  match sub, cl_method rq with
  | [], GET => answer_data (λ rows, one "schedules" (to_json rows)) (ListSchedules p ns)
  | [], POST =>
      match decode (A := Schedule) rq with
      | None => bad_body
      | Some s => let s := sc_in ns s in answer_data (λ _, to_json s) (CreateSchedule p s)
      end
  | [id], GET => answer_found "schedule not found" to_json (DescribeSchedule p ns id)
  | [id], POST =>
      match decode (A := Schedule) rq with
      | None => bad_body
      | Some s => answer_or (always 404) to_json (UpdateSchedule p ns id s)
      end
  | [id], DELETE => answer_data (λ _, status_json "deleted") (DeleteSchedule p ns id)
  | [id; verb], POST =>
      if String.eqb verb "trigger" then
        answer_or (always 404) (λ wf, JObj [("execution", to_json wf); ("status", JStr "triggered")]) (TriggerSchedule p ns id (loose rq "requestId"))
      else if String.eqb verb "pause" then
        answer_data (λ _, status_json "paused") (PauseSchedule p ns id true (loose rq "note"))
      else if String.eqb verb "unpause" then
        answer_data (λ _, status_json "running") (PauseSchedule p ns id false "")
      else refuse
  | [id; verb], GET =>
      if String.eqb verb "matching-times" then
        now ← time_now;
        let from := parseTimeParam (query rq "from") (query rq "start") now in
        let to := parseTimeParam (query rq "to") (query rq "end") (from + 24 * 3600 * Second) in
        answer_or (always 404) (λ times, one "matchingTimes" (JArr (JStr ∘ format_rfc3339 <$> times))) (ScheduleMatchingTimes p ns id from to)
      else refuse
  | _, _ => refuse
  end.

(** ** Batches, search attributes, metadata *)

Definition handleBatches (rq : call) (p : Principal) (ns : string) (sub : list string) : W reply :=
  match sub, cl_method rq with
  | [], GET => answer_data (λ rows, one "batches" (to_json rows)) (ListBatches p ns)
  | [], POST =>
      match decode (A := BatchOperation) rq with
      | None => bad_body
      | Some b => answer_data to_json (StartBatch p (bt_in ns b))
      end
  | [id], GET => answer_found "batch not found" to_json (DescribeBatch p ns id)
  | [id; verb], POST =>
      if String.eqb verb "terminate" then
        answer_or (always 404) to_json (TerminateBatch p ns id (loose rq "reason") (loose rq "identity"))
      else refuse
  | _, _ => refuse
  end.

Definition attr_code (text : string) : Z :=
  if contains text "already exists" then 409 else if contains text "not registered" then 404 else 400.
Definition missing_code (text : string) : Z := if contains text "not registered" then 404 else 400.

Definition handleSearchAttributes (rq : call) (p : Principal) (ns : string) (sub : list string) : W reply :=
  match sub, cl_method rq with
  | [name], DELETE => answer_or missing_code (λ _, status_json "removed") (RemoveSearchAttribute p ns name)
  | [], GET => answer_data (λ rows, one "searchAttributes" (to_json rows)) (ListSearchAttributes p ns)
  | [], POST =>
      match decode (A := SearchAttribute) rq with
      | None => bad_body
      | Some sa => answer_or attr_code (λ _, to_json sa) (AddSearchAttribute p ns sa)
      end
  | _, _ => refuse
  end.

Definition decode_ns_patch (rq : call) : option NamespaceMetadataPatch :=
  o ← members rq; d ← rd o "description"; e ← rd o "ownerEmail"; r ← rd o "retention"; hs ← rd o "historyArchivalState";
  hu ← rd o "historyArchivalUri"; vs ← rd o "visibilityArchivalState"; vu ← rd o "visibilityArchivalUri"; c ← rd o "customData";
  Some {| np_Description := d; np_OwnerEmail := e; np_Retention := r; np_HistoryArchivalState := hs; np_HistoryArchivalUri := hu;
          np_VisibilityArchivalState := vs; np_VisibilityArchivalUri := vu; np_CustomData := c |}.
Definition handleNamespaceMetadata (rq : call) (p : Principal) (ns : string) (sub : list string) : W reply :=
  match sub, cl_method rq with
  | [], POST =>
      match decode_ns_patch rq with
      | None => bad_body
      | Some patch => answer_or missing_code to_json (UpdateNamespaceMetadata p ns patch)
      end
  | _, _ => refuse
  end.

(** ** Deployments *)

Definition create_code (text : string) : Z := if contains text "already exists" then 409 else 400.
Definition drop_code (text : string) : Z := if contains text "not found" then 404 else 409.
Definition current_code (text : string) : Z := if contains text "not in deployment" then 400 else 404.
Definition version_code (text : string) : Z :=
  if contains text "already exists" then 409 else if contains text "not found" then 404 else 400.

Definition validation_json (v : VersionValidationResult) : json :=
  JObj (fld "networkOk" (NetworkOk v) ++ fld "workerRegistered" (WorkerRegistered v) ++ fld "heartbeatReceived" (HeartbeatReceived v) ++
        fld "latencyMs" (LatencyMs v) ++ fld "errors" (Errors v)).

Definition handleDeployments (rq : call) (p : Principal) (ns : string) (sub : list string) : W reply :=
  match sub, cl_method rq with
  | [], GET => answer_data (λ rows, one "deployments" (to_json rows)) (ListDeployments p ns)
  | [], POST =>
      match (o ← members rq; name ← rd o "name"; d ← rd o "description"; e ← rd o "ownerEmail"; c ← rd o "defaultCompute"; Some (name, d, e, c)) with
      | None => bad_body
      | Some (name, d, e, c) => answer_or create_code to_json (CreateDeployment p ns name d e c)
      end
  | [id], GET => answer_found "deployment not found" to_json (DescribeDeployment p ns id)
  | [id], POST =>
      match (o ← members rq; d ← rd o "description"; e ← rd o "ownerEmail"; c ← rd o "defaultCompute";
             Some {| pa_Description := d; pa_OwnerEmail := e; pa_DefaultCompute := c |}) with
      | None => bad_body
      | Some patch => answer_or (always 404) to_json (UpdateDeployment p ns id patch)
      end
  | [id], DELETE => answer_or drop_code (λ _, status_json "deleted") (DeleteDeployment p ns id (String.eqb (query rq "force") "true"))
  | [id; verb], POST =>
      if String.eqb verb "set-current" then
        match (o ← members rq; rd o "buildId") with
        | None => bad_body
        | Some build => answer_or current_code to_json (SetCurrentDeploymentVersion p ns id build)
        end
      else if String.eqb verb "versions" then
        match (o ← members rq; b ← rd o "buildId"; d ← rd o "description"; c ← rd o "compute"; i ← rd o "image"; e ← rd o "env"; Some (b, d, c, i, e)) with
        | None => bad_body
        | Some (b, d, c, i, e) => answer_or version_code to_json (CreateVersion p ns id b d c i e)
        end
      else refuse
  | [id; verb; build], POST =>
      if String.eqb verb "versions" then
        match (o ← members rq; d ← rd o "description"; c ← rd o "compute"; i ← rd o "image"; e ← rd o "env";
               Some {| vp_Description := d; vp_Compute := c; vp_Image := i; vp_Env := e |}) with
        | None => bad_body
        | Some patch => answer_or (always 404) to_json (UpdateVersion p ns id build patch)
        end
      else refuse
  | [id; verb; build], DELETE =>
      if String.eqb verb "versions" then answer_or (always 404) to_json (DeleteDeploymentVersion p ns id build) else refuse
  | [id; verb; build; verb'], POST =>
      if String.eqb verb "versions" && String.eqb verb' "validate" then
        answer_or (always 404) validation_json (ValidateVersion p (length (worker_List ns workers)) ns id build)
      else refuse
  | _, _ => refuse
  end.

(** ** Standalone activities *)

Definition activity_code (text : string) : Z :=
  if contains text "not found" then 404 else if contains text "terminal" then 409 else 400.
(** [activityResult]: the refreshed activity, whatever reading it again says. *)
Definition activityResult (p : Principal) (ns id run : string) (m : W unit) : W reply :=
  r ← run_op m;
  match r with
  | inl e => reply_with (fault (activity_code (err_text e)) (err_text e))
  | inr _ => a ← run_op (DescribeActivity p ns id run);
             reply_with (ok (match found a with Some x => to_json x | None => JNull end))
  end.

Record activity_body := {
  ab_ActivityId : string; ab_RunId : string; ab_ActivityType : TypeRef; ab_TaskQueue : string; ab_Input : json; ab_RetryPolicy : option RetryPolicy;
  ab_ScheduleToClose : string; ab_ScheduleToStart : string; ab_StartToClose : string; ab_Heartbeat : string; ab_Identity : string; ab_RequestId : string }.
Definition decode_activity (rq : call) : option activity_body :=
  o ← members rq; id ← rd o "activityId"; run ← rd o "runId"; ty ← rd o "activityType"; q ← rd o "taskQueue"; i ← rd o "input";
  rp ← rd o "retryPolicy"; a ← rd o "scheduleToCloseTimeout"; b ← rd o "scheduleToStartTimeout"; c ← rd o "startToCloseTimeout";
  d ← rd o "heartbeatTimeout"; who ← rd o "identity"; req ← rd o "requestId";
  Some {| ab_ActivityId := id; ab_RunId := run; ab_ActivityType := ty; ab_TaskQueue := q; ab_Input := i; ab_RetryPolicy := rp; ab_ScheduleToClose := a;
          ab_ScheduleToStart := b; ab_StartToClose := c; ab_Heartbeat := d; ab_Identity := who; ab_RequestId := req |}.

(** A claim: 204 when there is nothing to claim. *)
Definition answer_claim (m : W (option (option StandaloneActivity))) : W reply :=
  r ← run_op m;
  reply_with (match r with
              | inl e => fault 400 (err_text e)
              | inr None => empty 204
              | inr (Some a) => ok (match a with Some x => to_json x | None => JNull end)
              end).

Definition handleActivities (rq : call) (p : Principal) (ns : string) (sub : list string) : W reply :=
  if existsb (λ s, String.eqb s "") sub then refuse else
  match sub, cl_method rq with
  | [], GET =>
      answer_data (λ r, JObj [("activities", to_json r.1); ("nextCursor", JStr r.2)])
        (ListActivities p ns (query rq "cursor") (parseInt64 (query rq "pageSize")))
  | [], POST =>
      match decode_activity rq with
      | None => bad_body
      | Some b =>
          answer_or (always 400) (λ o, match o with Some a => to_json a | None => JNull end)
            (StartActivity p ns (ab_ActivityId b) (ab_RunId b) (ab_ActivityType b) (ab_TaskQueue b) (ab_Input b) (ab_RetryPolicy b)
               (ab_ScheduleToClose b) (ab_ScheduleToStart b) (ab_StartToClose b) (ab_Heartbeat b) (ab_Identity b) (ab_RequestId b))
      end
  | [verb], POST =>
      if String.eqb verb "claim" then
        answer_claim (ClaimNextActivity p ns (loose rq "taskQueue") (loose rq "identity") (wrap64 (loose rq "leaseSeconds" * Second)))
      else refuse
  | [id; run], GET => answer_found "activity not found" to_json (DescribeActivity p ns id run)
  | [id; run; verb], POST =>
      if String.eqb verb "cancel" then activityResult p ns id run (CancelActivity p ns id run (loose rq "reason") (loose rq "identity"))
      else if String.eqb verb "complete" then activityResult p ns id run (CompleteActivity p ns id run (loose rq "result") (loose rq "identity"))
      else if String.eqb verb "fail" then activityResult p ns id run (FailActivity p ns id run (loose rq "cause") (loose rq "identity"))
      else if String.eqb verb "heartbeat" then activityResult p ns id run (HeartbeatActivity p ns id run (loose rq "details"))
      else refuse
  | [id; run; verb], GET =>
      if String.eqb verb "history" then
        answer_or (always 404) page_json
          (GetActivityHistory p ns id run (parseInt64 (query rq "after")) (parseInt64 (query rq "pageSize")) (String.eqb (query rq "reverse") "true"))
      else refuse
  | _, _ => refuse
  end.

(** ** Endpoints, identities, queues, workers, archival *)

Definition handleNexus (rq : call) (p : Principal) (ns : string) (sub : list string) : W reply :=
  match sub, cl_method rq with
  | [], GET => answer_data (λ rows, one "endpoints" (to_json rows)) (ListNexusEndpoints p ns)
  | [], POST =>
      match decode (A := NexusEndpoint) rq with
      | None => bad_body
      | Some n => let n := nx_in ns n in answer_data (λ _, to_json n) (CreateNexusEndpoint p n)
      end
  | [id], DELETE => answer_data (λ _, status_json "deleted") (DeleteNexusEndpoint p ns id)
  | _, _ => refuse
  end.

Definition handleIdentities (rq : call) (p : Principal) (ns : string) (sub : list string) : W reply :=
  match sub, cl_method rq with
  | [], GET => answer_data (λ rows, one "identities" (to_json rows)) (ListIdentities p ns)
  | [], POST =>
      match decode (A := Identity) rq with
      | None => bad_body
      | Some i => let i := id_in ns i in answer_data (λ _, to_json i) (GrantIdentity p i)
      end
  | [id], DELETE => answer_data (λ _, status_json "revoked") (RevokeIdentity p ns id)
  | _, _ => refuse
  end.

Definition worker_json (x : Worker) : json :=
  JObj (fld "identity" (wk_Identity x) ++ fld "namespace" (wk_Namespace x) ++ fld_omit "taskQueue" (wk_TaskQueue x) ++ fld_omit "sdkName" (wk_SDKName x) ++
        fld_omit "sdkVersion" (wk_SDKVersion x) ++ fld_omit "lastHeartbeat" (wk_LastHeartbeat x) ++ fld_omit "firstSeen" (wk_FirstSeen x)).
Definition workers_json (l : list Worker) : json := one "workers" (JArr (worker_json <$> l)).

Definition handleTaskQueues (rq : call) (p : Principal) (ns : string) (sub : list string) : W reply :=
  match sub, cl_method rq with
  | [], GET => answer_data (λ rows, one "taskQueues" (JArr (summary_json <$> aggregateTaskQueues rows))) (ListWorkflows p ns)
  | [queue], GET => answer_data (λ rows, taskQueueDetail rows queue) (ListWorkflows p ns)
  | [queue; verb], GET =>
      if String.eqb verb "workers" then reply_with (ok (workers_json (filter (λ x, wk_TaskQueue x = queue) (worker_List ns workers))))
      else if String.eqb verb "partitions" then
        reply_with (ok (one "partitions" (JArr [JObj [("backlogAge", JStr "0s"); ("backlogSize", JNum 0); ("key", JNum 0)]])))
      else refuse
  | _, _ => refuse
  end.

Definition handleWorkers (rq : call) (ns : string) (sub : list string) : W reply :=
  match sub, cl_method rq with
  | [], GET => reply_with (ok (workers_json (worker_List ns workers)))
  | [id], GET => reply_with (match worker_Get ns id workers with Some x => ok (worker_json x) | None => fault 404 "worker not found" end)
  | _, _ => refuse
  end.

Definition handleArchival (rq : call) (sub : list string) : W reply :=
  match sub, cl_method rq with
  | [], GET => reply_with (ok QueryArchival)
  | _, _ => refuse
  end.

(** ** Routing by path segment *)

Definition resource (rq : call) (p : Principal) (ns kind : string) (sub : list string) : W reply :=
  if String.eqb kind "workflows" then handleWorkflows rq p ns sub
  else if String.eqb kind "schedules" then handleSchedules rq p ns sub
  else if String.eqb kind "batches" then handleBatches rq p ns sub
  else if String.eqb kind "deployments" then handleDeployments rq p ns sub
  else if String.eqb kind "nexus" then handleNexus rq p ns sub
  else if String.eqb kind "identities" then handleIdentities rq p ns sub
  else if String.eqb kind "task-queues" then handleTaskQueues rq p ns sub
  else if String.eqb kind "workers" then handleWorkers rq ns sub
  else if String.eqb kind "search-attributes" then handleSearchAttributes rq p ns sub
  else if String.eqb kind "metadata" then handleNamespaceMetadata rq p ns sub
  else if String.eqb kind "archival" then handleArchival rq sub
  else if String.eqb kind "activities" then handleActivities rq p ns sub
  else refuse.

Definition below (rq : call) (p : Principal) (parts : list string) : W reply :=
  match parts with
  | [] => refuse
  | ns :: rest =>
      if String.eqb ns "" then refuse
      else match grammar ns rest with
      | Some a => reply_with a
      | None =>
          match rest with
          | [] => namespace rq p ns
          | kind :: sub => resource rq p ns kind sub
          end
      end
  end.

(** [HTTPHandler], past the mux's own cleaning of the path. *)
Definition HTTPHandler (rq : call) (p : Principal) (path : string) : W reply :=
  if String.eqb path "/v1/tasks/settings" then settings rq
  else if String.eqb path "/v1/tasks/namespaces" then namespaces rq p
  else if String.eqb path "/v1/tasks/nexus" then endpoints rq p
  else match strip_prefix "/v1/tasks/namespaces/" path with
  | Some rest => below rq p (str_split "/" rest)
  | None => refuse
  end.

(** ** The table of routes *)

Definition contents : list (method * string) :=
  [(GET, "workflows"); (POST, "workflows"); (POST, "workflows/signal-with-start"); (GET, "workflows/:wf"); (POST, "workflows/:wf/cancel");
   (POST, "workflows/:wf/terminate"); (POST, "workflows/:wf/signal"); (GET, "workflows/:wf/history"); (POST, "workflows/:wf/query");
   (POST, "workflows/:wf/metadata"); (GET, "workflows/:wf/executions"); (POST, "workflows/:wf/reset");
   (GET, "schedules"); (POST, "schedules"); (GET, "schedules/:id"); (POST, "schedules/:id"); (DELETE, "schedules/:id"); (POST, "schedules/:id/trigger");
   (GET, "schedules/:id/matching-times"); (POST, "schedules/:id/pause"); (POST, "schedules/:id/unpause");
   (GET, "batches"); (POST, "batches"); (GET, "batches/:id"); (POST, "batches/:id/terminate");
   (GET, "deployments"); (POST, "deployments"); (GET, "deployments/:id"); (POST, "deployments/:id"); (DELETE, "deployments/:id");
   (POST, "deployments/:id/set-current"); (POST, "deployments/:id/versions"); (POST, "deployments/:id/versions/:build"); (DELETE, "deployments/:id/versions/:build");
   (POST, "deployments/:id/versions/:build/validate");
   (GET, "nexus"); (POST, "nexus"); (DELETE, "nexus/:id");
   (GET, "identities"); (POST, "identities"); (DELETE, "identities/:id");
   (GET, "task-queues"); (GET, "task-queues/:queue"); (GET, "task-queues/:queue/workers"); (GET, "task-queues/:queue/partitions");
   (GET, "workers"); (GET, "workers/:id");
   (GET, "search-attributes"); (POST, "search-attributes"); (DELETE, "search-attributes/:attr");
   (POST, "metadata");
   (GET, "archival");
   (GET, "activities"); (POST, "activities"); (POST, "activities/claim"); (GET, "activities/:id/:run"); (POST, "activities/:id/:run/cancel");
   (POST, "activities/:id/:run/complete"); (POST, "activities/:id/:run/fail"); (POST, "activities/:id/:run/heartbeat"); (GET, "activities/:id/:run/history")].

(** A segment of a row: a path parameter by its name, or the segment itself. *)
Definition param_name (s : string) : option string := strip_prefix ":" s.

(** [segments]: what a row hands to the operation, given the router's parameters. *)
Definition segments (param : string → string) (rest : list string) : list string :=
  (λ s, match param_name s with Some name => param name | None => s end) <$> rest.

(** One registered row: its resource and the segments below it. *)
Definition row_kind (path : string) : string := match cut "/" path with Some (kind, _) => kind | None => path end.
Definition row_rest (path : string) : list string :=
  match cut "/" path with
  | Some (_, rest) => if String.eqb rest "" then [] else str_split "/" rest
  | None => []
  end.
Definition serve_row (rq : call) (p : Principal) (ns path : string) (param : string → string) : W reply :=
  let sub := segments param (row_rest path) in
  match grammar ns sub with
  | Some a => reply_with a
  | None => resource rq p ns (row_kind path) sub
  end.

End Surface.

(** ** Paths that need cleaning *)

(** [path.Clean] of a rooted path, on its segments: empty and dot segments go, a
    double dot takes back the segment before it. *)
Definition clean_step (done : list string) (s : string) : list string :=
  if String.eqb s "" || String.eqb s "." then done
  else if String.eqb s ".." then tail done
  else s :: done.
Definition clean_segments (l : list string) : list string := reverse (foldl clean_step [] l).
Definition rooted (l : list string) : string := "/" +:+ str_join "/" l.
Definition Clean (path : string) : string := rooted (clean_segments (str_split "/" path)).

Fixpoint ends_slash (s : string) : bool :=
  match s with
  | EmptyString => false
  | String c EmptyString => Ascii.eqb c "/"
  | String _ s => ends_slash s
  end.

(** [tidy]: the path a mux would route at, and whether it differs. *)
Definition tidy (path : string) : string * bool :=
  if String.eqb path "" then ("/", true) else
  let q := if has_prefix path "/" then path else "/" +:+ path in
  let c := Clean q in
  let c := if ends_slash q && negb (String.eqb c "/") then
             if (String.length q =? String.length c + 1)%nat && has_prefix q c then q else c +:+ "/"
           else c in
  (c, negb (String.eqb c path)).

(** [html.EscapeString]. *)
Definition escape_byte (c : ascii) : string :=
  if Ascii.eqb c "&" then "&amp;" else if Ascii.eqb c "'" then "&#39;" else if Ascii.eqb c "<" then "&lt;"
  else if Ascii.eqb c ">" then "&gt;" else if Ascii.eqb c "034" then "&#34;" else String c "".
Fixpoint EscapeString (s : string) : string :=
  match s with
  | EmptyString => EmptyString
  | String c s => escape_byte c +:+ EscapeString s
  end.

(** The trailing wildcard: the [Location] it sets, if any, and the answer. *)
Definition redirect (m : method) (to : string) : answer :=
  if bool_decide (m = GET) || bool_decide (m = Verb "HEAD") then
    {| an_status := 307; an_ctype := "text/html; charset=utf-8"; an_nosniff := false;
       an_body := TextContent ("<a href=" +:+ String "034" (EscapeString to +:+ String "034" (">Temporary Redirect</a>." +:+ String "010" (String "010" "")))) |}
  else empty 307.
Definition wildcard (m : method) (path rawquery : string) : option string * answer :=
  let '(to, dirty) := tidy path in
  if dirty then let to := if String.eqb rawquery "" then to else to +:+ "?" +:+ rawquery in (Some to, redirect m to)
  else (None, absent).

(** What a caller under a namespace gets: the row the router finds, else the
    wildcard. The router of the [zip] package is a parameter. *)
Definition address (ns : string) (parts : list string) : string := rooted ("v1" :: "tasks" :: "namespaces" :: ns :: parts).
Definition surface `{Env} (wording : err → string) (workers : workerRegistry)
    (route : method → list string → option (string * (string → string))) (rq : call) (rawquery : string) (p : Principal) (ns : string) (parts : list string)
    : W (option string * reply) :=
  match route (cl_method rq) parts with
  | Some (path, param) => a ← serve_row wording workers rq p ns path param; mret (None, a)
  | None => let '(to, a) := wildcard (cl_method rq) (address ns parts) rawquery in mret (to, Answers a)
  end.
