(* ===== verification/Zap.v ===== *)
(** The ZAP surface ([embed.go], [zapHandlers] and the object-field handlers): an opcode
    and a message in, an envelope out. Requests are JSON objects read member by member;
    a member of another type is read as if it were absent. *)

From Corelib Require Import SpecFloat.
From Stdlib Require Import Ascii ZArith Lia.
From stdpp Require Import prelude strings gmap.
From S2P Require Import Prelude GoStrings Base64 Json Types EngineTypes Env Principal Router Shard GoTime Temporal Dispatch Events World Failure Workflow Durable Commands Visibility Activities Schedules Deployments Admin Surface.

Local Open Scope Z_scope.

(** ** Opcodes *)

Definition op_StartWorkflow : Z := 0x60.
Definition op_SignalWorkflow : Z := 0x61.
Definition op_CancelWorkflow : Z := 0x62.
Definition op_TerminateWorkflow : Z := 0x63.
Definition op_DescribeWorkflow : Z := 0x64.
Definition op_ListWorkflows : Z := 0x65.
Definition op_SignalWithStartWorkflow : Z := 0x66.
Definition op_QueryWorkflow : Z := 0x67.
Definition op_ResetWorkflow : Z := 0x68.
Definition op_GetWorkflowHistory : Z := 0x69.
Definition op_CreateSchedule : Z := 0x70.
Definition op_DeleteSchedule : Z := 0x71.
Definition op_ListSchedules : Z := 0x72.
Definition op_PauseSchedule : Z := 0x73.
Definition op_UnpauseSchedule : Z := 0x74.
Definition op_DescribeSchedule : Z := 0x76.
Definition op_RegisterNamespace : Z := 0x80.
Definition op_DescribeNamespace : Z := 0x81.
Definition op_ListNamespaces : Z := 0x82.
Definition op_Health : Z := 0x90.
Definition op_StartChildWorkflow : Z := 0x6D.
Definition op_SubscribeWorkflowTasks : Z := 0xA0.
Definition op_SubscribeActivityTasks : Z := 0xA1.
Definition op_RespondWorkflowTaskCompleted : Z := 0xA2.
Definition op_RespondActivityTaskCompleted : Z := 0xA3.
Definition op_RespondActivityTaskFailed : Z := 0xA4.
Definition op_RecordActivityTaskHeartbeat : Z := 0xA5.
Definition op_UnsubscribeTasks : Z := 0xA6.
Definition op_RespondQuery : Z := 0xC4.

(** ** Messages *)

(** The two objects a caller builds: the client envelope, whose one field is the body,
    and the worker's respond object, a token and the bytes beside it. A message may also
    be absent or have no root. *)
Inductive message := MNone | MEnvelope (body : raw) | MRespond (token : string) (secondary : raw).

(** What goes back: the fields of the envelope. *)
Record envelope := { ev_body : raw; ev_status : Z; ev_error : string }.

Definition objectAck (errMsg : string) (status : Z) : envelope := {| ev_body := RNone; ev_status := status; ev_error := errMsg |}.

(** A handler's answer, or a query that waits for its worker. *)
Inductive outcome := Gives (out : json) (status : Z) (errMsg : string) | Holds (token : string) (ch : nat).
Inductive response := Responds (e : envelope) | Pends (token : string) (ch : nat).

(** ** Reading a request *)

Abbreviation req_t := (list (string * json)).

Definition str (req : req_t) (k : string) : string := match assoc k req with Some (JStr s) => s | _ => "" end.
Definition strOr (req : req_t) (k def : string) : string := let v := str req k in if String.eqb v "" then def else v.
Definition any (req : req_t) (k : string) : json := default JNull (assoc k req).
Definition obj (j : json) : req_t := match j with JObj o => o | _ => [] end.
Definition boolOr (req : req_t) (k : string) (def : bool) : bool := match assoc k req with Some (JBool b) => b | _ => def end.
Definition attributes (req : req_t) (k : string) : gmap string json := default ∅ (of_json (A := gmap string json) (JObj (obj (any req k)))).
(** A float64 truncated to 64 bits. *)
Definition int64Field (req : req_t) (k : string) : Z :=
  match assoc k req with
  | Some (JNum n) => to_int64 (of_int64 n)
  | Some (JFloat f) => to_int64 f
  | _ => 0
  end.

(** [json.Unmarshal] with its error dropped: a member whose type does not fit keeps its
    zero value. *)
Definition lax {A} `{Codec A} (o : req_t) (k : string) : A := default zero (rd o k).
Definition lax_text (j : json) : string := match j with JStr s => s | _ => "" end.

Section Zap.
Context `{Env}.

(** [decodeBytesField]: base64, or the text itself, or the document. *)
Definition decodeBytesField (req : req_t) (k : string) : raw :=
  match assoc k req with
  | None | Some JNull | Some (JStr "") => RNone
  | Some (JStr s) => match DecodeString s with Some "" => RNone | Some b => env_parse b | None => env_parse s end
  | Some j => RJson j
  end.

(** A [[]byte] member: base64, nothing when it does not decode. *)
Definition bytes_member (o : req_t) (k : string) : raw :=
  match assoc k o with
  | Some (JStr s) => match DecodeString s with Some "" | None => RNone | Some b => env_parse b end
  | _ => RNone
  end.
(** An integer member; a number outside the range of its width does not fit. *)
Definition int_member (bits : Z) (o : req_t) (k : string) : Z :=
  match assoc k o with Some (JNum n) => if (- 2 ^ (bits - 1) <=? n) && (n <? 2 ^ (bits - 1)) then n else 0 | _ => 0 end.

Definition lax_retry (j : json) : option RetryPolicyJSON :=
  match j with
  | JObj o => Some {| rj_InitialIntervalMs := int_member 64 o "initial_interval_ms"; rj_BackoffCoefficient := lax o "backoff_coefficient";
                      rj_MaximumIntervalMs := int_member 64 o "maximum_interval_ms"; rj_MaximumAttempts := int_member 32 o "maximum_attempts";
                      rj_NonRetryableErrorTypes := match any o "non_retryable_error_types" with JArr l => lax_text <$> l | _ => [] end |}
  | JNull => None
  | _ => Some zero
  end.
(** One entry of the command batch. *)
Definition command_of (j : json) : command :=
  let o := obj j in
  {| c_Kind := int_member 8 o "kind"; c_Result := bytes_member o "result"; c_Failure := bytes_member o "failure"; c_Seq := int_member 64 o "seq";
     c_ActivityType := lax o "activityType"; c_WorkflowType := lax o "workflowType"; c_ChildWorkflowId := lax o "childWorkflowId";
     c_Input := bytes_member o "input"; c_TaskQueue := lax o "taskQueue"; c_SearchAttrs := attributes o "searchAttrs";
     c_StartToCloseMs := int_member 64 o "startToCloseMs"; c_HeartbeatMs := int_member 64 o "heartbeatMs";
     c_RetryPolicy := match assoc "retryPolicy" o with Some j => lax_retry j | None => None end |}.
Definition commands_of (b : raw) : list command :=
  match b with
  | RJson (JObj o) => match any o "cmds" with JArr l => command_of <$> l | _ => [] end
  | _ => []
  end.

(** The bytes of two fields of a respond object; the envelope's one field is read as a
    token nobody minted. *)
Definition decodeRespondFrame (msg : message) : string * raw :=
  match msg with
  | MNone => ("", RNone)
  | MEnvelope b => (env_bytes b, RNone)
  | MRespond t s => (t, s)
  end.
(** The request of a message: an object, or nothing at all. *)
Definition request_of (msg : message) : req_t :=
  let body := match msg with MNone => RNone | MEnvelope b => b | MRespond t _ => env_parse t end in
  match body with RJson (JObj o) => o | _ => [] end.

(** ** The shapes of the SDK *)

Definition scheduleSDK (s : Schedule) : json :=
  JObj [("id", JStr (ScheduleId s));
        ("spec", JObj [("cron", match CronString (Spec s) with [] => JNull | l => to_json l end)]);
        ("action", JObj [("workflow_type", JStr (TypeName (sa_WorkflowType (Action s)))); ("task_queue", JStr (sa_TaskQueue (Action s)))]);
        ("paused", JBool (Paused (State s)))].

Definition status_int (s : string) : Z :=
  if String.eqb s RUNNING then 1 else if String.eqb s COMPLETED then 2 else if String.eqb s FAILED then 3
  else if String.eqb s CANCELED then 4 else if String.eqb s TERMINATED then 5 else if String.eqb s CONTINUED_AS_NEW then 6 else 0.
Definition wfInfoSDK (wf : WorkflowExecution) : json :=
  JObj ([("workflow_id", JStr (WorkflowId (Execution wf))); ("run_id", JStr (RunId (Execution wf))); ("workflow_type", JStr (TypeName (Type_ wf)));
         ("status", JNum (status_int (Status wf))); ("history_length", JNum (HistoryLen wf)); ("task_queue", JStr (TaskQueue wf))] ++
        (if String.eqb (StartTime wf) "" then [] else [("start_time", JStr (StartTime wf))]) ++
        (if String.eqb (CloseTime wf) "" then [] else [("close_time", JStr (CloseTime wf))])).

(** The intervals of a spec, decoded with the error dropped. *)
Definition lax_interval (j : json) : IntervalSpec := {| Interval := lax (obj j) "interval"; Phase := lax (obj j) "phase" |}.
Definition scheduleFromSDK (req : req_t) (defaultNS : string) : Schedule :=
  let id := strOr req "schedule_id" (str req "scheduleId") in
  let ns := strOr req "namespace" defaultNS in
  match assoc "schedule" req with
  | Some (JObj sched) =>
      let spec := obj (any sched "spec") in let action := obj (any sched "action") in
      {| ScheduleId := id; sc_Namespace := ns;
         Spec := {| CronString := match any spec "cron" with JArr l => omap (λ c, match c with JStr s => Some s | _ => None end) l | _ => [] end;
                    IntervalList := match any spec "interval" with JArr l => lax_interval <$> l | _ => [] end |};
         Action := {| sa_WorkflowType := {| TypeName := str action "workflow_type" |}; sa_TaskQueue := str action "task_queue"; sa_Input := any action "input" |};
         State := {| Paused := boolOr sched "paused" false; Note := "" |}; Info := zero |}
  | _ => {| ScheduleId := id; sc_Namespace := ns; Spec := zero; Action := zero; State := zero; Info := zero |}
  end.

(** A namespace decoded from the request with the error dropped, then completed from the
    flat shape when it has no name. *)
Definition lax_namespace (req : req_t) : Namespace :=
  let i := obj (any req "namespaceInfo") in let c := obj (any req "config") in
  {| ns_Info := {| ni_Name := lax i "name"; ni_State := lax i "state"; ni_Description := lax i "description"; ni_OwnerEmail := lax i "ownerEmail";
                   ni_Region := lax i "region"; ni_CreateTime := lax i "createTime" |};
     ns_Config := {| WorkflowExecutionRetentionTtl := lax c "workflowExecutionRetentionTtl"; APSLimit := int_member 64 c "apsLimit";
                     HistoryArchivalState := lax c "historyArchivalState"; HistoryArchivalUri := lax c "historyArchivalUri";
                     VisibilityArchivalState := lax c "visibilityArchivalState"; VisibilityArchivalUri := lax c "visibilityArchivalUri";
                     CustomData := lax_text <$> attributes c "customData" |};
     IsActive := lax req "isActive" |}.
Definition namespace_of (req : req_t) : Namespace :=
  let n := lax_namespace req in let i := ns_Info n in
  if String.eqb (ni_Name i) "" then
    {| ns_Info := {| ni_Name := str req "name"; ni_State := ni_State i; ni_Description := str req "description"; ni_OwnerEmail := str req "owner_email";
                     ni_Region := ni_Region i; ni_CreateTime := ni_CreateTime i |};
       ns_Config := ns_Config n; IsActive := IsActive n |}
  else n.

(** ** The handlers *)

Context (wording : err → string) (defaultNS : string).

Definition gives (v : json) : W outcome := mret (Gives v 200 "").
Definition declines (code : Z) (msg : string) : W outcome := mret (Gives JNull code msg).
(** [if err != nil { return nil, code, err.Error() }; return v, 200, ""]. *)
Definition give_or {A} (code : Z) (f : A → json) (m : W A) : W outcome :=
  r ← run_op m;
  match r with inl e => declines code (err_text wording e) | inr a => gives (f a) end.
Definition give_found {A} (missing : string) (f : A → json) (m : W (option A)) : W outcome :=
  r ← run_op m;
  match r with
  | inl e => declines 500 (err_text wording e)
  | inr None => declines 404 missing
  | inr (Some a) => gives (f a)
  end.

Definition ns_of (req : req_t) : string := strOr req "namespace" defaultNS.
Definition wf_of (req : req_t) : string := strOr req "workflow_id" (str req "workflowId").
Definition run_of (req : req_t) : string := strOr req "run_id" (str req "runId").
Definition sched_of (req : req_t) : string := strOr req "schedule_id" (str req "scheduleId").

Definition opHealth : W outcome := gives (JObj [("namespace", JStr defaultNS); ("service", JStr "tasks"); ("status", JStr "ok")]).
Definition opListNamespaces (p : Principal) : W outcome := give_or 500 (λ rows, one "namespaces" (to_json rows)) (ListNamespaces p).
Definition opDescribeNamespace (p : Principal) (req : req_t) : W outcome :=
  give_found "namespace not found" to_json (DescribeNamespace p (str req "namespace")).
Definition opRegisterNamespace (p : Principal) (req : req_t) : W outcome :=
  let n := namespace_of req in give_or 400 (λ _, to_json n) (RegisterNamespace p n).

Definition run_ref (wf : WorkflowExecution) : json :=
  JObj [("run_id", JStr (RunId (Execution wf))); ("workflow_id", JStr (WorkflowId (Execution wf)))].
Definition opStartWorkflow (p : Principal) (req : req_t) : W outcome :=
  let typeName := strOr req "workflow_type" (str (obj (any req "workflowType")) "name") in
  let tq := strOr req "task_queue" (str (obj (any req "taskQueue")) "name") in
  give_or 400 run_ref
    (startWorkflowFull p (ns_of req) (wf_of req) (run_of req) {| TypeName := typeName |} tq (any req "input") (str req "request_id")
       (attributes req "search_attributes") (any req "memo") (strOr req "workflow_id_conflict_policy" (str req "workflowIdConflictPolicy"))).
Definition opListWorkflows (p : Principal) (req : req_t) : W outcome :=
  give_or 500 (λ rows, one "executions" (JArr (wfInfoSDK <$> rows))) (ListWorkflows p (ns_of req)).
Definition opDescribeWorkflow (p : Principal) (req : req_t) : W outcome :=
  give_found "workflow not found" (λ wf, one "info" (wfInfoSDK wf)) (DescribeWorkflow p (ns_of req) (wf_of req) (run_of req)).
Definition opSignalWorkflow (p : Principal) (req : req_t) : W outcome :=
  give_or 400 (λ _, status_json "signaled")
    (SignalWorkflow p (ns_of req) (wf_of req) (run_of req) (strOr req "signal_name" (str req "signalName")) (any req "input")).
Definition opCancelWorkflow (p : Principal) (req : req_t) : W outcome :=
  give_or 400 wfInfoSDK (CancelWorkflowWithReason p (ns_of req) (wf_of req) (run_of req) "" "").
Definition opTerminateWorkflow (p : Principal) (req : req_t) : W outcome :=
  give_or 400 wfInfoSDK (TerminateWorkflowWithReason p (ns_of req) (wf_of req) (run_of req) (str req "reason") (str req "identity")).
Definition opGetWorkflowHistory (p : Principal) (req : req_t) : W outcome :=
  give_or 404 (λ r, JObj [("events", to_json r.1); ("next_cursor", JNum r.2)])
    (GetWorkflowHistory p (ns_of req) (wf_of req) (run_of req) (int64Field req "after_event_id") (int64Field req "page_size") (boolOr req "reverse" false)).

Definition query_out (j : json) : json := one "query_result" j.
Definition opQueryWorkflow (p : Principal) (req : req_t) : W outcome :=
  r ← run_op (QueryWorkflow_begin p (ns_of req) (wf_of req) (run_of req) (strOr req "query_type" (str req "queryType")) (any req "args"));
  match r with
  | inl e => declines 404 (err_text wording e)
  | inr (QNow j) => gives (query_out j)
  | inr (QWait token ch) => mret (Holds token ch)
  end.
(** The end of the wait. *)
Definition opQueryWorkflow_end (token : string) (ch : nat) : W outcome := give_or 404 query_out (QueryWorkflow_end token ch).

Definition opResetWorkflow (p : Principal) (req : req_t) : W outcome :=
  give_or 400 wfInfoSDK (ResetWorkflow p (ns_of req) (wf_of req) (run_of req) (int64Field req "event_id") (str req "reason") (str req "identity")).
Definition opSignalWithStartWorkflow (p : Principal) (req : req_t) : W outcome :=
  let sigName := strOr req "signal_name" (str req "signalName") in
  if String.eqb sigName "" then declines 400 "signal_name required" else
  r ← run_op (signalWithStartFull p (ns_of req) (wf_of req) (run_of req) {| TypeName := str req "workflow_type" |} (str req "task_queue")
                (any req "input") sigName (any req "signal_input") (str req "request_id") (attributes req "search_attributes") (any req "memo"));
  match r with
  | inl e => declines 400 (err_text wording e)
  | inr None => throw ErrNilDeref
  | inr (Some wf) => gives (run_ref wf)
  end.

Definition opListSchedules (p : Principal) (req : req_t) : W outcome :=
  give_or 500 (λ rows, one "schedules" (JArr (scheduleSDK <$> rows))) (ListSchedules p (ns_of req)).
Definition opCreateSchedule (p : Principal) (req : req_t) : W outcome :=
  let s := scheduleFromSDK req defaultNS in
  if String.eqb (ScheduleId s) "" then declines 400 "schedule_id required" else give_or 400 (λ _, scheduleSDK s) (CreateSchedule p s).
Definition opDescribeSchedule (p : Principal) (req : req_t) : W outcome :=
  give_found "schedule not found" scheduleSDK (DescribeSchedule p (ns_of req) (sched_of req)).
Definition opDeleteSchedule (p : Principal) (req : req_t) : W outcome :=
  give_or 400 (λ _, status_json "deleted") (DeleteSchedule p (ns_of req) (sched_of req)).
Definition opPauseSchedule (p : Principal) (req : req_t) : W outcome :=
  let paused := boolOr req "paused" true in
  give_or 400 (λ _, status_json (if paused then "paused" else "running")) (PauseSchedule p (ns_of req) (sched_of req) paused (str req "note")).
Definition opUnpauseSchedule (p : Principal) (req : req_t) : W outcome :=
  give_or 400 (λ _, status_json "running") (PauseSchedule p (ns_of req) (sched_of req) false "").

(** ** Subscriptions *)

(** The engine and the registry of the workers that subscribed. *)
Record server := { sv_world : world; sv_workers : workerRegistry }.
Definition in_world {A} (m : W A) : M server err A :=
  λ s, let '(w, r) := m (sv_world s) in ({| sv_world := w; sv_workers := sv_workers s |}, r).

(** The dispatcher draws an id for a subscription it takes. *)
Definition disp_Subscribe (from ns q : string) (kind : taskKind) : W (option string) := λ w,
  match rand_draw w with
  | (w', inr r) =>
      match Subscribe r from ns q kind (w_disp w) with
      | (Some id, d) => (with_disp d w', inr (Some id))
      | (None, _) => (w, inr None)
      end
  | (w', inl e) => (w', inl e)
  end.
Definition opSubscribe (kind : taskKind) (from : string) (req : req_t) : M server err outcome :=
  let ns := ns_of req in let q := strOr req "task_queue" (str req "taskQueue") in
  o ← in_world (disp_Subscribe from ns q kind);
  match o with
  | None => mret (Gives JNull 400 "subscribe requires peerID, namespace, queue")
  | Some id =>
      now ← in_world nowRFC3339;
      let x := {| wk_Identity := strOr req "identity" from; wk_Namespace := ns; wk_TaskQueue := q; wk_SDKName := str req "sdk_name";
                  wk_SDKVersion := str req "sdk_version"; wk_LastHeartbeat := ""; wk_FirstSeen := "" |} in
      modify (λ s, {| sv_world := sv_world s; sv_workers := (worker_Register now x (sv_workers s)).2 |});;
      mret (Gives (one "subscription_id" (JStr id)) 200 "")
  end.
Definition opUnsubscribe (req : req_t) : W outcome :=
  modify (λ w, with_disp (Unsubscribe (strOr req "subscription_id" (str req "subscriptionId")) (w_disp w)) w);;
  gives (one "ok" (JBool true)).
Definition opRespondQuery (req : req_t) : W outcome :=
  let token := str req "token" in
  if String.eqb token "" then declines 400 "token required" else
  found ← (λ w, let '(b, d) := CompleteQuery token (decodeBytesField req "result") (str req "error") (w_disp w) in (with_disp d w, inr b));
  if found : bool then gives (one "ok" (JBool true)) else declines 404 "query token not found".

(** ** Who is asking *)

(** [validator]: none, or the org [EffectiveOrg] resolves for a token that
    [VerifyRaw] accepts, empty when it accepts none. *)
Context (validator : option (string → string)) (requireID : bool).

Definition scope (req : req_t) : string + Principal :=
  match validator with
  | None => inr root
  | Some org_of =>
      let tok := str req "auth_token" in
      if String.eqb tok "" then if requireID then inl "auth_token required" else inr root
      else
        let org := org_of (trim_prefix tok "Bearer ") in
        if String.eqb org "" then if requireID then inl "invalid auth_token" else inr root
        else inr (tenant org)
  end.

Definition envelope_of (o : outcome) : response :=
  match o with
  | Gives out status msg => Responds {| ev_body := RJson out; ev_status := status; ev_error := msg |}
  | Holds token ch => Pends token ch
  end.
Definition handler : Type := string → message → M server err response.
Definition wrapPeer (fn : Principal → string → req_t → M server err outcome) : handler := λ from msg,
  let req := request_of msg in
  match scope req with
  | inl em => mret (Responds {| ev_body := RNone; ev_status := 401; ev_error := em |})
  | inr p => o ← fn p from req; mret (envelope_of o)
  end.
Definition wrap (fn : Principal → req_t → W outcome) : handler := wrapPeer (λ p _ req, in_world (fn p req)).

Definition ack_envelope (a : ack) : response :=
  Responds (objectAck (match ack_error a with Some e => err_text wording e | None => "" end) (ack_status a)).
Definition respond_with (f : string → raw → W ack) : handler := λ _ msg,
  let '(token, secondary) := decodeRespondFrame msg in a ← in_world (f token secondary); mret (ack_envelope a).
Definition heartbeatHandler : handler := λ _ _, mret (Responds (objectAck "" 200)).

Definition zapHandlers (op : Z) : option handler :=
  if op =? op_Health then Some (wrap (λ _ _, opHealth))
  else if op =? op_ListNamespaces then Some (wrap (λ p _, opListNamespaces p))
  else if op =? op_DescribeNamespace then Some (wrap opDescribeNamespace)
  else if op =? op_RegisterNamespace then Some (wrap opRegisterNamespace)
  else if op =? op_StartWorkflow then Some (wrap opStartWorkflow)
  else if op =? op_ListWorkflows then Some (wrap opListWorkflows)
  else if op =? op_DescribeWorkflow then Some (wrap opDescribeWorkflow)
  else if op =? op_SignalWorkflow then Some (wrap opSignalWorkflow)
  else if op =? op_CancelWorkflow then Some (wrap opCancelWorkflow)
  else if op =? op_TerminateWorkflow then Some (wrap opTerminateWorkflow)
  else if op =? op_GetWorkflowHistory then Some (wrap opGetWorkflowHistory)
  else if op =? op_QueryWorkflow then Some (wrap opQueryWorkflow)
  else if op =? op_ResetWorkflow then Some (wrap opResetWorkflow)
  else if op =? op_SignalWithStartWorkflow then Some (wrap opSignalWithStartWorkflow)
  else if op =? op_ListSchedules then Some (wrap opListSchedules)
  else if op =? op_CreateSchedule then Some (wrap opCreateSchedule)
  else if op =? op_DescribeSchedule then Some (wrap opDescribeSchedule)
  else if op =? op_DeleteSchedule then Some (wrap opDeleteSchedule)
  else if op =? op_PauseSchedule then Some (wrap opPauseSchedule)
  else if op =? op_UnpauseSchedule then Some (wrap opUnpauseSchedule)
  else if op =? op_SubscribeWorkflowTasks then Some (wrapPeer (λ _, opSubscribe kindWorkflow))
  else if op =? op_SubscribeActivityTasks then Some (wrapPeer (λ _, opSubscribe kindActivity))
  else if op =? op_UnsubscribeTasks then Some (wrap (λ _, opUnsubscribe))
  else if op =? op_RespondWorkflowTaskCompleted then Some (respond_with (λ t b, respondWorkflowHandler t (commands_of b)))
  else if op =? op_RespondActivityTaskCompleted then Some (respond_with respondActivityCompletedHandler)
  else if op =? op_RespondActivityTaskFailed then Some (respond_with respondActivityFailedHandler)
  else if op =? op_RecordActivityTaskHeartbeat then Some heartbeatHandler
  else if op =? op_StartChildWorkflow then Some (wrap (λ _ _, declines 501 "start_child_workflow: not yet implemented"))
  else if op =? op_RespondQuery then Some (wrap (λ _, opRespondQuery))
  else None.

End Zap.
