(* ===== verification/Client.v ===== *)
(** The SDK client ([pkg/sdk/client]: [client.go], [workflow.go], [schedule.go],
    [namespace.go], [options.go]): each call checks its arguments, marshals a request,
    makes one round trip and reads the answer. The transport is an interface; its ZAP
    implementation reaches the handlers of the server. *)

From Corelib Require Import SpecFloat.
From Stdlib Require Import Ascii ZArith Lia.
From stdpp Require Import prelude strings gmap.
From S2P Require Import Prelude GoStrings Base64 Json Types EngineTypes Env Principal GoTime Temporal Dispatch World Workflow Surface Zap Channel Coroutine Worker.

Local Open Scope Z_scope.

(** ** Opcodes, as the client numbers them *)

Definition cop_StartWorkflow : Z := 0x60.
Definition cop_SignalWorkflow : Z := 0x61.
Definition cop_CancelWorkflow : Z := 0x62.
Definition cop_TerminateWorkflow : Z := 0x63.
Definition cop_DescribeWorkflow : Z := 0x64.
Definition cop_ListWorkflows : Z := 0x65.
Definition cop_SignalWithStartWorkflow : Z := 0x66.
Definition cop_QueryWorkflow : Z := 0x67.
Definition cop_CreateSchedule : Z := 0x70.
Definition cop_ListSchedules : Z := 0x71.
Definition cop_DeleteSchedule : Z := 0x72.
Definition cop_PauseSchedule : Z := 0x73.
Definition cop_UpdateSchedule : Z := 0x74.
Definition cop_TriggerSchedule : Z := 0x75.
Definition cop_DescribeSchedule : Z := 0x76.
Definition cop_RegisterNamespace : Z := 0x80.
Definition cop_DescribeNamespace : Z := 0x81.
Definition cop_ListNamespaces : Z := 0x82.
Definition cop_Health : Z := 0x90.

(** ** Errors and the transport *)

Inductive client_error :=
| CClosed
| CRequired (what : string)          (* an argument check *)
| CMarshal                           (* the request does not marshal *)
| CCall (why : string)               (* the transport failed *)
| CStatus (status : Z) (detail : string)
| CDecode                            (* the body of the answer does not decode *)
| CNotImplementedLocally
| CContext                           (* the context of the caller is done *)
| CRun (how id : string).            (* the run ended other than by completing *)

(** What is handed to a transport: a JSON body, or an object that is framed already. *)
Inductive payload := PBody (b : raw) | PFramed (token : string) (secondary : raw).

Class Transport (S : Type) := transport_Call : Z → payload → M S string envelope.

Record clientImpl := { ci_namespace : string; ci_identity : string; ci_closed : bool }.

(** [Options]: the address, the names, and whether a transport is injected. *)
Record Options := { op_Address : string; op_Namespace : string; op_Identity : string; op_injected : bool }.
(** [Dial]; [connect] is whether the node reaches the address. *)
Definition Dial (connect : string → bool) (opts : Options) : client_error + clientImpl :=
  let c := {| ci_namespace := set_if_empty (op_Namespace opts) "default"; ci_identity := set_if_empty (op_Identity opts) "hanzo-tasks-sdk"; ci_closed := false |} in
  if op_injected opts then inr c
  else if String.eqb (op_Address opts) "" then inl (CRequired "Options.Address")
  else if connect (op_Address opts) then inr c else inl (CCall ("zap connect " +:+ op_Address opts)).
Definition Close (c : clientImpl) : clientImpl := {| ci_namespace := ci_namespace c; ci_identity := ci_identity c; ci_closed := true |}.

(** ** Marshalling *)

Definition marshal_any (v : goany) : option json := match v with AnyNil => Some JNull | AnyJson j => Some j | AnyBad => None end.
(** [Input []any] and [Input any], both [omitempty]. *)
Definition list_fld (k : string) (l : list goany) : option (list (string * json)) :=
  match l with
  | [] => Some []
  | _ => js ← marshal_list l; Some [(k, JArr js)]
  end.
Definition any_fld (k : string) (v : goany) : option (list (string * json)) :=
  match v with
  | AnyNil => Some []
  | _ => j ← marshal_any v; Some [(k, j)]
  end.
(** [map[string]any], [omitempty]. *)
Definition map_fld (k : string) (m : gmap string goany) : option (list (string * json)) :=
  match map_to_list m with
  | [] => Some []
  | l => o ← mapM (λ '(k, v), (k,.) <$> marshal_any v) l; Some [(k, JObj o)]
  end.
(** [NextPageToken []byte]. *)
Definition token_fld (k token : string) : list (string * json) := if String.eqb token "" then [] else [(k, JStr (EncodeToString token))].

Section Client.
Context {S : Type} `{Transport S}.

(** [roundTrip]: [read] decodes the body into the response, [z] is the response left
    untouched by a body of no bytes. *)
Definition roundTrip {R} (c : clientImpl) (opcode : Z) (req : option json) (z : R) (read : json → option R) : M S client_error R := λ s,
  if ci_closed c then (s, inl CClosed) else
  match req with
  | None => (s, inl CMarshal)
  | Some body =>
      match transport_Call opcode (PBody (RJson body)) s with
      | (s, inl why) => (s, inl (CCall why))
      | (s, inr e) =>
          if negb (ev_status e =? 0) && negb (ev_status e =? 200) then (s, inl (CStatus (ev_status e) (ev_error e)))
          else match ev_body e with
               | RNone => (s, inr z)
               | RBad => (s, inl CDecode)
               | RJson j => match read j with Some r => (s, inr r) | None => (s, inl CDecode) end
               end
      end
  end.
(** [resp == nil]: the body is not looked at. *)
Definition send (c : clientImpl) (opcode : Z) (req : option json) : M S client_error unit := roundTrip c opcode req tt (λ _, Some tt).

Definition require {A} (ok : bool) (what : string) (m : M S client_error A) : M S client_error A :=
  if ok then m else throw (CRequired what).
Definition given (s : string) : bool := negb (String.eqb s "").

(** ** Workflows *)

Definition workflowTypeName (workflow : goref) : client_error + string :=
  match workflow with
  | RefNil => inl (CRequired "workflow")
  | RefString s => if String.eqb s "" then inl (CRequired "workflow type") else inr s
  | RefFunc full => inr (match after_last "." full with Some t => t | None => full end)
  | RefOther => inl (CRequired "workflow must be a string or func")
  end.

Record StartWorkflowOptions := {
  so_ID : string; so_TaskQueue : string; so_WorkflowExecutionTimeout : Z; so_WorkflowRunTimeout : Z; so_WorkflowTaskTimeout : Z;
  so_RetryPolicy : option temporalRetryPolicy; so_CronSchedule : string; so_Memo : gmap string goany; so_SearchAttributes : gmap string goany }.

Definition timeouts_json (o : StartWorkflowOptions) : json :=
  JObj (fld_omit "workflow_execution_ms" (Milliseconds (so_WorkflowExecutionTimeout o)) ++ fld_omit "workflow_run_ms" (Milliseconds (so_WorkflowRunTimeout o)) ++
        fld_omit "workflow_task_ms" (Milliseconds (so_WorkflowTaskTimeout o))).
(** [startWorkflowRequest], and [signalWithStartWorkflowRequest] with its two members more. *)
Definition start_request (c : clientImpl) (id wfType : string) (o : StartWorkflowOptions) (args : list goany) (signal : option (string * goany)) : option json :=
  input ← list_fld "input" args; memo ← map_fld "memo" (so_Memo o);
  sig ← (match signal with None => Some [] | Some (name, arg) => a ← any_fld "signal_input" arg; Some (fld "signal_name" name ++ a) end);
  if marshal_ok (retryPolicyJSON (so_RetryPolicy o)) then
    Some (JObj (fld "namespace" (ci_namespace c) ++ fld "workflow_id" id ++ fld "workflow_type" wfType ++ fld "task_queue" (so_TaskQueue o) ++ input ++
                fld_omit "retry_policy" (retryPolicyJSON (so_RetryPolicy o)) ++ fld "timeouts" (timeouts_json o) ++ memo ++
                fld_omit "cron_schedule" (so_CronSchedule o) ++ fld_omit "identity" (ci_identity c) ++ sig))
  else None.

Record workflowRunImpl := { wr_id : string; wr_runID : string }.
Definition read_run_id (j : json) : option string := o ← as_obj j; rd o "run_id".

Definition ExecuteWorkflow (c : clientImpl) (opts : StartWorkflowOptions) (workflow : goref) (args : list goany) : M S client_error workflowRunImpl :=
  require (given (so_TaskQueue opts)) "StartWorkflowOptions.TaskQueue" (
  match workflowTypeName workflow with
  | inl e => throw e
  | inr ty =>
      run ← roundTrip c cop_StartWorkflow (start_request c (so_ID opts) ty opts args None) "" read_run_id;
      mret {| wr_id := set_if_empty (so_ID opts) run; wr_runID := run |}
  end).

Definition SignalWithStartWorkflow (c : clientImpl) (workflowID signalName : string) (signalArg : goany) (opts : StartWorkflowOptions) (workflow : goref)
    (args : list goany) : M S client_error workflowRunImpl :=
  require (given workflowID) "workflowID" (require (given signalName) "signalName" (require (given (so_TaskQueue opts)) "StartWorkflowOptions.TaskQueue" (
  match workflowTypeName workflow with
  | inl e => throw e
  | inr ty =>
      run ← roundTrip c cop_SignalWithStartWorkflow (start_request c workflowID ty opts args (Some (signalName, signalArg))) "" read_run_id;
      mret {| wr_id := workflowID; wr_runID := run |}
  end))).

(** The members every request on a run has. *)
Definition run_members (c : clientImpl) (workflowID runID : string) : list (string * json) :=
  fld "namespace" (ci_namespace c) ++ fld "workflow_id" workflowID ++ fld_omit "run_id" runID.

Definition SignalWorkflow (c : clientImpl) (workflowID runID signalName : string) (arg : goany) : M S client_error unit :=
  require (given workflowID) "workflowID" (require (given signalName) "signalName" (
    send c cop_SignalWorkflow (input ← any_fld "input" arg; Some (JObj (run_members c workflowID runID ++ fld "signal_name" signalName ++ input))))).
Definition CancelWorkflow (c : clientImpl) (workflowID runID : string) : M S client_error unit :=
  require (given workflowID) "workflowID" (send c cop_CancelWorkflow (Some (JObj (run_members c workflowID runID)))).
Definition TerminateWorkflow (c : clientImpl) (workflowID runID reason : string) : M S client_error unit :=
  require (given workflowID) "workflowID" (send c cop_TerminateWorkflow (Some (JObj (run_members c workflowID runID ++ fld_omit "reason" reason)))).

(** [WorkflowExecutionInfo]: a time that is absent is the zero time. *)
Record WorkflowExecutionInfo := {
  wi_WorkflowID : string; wi_RunID : string; wi_WorkflowType : string; wi_StartTime : option Z; wi_CloseTime : option Z; wi_Status : Z;
  wi_HistoryLength : Z; wi_TaskQueue : string; wi_Memo : gmap string json }.
Definition no_info : WorkflowExecutionInfo :=
  {| wi_WorkflowID := ""; wi_RunID := ""; wi_WorkflowType := ""; wi_StartTime := None; wi_CloseTime := None; wi_Status := 0; wi_HistoryLength := 0;
     wi_TaskQueue := ""; wi_Memo := ∅ |}.
Definition read_time (o : list (string * json)) (k : string) : option (option Z) :=
  match assoc k o with
  | None | Some JNull => Some None
  | Some (JStr s) => Some <$> parse_rfc3339 s
  | Some _ => None
  end.
Definition read_int (bits : Z) (o : list (string * json)) (k : string) : option Z :=
  match assoc k o with
  | None | Some JNull => Some 0
  | Some (JNum n) => if (- 2 ^ (bits - 1) <=? n) && (n <? 2 ^ (bits - 1)) then Some n else None
  | Some _ => None
  end.
Definition read_info (j : json) : option WorkflowExecutionInfo :=
  o ← as_obj j; wf ← rd o "workflow_id"; run ← rd o "run_id"; ty ← rd o "workflow_type"; st ← read_time o "start_time"; ct ← read_time o "close_time";
  status ← read_int 8 o "status"; len ← read_int 64 o "history_length"; q ← rd o "task_queue"; memo ← rd o "memo";
  Some {| wi_WorkflowID := wf; wi_RunID := run; wi_WorkflowType := ty; wi_StartTime := st; wi_CloseTime := ct; wi_Status := status;
          wi_HistoryLength := len; wi_TaskQueue := q; wi_Memo := memo |}.

Definition DescribeWorkflow (c : clientImpl) (workflowID runID : string) : M S client_error WorkflowExecutionInfo :=
  require (given workflowID) "workflowID" (
    roundTrip c cop_DescribeWorkflow (Some (JObj (run_members c workflowID runID))) no_info
      (λ j, o ← as_obj j; match assoc "info" o with None => Some no_info | Some i => read_info i end)).

(** A page: the rows and the token of the next one. *)
Definition read_page {R} (k : string) (read : json → option R) (j : json) : option (list R * string) :=
  o ← as_obj j;
  rows ← (match assoc k o with None | Some JNull => Some [] | Some (JArr l) => mapM read l | Some _ => None end);
  token ← (match assoc "next_page_token" o with None | Some JNull => Some "" | Some (JStr s) => DecodeString s | Some _ => None end);
  Some (rows, token).
Definition page_members (pageSize : Z) (token : string) : list (string * json) := fld_omit "page_size" pageSize ++ token_fld "next_page_token" token.

Definition ListWorkflows (c : clientImpl) (query : string) (pageSize : Z) (token : string) : M S client_error (list WorkflowExecutionInfo * string) :=
  roundTrip c cop_ListWorkflows (Some (JObj (fld "namespace" (ci_namespace c) ++ fld_omit "query" query ++ page_members pageSize token))) ([], "")
    (read_page "executions" read_info).

(** [QueryWorkflow]: the encoded value of the answer. *)
Definition QueryWorkflow (c : clientImpl) (workflowID runID queryType : string) (args : list goany) : M S client_error string :=
  require (given workflowID) "workflowID" (require (given queryType) "queryType" (
    roundTrip c cop_QueryWorkflow (qa ← list_fld "query_args" args; Some (JObj (run_members c workflowID runID ++ fld "query_type" queryType ++ qa))) ""
      (λ j, o ← as_obj j; match assoc "result" o with None | Some JNull => Some "" | Some (JStr s) => DecodeString s | Some _ => None end))).

(** ** Waiting for a run *)

Definition WorkflowStatusCompleted : Z := 2.
Definition WorkflowStatusFailed : Z := 3.
Definition WorkflowStatusCanceled : Z := 4.
Definition WorkflowStatusTerminated : Z := 5.
Definition WorkflowStatusContinuedAsNew : Z := 6.
Definition WorkflowStatusTimedOut : Z := 7.

(** One look at the run: the error to return ([None] within is success), or the run to
    look at next. [value] is whether a result is asked for, [disable] is
    [DisableFollowingRuns]. *)
Definition poll_verdict (value disable : bool) (r : workflowRunImpl) (info : WorkflowExecutionInfo) : option client_error + workflowRunImpl :=
  let st := wi_Status info in let id := wi_WorkflowID info in
  if st =? WorkflowStatusCompleted then inl (if value then Some CNotImplementedLocally else None)
  else if st =? WorkflowStatusFailed then inl (Some (CRun "failed" id))
  else if st =? WorkflowStatusCanceled then inl (Some (CRun "canceled" id))
  else if st =? WorkflowStatusTerminated then inl (Some (CRun "terminated" id))
  else if st =? WorkflowStatusTimedOut then inl (Some (CRun "timed out" id))
  else if st =? WorkflowStatusContinuedAsNew then
    if disable then inl (Some (CRun "continued as new" id)) else inr {| wr_id := wr_id r; wr_runID := "" |}
  else inr r.

Definition maxBackoff : Z := 5 * Second.
(** [GetWithOptions], for at most [fuel] looks: the waits between them, and the outcome,
    [None] while the run is still awaited. [between n] is what happens to the world during
    the wait after which [n] looks remain, [ends n] whether the context ends in it. *)
Fixpoint get_loop (fuel : nat) (between : nat → S → S) (ends : nat → bool) (c : clientImpl) (value disable : bool) (r : workflowRunImpl) (backoff : Z) (s : S)
    : S * list Z * option (option client_error) :=
  match fuel with
  | O => (s, [], None)
  | Datatypes.S fuel =>
      match DescribeWorkflow c (wr_id r) (wr_runID r) s with
      | (s, inl e) => (s, [], Some (Some e))
      | (s, inr info) =>
          match poll_verdict value disable r info with
          | inl e => (s, [], Some e)
          | inr r =>
              if ends fuel then (s, [], Some (Some CContext)) else
              let '(s, waits, out) := get_loop fuel between ends c value disable r (if backoff <? maxBackoff then backoff * 2 else backoff) (between fuel s) in
              (s, backoff :: waits, out)
          end
      end
  end.
Definition GetWithOptions (fuel : nat) (between : nat → S → S) (ends : nat → bool) (c : clientImpl) (value disable : bool) (r : workflowRunImpl) :=
  get_loop fuel between ends c value disable r (250 * Millisecond).

(** ** Schedules *)

Record ScheduleSpec := { ss_Cron : list string; ss_Interval : Z; ss_StartTime : option Z; ss_EndTime : option Z; ss_Jitter : Z; ss_Timezone : string }.
Record ScheduleAction := { sn_WorkflowID : string; sn_WorkflowType : string; sn_TaskQueue : string; sn_Input : list goany }.
Record Schedule := { sh_ID : string; sh_Spec : ScheduleSpec; sh_Action : ScheduleAction; sh_Paused : bool }.

Definition UnixMilli (t : option Z) : Z := match t with Some t => t / Millisecond | None => 0 end.
Definition spec_json (s : ScheduleSpec) : json :=
  JObj (fld_omit "cron" (ss_Cron s) ++ fld_omit "interval_ms" (Milliseconds (ss_Interval s)) ++ fld_omit "start_time_ms" (UnixMilli (ss_StartTime s)) ++
        fld_omit "end_time_ms" (UnixMilli (ss_EndTime s)) ++ fld_omit "jitter_ms" (Milliseconds (ss_Jitter s)) ++ fld_omit "timezone" (ss_Timezone s)).
Definition action_json (a : ScheduleAction) : option json :=
  input ← list_fld "input" (sn_Input a);
  Some (JObj (fld_omit "workflow_id" (sn_WorkflowID a) ++ fld "workflow_type" (sn_WorkflowType a) ++ fld "task_queue" (sn_TaskQueue a) ++ input)).
Definition schedule_json (s : Schedule) : option json :=
  a ← action_json (sh_Action s);
  Some (JObj (fld "id" (sh_ID s) ++ [("spec", spec_json (sh_Spec s)); ("action", a)] ++ fld_omit "paused" (sh_Paused s))).

(** [ScheduleSpec.UnmarshalJSON]; the durations wrap at 64 bits. *)
Definition read_spec (j : json) : option ScheduleSpec :=
  o ← as_obj j; cron ← rd o "cron"; iv ← read_int 64 o "interval_ms"; st ← read_int 64 o "start_time_ms"; et ← read_int 64 o "end_time_ms";
  ji ← read_int 64 o "jitter_ms"; tz ← rd o "timezone";
  let time ms := if ms =? 0 then None else Some (ms * Millisecond) in
  Some {| ss_Cron := cron; ss_Interval := wrap64 (iv * Millisecond); ss_StartTime := time st; ss_EndTime := time et; ss_Jitter := wrap64 (ji * Millisecond);
          ss_Timezone := tz |}.
Definition read_action (j : json) : option ScheduleAction :=
  o ← as_obj j; id ← rd o "workflow_id"; ty ← rd o "workflow_type"; q ← rd o "task_queue"; input ← rd o "input";
  Some {| sn_WorkflowID := id; sn_WorkflowType := ty; sn_TaskQueue := q; sn_Input := AnyJson <$> (input : list json) |}.
Definition no_spec : ScheduleSpec := {| ss_Cron := []; ss_Interval := 0; ss_StartTime := None; ss_EndTime := None; ss_Jitter := 0; ss_Timezone := "" |}.
Definition no_schedule : Schedule :=
  {| sh_ID := ""; sh_Spec := no_spec; sh_Action := {| sn_WorkflowID := ""; sn_WorkflowType := ""; sn_TaskQueue := ""; sn_Input := [] |}; sh_Paused := false |}.
Definition read_schedule (j : json) : option Schedule :=
  o ← as_obj j; id ← rd o "id"; spec ← (match assoc "spec" o with None | Some JNull => Some no_spec | Some s => read_spec s end);
  action ← (match assoc "action" o with None => Some (sh_Action no_schedule) | Some a => read_action a end); paused ← rd o "paused";
  Some {| sh_ID := id; sh_Spec := spec; sh_Action := action; sh_Paused := paused |}.

Record CreateScheduleOptions := { co_ID : string; co_Spec : ScheduleSpec; co_Action : ScheduleAction; co_Paused : bool }.
Definition schedule_request (c : clientImpl) (id : string) (s : Schedule) : option json :=
  j ← schedule_json s; Some (JObj (fld "namespace" (ci_namespace c) ++ fld "schedule_id" id ++ [("schedule", j)])).
Definition CreateSchedule (c : clientImpl) (opts : CreateScheduleOptions) : M S client_error unit :=
  require (given (co_ID opts)) "schedule ID" (require (given (sn_WorkflowType (co_Action opts))) "schedule action WorkflowType" (
  require (given (sn_TaskQueue (co_Action opts))) "schedule action TaskQueue" (
  require (negb (is_empty (ss_Cron (co_Spec opts)) && (ss_Interval (co_Spec opts) =? 0))) "schedule spec CronExpressions or Interval" (
  send c cop_CreateSchedule (schedule_request c (co_ID opts) {| sh_ID := co_ID opts; sh_Spec := co_Spec opts; sh_Action := co_Action opts; sh_Paused := co_Paused opts |}))))).
Definition ListSchedules (c : clientImpl) (pageSize : Z) (token : string) : M S client_error (list Schedule * string) :=
  roundTrip c cop_ListSchedules (Some (JObj (fld "namespace" (ci_namespace c) ++ page_members pageSize token))) ([], "") (read_page "schedules" read_schedule).
Definition schedule_members (c : clientImpl) (id : string) : list (string * json) := fld "namespace" (ci_namespace c) ++ fld "schedule_id" id.
Definition DeleteSchedule (c : clientImpl) (id : string) : M S client_error unit :=
  require (given id) "schedule ID" (send c cop_DeleteSchedule (Some (JObj (schedule_members c id)))).
Definition PauseSchedule (c : clientImpl) (id : string) (paused : bool) : M S client_error unit :=
  require (given id) "schedule ID" (send c cop_PauseSchedule (Some (JObj (schedule_members c id ++ fld "paused" paused)))).
Definition UnpauseSchedule (c : clientImpl) (id : string) : M S client_error unit := PauseSchedule c id false.
Definition UpdateSchedule (c : clientImpl) (id : string) (s : Schedule) : M S client_error unit :=
  require (given id) "schedule ID" (send c cop_UpdateSchedule (schedule_request c id s)).
Definition TriggerSchedule (c : clientImpl) (id overlapPolicy : string) : M S client_error unit :=
  require (given id) "schedule ID" (send c cop_TriggerSchedule (Some (JObj (schedule_members c id ++ fld_omit "overlap_policy" overlapPolicy)))).
(** The schedule of the answer; its counters are read the same way. *)
Definition DescribeSchedule (c : clientImpl) (id : string) : M S client_error Schedule :=
  require (given id) "schedule ID" (
    roundTrip c cop_DescribeSchedule (Some (JObj (schedule_members c id))) no_schedule
      (λ j, o ← as_obj j; match assoc "schedule" o with None => Some no_schedule | Some s => read_schedule s end)).

(** ** Namespaces and health *)

Record NamespaceInfo := { cn_Name : string; cn_State : Z; cn_Description : string; cn_OwnerEmail : string; cn_ID : string; cn_Retention : Z }.
Definition no_namespace : NamespaceInfo := {| cn_Name := ""; cn_State := 0; cn_Description := ""; cn_OwnerEmail := ""; cn_ID := ""; cn_Retention := 0 |}.
Definition members_of (k : string) (o : list (string * json)) : option (list (string * json)) := match assoc k o with None => Some [] | Some j => as_obj j end.
Definition read_namespace (j : json) : option NamespaceInfo :=
  o ← as_obj j; i ← members_of "info" o; cfg ← members_of "config" o;
  name ← rd i "name"; st ← read_int 8 i "state"; d ← rd i "description"; e ← rd i "owner_email"; id ← rd i "id"; r ← read_int 64 cfg "retention_ms";
  Some {| cn_Name := name; cn_State := st; cn_Description := d; cn_OwnerEmail := e; cn_ID := id; cn_Retention := wrap64 (r * Millisecond) |}.

Definition RegisterNamespace (c : clientImpl) (name description owner : string) (retention : Z) : M S client_error unit :=
  require (given name) "namespace name" (
    send c cop_RegisterNamespace (Some (JObj (fld "name" name ++ fld_omit "description" description ++ fld_omit "owner_email" owner ++
                                              fld_omit "retention_ms" (Milliseconds retention))))).
Definition DescribeNamespace (c : clientImpl) (name : string) : M S client_error NamespaceInfo :=
  require (given name) "namespace name" (
    roundTrip c cop_DescribeNamespace (Some (JObj (fld "name" name))) no_namespace
      (λ j, o ← as_obj j; match assoc "namespace" o with None => Some no_namespace | Some n => read_namespace n end)).
Definition ListNamespaces (c : clientImpl) (pageSize : Z) (token : string) : M S client_error (list NamespaceInfo * string) :=
  roundTrip c cop_ListNamespaces (Some (JObj (page_members pageSize token))) ([], "") (read_page "namespaces" read_namespace).

Definition CheckHealth (c : clientImpl) : M S client_error (string * string) :=
  roundTrip c cop_Health (Some (JObj [])) ("", "") (λ j, o ← as_obj j; service ← rd o "service"; status ← rd o "status"; Some (service, status)).
Definition Health (c : clientImpl) : M S client_error (string * string) := CheckHealth c.

End Client.

(** ** The ZAP transport *)

(** A token source: none, one that fails, or one that answers. *)
Definition TokenSource : Type := option (string + string).

Definition injectAuthToken (body : raw) (tok : string) : string + raw :=
  match body with
  | RNone => inr (RJson (JObj [("auth_token", JStr tok)]))
  | RJson (JObj o) => inr (RJson (JObj (o ++ [("auth_token", JStr tok)])))
  | RJson JNull => inl "assignment to entry in nil map"
  | _ => inl "cannot attach auth_token to non-object body"
  end.
(** [Call], up to the frame: only a JSON body carries the token. *)
Definition attach (token : TokenSource) (p : payload) : string + payload :=
  match token, p with
  | Some (inl why), PBody _ => inl ("obtain auth token: " +:+ why)
  | Some (inr tok), PBody b => if String.eqb tok "" then inr p else match injectAuthToken b tok with inl why => inl why | inr b => inr (PBody b) end
  | _, _ => inr p
  end.
(** [FrameBody]: the message, and the opcode in the high byte of its flags. *)
Definition frame_of (p : payload) : message := match p with PBody b => MEnvelope b | PFramed t b => MRespond t b end.
Definition FrameBody (opcode : Z) (p : payload) : message * Z := (frame_of p, Z.land (Z.shiftl opcode 8) 65535).
Definition opcode_of (flags : Z) : Z := Z.shiftr flags 8.

Section ZapTransport.
Context `{Env} (wording : err → string) (defaultNS : string) (validator : option (string → string)) (requireID : bool).
(** This node's id, its token source, and what the rest of the process does while a query
    of ours waits. *)
Context (from : string) (token : TokenSource) (during : server → server).

(** The connection hands a message to the handler registered for its opcode and brings its
    response back. *)
Definition zap_Call (opcode : Z) (p : payload) : M server string envelope := λ s,
  match attach token p with
  | inl why => (s, inl why)
  | inr p =>
      let '(msg, flags) := FrameBody opcode p in
      match zapHandlers wording defaultNS validator requireID (opcode_of flags) with
      | None => (s, inl "no handler")
      | Some h =>
          match h from msg s with
          | (s, inl _) => (s, inl "handler failed")
          | (s, inr (Responds e)) => (s, inr e)
          | (s, inr (Pends tok ch)) =>
              match (o ← in_world (opQueryWorkflow_end wording tok ch); mret (envelope_of o)) (during s) with
              | (s, inr (Responds e)) => (s, inr e)
              | (s, _) => (s, inl "handler failed")
              end
          end
      end
  end.
Definition zapTransport : Transport server := zap_Call.
End ZapTransport.
