(* ===== verification/QueueSpec.v ===== *)
(** Schedules and queues: the next fire of a schedule is the earliest its specs
    ask for, a schedule that fired is not due again at that instant, and a worker
    that asks a queue gets the activity that has waited longest. *)

From Stdlib Require Import Ascii ZArith Lia.
From stdpp Require Import prelude strings gmap sorting.
From S2P Require Import Prelude GoStrings Json Types EngineTypes Env Principal GoTime GoDuration World Activities Schedules.

#[local] Open Scope Z_scope.

(** ** The next fire *)

Section NextFire.
Context `{Env}.

(** The fires the specs of a schedule ask for after an instant. *)
Definition cron_candidates (after : Z) (l : list string) : list Z := omap (λ cs, next ← env_cron cs; Some (next after)) l.
Definition interval_candidates (after : Z) (l : list IntervalSpec) : list Z :=
  omap (λ iv, d ← ParseDuration (Interval iv); if d <=? 0 then None else Some (after + d)) l.
Definition candidates (after : Z) (s : Schedule) : list Z :=
  cron_candidates after (CronString (Spec s)) ++ interval_candidates after (IntervalList (Spec s)).

Lemma cron_fold after l : ∀ e, foldl (cron_fire after) e l = foldl earlier e (cron_candidates after l).
Proof.
  induction l as [|cs l IH]; intros e; [done|]. cbn [foldl]. rewrite IH. unfold cron_candidates, cron_fire. cbn [omap list_omap].
  by destruct (env_cron cs).
Qed.
Lemma interval_fold after l : ∀ e, foldl (interval_fire after) e l = foldl earlier e (interval_candidates after l).
Proof.
  induction l as [|iv l IH]; intros e; [done|]. cbn [foldl]. rewrite IH. unfold interval_candidates, interval_fire. cbn [omap list_omap].
  destruct (ParseDuration (Interval iv)) as [d|]; [|done]. cbn [mbind option_bind]. by destruct (d <=? 0).
Qed.
Lemma next_fold s after :
  nextScheduleFire s after =
  let e := foldl earlier zero_time (candidates after s) in if e =? zero_time then None else Some e.
Proof. unfold nextScheduleFire, candidates. cbv zeta. by rewrite cron_fold, interval_fold, foldl_app. Qed.

(** Whatever comes out was asked for. *)
Lemma earliest_in l : ∀ e, foldl earlier e l = e ∨ foldl earlier e l ∈ l.
Proof.
  induction l as [|t l IH]; intros e; cbn [foldl]; [by left|]. destruct (IH (earlier e t)) as [->|Hin]; [|set_solver].
  unfold earlier. case_match; set_solver.
Qed.

(** Once there is one, the earliest stays the earliest. *)
Lemma earliest_le l : ∀ e, e ≠ zero_time → Forall (λ t, t ≠ zero_time) l →
  foldl earlier e l ≠ zero_time ∧ foldl earlier e l ≤ e ∧ Forall (λ t, foldl earlier e l ≤ t) l.
Proof.
  induction l as [|t l IH]; intros e He Hl; cbn [foldl]; [done|]. apply Forall_cons in Hl as [Ht Hl].
  assert (earlier e t = Z.min e t) as E.
  { unfold earlier. destruct (Z.eqb_spec e zero_time); [done|]. cbn [orb]. destruct (Z.ltb_spec t e); lia. }
  destruct (IH (earlier e t)) as (H1 & H2 & H3); [rewrite E; destruct (Z.min_spec e t) as [[_ ->]|[_ ->]]; done|done|].
  split_and!; [done|lia|]. constructor; [lia|done].
Qed.

(** A schedule fires at the earliest instant its specs ask for: when no spec
    answers the zero time, the next fire is one of the instants the crontab entries
    and the intervals ask for, none of them is earlier, and there is none exactly
    when no spec asks for any. *)
Theorem next_fire_earliest s after :
  Forall (λ t, t ≠ zero_time) (candidates after s) →
  match nextScheduleFire s after with
  | Some t => t ∈ candidates after s ∧ Forall (λ c, t ≤ c) (candidates after s)
  | None => candidates after s = []
  end.
Proof.
  intros Hc. rewrite next_fold. cbv zeta. destruct (candidates after s) as [|t l]; [done|]. cbn [foldl].
  apply Forall_cons in Hc as [Ht Hl]. change (earlier zero_time t) with t.
  destruct (earliest_le l t Ht Hl) as (H1 & H2 & H3). destruct (Z.eqb_spec (foldl earlier t l) zero_time); [done|].
  split; [|by constructor]. destruct (earliest_in l t) as [->|?]; set_solver.
Qed.

(** A crontab entry that never fires hides every entry before it: the parser
    answers the zero time, which is before any other. *)
Lemma dead_cron_hides s after live dead n1 n2 :
  CronString (Spec s) = [live; dead] → IntervalList (Spec s) = [] → env_cron live = Some n1 → env_cron dead = Some n2 →
  n2 after = zero_time → zero_time < n1 after → nextScheduleFire s after = None.
Proof.
  intros Hc Hi H1 H2 Hz Hlt. unfold nextScheduleFire. rewrite Hc, Hi. cbn [foldl]. unfold cron_fire. rewrite H1, H2, Hz.
  unfold earlier. rewrite Z.eqb_refl. cbn [orb]. destruct (Z.eqb_spec (n1 after) zero_time); [lia|]. cbn [orb].
  by rewrite (proj2 (Z.ltb_lt _ _) Hlt), Z.eqb_refl.
Qed.

(** ** A schedule that fired *)

(** What [robfig/cron] documents of the next activation: after the instant given,
    on a whole second, or the zero time when there is none. *)
Definition CronRule : Prop := ∀ cs next t, env_cron cs = Some next → next t = zero_time ∨ (t < next t ∧ next t mod Second = 0).

(** The intervals of the schedule are of a second or more. *)
Definition coarse (s : Schedule) : Prop := Forall (λ iv, ∀ d, ParseDuration (Interval iv) = Some d → 0 < d → Second ≤ d) (IntervalList (Spec s)).

Lemma anchor_fired now s fallback : four_digit_year now → anchorTime (fired now s) fallback = now / Second * Second.
Proof.
  intros Hy. unfold anchorTime, read_stamp. change (si_UpdateTime (Info (fired now s))) with (format_rfc3339 now).
  pose proof (parse_format now Hy) as Hp. rewrite Hp. revert Hp. generalize (format_rfc3339 now) as f. intros f Hp.
  destruct (String.eqb_spec f "") as [->|_]; [|done]. assert (parse_rfc3339 "" = None) by (by vm_compute). congruence.
Qed.

Lemma floor_second t : t / Second * Second ≤ t < t / Second * Second + Second.
Proof. pose proof (Z.div_mod t Second ltac:(done)). pose proof (Z.mod_pos_bound t Second ltac:(done)). lia. Qed.

(** A schedule that fired at an instant is not due at that instant: the sweep
    stamps the row, and the next fire it computes from the stamp is later, although
    the stamp is cut to the second. So two sweeps at the same instant, or a sweep
    repeated after a restart, do not fire the schedule twice. *)
Theorem fired_not_due p key now s :
  CronRule → coarse s → four_digit_year now → marshal_ok (fired now s) = true →
  due_of now (p, (key, to_json (fired now s))) = None.
Proof.
  intros Hcron Hco Hy Hm. unfold due_of. cbn [snd]. rewrite of_to by done. cbn [mbind option_bind]. case_match; [done|].
  rewrite anchor_fired by done. set (a := now / Second * Second). pose proof (floor_second now) as Hfl. fold a in Hfl.
  rewrite next_fold. cbv zeta. destruct (Z.eqb_spec (foldl earlier zero_time (candidates a (fired now s))) zero_time) as [|Hz]; [done|].
  cbn [mbind option_bind]. destruct (earliest_in (candidates a (fired now s)) zero_time) as [?|Hin]; [done|].
  destruct (Z.ltb_spec now (foldl earlier zero_time (candidates a (fired now s)))) as [|Hle]; [done|exfalso].
  apply elem_of_app in Hin as [Hin|Hin]; apply list_elem_of_omap in Hin as (x & Hx & E).
  - destruct (env_cron x) as [next|] eqn:Ec; [|done]. injection E as E. rewrite <-E in Hle, Hz.
    destruct (Hcron x next a Ec) as [?|[H1 H2]]; [done|]. unfold a in *.
    apply Z.mod_divide in H2 as [q Hq]; [|done]. rewrite Hq in *. clear -Hfl Hle H1. revert Hfl Hle H1.
    generalize (now / Second) as m. change Second with 1000000000. lia.
  - destruct (ParseDuration (Interval x)) as [d|] eqn:Ed; [|done]. cbn [mbind option_bind] in E. destruct (Z.leb_spec d 0); [done|].
    injection E as E. rewrite <-E in Hle. assert (Second ≤ d); [|lia]. eapply (Forall_forall (λ iv, _)) in Hco; [by apply Hco|done].
Qed.

End NextFire.

(** ** The order of claims *)

#[local] Instance claim_le_total : Total claim_le.
Proof.
  intros a b. unfold claim_le. rewrite (String.eqb_sym (act_StartTime b)). destruct (String.eqb_spec (act_StartTime a) (act_StartTime b)) as [E|Hne].
  - unfold sle. destruct (slt (WorkflowId (act_Execution b)) (WorkflowId (act_Execution a))) eqn:Hs; [right|by left].
    by rewrite slt_asym.
  - destruct (slt (act_StartTime a) (act_StartTime b)) eqn:H1; [by left|right]. destruct (slt (act_StartTime b) (act_StartTime a)) eqn:H2; [done|].
    by destruct Hne; apply slt_total.
Qed.

Lemma sle_trans a b c : sle a b = true → sle b c = true → sle a c = true.
Proof.
  intros H1 H2. unfold sle in *. destruct (slt c a) eqn:E; [|done]. exfalso.
  assert (slt c b = true) as E2 by (by eapply slt_sle_trans). by rewrite E2 in H2.
Qed.

#[local] Instance claim_le_trans : Transitive claim_le.
Proof.
  intros a b c. unfold claim_le. destruct (String.eqb_spec (act_StartTime a) (act_StartTime b)) as [E1|N1].
  - rewrite E1. destruct (String.eqb_spec (act_StartTime b) (act_StartTime c)); [apply sle_trans|done].
  - destruct (String.eqb_spec (act_StartTime b) (act_StartTime c)) as [E2|N2].
    + rewrite <-E2, (proj2 (String.eqb_neq _ _) N1). done.
    + intros H1 H2. pose proof (slt_trans _ _ _ H1 H2) as H3. rewrite (proj2 (String.eqb_neq _ _) (slt_ne _ _ H3)). done.
Qed.

Lemma sorted_filter {A} (le : relation A) (P : A → Prop) `{!∀ x, Decision (P x)} l : StronglySorted le l → StronglySorted le (filter P l).
Proof.
  induction 1 as [|x l Hl IH Hx]; [constructor|]. rewrite filter_cons. case_decide; [|done]. constructor; [done|].
  rewrite Forall_forall in Hx |- *. intros y [_ Hy]%list_elem_of_filter. by apply Hx.
Qed.

(** A worker that asks a queue gets the activity that has waited longest: the
    row a claim takes is scheduled, of the queue, and started no later than any
    other such row, the smaller id first among those of the same second; a claim
    comes back empty only when no row of the queue is scheduled. *)
Theorem claim_oldest_first taskQueue rows :
  match next_claim taskQueue rows with
  | Some a => a ∈ rows ∧ claimable taskQueue a = true ∧ ∀ b, b ∈ rows → claimable taskQueue b = true → claim_le a b
  | None => ∀ b, b ∈ rows → claimable taskQueue b = false
  end.
Proof.
  pose proof (merge_sort_Permutation claim_le rows) as Hp. pose proof (StronglySorted_merge_sort claim_le rows) as Hs.
  unfold next_claim. destruct (filter _ (merge_sort claim_le rows)) as [|a l] eqn:E; cbn [head].
  - intros b Hb. destruct (claimable taskQueue b) eqn:Hc; [|done]. rewrite <-Hp in Hb.
    assert (b ∈ filter (λ a, claimable taskQueue a = true) (merge_sort claim_le rows)) as Hin by (by apply list_elem_of_filter).
    rewrite E in Hin. by apply elem_of_nil in Hin.
  - assert (a ∈ filter (λ a, claimable taskQueue a = true) (merge_sort claim_le rows)) as Ha by (rewrite E; by left).
    apply list_elem_of_filter in Ha as [Hc Ha]. split_and!; [by rewrite <-Hp|done|]. intros b Hb Hcb. rewrite <-Hp in Hb.
    assert (b ∈ a :: l) as Hin by (rewrite <-E; by apply list_elem_of_filter).
    apply elem_of_cons in Hin as [->|Hin]; [by destruct (total claim_le a a)|].
    assert (StronglySorted claim_le (a :: l)) as Hsl by (rewrite <-E; by apply sorted_filter).
    apply StronglySorted_inv in Hsl as [_ Hal]. by eapply Forall_forall in Hal.
Qed.

(** ** A schedule and a queue *)

Module QueueDemo.

(** An environment whose crontab parser knows one entry: at each whole minute. *)
Definition cron_env : Env := {|
  env_now := @env_now test_env; env_rand := @env_rand test_env; env_fault := @env_fault test_env; env_pages := @env_pages test_env;
  env_send := @env_send test_env; env_segment := @env_segment test_env; env_sanitize := @env_sanitize test_env;
  env_cron cs := if String.eqb cs "* * * * *" then Some (λ t, (t / (60 * Second) + 1) * (60 * Second)) else None;
  env_secret := @env_secret test_env; env_bytes := @env_bytes test_env; env_parse := @env_parse test_env
|}.
#[local] Existing Instance cron_env.

Definition report : Schedule :=
  {| ScheduleId := "report"; sc_Namespace := "default";
     Spec := {| CronString := ["* * * * *"]; IntervalList := [{| Interval := "90s"; Phase := "" |}] |};
     Action := zero; State := {| Paused := false; Note := "" |}; Info := zero |}.
Definition noon : Z := 1767268800 * Second + 5.

Lemma next_fire_earliest_witness :
  nextScheduleFire report noon = Some (1767268860 * Second) ∧
  match nextScheduleFire report noon with
  | Some t => t ∈ candidates noon report ∧ Forall (λ c, t ≤ c) (candidates noon report)
  | None => candidates noon report = []
  end.
Proof.
  split; [by vm_compute|]. apply (next_fire_earliest report noon).
  assert (candidates noon report = [1767268860 * Second; noon + 90 * Second]) as -> by (by vm_compute). by repeat constructor.
Defined.

Lemma cron_rule : CronRule.
Proof.
  intros cs next t. cbn. case_match; [|done]. intros [= <-]. right.
  pose proof (Z.div_mod t (60 * Second) ltac:(done)). pose proof (Z.mod_pos_bound t (60 * Second) ltac:(done)). split; [lia|].
  apply Z.mod_divide; [done|]. exists ((t / (60 * Second) + 1) * 60). lia.
Qed.

Definition acme : Principal := {| Org := "acme"; Project := ""; User := "" |}.
Lemma fired_not_due_witness :
  due_of noon (acme, ("sc/default/report", to_json (fired noon report))) = None.
Proof.
  apply (fired_not_due acme "sc/default/report" noon report); [apply cron_rule| |by vm_compute|by vm_compute].
  constructor; [|constructor]. intros d. vm_compute. by intros [= <-] _.
Defined.

End QueueDemo.
