(* ===== verification/Frames.v ===== *)
(** What an operation of the engine can touch, whatever it answers: a relation
    [R] between the world before and after holds of every run of a computation
    ([respects R]) as soon as it holds of the primitive steps the computation is
    built from. Each operation is walked once, for all relations; tenant
    isolation, row placement and the scope of task tokens are instances. *)

From Stdlib Require Import Ascii ZArith Lia.
From stdpp Require Import prelude strings gmap.
From S2P Require Import Prelude GoStrings Json Types EngineTypes Env Principal Router Shard GoTime Temporal Dispatch Events World WorldFacts Failure Workflow Durable Commands Activities Schedules Deployments Admin Retention.

(** ** Tokens of the dispatcher *)

Section Tokens.
Context `{Env} (P : Principal → string → Prop).

(** Every task in flight was minted for a tenant and a namespace in [P]. *)
Definition tokens_in (d : dispatcher) : Prop :=
  map_Forall (λ _ t, P (wt_principal t) (wt_ns t)) (d_wfByToken d) ∧
  map_Forall (λ _ t, P (at_principal t) (at_ns t)) (d_actByToken d).

Lemma pick_tokens key d :
  d_wfByToken (pickLocked key d).2 = d_wfByToken d ∧ d_actByToken (pickLocked key d).2 = d_actByToken d.
Proof. unfold pickLocked. by case_bool_decide. Qed.

Lemma deliver_loop_tokens fuel : ∀ key op body peer d,
  d_wfByToken (deliver_loop fuel key op body peer d).2 = d_wfByToken d ∧
  d_actByToken (deliver_loop fuel key op body peer d).2 = d_actByToken d.
Proof.
  induction fuel as [|fuel IH]; intros key op body peer d; [done|]. cbn [deliver_loop].
  pose proof (pick_tokens key d) as [E1 E2]. destruct (pickLocked key d) as [[s|] d1]; cbn in E1, E2; [|done].
  case_match; [done|]. unfold send. case_match; [done|].
  destruct (removeSubLocked_frame s (with_sent (S (d_sends d1)) (d_sent d1) d1)) as ((_ & _ & _ & F1 & F2 & _) & _).
  destruct (IH key op body (sub_peerID s) (removeSubLocked s (with_sent (S (d_sends d1)) (d_sent d1) d1))) as [-> ->].
  rewrite F1, F2. done.
Qed.

Lemma deliverWF_tokens key t d : tokens_in d → tokens_in (deliverWFLocked key t d).2.
Proof.
  intros [H1 H2]. unfold deliverWFLocked, deliver. pose proof (deliver_loop_tokens (S (length (at_key (d_subs d) key))) key
    OpcodeDeliverWorkflowTask (encodeWorkflowTaskDelivery t) (wt_workerPeer t) d) as [E1 E2].
  destruct (deliver_loop _ _ _ _ _ _) as [[ok peer] d1]. cbn in *. split; cbn; [|by rewrite E2].
  rewrite E1. intros k x. rewrite lookup_alter_Some. intros [(<- & y & Hy & ->)|[_ Hx]]; [by apply (H1 _ _ Hy)|by apply (H1 k)].
Qed.

Lemma deliverAct_tokens key t d : tokens_in d → tokens_in (deliverActLocked key t d).2.
Proof.
  intros [H1 H2]. unfold deliverActLocked, deliver. pose proof (deliver_loop_tokens (S (length (at_key (d_subs d) key))) key
    OpcodeDeliverActivityTask (encodeActivityTaskDelivery t) (at_dispatchedToPeer t) d) as [E1 E2].
  destruct (deliver_loop _ _ _ _ _ _) as [[ok peer] d1]. cbn in *. split; cbn; [by rewrite E1|].
  rewrite E2. intros k x. rewrite lookup_alter_Some. intros [(<- & y & Hy & ->)|[_ Hx]]; [by apply (H2 _ _ Hy)|by apply (H2 k)].
Qed.

Lemma drain_wf_tokens key l : ∀ d, tokens_in d → tokens_in (drain_wf key l d).
Proof.
  induction l as [|t l IH]; intros d Hd; [done|]. cbn [drain_wf]. pose proof (deliverWF_tokens key t d Hd) as Hd1.
  destruct (deliverWFLocked key t d) as [[ok t'] d1]. destruct ok; [by apply IH|done].
Qed.
Lemma drain_act_tokens key l : ∀ d, tokens_in d → tokens_in (drain_act key l d).
Proof.
  induction l as [|t l IH]; intros d Hd; [done|]. cbn [drain_act]. pose proof (deliverAct_tokens key t d Hd) as Hd1.
  destruct (deliverActLocked key t d) as [[ok t'] d1]. destruct ok; [by apply IH|done].
Qed.

Lemma same_tokens d d' : d_wfByToken d' = d_wfByToken d → d_actByToken d' = d_actByToken d → tokens_in d → tokens_in d'.
Proof. intros E1 E2. unfold tokens_in. by rewrite E1, E2. Qed.

Lemma push_each_tokens key body l : ∀ d, tokens_in d → tokens_in (push_each key body l d).2.
Proof.
  induction l as [|s l IH]; intros d Hd; [done|]. cbn [push_each]. unfold send.
  specialize (IH (with_sent (S (d_sends d)) (if env_send (d_sends d) (sub_peerID s) OpcodeDeliverCancelRequest then
    d_sent d ++ [{| pu_key := key; pu_peer := sub_peerID s; pu_opcode := OpcodeDeliverCancelRequest; pu_body := body |}] else d_sent d) d)).
  destruct (push_each _ _ _ _) as [n d2]. cbn. by apply IH.
Qed.

Lemma Unsubscribe_tokens id d : tokens_in d → tokens_in (Unsubscribe id d).
Proof.
  unfold Unsubscribe. case_match; [|done]. case_match; [|done].
  match goal with |- _ → tokens_in (tidy_peer ?q ?x) => destruct (tidy_peer_frame q x) as ((_ & _ & _ & E1 & E2 & _) & _) end.
  by apply same_tokens.
Qed.

Lemma RemovePeer_tokens q d : tokens_in d → tokens_in (RemovePeer q d).
Proof.
  unfold RemovePeer. destruct (d_byPeer d !! q) as [subs|] eqn:Hq; [|done]. clear Hq. intros Hd. cbn. assert (tokens_in (foldl (λ d s, remove_peer_sub s d) d subs)); [|done].
  revert d Hd. induction subs as [|s l IH]; intros d Hd; [done|]. cbn. apply IH. unfold remove_peer_sub.
  match goal with |- tokens_in (tidy_key ?q ?x) => destruct (tidy_key_frame q x) as ((_ & _ & _ & E1 & E2 & _) & _) end.
  by eapply same_tokens.
Qed.

(** What the operations of the dispatcher mint. *)
Definition mints (o : dop) : Prop :=
  match o with
  | OpEnqueue _ _ p ns _ _ _ _ _ => P p ns
  | OpDispatch _ _ p ns _ _ _ _ _ _ _ _ _ => P p ns
  | _ => True
  end.

Lemma query_tokens now1 now2 r ns q wf run ty a d : tokens_in d → tokens_in (PushQuery now1 now2 r ns q wf run ty a d).2.
Proof.
  intros Hd. unfold PushQuery. pose proof (pick_tokens (wfKeyOf ns q) d) as [E1 E2]. unfold wfKeyOf in E1, E2.
  destruct (pickLocked _ d) as [[s|] d1]; cbn in E1, E2; [|by eapply same_tokens].
  assert (tokens_in d1) as H1 by (by eapply same_tokens).
  set (d2 := if maxPendingQueries <=? _ then _ else _). assert (tokens_in d2) as H2.
  { unfold d2, evictOldestQueryLocked. repeat case_match; done. }
  clearbody d2. cbv zeta. case_match; [done|]. unfold send. by case_match.
Qed.

Lemma dstep_tokens d o : mints o → tokens_in d → tokens_in (dstep d o).
Proof.
  intros Hm Hd. destruct o; cbn [dstep].
  - unfold Subscribe. case_match; [done|]. cbn. unfold drainLocked. cbn. case_match; [by apply drain_wf_tokens|by apply drain_act_tokens].
  - by apply Unsubscribe_tokens.
  - by apply RemovePeer_tokens.
  - unfold EnqueueWorkflowTask. match goal with |- context [deliverWFLocked ?k ?t ?d] => pose proof (deliverWF_tokens k t d) as Hw; destruct (deliverWFLocked k t d) as [[ok t'] d1] end.
    assert (tokens_in d1) as H1; [|by destruct ok]. apply Hw. destruct Hd as [Hd1 Hd2]. split; [|done].
    by apply map_Forall_insert_2.
  - unfold DispatchActivity. match goal with |- context [deliverActLocked ?k ?t ?d] => pose proof (deliverAct_tokens k t d) as Hw; destruct (deliverActLocked k t d) as [[ok t'] d1] end.
    assert (tokens_in d1) as H1; [|by destruct ok]. apply Hw. destruct Hd as [Hd1 Hd2]. split; [done|].
    by apply map_Forall_insert_2.
  - unfold CompleteWorkflowTask. case_match; [|done]. destruct Hd as [Hd1 Hd2]. split; [|done]. by apply map_Forall_delete.
  - unfold ResolveActivityToken. case_match; [|done]. destruct Hd as [Hd1 Hd2]. split; [done|]. by apply map_Forall_delete.
  - unfold PushCancelRequest. case_match; [done|]. by apply push_each_tokens.
  - by apply query_tokens.
  - unfold CompleteQuery. by case_match.
  - done.
Qed.

End Tokens.

(** ** Computations that respect a relation *)

Definition respects `{Env} (R : relation world) {A} (m : W A) : Prop := ∀ w, wp m (λ _ w', R w w') w.

Section Combinators.
Context `{Env} (R : relation world) `{!PreOrder R}.

Lemma resp_ret {A} (a : A) : respects R (mret a).
Proof. intros w. wp_step. reflexivity. Qed.
Lemma resp_throw {A} e : respects R (throw (A := A) e).
Proof. intros w. wp_step. reflexivity. Qed.
Lemma resp_gets {A} (f : world → A) : respects R (gets f).
Proof. intros w. wp_step. reflexivity. Qed.
Lemma resp_bind {A B} (m : W A) (f : A → W B) : respects R m → (∀ a, respects R (f a)) → respects R (m ≫= f).
Proof.
  intros Hm Hf w. wp_step. eapply wp_mono; [apply Hm|]. intros [e|a] w1 H1; [done|].
  eapply wp_mono; [apply Hf|]. intros r w2 H2. by etrans.
Qed.
Lemma resp_attempt {A} (m : W A) : respects R m → respects R (attempt m).
Proof. intros Hm w. wp_step. apply Hm. Qed.
Lemma resp_ignore {A} (m : W A) : respects R m → respects R (ignore m).
Proof. intros Hm w. wp_step. apply Hm. Qed.
Lemma resp_for_each {A} (f : A → W unit) l : (∀ x, x ∈ l → respects R (f x)) → respects R (for_each f l).
Proof.
  induction l as [|x l IH]; intros Hf; cbn [for_each]; [apply resp_ret|].
  apply resp_bind; [apply Hf; by left|]. intros []. apply IH. intros y Hy. apply Hf. by right.
Qed.
Lemma resp_must_find {A} (m : W (option A)) what : respects R m → respects R (must_find m what).
Proof.
  intros Hm. apply resp_bind; [by apply resp_attempt|]. intros r. destruct (found r); [apply resp_ret|apply resp_throw].
Qed.
Lemma resp_must_deref {A} (m : W (option A)) : respects R m → respects R (must_deref m).
Proof.
  intros Hm. apply resp_bind; [by apply resp_attempt|]. intros r. destruct (found r); [apply resp_ret|apply resp_throw].
Qed.

End Combinators.

(** The kind of the key, when it routes at all, is in [K]. *)
Definition keyed (K : string → Prop) (key : string) : Prop := ∀ kind ns rest, NsFromKey key = Some (kind, ns, rest) → K kind.

Lemma keyed_kind (K : string → Prop) kind rest : segment kind → K kind → keyed K (kind +:+ "/" +:+ rest).
Proof.
  intros Hs HK k ns r. unfold NsFromKey. rewrite cut_app by done. destruct kind as [|c kind]; [done|].
  repeat case_match; intros; by simplify_eq.
Qed.

Lemma keyed_app (K : string → Prop) a b kind rest : a = kind +:+ "/" +:+ rest → segment kind → K kind → keyed K (a +:+ b).
Proof. intros -> Hs HK. rewrite !sapp_assoc. by apply keyed_kind. Qed.

(** The primitive steps of the operations of tenant [p] on namespaces in [P] and
    rows of kinds in [K]. *)
Record Steps `{Env} (R : relation world) (p : Principal) (P K : string → Prop) : Prop := {
  st_pre : PreOrder R;
  st_still w w' : still w w' → R w w';
  st_put key kind ns rest v w w' : NsFromKey key = Some (kind, ns, rest) → K kind → wrote p ns (localPut key v) w w' → R w w';
  st_del key kind ns rest w w' : NsFromKey key = Some (kind, ns, rest) → K kind → wrote p ns (localDel key) w w' → R w w';
  st_quiet w w' : w_shards w' = w_shards w → w_disp w' = w_disp w → w_timers w' = w_timers w →
    w_cancelling w' = w_cancelling w → R w w';
  st_disp o w : mints (λ q ns, q = p ∧ P ns) o → R w (with_disp (dstep (w_disp w) o) w);
  st_timer t w : rt_principal t = p → P (rt_ns t) → R w (with_timers (w_timers w ++ [t]) w);
  st_cancel ns wf run t w : P ns → R w (with_cancelling (<[wfKey ns wf run := t]>) w);
  st_uncancel k w : R w (with_cancelling (delete k) w)
}.

Create HintDb walk.

(** Walk a computation down to its primitive steps. *)
Ltac walk :=
  repeat (cbv beta zeta; first
    [ progress intros
    | solve [auto with walk]
    | lazymatch goal with |- respects ?R _ => first
        [ apply (resp_ret R) | apply (resp_throw R) | apply (resp_gets R) | apply (resp_bind R) | apply (resp_attempt R)
        | apply (resp_ignore R) | apply (resp_for_each R) | apply (resp_must_find R) | apply (resp_must_deref R) ] end
    | lazymatch goal with |- respects _ (match ?x with _ => _ end) => destruct x end ]).

(** *** Reading the store *)

Section Reads.
Context `{Env} (R : relation world) `{!PreOrder R} (HS : ∀ w w', still w w' → R w w').

Lemma read_get {A} `{Codec A} p key : respects R (store_get (A := A) p key).
Proof. intros w. apply wp_get; intros; by apply HS. Qed.
Lemma read_Get p ns : respects R (Manager_Get p ns).
Proof. intros w. apply wp_Get; intros; by apply HS. Qed.
Lemma read_db_op : respects R db_op.
Proof. intros w. apply wp_db_op; intros; by apply HS. Qed.
Lemma read_Shard_Scan q ns prefix after limit : respects R (Shard_Scan q ns prefix after limit).
Proof. apply (resp_bind R); [apply read_db_op|]. intros _. apply (resp_gets R). Qed.
Lemma read_scan_shards p prefix l : respects R (scan_shards p prefix l).
Proof.
  induction l as [|ns l IH]; cbn [scan_shards]; [apply (resp_ret R)|].
  apply (resp_bind R); [apply read_Shard_Scan|intros rows]. apply (resp_bind R); [done|intros]. apply (resp_ret R).
Qed.
Lemma read_list p prefix : respects R (store_list p prefix).
Proof.
  unfold store_list. case_match.
  - apply (resp_bind R); [|intros; apply read_scan_shards]. apply (resp_bind R); [apply (resp_gets R)|intros l].
    apply (resp_bind R); [|intros; apply (resp_ret R)]. apply (resp_for_each R). intros; apply read_Get.
  - destruct (SplitPrefix prefix) as [[? ns] ?]. case_match; [apply (resp_throw R)|].
    apply (resp_bind R); [apply read_Get|intros; apply read_Shard_Scan].
Qed.
Lemma read_scan p prefix after limit : respects R (store_scan p prefix after limit).
Proof.
  unfold store_scan. destruct (SplitPrefix prefix) as [[? ns] ?]. case_match; [apply (resp_throw R)|].
  apply (resp_bind R); [apply read_Get|intros; apply read_Shard_Scan].
Qed.
Lemma read_listInto A `{Codec A} p prefix : respects R (listInto A p prefix).
Proof.
  apply (resp_bind R); [apply read_list|]. intros rows. case_match; [apply (resp_ret R)|apply (resp_throw R)].
Qed.

End Reads.

(** The kinds of rows a run is made of, and those of the other components. *)
Definition act_kinds : list string := ["act"; "ahist"; "aidem"; "fail"].
Definition sched_kinds : list string := ["sc"; "sctrig"].
Definition run_kinds : list string := ["ns"; "wf"; "wfopen"; "wfidx"; "wfh"; "wfact"; "idem"; "fail"].

Section Respects.
Context `{Env} `{!SegmentRule} (R : relation world) (p : Principal) (P K : string → Prop) (HR : Steps R p P K).
Context (HK : ∀ kind, kind ∈ run_kinds → K kind).
#[local] Instance R_pre : PreOrder R := st_pre _ _ _ _ HR.

Abbreviation resp m := (respects R m).

(** The store. *)
Lemma resp_put {A} `{Codec A} key (v : A) : keyed K key → resp (store_put p key v).
Proof.
  intros HKk w. apply wp_put; [intros; by apply (st_still _ _ _ _ HR)|]. intros w' kind ns rest Hk _ Hw _.
  eapply (st_put _ _ _ _ HR); [done| |done]. by eapply HKk.
Qed.
Lemma resp_del key : keyed K key → resp (store_del p key).
Proof.
  intros HKk w. apply wp_del; [intros; by apply (st_still _ _ _ _ HR)|]. intros w' kind ns rest Hk _ Hw _.
  eapply (st_del _ _ _ _ HR); [done| |done]. by eapply HKk.
Qed.
Lemma resp_get {A} `{Codec A} key : resp (store_get (A := A) p key).
Proof. apply (read_get R (st_still _ _ _ _ HR)). Qed.
Lemma resp_Get ns : resp (Manager_Get p ns).
Proof. apply (read_Get R (st_still _ _ _ _ HR)). Qed.
Lemma resp_db_op : resp db_op.
Proof. apply (read_db_op R (st_still _ _ _ _ HR)). Qed.
Lemma resp_Shard_Scan q ns prefix after limit : resp (Shard_Scan q ns prefix after limit).
Proof. apply (read_Shard_Scan R (st_still _ _ _ _ HR)). Qed.
Lemma resp_scan_shards prefix l : resp (scan_shards p prefix l).
Proof. apply (read_scan_shards R (st_still _ _ _ _ HR)). Qed.
Lemma resp_list prefix : resp (store_list p prefix).
Proof. apply (read_list R (st_still _ _ _ _ HR)). Qed.
Lemma resp_scan prefix after limit : resp (store_scan p prefix after limit).
Proof. apply (read_scan R (st_still _ _ _ _ HR)). Qed.
Lemma resp_listInto A `{Codec A} prefix : resp (listInto A p prefix).
Proof. apply (read_listInto R (st_still _ _ _ _ HR)). Qed.

(** The rest of the world. *)
Lemma resp_time_now : resp time_now.
Proof. intros w. by apply (st_quiet _ _ _ _ HR). Qed.
Lemma resp_rand : resp rand_draw.
Proof. intros w. by apply (st_quiet _ _ _ _ HR). Qed.
Lemma resp_now : resp nowRFC3339.
Proof. apply (resp_bind R); [apply resp_time_now|intros; apply (resp_ret R)]. Qed.
Lemma resp_newRunId : resp newRunId.
Proof. apply (resp_bind R); [apply resp_rand|intros; apply (resp_ret R)]. Qed.
Lemma resp_emit q e : resp (emit q e).
Proof.
  apply (resp_bind R); [case_match; [apply resp_now|apply (resp_ret R)]|]. intros t w. by apply (st_quiet _ _ _ _ HR).
Qed.
Lemma resp_log l : resp (log l).
Proof. intros w. by apply (st_quiet _ _ _ _ HR). Qed.
Lemma resp_fails_fail k : resp (fails_fail k).
Proof. intros w. unfold wp, fails_fail. destruct (tracker_fail k (w_fails w)) as [[? ?] ?]. by apply (st_quiet _ _ _ _ HR). Qed.
Lemma resp_fails_ok k : resp (fails_ok k).
Proof. intros w. unfold wp, fails_ok. destruct (tracker_ok k (w_fails w)) as [? ?]. by apply (st_quiet _ _ _ _ HR). Qed.
Lemma resp_lift_name o : resp (lift_name o).
Proof. destruct o; [apply (resp_throw R)|apply (resp_ret R)]. Qed.
Lemma resp_enqueue ns q wf run ty i : P ns → resp (disp_EnqueueWorkflowTask p ns q wf run ty i).
Proof.
  intros Hns. apply (resp_bind R); [apply resp_time_now|intros now]. apply (resp_bind R); [apply resp_rand|intros r]. intros w.
  by apply (st_disp _ _ _ _ HR (OpEnqueue now r p ns q wf run ty i)).
Qed.
Lemma resp_dispatch ns q wf run seq aid ty i a b : P ns → resp (disp_DispatchActivity p ns q wf run seq aid ty i a b).
Proof.
  intros Hns. apply (resp_bind R); [apply resp_time_now|intros now]. apply (resp_bind R); [apply resp_rand|intros r]. intros w.
  by apply (st_disp _ _ _ _ HR (OpDispatch now r p ns q wf run seq aid ty i a b)).
Qed.
Lemma resp_push_cancel ns q wf run r i : resp (disp_PushCancelRequest ns q wf run r i).
Proof. intros w. by apply (st_disp _ _ _ _ HR (OpPushCancel ns q wf run r i)). Qed.
Lemma resp_uncancel k : resp (modify (with_cancelling (delete k))).
Proof. intros w. apply (st_uncancel _ _ _ _ HR). Qed.
Lemma resp_cancel ns wf run t : P ns → resp (modify (with_cancelling (<[wfKey ns wf run := t]>))).
Proof. intros Hns w. by apply (st_cancel _ _ _ _ HR). Qed.

#[local] Hint Extern 1 (keyed _ _) =>
  first [ eapply keyed_kind; [kinds|apply HK; kinds] | eapply keyed_app; [reflexivity|kinds|apply HK; kinds] ] : walk.
#[local] Hint Extern 1 (K _) => apply HK; kinds : walk.
#[local] Hint Resolve resp_put resp_del resp_get resp_listInto resp_scan resp_time_now resp_rand
  resp_now resp_newRunId resp_emit resp_log resp_fails_fail resp_fails_ok resp_lift_name resp_enqueue resp_dispatch
  resp_push_cancel resp_uncancel resp_cancel : walk.

(** *** Namespaces, runs, history *)

Lemma resp_RegisterNamespace n : resp (RegisterNamespace p n).
Proof. unfold RegisterNamespace. walk. Qed.
Lemma resp_namespace name : resp (namespace p name).
Proof. unfold namespace, DescribeNamespace. pose proof resp_RegisterNamespace. walk. Qed.
Lemma resp_describe ns wf run : resp (DescribeWorkflow p ns wf run).
Proof. unfold DescribeWorkflow. walk. Qed.
#[local] Hint Resolve resp_RegisterNamespace resp_namespace resp_describe : walk.
Lemma resp_append ns wf run ty a : resp (appendHistory p ns wf run ty a).
Proof. unfold appendHistory. walk. Qed.
Lemma resp_hist ns wf run : resp (workflowHistoryBytes p ns wf run).
Proof. unfold workflowHistoryBytes. walk. Qed.
#[local] Hint Resolve resp_append resp_hist : walk.
Lemma resp_schedule ns wf run : P ns → resp (scheduleWorkflowTask p ns wf run).
Proof. unfold scheduleWorkflowTask. walk. Qed.
Lemma resp_openRun ns ref : resp (openRun p ns ref).
Proof. unfold openRun. walk. Qed.
Lemma resp_closeRun ns x : resp (closeRun p ns x).
Proof. unfold closeRun. walk. Qed.
Lemma resp_recordFailure id r t : K "fail" → resp (recordFailure p id r t).
Proof using H0 HR.
  intros HF. assert (∀ ns fp, keyed K (failKey ns fp)) by (intros; by apply keyed_kind; [kinds|]). unfold recordFailure. walk.
Qed.
Lemma resp_clearFailure id : K "fail" → resp (clearFailure p id).
Proof using H0 HR.
  intros HF. assert (∀ ns fp, keyed K (failKey ns fp)) by (intros; by apply keyed_kind; [kinds|]). unfold clearFailure. walk.
Qed.
#[local] Hint Resolve resp_schedule resp_openRun resp_closeRun resp_recordFailure resp_clearFailure : walk.

(** *** The lifecycle of a run *)

Lemma resp_terminal ns wf run st k ty a : resp (terminalTransition p ns wf run st k ty a).
Proof. unfold terminalTransition. walk. Qed.
#[local] Hint Resolve resp_terminal : walk.
Lemma resp_TerminateWorkflow ns wf run r i : resp (TerminateWorkflowWithReason p ns wf run r i).
Proof. apply resp_terminal. Qed.
Lemma resp_CancelWorkflow ns wf run r i : P ns → resp (CancelWorkflowWithReason p ns wf run r i).
Proof. unfold CancelWorkflowWithReason, cancel_transition, disp_HasSubscribers. walk. Qed.
Lemma resp_AckCanceled ns wf run r i : resp (AckCanceled p ns wf run r i).
Proof. unfold AckCanceled, cancel_transition. walk. Qed.
Lemma resp_resolve ns wf pol : resp (resolveWorkflowIdConflict p ns wf pol).
Proof. unfold resolveWorkflowIdConflict, TerminateWorkflowWithReason. walk. Qed.
Lemma resp_prior_start ns wf req : resp (prior_start p ns wf req).
Proof. unfold prior_start, lookupIdempotency. walk. Qed.
#[local] Hint Resolve resp_TerminateWorkflow resp_AckCanceled resp_resolve resp_prior_start : walk.
Lemma resp_sweep : resp (sweepCanceling p).
Proof. unfold sweepCanceling. walk. Qed.
Lemma resp_create_run ns wf run typ q i req sa memo : P ns → resp (create_run p ns wf run typ q i req sa memo).
Proof. unfold create_run. walk. Qed.
#[local] Hint Resolve resp_create_run : walk.
Lemma resp_start ns wf run typ q i req sa memo pol : P ns → resp (startWorkflowFull p ns wf run typ q i req sa memo pol).
Proof. unfold startWorkflowFull. walk. Qed.
Lemma resp_signal ns wf run name payload i : P ns → resp (signalWorkflow p ns wf run name payload i).
Proof. unfold signalWorkflow. walk. Qed.
#[local] Hint Resolve resp_start resp_signal : walk.
Lemma resp_signalWithStart ns wf run typ q i name payload req sa memo :
  P ns → resp (signalWithStartFull p ns wf run typ q i name payload req sa memo).
Proof. unfold signalWithStartFull, SignalWorkflow. walk. Qed.
Lemma resp_copy_events ns wf run cut l : resp (copy_events p ns wf run cut l).
Proof. induction l as [|ev l IH]; cbn [copy_events]; walk. Qed.
#[local] Hint Resolve resp_copy_events : walk.
Lemma resp_reset ns wf run ev r i : P ns → resp (ResetWorkflow p ns wf run ev r i).
Proof. unfold ResetWorkflow. walk. Qed.
Lemma resp_query ns wf run ty args : resp (QueryWorkflow_begin p ns wf run ty args).
Proof.
  unfold QueryWorkflow_begin. walk. intros w. unfold wp.
  match goal with |- context [PushQuery ?n1 ?n2 ?r ?ns ?q ?wf ?run ?ty ?a ?d] =>
    pose proof (st_disp _ _ _ _ HR (OpPushQuery n1 n2 r ns q wf run ty a) w I) as Hq; cbn [dstep] in Hq;
    destruct (PushQuery n1 n2 r ns q wf run ty a d) as [res d'] end.
  exact Hq.
Qed.

(** *** Activities and recovery *)

Lemma resp_getActivity ns wf run seq : resp (getWorkflowActivity p ns wf run seq).
Proof. unfold getWorkflowActivity. walk. Qed.
Lemma resp_putActivity ns wf run a : resp (putWorkflowActivity p ns wf run a).
Proof. unfold putWorkflowActivity. walk. Qed.
#[local] Hint Resolve resp_getActivity resp_putActivity : walk.
Lemma resp_dispatchActivityAttempt ns wf run rec b : P ns → resp (dispatchActivityAttempt p ns wf run rec b).
Proof. unfold dispatchActivityAttempt. walk. Qed.
#[local] Hint Resolve resp_dispatchActivityAttempt : walk.
Lemma resp_applyScheduleActivity ns wf run seq ty i q a b rp :
  P ns → resp (applyScheduleActivity p ns wf run seq ty i q a b rp).
Proof. unfold applyScheduleActivity. walk. Qed.
Lemma resp_retry ns wf run seq delay : P ns → resp (scheduleActivityRetry p ns wf run seq delay).
Proof. intros Hns w. unfold scheduleActivityRetry. wp_step. by apply (st_timer _ _ _ _ HR). Qed.
Lemma resp_fire t : rt_principal t = p → P (rt_ns t) → resp (fire_retry t).
Proof. intros E Hns. unfold fire_retry. rewrite E. walk. Qed.
#[local] Hint Resolve resp_retry : walk.
Lemma resp_complete ns wf run seq res fail : P ns → resp (completeWorkflowActivity p ns wf run seq res fail).
Proof. unfold completeWorkflowActivity, complete_activity, fail_activity. walk. Qed.
Lemma resp_index_walk fuel : ∀ ns after, resp (index_walk fuel p ns after).
Proof. induction fuel as [|fuel IH]; intros ns after; cbn [index_walk]; unfold page, index_rows; walk. Qed.
#[local] Hint Resolve resp_index_walk : walk.
Lemma resp_indexOpenRuns ns : resp (indexOpenRuns p ns).
Proof. unfold indexOpenRuns. walk. Qed.
Lemma resp_recoverRun ns wf run : P ns → resp (recoverRun p ns wf run).
Proof. unfold recoverRun, listWorkflowActivities. walk. Qed.
#[local] Hint Resolve resp_indexOpenRuns resp_recoverRun : walk.
Lemma resp_recover_namespace ns : P ns → resp (recover_namespace p ns).
Proof. unfold recover_namespace. walk. Qed.

(** *** Commands *)

Lemma resp_decode i : resp (decode_args i).
Proof. unfold decode_args. walk. Qed.
#[local] Hint Resolve resp_decode resp_applyScheduleActivity : walk.
Lemma resp_continue ns wf run i ty q : P ns → resp (applyContinueAsNew p ns wf run i ty q).
Proof. unfold applyContinueAsNew. walk. Qed.
Lemma resp_child ns wf run seq cw ct q i sa : P ns → resp (applyStartChild p ns wf run seq cw ct q i sa).
Proof. unfold applyStartChild, childStartRecorded. walk. Qed.
#[local] Hint Resolve resp_continue resp_child : walk.
Lemma resp_command t c : wt_principal t = p → P (wt_ns t) → resp (apply_command t c).
Proof. intros E Hns. unfold apply_command. rewrite E. walk. Qed.

(** *** Standalone activities *)

Lemma resp_DescribeActivity ns id run : resp (DescribeActivity p ns id run).
Proof. unfold DescribeActivity. walk. Qed.
Lemma resp_DescribeNamespace ns : resp (DescribeNamespace p ns).
Proof. unfold DescribeNamespace. walk. Qed.
#[local] Hint Resolve resp_DescribeActivity resp_DescribeNamespace : walk.
Lemma resp_describe_data ns id run : resp (describe_data p ns id run).
Proof. unfold describe_data. walk. Qed.
Lemma resp_prior_activity ns id req : resp (prior_activity p ns id req).
Proof. unfold prior_activity, describe_data. walk. Qed.
#[local] Hint Resolve resp_describe_data resp_prior_activity : walk.

Context (HA : ∀ kind, kind ∈ act_kinds → K kind).
#[local] Hint Extern 1 (keyed _ _) =>
  first [ eapply keyed_kind; [kinds|apply HA; kinds] | eapply keyed_app; [reflexivity|kinds|apply HA; kinds] ] : walk.
#[local] Hint Extern 1 (K _) => apply HA; kinds : walk.

Lemma resp_append_activity ns id run ty a : resp (appendActivityHistory p ns id run ty a).
Proof using H0 HR HA. unfold appendActivityHistory. walk. Qed.
#[local] Hint Resolve resp_append_activity : walk.
Lemma resp_StartActivity ns id run typ q i retry a b c d who req : resp (StartActivity p ns id run typ q i retry a b c d who req).
Proof using H0 HR HA. unfold StartActivity. walk. Qed.
Lemma resp_activityTerminal ns id run st ty k a r c : resp (activityTerminal p ns id run st ty k a r c).
Proof using H0 HR HA. unfold activityTerminal. walk. Qed.
#[local] Hint Resolve resp_activityTerminal : walk.
Lemma resp_reap_row ns now a : resp (reap_row p ns now a).
Proof using H0 HR HA. unfold reap_row, FailActivity. walk. Qed.
#[local] Hint Resolve resp_reap_row : walk.
Lemma resp_reap ns : resp (reapExpiredLeases p ns).
Proof using H0 HR HA. unfold reapExpiredLeases. walk. Qed.
Lemma resp_claim_row ns who lease a : resp (claim_row p ns who lease a).
Proof using H0 HR HA. unfold claim_row. walk. Qed.
#[local] Hint Resolve resp_reap resp_claim_row : walk.
Lemma resp_Claim ns q who lease : resp (ClaimNextActivity p ns q who lease).
Proof using H0 HR HA. unfold ClaimNextActivity. walk. Qed.
Lemma resp_Heartbeat ns id run d : resp (HeartbeatActivity p ns id run d).
Proof using H0 HR HA. unfold HeartbeatActivity. walk. Qed.
Lemma resp_sweepLeases : resp (sweepLeases p).
Proof using H0 HR HA. unfold sweepLeases, ListNamespaces. walk. Qed.

(** *** Schedules *)

Lemma resp_publish e : resp (broker_publish e).
Proof.
  apply (resp_bind R); [case_match; [apply resp_now|apply (resp_ret R)]|]. intros t w. by apply (st_quiet _ _ _ _ HR).
Qed.
Lemma resp_DescribeSchedule ns id : resp (DescribeSchedule p ns id).
Proof. unfold DescribeSchedule. walk. Qed.
Lemma resp_reportFire q s f : resp (reportFire q s f).
Proof. unfold reportFire. walk. Qed.
Lemma resp_unreached ns q : resp (unreached ns q).
Proof. unfold unreached, disp_HasSubscribers. walk. Qed.
Lemma resp_prior_trigger ns id req : resp (prior_trigger p ns id req).
Proof. unfold prior_trigger. walk. Qed.
#[local] Hint Resolve resp_publish resp_DescribeSchedule resp_reportFire resp_unreached resp_prior_trigger : walk.

Context (HS : ∀ kind, kind ∈ sched_kinds → K kind).
#[local] Hint Extern 1 (keyed _ _) =>
  first [ eapply keyed_kind; [kinds|apply HS; kinds] | eapply keyed_app; [reflexivity|kinds|apply HS; kinds] ] : walk.

Lemma resp_CreateSchedule s : resp (CreateSchedule p s).
Proof using H0 HR HS. unfold CreateSchedule. walk. Qed.
Lemma resp_DeleteSchedule ns id : resp (DeleteSchedule p ns id).
Proof using H0 HR HS. unfold DeleteSchedule. walk. Qed.
Lemma resp_PauseSchedule ns id b note : resp (PauseSchedule p ns id b note).
Proof using H0 HR HS. unfold PauseSchedule. walk. Qed.
Lemma resp_UpdateSchedule ns id s : resp (UpdateSchedule p ns id s).
Proof using H0 HR HS. unfold UpdateSchedule. walk. Qed.

(** A start validates the namespace it is given before it does anything. *)
Context (HV : ∀ ns, ValidName ns = None → P ns).

Lemma resp_start_any ns wf run typ q i req sa memo pol : resp (startWorkflowFull p ns wf run typ q i req sa memo pol).
Proof.
  destruct (ValidName ns) as [e|] eqn:E; [|by apply resp_start, HV].
  unfold startWorkflowFull, namespace. rewrite E. intros w. unfold wp, mbind, M_bind. cbn. reflexivity.
Qed.
#[local] Hint Resolve resp_start_any : walk.
Lemma resp_start_action s l : resp (start_action p s l).
Proof. unfold start_action. walk. Qed.
#[local] Hint Resolve resp_start_action : walk.
Lemma resp_TriggerSchedule ns id req : resp (TriggerSchedule p ns id req).
Proof. unfold TriggerSchedule. walk. Qed.
Lemma resp_fire_due now d : due_principal d = p → resp (fire_due now d).
Proof. intros E. unfold fire_due. rewrite E. walk. Qed.

(** *** Deployments, attributes, batches, endpoints, identities *)

Context (HDp : K "dp") (HSa : K "sa") (HBt : K "bt") (HNx : K "nx") (HId : K "id").
#[local] Hint Extern 1 (keyed _ _) =>
  eapply keyed_kind; [kinds|first [exact HDp | exact HSa | exact HBt | exact HNx | exact HId] ] : walk.

Lemma resp_DescribeDeployment ns name : resp (DescribeDeployment p ns name).
Proof using H0 HR. unfold DescribeDeployment. walk. Qed.
#[local] Hint Resolve resp_DescribeDeployment : walk.
Lemma resp_CreateDeployment ns name a b c : resp (CreateDeployment p ns name a b c).
Proof using H0 HR HDp. unfold CreateDeployment. walk. Qed.
Lemma resp_UpdateDeployment ns name a : resp (UpdateDeployment p ns name a).
Proof using H0 HR HDp. unfold UpdateDeployment. walk. Qed.
Lemma resp_DeleteDeployment ns name f : resp (DeleteDeployment p ns name f).
Proof using H0 HR HDp. unfold DeleteDeployment. walk. Qed.
Lemma resp_CreateVersion ns name b d c i e : resp (CreateVersion p ns name b d c i e).
Proof using H0 HR HDp. unfold CreateVersion. walk. Qed.
Lemma resp_UpdateVersion ns name b pa : resp (UpdateVersion p ns name b pa).
Proof using H0 HR HDp. unfold UpdateVersion. walk. Qed.
Lemma resp_SetCurrent ns name b : resp (SetCurrentDeploymentVersion p ns name b).
Proof using H0 HR HDp. unfold SetCurrentDeploymentVersion. walk. Qed.
Lemma resp_DeleteVersion ns name b : resp (DeleteDeploymentVersion p ns name b).
Proof using H0 HR HDp. unfold DeleteDeploymentVersion. walk. Qed.
Lemma resp_AddSearchAttribute ns sa : resp (AddSearchAttribute p ns sa).
Proof using H0 HR HK HSa. unfold AddSearchAttribute. walk. Qed.
Lemma resp_RemoveSearchAttribute ns name : resp (RemoveSearchAttribute p ns name).
Proof using H0 HR HSa. unfold RemoveSearchAttribute. walk. Qed.
Lemma resp_UpdateNamespaceMetadata name pa : resp (UpdateNamespaceMetadata p name pa).
Proof using H0 HR HK. unfold UpdateNamespaceMetadata. walk. Qed.
Lemma resp_DeprecateNamespace name : resp (DeprecateNamespace p name).
Proof using H0 HR HK. unfold DeprecateNamespace. walk. Qed.
Lemma resp_UpdateWorkflowMetadata ns wf run m : resp (UpdateWorkflowMetadata p ns wf run m).
Proof using H0 HR HK. unfold UpdateWorkflowMetadata. walk. Qed.
Lemma resp_StartBatch b : resp (StartBatch p b).
Proof using H0 HR HBt. unfold StartBatch. walk. Qed.
Lemma resp_TerminateBatch ns id r i : resp (TerminateBatch p ns id r i).
Proof using H0 HR HBt. unfold TerminateBatch, DescribeBatch. walk. Qed.
Lemma resp_CreateNexus n : resp (CreateNexusEndpoint p n).
Proof using H0 HR HNx. unfold CreateNexusEndpoint. walk. Qed.
Lemma resp_DeleteNexus ns name : resp (DeleteNexusEndpoint p ns name).
Proof using H0 HR HNx. unfold DeleteNexusEndpoint. walk. Qed.
Lemma resp_Grant i : resp (GrantIdentity p i).
Proof using H0 HR HId. unfold GrantIdentity. walk. Qed.
Lemma resp_Revoke ns email : resp (RevokeIdentity p ns email).
Proof using H0 HR HId. unfold RevokeIdentity. walk. Qed.

(** *** Retention: the purge deletes whatever keys it lists *)

Context (HDel : ∀ key, resp (store_del p key)) (HP : K "purge").

#[local] Hint Extern 1 (keyed _ _) => eapply keyed_kind; [kinds|apply HP] : walk.
#[local] Hint Resolve HDel resp_list : walk.

Lemma resp_keys_where prefix f : resp (keys_where p prefix f).
Proof using H0 HR HDel HP. unfold keys_where. walk. Qed.
Lemma resp_delAll l : resp (delAll p l).
Proof using H0 HR HDel HP. unfold delAll. walk. Qed.
#[local] Hint Resolve resp_keys_where resp_delAll : walk.
Lemma resp_purge_one f ns ref cutoff : resp (purge_one f p ns ref cutoff).
Proof using H0 HR HDel HP. unfold purge_one, purgeWorkflowRun, purgeActivityRun, run_keys. walk. Qed.
#[local] Hint Resolve resp_purge_one : walk.
Lemma resp_purge_rows f ns cutoff rows : ∀ n e, resp (purge_rows f p ns cutoff rows n e).
Proof using H0 HR HDel HP. induction rows as [|r rows IH]; intros n e; cbn [purge_rows]; walk. Qed.
#[local] Hint Resolve resp_purge_rows : walk.
Lemma resp_purge_walk l ns cutoff : ∀ at_ left n e, resp (purge_walk l p ns cutoff at_ left n e).
Proof using H0 HR HDel HP. induction l as [|f l IH]; intros at_ left n e; cbn [purge_walk]; unfold page; walk. Qed.
Lemma resp_reclaim ns b : resp (store_reclaim p ns b).
Proof using H0 HR HDel HP. unfold store_reclaim, Shard_Reclaim. pose proof resp_Get. pose proof resp_db_op. walk. Qed.
#[local] Hint Resolve resp_purge_walk resp_reclaim : walk.
Lemma resp_purge n now limit : resp (purge p n now limit).
Proof using H0 HR HDel HP. unfold purge. walk. Qed.
Lemma resp_reportPurge q ns e : resp (reportPurge q ns e).
Proof using H0 HR HDel HP. unfold reportPurge. walk. Qed.

End Respects.
