(* ===== verification/RunInv.v ===== *)
(** The invariant of the run rows and the open-run index: every row of a run
    sits at the key its own reference names, every open run is in the index, and
    every index entry names a run. It holds after any sequence of engine
    operations, however many of their writes fail: this is what lets [Recover]
    read the index instead of the rows. *)

From Stdlib Require Import Ascii ZArith Lia.
From stdpp Require Import prelude strings gmap.
From S2P Require Import Prelude GoStrings Json Types EngineTypes Env Principal Router Shard GoTime Temporal Dispatch Events World WorldFacts Failure Workflow Durable Commands.

(** ** Kinds of keys *)

Section Kinds.
Context `{Env}.

(** Keys of different kinds differ. *)
Lemma kind_ne kind kind' a b : segment kind → segment kind' → kind ≠ kind' → kind +:+ "/" +:+ a ≠ kind' +:+ "/" +:+ b.
Proof. intros H1 H2 Hne E. by destruct (segment_inj _ _ _ _ H1 H2 E). Qed.

(** The key is of none of these kinds. *)
Definition outside (kinds : list string) (key : string) : Prop :=
  ∃ kind rest, key = kind +:+ "/" +:+ rest ∧ segment kind ∧ kind ∉ kinds.

Lemma outside_key kinds kind rest : segment kind → kind ∉ kinds → outside kinds (kind +:+ "/" +:+ rest).
Proof. intros. by exists kind, rest. Qed.

(** A write leaves the rows of the other kinds alone. *)
Lemma outside_row kinds kind p key v w w' q s :
  row_put p key v w w' → outside kinds key → kind ∈ kinds → segment kind →
  row w' q (kind +:+ "/" +:+ s) = row w q (kind +:+ "/" +:+ s).
Proof.
  intros [Hrow _] (kind' & rest & -> & Hk' & Hn) Hk Hs. rewrite Hrow, decide_False; [done|].
  intros [_ E]. revert E. apply kind_ne; [done|done|]. by intros ->.
Qed.

End Kinds.

(** Rewrites with [outside_row] at the kinds that do not change. *)
Ltac frame Hrow Ho :=
  repeat match goal with
  | |- context [row ?w' ?q (?kind +:+ "/" +:+ ?s)] =>
      lazymatch type of Hrow with row_put _ _ _ _ w' => idtac end;
      rewrite (outside_row _ kind _ _ _ _ _ q s Hrow Ho) by kinds
  end.

(** [gapless] selects the stronger invariant, in which every run has the events
    its counter claims. A reset copies events by listing them, so the stronger
    invariant is for systems that serve no reset. *)
Section RunInv.
Context `{Env} `{!SegmentRule} (gapless : bool).

(** ** The invariant *)

(** The run [x] is stored in namespace [ns] of tenant [p], at its own key. *)
Definition stored (w : world) (p : Principal) (ns : string) (x : WorkflowExecution) : Prop :=
  ∃ j, row w p (runKey ns (WorkflowId (Execution x)) (RunId (Execution x))) = Some j ∧ of_json j = Some x.

(** The key of event [i] of the run at suffix [s]. *)
Definition eventKey (ns s : string) (i : Z) : string := "wfh" +:+ "/" +:+ ns +:+ "/" +:+ s +:+ "/" +:+ pad 20 i.

Record Inv (w : world) : Prop := {
  (** A run row is at the key its reference names, and in the index while open. *)
  inv_run p ns s j : segment ns → row w p ("wf" +:+ "/" +:+ ns +:+ "/" +:+ s) = Some j →
    ∃ x, of_json j = Some x ∧ s = WorkflowId (Execution x) +:+ "/" +:+ RunId (Execution x) ∧ RunId (Execution x) ≠ "" ∧
      (isTerminal (Status x) = false → is_Some (row w p ("wfopen" +:+ "/" +:+ ns +:+ "/" +:+ s)));
  (** An index entry is at the key its reference names. *)
  inv_open p ns s j : segment ns → row w p ("wfopen" +:+ "/" +:+ ns +:+ "/" +:+ s) = Some j →
    ∃ ref : ExecutionRef, of_json j = Some ref ∧ s = WorkflowId ref +:+ "/" +:+ RunId ref ∧ RunId ref ≠ "";
  (** A namespace row is at its own name. *)
  inv_ns p s j : row w p ("ns" +:+ "/" +:+ s) = Some j →
    ∃ n, of_json j = Some n ∧ ni_Name (ns_Info n) = s ∧ segment s ∧ s ≠ "";
  (** An event row holds the event its key numbers. *)
  inv_event p s j : row w p ("wfh" +:+ "/" +:+ s) = Some j →
    ∃ ev s', of_json j = Some ev ∧ s = s' +:+ "/" +:+ pad 20 (EventId ev);
  (** An activity row decodes. *)
  inv_act p s j : row w p ("wfact" +:+ "/" +:+ s) = Some j → ∃ a : workflowActivity, of_json j = Some a;
  (** The history of a run has every event its counter claims. *)
  inv_gap p ns s j x i : gapless = true → segment ns → row w p ("wf" +:+ "/" +:+ ns +:+ "/" +:+ s) = Some j → of_json j = Some x →
    (1 ≤ i ≤ HistoryLen x)%Z → is_Some (row w p (eventKey ns s i))
}.

Lemma Inv_ext w w' : (∀ p k, row w' p k = row w p k) → Inv w → Inv w'.
Proof.
  intros E [I1 I2 I3 I4 I5 I6]. split.
  - intros p ns s j. rewrite !E. apply I1.
  - intros p ns s j. rewrite !E. apply I2.
  - intros p s j. rewrite !E. apply I3.
  - intros p s j. rewrite !E. apply I4.
  - intros p s j. rewrite !E. apply I5.
  - intros p ns s j x i. rewrite !E. apply I6.
Qed.

Lemma Inv_still w w' : still w w' → Inv w → Inv w'.
Proof. intros St. apply Inv_ext. intros p k. by apply still_row. Qed.

Lemma tables_row w w' p k : same_tables w w' → row w' p k = row w p k.
Proof. intros E. unfold row. case_match; [|done]. destruct p0 as [[? ?] ?]. by rewrite E. Qed.

Lemma Inv_tables w w' : same_tables w w' → Inv w → Inv w'.
Proof. intros St. apply Inv_ext. intros p k. by apply tables_row. Qed.

Lemma new_world_inv b : Inv (new_world b).
Proof.
  assert (∀ p k, row (new_world b) p k = None) as Hn.
  { intros p k. unfold row. case_match; [|done]. destruct p0 as [[? ?] ?]. done. }
  split; intros; by rewrite Hn in *.
Qed.

(** ** Writes *)

Definition other_kind : string → Prop := outside ["wf"; "wfopen"; "ns"; "wfh"; "wfact"].

Lemma Inv_put_other p key v w w' : other_kind key → row_put p key v w w' → Inv w → Inv w'.
Proof.
  intros Ho Hrow [I1 I2 I3 I4 I5 I6]. unfold other_kind in Ho. split.
  - intros q ns s j. frame Hrow Ho. apply I1.
  - intros q ns s j. frame Hrow Ho. apply I2.
  - intros q s j. frame Hrow Ho. apply I3.
  - intros q s j. frame Hrow Ho. apply I4.
  - intros q s j. frame Hrow Ho. apply I5.
  - intros q ns s j x i. unfold eventKey. frame Hrow Ho. apply I6.
Qed.

Lemma runKey_eq ns wf run : runKey ns wf run = "wf" +:+ "/" +:+ ns +:+ "/" +:+ (wf +:+ "/" +:+ run).
Proof. done. Qed.
Lemma openKey_eq ns wf run : openKey ns wf run = "wfopen" +:+ "/" +:+ ns +:+ "/" +:+ (wf +:+ "/" +:+ run).
Proof. done. Qed.
Lemma histKey_eq ns wf run i : histKey ns wf run i = eventKey ns (wf +:+ "/" +:+ run) i.
Proof. unfold histKey, histPrefix, eventKey. by rewrite !sapp_assoc. Qed.

Lemma kind_key_inj kind ns s ns' s' :
  segment kind → segment ns → segment ns' → kind +:+ "/" +:+ ns +:+ "/" +:+ s = kind +:+ "/" +:+ ns' +:+ "/" +:+ s' → ns = ns' ∧ s = s'.
Proof.
  intros Hk Hn Hn' E. apply segment_inj in E as [_ E]; [|done|done]. by apply segment_inj in E.
Qed.

(** A run claims no event it does not have. *)
Definition has_events (w : world) (p : Principal) (ns s : string) (n : Z) : Prop :=
  gapless = true → ∀ i, (1 ≤ i ≤ n)%Z → is_Some (row w p (eventKey ns s i)).

(** Writing a run row: it must be terminal or already in the index, and its
    events must be there. *)
Lemma Inv_put_run p ns x w w' :
  segment ns → RunId (Execution x) ≠ "" →
  (isTerminal (Status x) = false → is_Some (row w p (openKey ns (WorkflowId (Execution x)) (RunId (Execution x))))) →
  has_events w p ns (WorkflowId (Execution x) +:+ "/" +:+ RunId (Execution x)) (HistoryLen x) →
  row_put p (runKey ns (WorkflowId (Execution x)) (RunId (Execution x))) (Some (to_json x)) w w' →
  Inv w → Inv w'.
Proof.
  intros Hns Hrun Hopen Hev Hrow [I1 I2 I3 I4 I5 I6].
  assert (outside ["wfopen"; "ns"; "wfh"; "wfact"] (runKey ns (WorkflowId (Execution x)) (RunId (Execution x)))) as Ho
    by (apply outside_key; kinds). pose proof Hrow as [Hr _].
  split.
  - intros q ns' s j Hns'. frame Hrow Ho. rewrite Hr, runKey_eq. case_decide as E; [|by apply I1].
    destruct E as [-> E]. apply kind_key_inj in E as [-> ->]; [|done..]. intros <-%(inj Some). exists x. split_and!; [|done..].
    by apply of_to.
  - intros q ns' s j. frame Hrow Ho. apply I2.
  - intros q s j. frame Hrow Ho. apply I3.
  - intros q s j. frame Hrow Ho. apply I4.
  - intros q s j. frame Hrow Ho. apply I5.
  - intros q ns' s j y i HG Hns'. unfold eventKey. frame Hrow Ho. rewrite Hr, runKey_eq. case_decide as E; [|by apply I6].
    destruct E as [-> E]. apply kind_key_inj in E as [-> ->]; [|done..]. intros <-%(inj Some). rewrite of_to by done.
    intros <-%(inj Some). by apply Hev.
Qed.

(** Writing an index entry. *)
Lemma Inv_put_open p ns (ref : ExecutionRef) w w' :
  segment ns → RunId ref ≠ "" →
  row_put p (openKey ns (WorkflowId ref) (RunId ref)) (Some (to_json ref)) w w' → Inv w → Inv w'.
Proof.
  intros Hns Hrun Hrow [I1 I2 I3 I4 I5 I6].
  assert (outside ["wf"; "ns"; "wfh"; "wfact"] (openKey ns (WorkflowId ref) (RunId ref))) as Ho
    by (apply outside_key; kinds). pose proof Hrow as [Hr _].
  split.
  - intros q ns' s j Hns'. frame Hrow Ho. intros (x & Hj & Hs & Hr' & Hop)%I1; [|done]. exists x. split_and!; [done..|]. intros Ht.
    rewrite Hr. case_decide; [eauto|by apply Hop].
  - intros q ns' s j Hns'. rewrite Hr, openKey_eq. case_decide as E; [|by apply I2]. destruct E as [-> E].
    apply kind_key_inj in E as [-> ->]; [|done..]. intros <-%(inj Some). exists ref. split_and!; [|done..]. by apply of_to.
  - intros q s j. frame Hrow Ho. apply I3.
  - intros q s j. frame Hrow Ho. apply I4.
  - intros q s j. frame Hrow Ho. apply I5.
  - intros q ns' s j x i. unfold eventKey. frame Hrow Ho. apply I6.
Qed.

(** Dropping an index entry: its run must be gone or terminal. *)
Lemma Inv_del_open p ns wf run w w' :
  segment ns →
  (∀ j x, row w p (runKey ns wf run) = Some j → of_json j = Some x → isTerminal (Status x) = true) →
  row_put p (openKey ns wf run) None w w' → Inv w → Inv w'.
Proof.
  intros Hns Hterm Hrow [I1 I2 I3 I4 I5 I6].
  assert (outside ["wf"; "ns"; "wfh"; "wfact"] (openKey ns wf run)) as Ho
    by (apply outside_key; kinds). pose proof Hrow as [Hr _].
  split.
  - intros q ns' s j Hns'. frame Hrow Ho. intros Hj. destruct (I1 _ _ _ _ Hns' Hj) as (x & Hx & Hs & Hr' & Hop).
    exists x. split_and!; [done..|]. intros Ht. rewrite Hr. case_decide as E; [|by apply Hop]. destruct E as [-> E].
    rewrite openKey_eq in E. apply kind_key_inj in E as [-> ->]; [|done..]. by rewrite (Hterm j x) in Ht.
  - intros q ns' s j Hns'. rewrite Hr. case_decide; [done|]. by apply I2.
  - intros q s j. frame Hrow Ho. apply I3.
  - intros q s j. frame Hrow Ho. apply I4.
  - intros q s j. frame Hrow Ho. apply I5.
  - intros q ns' s j x i. unfold eventKey. frame Hrow Ho. apply I6.
Qed.

(** Writing an event at its own number. *)
Lemma Inv_put_event p ns s i ev w w' :
  EventId ev = i → row_put p (eventKey ns s i) (Some (to_json ev)) w w' → Inv w → Inv w'.
Proof.
  intros <- Hrow [I1 I2 I3 I4 I5 I6].
  assert (outside ["wf"; "wfopen"; "ns"; "wfact"] (eventKey ns s (EventId ev))) as Ho
    by (apply (outside_key _ "wfh"); kinds). pose proof Hrow as [Hr _].
  split.
  - intros q ns' s' j. frame Hrow Ho. apply I1.
  - intros q ns' s' j. frame Hrow Ho. apply I2.
  - intros q s' j. frame Hrow Ho. apply I3.
  - intros q s' j. rewrite Hr. case_decide as E; [|apply I4]. destruct E as [-> E].
    apply segment_inj in E as [_ ->]; [|done|done]. intros <-%(inj Some). exists ev, (ns +:+ "/" +:+ s).
    rewrite of_to by done. by rewrite !sapp_assoc.
  - intros q s' j. frame Hrow Ho. apply I5.
  - intros q ns' s' j x i'. frame Hrow Ho. intros. rewrite Hr. case_decide; [eauto|by eapply I6].
Qed.

(** Writing an activity record. *)
Lemma Inv_put_act p s (a : workflowActivity) w w' :
  marshal_ok a = true → row_put p ("wfact" +:+ "/" +:+ s) (Some (to_json a)) w w' → Inv w → Inv w'.
Proof.
  intros Hok Hrow [I1 I2 I3 I4 I5 I6].
  assert (outside ["wf"; "wfopen"; "ns"; "wfh"] ("wfact" +:+ "/" +:+ s)) as Ho
    by (apply outside_key; kinds). pose proof Hrow as [Hr _].
  split.
  - intros q ns' s' j. frame Hrow Ho. apply I1.
  - intros q ns' s' j. frame Hrow Ho. apply I2.
  - intros q s' j. frame Hrow Ho. apply I3.
  - intros q s' j. frame Hrow Ho. apply I4.
  - intros q s' j. rewrite Hr. case_decide as E; [|apply I5]. intros <-%(inj Some). exists a. by apply of_to.
  - intros q ns' s' j x i. unfold eventKey. frame Hrow Ho. apply I6.
Qed.

(** ** Statuses *)

(** The status of the run at suffix [s] of a namespace. *)
Definition status_of (w : world) (p : Principal) (ns s : string) : option string :=
  j ← row w p ("wf" +:+ "/" +:+ ns +:+ "/" +:+ s); x ← of_json (A := WorkflowExecution) j; Some (Status x).

(** A closed run stays closed, with the same status. *)
Definition mono (w w' : world) : Prop :=
  ∀ p ns s st, segment ns → status_of w p ns s = Some st → isTerminal st = true → status_of w' p ns s = Some st.

Definition same_status (w w' : world) : Prop := ∀ p ns s, segment ns → status_of w' p ns s = status_of w p ns s.

Definition adv (w w' : world) : Prop := Inv w' ∧ mono w w'.

#[export] Instance mono_pre : PreOrder mono.
Proof. split; [by intros w p|]. intros w1 w2 w3 H1 H2 p ns s st Hns Hs Ht. eapply H2; [done| |done]. by eapply H1. Qed.

Lemma same_status_mono w w' : same_status w w' → mono w w'.
Proof. intros E p ns s st Hns Hs _. by rewrite E. Qed.

Lemma row_same_status w w' : (∀ p k, row w' p k = row w p k) → same_status w w'.
Proof. intros E p ns s _. unfold status_of. by rewrite E. Qed.
Lemma still_same_status w w' : still w w' → same_status w w'.
Proof. intros St. apply row_same_status. intros. by apply still_row. Qed.
Lemma tables_same_status w w' : same_tables w w' → same_status w w'.
Proof. intros St. apply row_same_status. intros. by apply tables_row. Qed.

Lemma adv_refl w : Inv w → adv w w.
Proof. by intros; split. Qed.
Lemma adv_trans w1 w2 w3 : adv w1 w2 → adv w2 w3 → adv w1 w3.
Proof. intros [_ H1] [? H2]. split; [done|by etrans]. Qed.
Lemma adv_still w w' : still w w' → Inv w → adv w w'.
Proof. intros St HI. split; [by eapply Inv_still|by apply same_status_mono, still_same_status]. Qed.
Lemma adv_tables w w' : same_tables w w' → Inv w → adv w w'.
Proof. intros St HI. split; [by eapply Inv_tables|by apply same_status_mono, tables_same_status]. Qed.

Lemma put_other_status p key v w w' : outside ["wf"] key → row_put p key v w w' → same_status w w'.
Proof. intros Ho Hrow q ns s _. unfold status_of. frame Hrow Ho. done. Qed.
Lemma other_not_run key : other_kind key → outside ["wf"] key.
Proof. intros (kind & rest & -> & Hk & Hn). exists kind, rest. split_and!; [done..|]. set_solver. Qed.

(** ** Safe computations *)

Definition safe {A} (m : W A) : Prop := ∀ w, Inv w → wp m (λ _ w', adv w w') w.

Lemma safe_use {A} (m : W A) (Q : err + A → world → Prop) w :
  safe m → Inv w → (∀ r w', adv w w' → Q r w') → wp m Q w.
Proof. intros Hm HI HQ. eapply wp_mono; [by apply Hm|]. auto. Qed.

Lemma safe_keeps {A} (m : W A) : keeps_tables m → safe m.
Proof. intros Hm w HI. eapply wp_mono; [apply Hm|]. intros r w' St. by apply adv_tables. Qed.
Lemma safe_bind {A B} (m : W A) (f : A → W B) : safe m → (∀ a, safe (f a)) → safe (m ≫= f).
Proof.
  intros Hm Hf w HI. wp_step. apply (safe_use m); [done|done|]. intros [e|a] w1 A1; [done|].
  apply (safe_use (f a)); [done|apply A1|]. intros r w2 A2. by eapply adv_trans.
Qed.
Lemma safe_attempt {A} (m : W A) : safe m → safe (attempt m).
Proof. intros Hm w HI. wp_step. by apply (safe_use m). Qed.
Lemma safe_ignore {A} (m : W A) : safe m → safe (ignore m).
Proof. intros Hm w HI. wp_step. by apply (safe_use m). Qed.
Lemma safe_for_each {A} (f : A → W unit) l : (∀ x, x ∈ l → safe (f x)) → safe (for_each f l).
Proof.
  intros Hf w HI. eapply wp_mono; [apply (wp_for_each (λ w', adv w w'))|auto].
  - intros x w1 Hx A1. apply (safe_use (f x)); [by apply Hf|apply A1|]. intros r w2 A2. by eapply adv_trans.
  - by apply adv_refl.
Qed.
Lemma safe_if {A} (b : bool) (m1 m2 : W A) : safe m1 → safe m2 → safe (if b then m1 else m2).
Proof. by destruct b. Qed.

Lemma safe_put_other {A} `{Codec A} p key (v : A) : other_kind key → safe (store_put p key v).
Proof.
  intros Hk w HI. apply wp_put.
  - intros e w' St _. by apply adv_still.
  - intros w' kind ns rest _ _ _ Hr. split; [by eapply Inv_put_other|].
    by eapply same_status_mono, put_other_status; [apply other_not_run|].
Qed.
Lemma safe_del_other p key : other_kind key → safe (store_del p key).
Proof.
  intros Hk w HI. apply wp_del.
  - intros e w' St _. by apply adv_still.
  - intros w' kind ns rest _ _ _ Hr. split; [by eapply Inv_put_other|].
    by eapply same_status_mono, put_other_status; [apply other_not_run|].
Qed.
Lemma safe_get {A} `{Codec A} p key : safe (store_get (A := A) p key).
Proof. intros w HI. apply wp_get; intros; by apply adv_still. Qed.
Lemma safe_list_into {A} `{Codec A} p kind ns s : engine_kind kind → safe (listInto A p (kind +:+ "/" +:+ ns +:+ "/" +:+ s)).
Proof. intros Hk w HI. apply wp_listInto; [done| |]; intros; by apply adv_still. Qed.

(** Kinds of keys. *)

(** ** Describing a run *)

Lemma moreCurrent_open a b : isTerminal (Status b) = false → moreCurrentRun a b = true → isTerminal (Status a) = false.
Proof. unfold moreCurrentRun. intros ->. by destruct (isTerminal (Status a)). Qed.
Lemma moreCurrent_live a b : isTerminal (Status a) = false → moreCurrentRun a b = false → isTerminal (Status b) = false.
Proof. unfold moreCurrentRun. intros ->. by destruct (isTerminal (Status b)). Qed.

Lemma best_fold l : ∀ x,
  let b := foldl (λ best r, if moreCurrentRun r best then r else best) x l in
  b ∈ x :: l ∧ ((∃ y, y ∈ x :: l ∧ isTerminal (Status y) = false) → isTerminal (Status b) = false).
Proof.
  induction l as [|r l IH]; intros x; cbn [foldl].
  { split; [by left|]. intros (y & [->|?%elem_of_nil]%elem_of_cons & Hy); done. }
  set (x' := if moreCurrentRun r x then r else x). destruct (IH x') as [H1 H2]. split.
  - apply elem_of_cons in H1 as [->|H1]; [|set_solver]. unfold x'. case_match; set_solver.
  - intros (y & Hy & Ht). apply H2. assert (isTerminal (Status x') = false ∨ y ∈ l) as [?|?].
    { unfold x'. apply elem_of_cons in Hy as [->|[->|?]%elem_of_cons]; [| |by right]; left.
      - destruct (moreCurrentRun r x) eqn:E; [by eapply moreCurrent_open|done].
      - destruct (moreCurrentRun r x) eqn:E; [done|by eapply moreCurrent_live]. }
    + exists x'. split; [by left|done].
    + exists y. split; [by right|done].
Qed.

Lemma best_run_spec l x :
  best_run l = Some x → x ∈ l ∧ ((∃ y, y ∈ l ∧ isTerminal (Status y) = false) → isTerminal (Status x) = false).
Proof. destruct l as [|y l]; [done|]. intros [= <-]. apply best_fold. Qed.

(** The suffixes a description of [(wf, run)] looks at. *)
Definition names (wf run s : string) : Prop :=
  if String.eqb run "" then ∃ r, s = wf +:+ "/" +:+ r else s = wf +:+ "/" +:+ run.

(** An open run is among them. *)
Definition live (w : world) (p : Principal) (ns wf run : string) : Prop :=
  ∃ s st, names wf run s ∧ status_of w p ns s = Some st ∧ isTerminal st = false.

Lemma live_same w w' p ns wf run : same_status w w' → segment ns → live w p ns wf run → live w' p ns wf run.
Proof. intros E Hns (s & st & Hn & Hs & Ht). exists s, st. by rewrite E. Qed.

Definition suffix (x : WorkflowExecution) : string := WorkflowId (Execution x) +:+ "/" +:+ RunId (Execution x).

Lemma stored_status w p ns x : stored w p ns x → status_of w p ns (suffix x) = Some (Status x).
Proof.
  intros (j & Hr & Hj). unfold status_of, suffix. rewrite runKey_eq in Hr. rewrite Hr. cbn [mbind option_bind]. by rewrite Hj.
Qed.

Lemma stored_open w p ns x :
  Inv w → segment ns → stored w p ns x → isTerminal (Status x) = false →
  is_Some (row w p (openKey ns (WorkflowId (Execution x)) (RunId (Execution x)))).
Proof.
  intros HI Hns (j & Hr & Hj) Ht. rewrite runKey_eq in Hr.
  destruct (inv_run w HI _ _ _ _ Hns Hr) as (x' & Hj' & _ & _ & Ho). rewrite Hj in Hj'. injection Hj' as <-.
  rewrite openKey_eq. by apply Ho.
Qed.

Lemma listed_run w p ns wf rows l x :
  Inv w → segment ns → listed w p ("wf" +:+ "/" +:+ ns +:+ "/" +:+ wf +:+ "/") rows →
  mapM (λ r, of_json (A := WorkflowExecution) r.2) rows = Some l →
  x ∈ l → stored w p ns x ∧ RunId (Execution x) ≠ "" ∧ ∃ r, suffix x = wf +:+ "/" +:+ r.
Proof.
  intros HI Hns Hl Hm Hx. apply mapM_Some in Hm.
  apply list_elem_of_lookup in Hx as [i Hi]. destruct (Forall2_lookup_r _ _ _ _ _ Hm Hi) as ([k j] & Hk & Hj). cbn in Hj.
  apply list_elem_of_lookup_2 in Hk.
  apply (elem_of_listed w p _ rows k j Hl) in Hk as [Hr Hp].
  2: { change ("wf" +:+ "/" +:+ ns +:+ "/" +:+ wf +:+ "/") with ("wf" +:+ "/" +:+ ns +:+ "/" +:+ (wf +:+ "/")).
       rewrite <- !sapp_assoc. apply good_slash. }
  2: { intros kind s E Hk'. apply segment_inj in E as [<- _]; [|done|done]. done. }
  apply has_prefix_spec in Hp as [r ->]. rewrite !sapp_assoc in Hr.
  destruct (inv_run w HI p ns (wf +:+ "/" +:+ r) j Hns Hr) as (x' & Hj' & Hs & Hne & _).
  rewrite Hj in Hj'. injection Hj' as <-. split_and!; [|done|by exists r].
  exists j. rewrite runKey_eq, <- Hs. done.
Qed.

(** Every run of the workflow id that has a row is listed. *)
Lemma listed_live w p ns wf rows l s st :
  segment ns → listed w p ("wf" +:+ "/" +:+ ns +:+ "/" +:+ wf +:+ "/") rows →
  mapM (λ r, of_json (A := WorkflowExecution) r.2) rows = Some l →
  (∃ r, s = wf +:+ "/" +:+ r) → status_of w p ns s = Some st → ∃ y, y ∈ l ∧ Status y = st.
Proof.
  intros Hns Hl Hm [r ->] Hs. unfold status_of in Hs.
  destruct (row w p _) as [j|] eqn:Hr; [|done]. cbn [mbind option_bind] in Hs.
  destruct (of_json j) as [y|] eqn:Hj; [|done]. injection Hs as <-.
  assert (("wf" +:+ "/" +:+ ns +:+ "/" +:+ wf +:+ "/" +:+ r, j) ∈ rows) as Hin.
  { apply (elem_of_listed w p _ rows _ j Hl).
    - change ("wf" +:+ "/" +:+ ns +:+ "/" +:+ wf +:+ "/") with ("wf" +:+ "/" +:+ ns +:+ "/" +:+ (wf +:+ "/")).
      rewrite <- !sapp_assoc. apply good_slash.
    - intros kind s E Hk'. apply segment_inj in E as [<- _]; [|done|done]. done.
    - split; [done|]. apply has_prefix_spec. exists r. by rewrite !sapp_assoc. }
  apply mapM_Some in Hm. apply list_elem_of_lookup in Hin as [i Hi].
  destruct (Forall2_lookup_l _ _ _ _ _ Hm Hi) as (y' & Hy & Hj'). cbn in Hj'. rewrite Hj in Hj'. injection Hj' as <-.
  exists y. split; [by eapply list_elem_of_lookup_2|done].
Qed.

Lemma wp_describe (Q : err + option WorkflowExecution → world → Prop) p ns wf run w :
  segment ns → Inv w →
  (∀ e w', still w w' → Q (inl e) w') →
  (∀ w', still w w' → (run ≠ "" → row w p (runKey ns wf run) = None) → Q (inr None) w') →
  (∀ w' x, still w w' → stored w' p ns x → RunId (Execution x) ≠ "" → names wf run (suffix x) →
     (live w p ns wf run → isTerminal (Status x) = false) → Q (inr (Some x)) w') →
  wp (DescribeWorkflow p ns wf run) Q w.
Proof.
  intros Hns HI Herr Hnone Hsome. unfold DescribeWorkflow, names, live, names in *.
  destruct (String.eqb_spec run "") as [->|Hrun].
  - wp_step. apply (wp_listInto _ p "wf" ns (wf +:+ "/")); [split_and!; [done|done|]; by intros [?|[?|?%elem_of_nil]%elem_of_cons]%elem_of_cons|auto|].
    intros w' rows l St Hl Hm. wp_step. destruct (best_run l) as [x|] eqn:Eb; [|by apply Hnone].
    destruct (best_run_spec l x Eb) as [Hin Hlive].
    destruct (listed_run w p ns wf rows l x HI Hns Hl Hm Hin) as (Hst & Hr & Hs).
    apply Hsome; [done| |done|done|].
    + destruct Hst as (j & H1 & H2). exists j. by rewrite (still_row w w').
    + intros (s & st & Hn & Hs' & Ht). apply Hlive.
      destruct (listed_live w p ns wf rows l s st Hns Hl Hm Hn Hs') as (y & Hy & <-). by exists y.
  - apply wp_get; [auto| |].
    + intros w' St Hr. by apply Hnone.
    + intros w' j x St Hr Hj. pose proof Hr as Hr'. rewrite runKey_eq in Hr.
      destruct (inv_run w HI p ns _ j Hns Hr) as (x' & Hj' & Hs & Hne & _).
      rewrite Hj in Hj'. injection Hj' as <-.
      assert (stored w' p ns x) as Hst.
      { exists j. rewrite (still_row w w') by done. by rewrite runKey_eq, <- Hs. }
      apply Hsome; [done|done|done|by unfold suffix|].
      intros (s & st & -> & Hs' & Ht). unfold status_of in Hs'. rewrite Hr in Hs'. cbn [mbind option_bind] in Hs'.
      rewrite Hj in Hs'. by injection Hs' as <-.
Qed.

Lemma safe_describe p ns wf run : segment ns → safe (DescribeWorkflow p ns wf run).
Proof. intros Hns w HI. apply wp_describe; [done|done|..]; intros; by apply adv_still. Qed.

Lemma wp_must_find {A} (m : W (option A)) what (Q : err + A → world → Prop) w :
  wp m (λ r w', match found r with Some a => Q (inr a) w' | None => ∀ e, Q (inl e) w' end) w → wp (must_find m what) Q w.
Proof.
  intros Hm. unfold must_find. wp_step. wp_step. eapply wp_mono; [exact Hm|]. intros r w' Hr. cbn in Hr.
  destruct (found r); wp_step; [done|apply Hr].
Qed.
Lemma wp_must_deref {A} (m : W (option A)) (Q : err + A → world → Prop) w :
  wp m (λ r w', match found r with Some a => Q (inr a) w' | None => ∀ e, Q (inl e) w' end) w → wp (must_deref m) Q w.
Proof.
  intros Hm. unfold must_deref. wp_step. wp_step. eapply wp_mono; [exact Hm|]. intros r w' Hr. cbn in Hr.
  destruct (found r); wp_step; [done|apply Hr].
Qed.

Lemma wp_must_describe (Q : err + WorkflowExecution → world → Prop) p ns wf run what w :
  segment ns → Inv w → (∀ e w', still w w' → Q (inl e) w') →
  (∀ w' x, still w w' → stored w' p ns x → RunId (Execution x) ≠ "" → names wf run (suffix x) →
     (live w p ns wf run → isTerminal (Status x) = false) → Q (inr x) w') →
  wp (must_find (DescribeWorkflow p ns wf run) what) Q w.
Proof.
  intros Hns HI Herr Hok. apply wp_must_find. apply wp_describe; [done|done|cbn [found]; auto..].
Qed.
Lemma wp_deref_describe (Q : err + WorkflowExecution → world → Prop) p ns wf run w :
  segment ns → Inv w → (∀ e w', still w w' → Q (inl e) w') →
  (∀ w' x, still w w' → stored w' p ns x → RunId (Execution x) ≠ "" → names wf run (suffix x) →
     (live w p ns wf run → isTerminal (Status x) = false) → Q (inr x) w') →
  wp (must_deref (DescribeWorkflow p ns wf run)) Q w.
Proof.
  intros Hns HI Herr Hok. apply wp_must_deref. apply wp_describe; [done|done|cbn [found]; auto..].
Qed.

Lemma safe_must_find p ns wf run what : segment ns → safe (must_find (DescribeWorkflow p ns wf run) what).
Proof. intros Hns w HI. apply wp_must_describe; [done|done|..]; intros; by apply adv_still. Qed.
Lemma safe_must_deref p ns wf run : segment ns → safe (must_deref (DescribeWorkflow p ns wf run)).
Proof. intros Hns w HI. apply wp_deref_describe; [done|done|..]; intros; by apply adv_still. Qed.

(** ** Appending to the history *)

Lemma put_run_status_of p ns x w w' :
  segment ns → row_put p (runKey ns (WorkflowId (Execution x)) (RunId (Execution x))) (Some (to_json x)) w w' →
  ∀ q ns' s, segment ns' →
  status_of w' q ns' s = if decide (q = p ∧ ns' = ns ∧ s = suffix x) then Some (Status x) else status_of w q ns' s.
Proof.
  intros Hns [Hrow _] q ns' s Hns'. unfold status_of. rewrite Hrow, runKey_eq. case_decide as E; case_decide as F.
  - cbn [mbind option_bind]. by rewrite of_to.
  - destruct F. destruct E as [-> E]. apply kind_key_inj in E as [-> ->]; done.
  - destruct E. destruct F as (-> & -> & ->). done.
  - done.
Qed.

Lemma stored_ext w w' p ns x :
  (∀ s, row w' p ("wf" +:+ "/" +:+ s) = row w p ("wf" +:+ "/" +:+ s)) → stored w p ns x → stored w' p ns x.
Proof. intros E (j & Hr & Hj). exists j. split; [|done]. by rewrite runKey_eq, E. Qed.

Lemma stored_other w w' p q key v ns x : outside ["wf"] key → row_put q key v w w' → stored w p ns x → stored w' p ns x.
Proof. intros Ho Hrow. apply stored_ext. intros s. by frame Hrow Ho. Qed.
Lemma stored_tables w w' p ns x : same_tables w w' → stored w p ns x → stored w' p ns x.
Proof. intros St. apply stored_ext. intros s. by apply tables_row. Qed.
Lemma stored_still w w' p ns x : still w w' → stored w p ns x → stored w' p ns x.
Proof. intros [St _]. by apply stored_tables. Qed.

Lemma event_not_run ns s i : outside ["wf"] (eventKey ns s i).
Proof. apply (outside_key _ "wfh"); kinds. Qed.
Lemma event_not_open ns s i : outside ["wfopen"] (eventKey ns s i).
Proof. apply (outside_key _ "wfh"); kinds. Qed.

(** What a stored run has. *)
Lemma stored_events w p ns x : Inv w → segment ns → stored w p ns x → has_events w p ns (suffix x) (HistoryLen x).
Proof. intros HI Hns (j & Hr & Hj) HG i Hi. rewrite runKey_eq in Hr. by eapply (inv_gap w HI). Qed.

#[export] Instance same_status_equiv : Equivalence same_status.
Proof.
  split; [by intros w|intros w w' E p ns s Hns; by rewrite E|].
  intros w1 w2 w3 E1 E2 p ns s Hns. by rewrite E2, E1.
Qed.

(** Rewriting a stored run with the same reference and status. *)
Lemma wp_rewrite_run (Q : err + unit → world → Prop) p ns x x' w :
  segment ns → Inv w → stored w p ns x → RunId (Execution x) ≠ "" →
  Execution x' = Execution x → Status x' = Status x → has_events w p ns (suffix x) (HistoryLen x') →
  (∀ r w', Inv w' → same_status w w' → Q r w') →
  wp (store_put p (runKey ns (WorkflowId (Execution x')) (RunId (Execution x'))) x') Q w.
Proof.
  intros Hns HI Hst Hr Hex Hs Hev HQ. apply wp_put.
  - intros e w' St _. apply HQ; [by eapply Inv_still|by apply still_same_status].
  - intros w' kind n rest _ _ _ Hrow. apply HQ.
    + eapply Inv_put_run; [done| | | |exact Hrow|done].
      * by rewrite Hex.
      * rewrite Hs, Hex. by apply stored_open.
      * by rewrite Hex.
    + intros q n' s Hn'. rewrite (put_run_status_of p ns x' w w' Hns Hrow) by done. case_decide as E; [|done].
      destruct E as (-> & -> & ->). unfold suffix. rewrite Hex, Hs. symmetry. by apply stored_status.
Qed.

(** The next event extends what a run may claim. *)
Lemma has_events_next w w' p ns s n j :
  has_events w p ns s n → row_put p (eventKey ns s (n + 1)) (Some j) w w' → has_events w' p ns s (n + 1).
Proof.
  intros Hev [Hrow _] HG i Hi. rewrite Hrow. case_decide as E; [eauto|]. apply Hev; [done|].
  destruct (decide (i = n + 1)%Z) as [->|]; [by destruct E|lia].
Qed.

Lemma append_spec p ns wf run ty a w :
  segment ns → Inv w → wp (appendHistory p ns wf run ty a) (λ _ w', Inv w' ∧ same_status w w') w.
Proof.
  intros Hns HI. unfold appendHistory. wp_step.
  apply wp_must_describe; [done|done|intros; by split; [eapply Inv_still|apply still_same_status]|].
  intros w1 x St1 Hst Hr _ _. wp_step. apply keeps_use; [auto with tasks|].
  assert (Inv w1) as HI1 by (by eapply Inv_still). pose proof (still_same_status _ _ St1) as S1.
  intros [e|t] w2 St2; [split; [by eapply Inv_tables|etrans; [exact S1|by apply tables_same_status]]|].
  assert (Inv w2) as HI2 by (by eapply Inv_tables).
  assert (same_status w w2) as S2 by (etrans; [exact S1|by apply tables_same_status]).
  assert (stored w2 p ns x) as Hst2 by (by eapply stored_tables).
  wp_step. apply wp_put.
  - intros e w3 St3 _. split; [by eapply Inv_still|etrans; [exact S2|by apply still_same_status]].
  - intros w3 k n r _ _ _ Hrow. rewrite histKey_eq in Hrow. cbn [EventId HistoryLen wf_set_len Execution] in Hrow.
    wp_step. apply (wp_rewrite_run _ p ns x); try done.
    + eapply Inv_put_event; [|exact Hrow|done]. done.
    + eapply stored_other; [apply event_not_run|exact Hrow|done].
    + eapply has_events_next; [by apply stored_events|exact Hrow].
    + intros [e|[]] w4 HI4 S4; [|wp_step]; (split; [done|]; etrans; [exact S2|]; etrans; [|exact S4];
        eapply put_other_status; [apply event_not_run|exact Hrow]).
Qed.

Lemma append_safe p ns wf run ty a : segment ns → safe (appendHistory p ns wf run ty a).
Proof.
  intros Hns w HI. eapply wp_mono; [by apply append_spec|]. intros r w' [HI' S]. split; [done|by apply same_status_mono].
Qed.

(** ** Failure reporting touches neither runs nor the index *)

Lemma fail_other ns fp : other_kind (failKey ns fp).
Proof. apply outside_key; kinds. Qed.

Lemma keeps_fails_fail k : keeps_tables (fails_fail k).
Proof. intros w. unfold fails_fail, wp. by destruct (tracker_fail k (w_fails w)) as [[? ?] ?]. Qed.
Lemma keeps_fails_ok k : keeps_tables (fails_ok k).
Proof. intros w. unfold fails_ok, wp. by destruct (tracker_ok k (w_fails w)) as [? ?]. Qed.

Lemma recordFailure_safe p id r t : safe (recordFailure p id r t).
Proof.
  apply safe_bind; [apply safe_keeps; auto with tasks|intros now].
  apply safe_bind; [apply safe_attempt, safe_get|intros old].
  apply safe_bind; [apply safe_ignore, safe_put_other, fail_other|intros _].
  apply safe_bind; [apply safe_keeps, keeps_fails_fail|intros t'].
  apply safe_if; apply safe_keeps; auto with tasks.
Qed.

Lemma clearFailure_safe p id : safe (clearFailure p id).
Proof.
  apply safe_bind; [apply safe_keeps, keeps_fails_ok|intros _].
  apply safe_bind; [apply safe_attempt, safe_get|intros old]. destruct (found old); [|apply safe_keeps; auto with tasks].
  apply safe_bind; [apply safe_ignore, safe_del_other, fail_other|intros _]. apply safe_keeps; auto with tasks.
Qed.

(** ** Scheduling a workflow task writes nothing *)

Lemma hist_prefix_kind ns wf run : histPrefix ns wf run = "wfh" +:+ "/" +:+ ns +:+ "/" +:+ (wf +:+ "/" +:+ run +:+ "/").
Proof. done. Qed.

Lemma engine_kind_of kind : segment kind → kind ≠ "" → kind ≠ "ns" → kind ≠ "nx" → engine_kind kind.
Proof. intros. split_and!; [done|done|]. by intros [?|[?|?%elem_of_nil]%elem_of_cons]%elem_of_cons. Qed.

Lemma schedule_safe p ns wf run : segment ns → safe (scheduleWorkflowTask p ns wf run).
Proof.
  intros Hns. apply safe_bind; [by apply safe_describe|]. intros [x|]; [|apply safe_keeps; auto with tasks].
  apply safe_if; [apply safe_keeps; auto with tasks|].
  apply safe_bind; [|intros h; apply safe_keeps; auto with tasks].
  apply safe_bind; [rewrite hist_prefix_kind; by apply safe_list_into, engine_kind_of|intros l; apply safe_keeps; auto with tasks].
Qed.

(** ** Closing a run *)

(** The close of an open, stored run: the terminal row goes in before the index
    entry goes out. *)
Lemma closeRun_spec p ns x x' w :
  segment ns → Inv w → stored w p ns x → RunId (Execution x) ≠ "" → Execution x' = Execution x →
  HistoryLen x' = HistoryLen x →
  isTerminal (Status x') = true → (isTerminal (Status x) = true → Status x' = Status x) →
  wp (closeRun p ns x') (λ _ w', adv w w') w.
Proof.
  intros Hns HI Hst Hr Hex Hlen Ht Hsame. unfold closeRun. wp_step. apply wp_put.
  { intros e w' St _. by apply adv_still. }
  intros w1 k n r _ _ _ Hrow. assert (Inv w1) as HI1.
  { eapply Inv_put_run; [done|by rewrite Hex|by rewrite Ht| |exact Hrow|done]. rewrite Hex, Hlen. by apply stored_events. }
  assert (mono w w1) as M1.
  { intros q ns' s st Hns' Hs Hst'. rewrite (put_run_status_of p ns x' w w1 Hns Hrow) by done. case_decide as E; [|done].
    destruct E as (-> & -> & ->). pose proof (stored_status _ _ _ _ Hst) as Hs'.
    unfold suffix in Hs, Hs'. rewrite Hex in Hs. rewrite Hs in Hs'. injection Hs' as ->. by rewrite Hsame. }
  apply wp_del.
  - intros e w2 St _. eapply adv_trans; [split; [exact HI1|exact M1]|by apply adv_still].
  - intros w2 k2 n2 r2 _ _ _ Hrow2. split.
    + eapply Inv_del_open; [done| |exact Hrow2|done]. intros j y Hy Hj. destruct Hrow as [Hrow _].
      rewrite Hrow, decide_True in Hy by done. apply (inj Some) in Hy as <-. rewrite of_to in Hj by done.
      by injection Hj as <-.
    + etrans; [exact M1|]. apply same_status_mono. intros q ns' s _. unfold status_of. destruct Hrow2 as [Hrow2 _].
      rewrite Hrow2, decide_False; [done|]. intros [_ E]. rewrite openKey_eq in E. revert E. by apply kind_ne.
Qed.

Lemma wp_adv {A} (m : W A) w0 w : adv w0 w → wp m (λ _ w', adv w w') w → wp m (λ _ w', adv w0 w') w.
Proof. intros A1 Hm. eapply wp_mono; [exact Hm|]. intros r w' A2. by eapply adv_trans. Qed.

Lemma terminalTransition_safe p ns wf run st k ty a :
  segment ns → isTerminal st = true → safe (terminalTransition p ns wf run st k ty a).
Proof.
  intros Hns Ht w HI. unfold terminalTransition. wp_step.
  apply wp_must_describe; [done|done|intros; by apply adv_still|].
  intros w1 x St1 Hst Hr _ _. pose proof (adv_still _ _ St1 HI) as A1. apply wp_adv; [exact A1|].
  destruct (isTerminal (Status x)) eqn:Hx; [wp_step; apply adv_refl, A1|].
  wp_step. apply keeps_use; [auto with tasks|]. intros [e|t] w2 St2; [by apply adv_tables; [|apply A1]|].
  assert (adv w1 w2) as A2 by (apply adv_tables; [done|apply A1]). apply wp_adv; [exact A2|].
  wp_step. eapply wp_mono; [apply (closeRun_spec p ns x)|].
  { done. } { apply A2. } { by eapply stored_tables. } { done. } { done. } { done. } { done. } { by rewrite Hx. }
  intros [e|[]] w3 A3; [done|]. apply wp_adv; [exact A3|].
  apply (safe_bind (appendHistory _ _ _ _ _ _)); [by apply append_safe| |apply A3]. intros ev.
  apply safe_bind; [by apply safe_must_deref|intros y].
  apply safe_bind; [apply safe_keeps; auto with tasks|intros _].
  apply safe_bind; [|intros _; apply safe_keeps; auto with tasks].
  repeat apply safe_if; [apply recordFailure_safe|apply clearFailure_safe|apply safe_keeps; auto with tasks].
Qed.

(** ** Cancel, signal, sweep *)

Lemma wf_set_status_exec s x : Execution (wf_set_status s x) = Execution x.
Proof. done. Qed.

(** An open run may be rewritten with any open status. *)
Lemma wp_reopen_run (Q : err + unit → world → Prop) p ns x x' w :
  segment ns → Inv w → stored w p ns x → RunId (Execution x) ≠ "" → isTerminal (Status x) = false →
  Execution x' = Execution x → HistoryLen x' = HistoryLen x → (∀ r w', adv w w' → Q r w') →
  wp (store_put p (runKey ns (WorkflowId (Execution x')) (RunId (Execution x'))) x') Q w.
Proof.
  intros Hns HI Hst Hr Hx Hex Hlen HQ. apply wp_put.
  - intros e w' St _. apply HQ. by apply adv_still.
  - intros w' k n r _ _ _ Hrow. apply HQ. split.
    + eapply Inv_put_run; [done|by rewrite Hex| | |exact Hrow|done]; [intros _; rewrite Hex; by apply stored_open|].
      rewrite Hex, Hlen. by apply stored_events.
    + intros q ns' s st Hns' Hs Ht. rewrite (put_run_status_of p ns x' w w' Hns Hrow) by done. case_decide as E; [|done].
      destruct E as (-> & -> & ->). pose proof (stored_status _ _ _ _ Hst) as Hs'.
      unfold suffix in Hs, Hs'. rewrite Hex in Hs. rewrite Hs in Hs'. injection Hs' as ->. congruence.
Qed.

Lemma cancel_transition_safe p ns wf run r i : segment ns → safe (cancel_transition p ns wf run r i).
Proof. intros Hns. by apply terminalTransition_safe. Qed.

Lemma CancelWorkflow_safe p ns wf run r i : segment ns → safe (CancelWorkflowWithReason p ns wf run r i).
Proof.
  intros Hns w HI. unfold CancelWorkflowWithReason. wp_step.
  apply wp_must_describe; [done|done|intros; by apply adv_still|].
  intros w1 x St1 Hst Hr Hn _. pose proof (adv_still _ _ St1 HI) as A1. apply wp_adv; [exact A1|].
  destruct (isTerminal (Status x)) eqn:Hx; [wp_step; apply adv_refl, A1|].
  destruct (String.eqb (Status x) CANCELING).
  { apply safe_bind; [apply safe_keeps; auto with tasks|intros _; apply safe_keeps; auto with tasks|apply A1]. }
  assert (live w1 p ns wf run) as Hlive.
  { exists (suffix x), (Status x). split_and!; [done|by apply stored_status|done]. }
  wp_step. eapply wp_mono; [apply append_spec; [done|apply A1]|].
  intros [e|ev] w2 [HI2 S2]; [split; [done|by apply same_status_mono]|].
  apply wp_adv; [split; [exact HI2|by apply same_status_mono]|].
  wp_step. apply wp_deref_describe; [done|done|intros; by apply adv_still|].
  intros w3 y St3 Hst3 Hr3 _ Hopen. pose proof (adv_still _ _ St3 HI2) as A3. apply wp_adv; [exact A3|].
  assert (isTerminal (Status y) = false) as Hy by (apply Hopen; by eapply live_same).
  wp_step. unfold disp_HasSubscribers. wp_step. destruct (HasSubscribers ns (TaskQueue y) kindWorkflow (w_disp w3)); cbn [negb].
  2: { apply cancel_transition_safe; [done|apply A3]. }
  wp_step. apply (wp_reopen_run _ p ns y); [done|apply A3|done|done|done|done|done|].
  intros [e|[]] w4 A4; [done|]. apply wp_adv; [exact A4|].
  apply safe_bind; [apply safe_keeps; auto with tasks|intros now|apply A4].
  apply safe_bind; [by apply safe_keeps, keeps_modify|intros _].
  apply safe_bind; [apply safe_keeps; auto with tasks|intros _].
  apply safe_bind; [apply safe_keeps; auto with tasks|intros _]. apply safe_keeps; auto with tasks.
Qed.

Lemma AckCanceled_safe p ns wf run r i : segment ns → safe (AckCanceled p ns wf run r i).
Proof.
  intros Hns. apply safe_bind; [by apply safe_keeps, keeps_modify|intros _]. by apply cancel_transition_safe.
Qed.

Lemma signal_safe p ns wf run name payload i : segment ns → safe (signalWorkflow p ns wf run name payload i).
Proof.
  intros Hns. apply safe_bind; [by apply safe_must_find|intros x].
  apply safe_if; [apply safe_keeps; auto with tasks|].
  apply safe_bind; [by apply append_safe|intros _].
  apply safe_bind; [by apply safe_must_deref|intros y].
  apply safe_bind; [apply safe_keeps; auto with tasks|intros _]. by apply schedule_safe.
Qed.

(** ** Activities *)

Lemma act_key ns wf run seq : wfActKey ns wf run seq = "wfact" +:+ "/" +:+ (ns +:+ "/" +:+ wf +:+ "/" +:+ run +:+ "/" +:+ pad 10 seq).
Proof. unfold wfActKey, wfActPrefix. by rewrite !sapp_assoc. Qed.
Lemma put_activity_safe p ns wf run a : safe (putWorkflowActivity p ns wf run a).
Proof.
  unfold putWorkflowActivity. rewrite act_key. destruct (marshal_ok a) eqn:Ea.
  2: { unfold store_put. rewrite Ea. cbn [negb]. apply safe_keeps; auto with tasks. }
  intros w HI. apply wp_put; [intros; by apply adv_still|]. intros w' k n r _ _ _ Hrow. split; [by eapply Inv_put_act|].
  eapply same_status_mono, put_other_status; [|exact Hrow]. apply outside_key; kinds.
Qed.

Lemma dispatchActivityAttempt_safe p ns wf run rec b : segment ns → safe (dispatchActivityAttempt p ns wf run rec b).
Proof.
  intros Hns. apply safe_bind; [apply put_activity_safe|intros _].
  apply safe_bind; [|intros _; apply safe_keeps; auto with tasks].
  apply safe_if; [|apply safe_keeps; auto with tasks].
  apply safe_bind; [by apply append_safe|intros _; apply safe_keeps; auto with tasks].
Qed.

Lemma applyScheduleActivity_safe p ns wf run seq ty i q a b rp :
  segment ns → safe (applyScheduleActivity p ns wf run seq ty i q a b rp).
Proof.
  intros Hns. apply safe_bind; [apply safe_get|]. intros [x|]; [apply safe_keeps; auto with tasks|].
  apply safe_bind; [|intros q'].
  { apply safe_if; [|apply safe_keeps; auto with tasks].
    apply safe_bind; [by apply safe_attempt, safe_describe|intros r; apply safe_keeps; auto with tasks]. }
  apply safe_bind; [apply put_activity_safe|intros _].
  apply safe_bind; [by apply append_safe|intros _].
  apply safe_bind; [apply safe_keeps; auto with tasks|intros _]. by apply dispatchActivityAttempt_safe.
Qed.

Lemma fire_retry_safe t : segment (rt_ns t) → safe (fire_retry t).
Proof.
  intros Hns. apply safe_bind; [apply safe_attempt, safe_get|intros r]. destruct (found r); [|apply safe_keeps; auto with tasks].
  apply safe_if; [apply safe_keeps; auto with tasks|]. by apply safe_ignore, dispatchActivityAttempt_safe.
Qed.

Lemma complete_activity_safe p ns wf run seq res wfe rec : segment ns → safe (complete_activity p ns wf run seq res wfe rec).
Proof.
  intros Hns. apply safe_bind; [apply put_activity_safe|intros _]. apply safe_bind; [by apply append_safe|intros _].
  apply safe_bind; [apply safe_keeps; auto with tasks|intros _]. apply safe_bind; [apply clearFailure_safe|intros _].
  by apply schedule_safe.
Qed.

Lemma fail_activity_safe p ns wf run seq fail wfe rec : segment ns → safe (fail_activity p ns wf run seq fail wfe rec).
Proof.
  intros Hns. apply safe_if.
  - apply safe_bind; [apply recordFailure_safe|intros _]. apply safe_bind; [apply put_activity_safe|intros _].
    apply safe_bind; [apply safe_keeps; auto with tasks|intros _]. by apply safe_keeps, keeps_modify.
  - apply safe_bind; [apply put_activity_safe|intros _]. apply safe_bind; [by apply append_safe|intros _].
    apply safe_bind; [apply safe_keeps; auto with tasks|intros _]. apply safe_bind; [apply recordFailure_safe|intros _].
    by apply schedule_safe.
Qed.

Lemma completeWorkflowActivity_safe p ns wf run seq res fail :
  segment ns → safe (completeWorkflowActivity p ns wf run seq res fail).
Proof.
  intros Hns. apply safe_bind; [apply safe_get|]. intros [rec|]; [|apply safe_keeps; auto with tasks].
  apply safe_if; [apply safe_keeps; auto with tasks|].
  apply safe_bind; [by apply safe_attempt, safe_describe|intros r].
  apply safe_if; [apply safe_keeps; auto with tasks|].
  destruct fail; [by apply complete_activity_safe|by apply fail_activity_safe..].
Qed.

(** ** Recovery *)

(** A run row read as [runRow] says what it says read in full. *)
Lemma runRow_of_run j x :
  of_json (A := WorkflowExecution) j = Some x →
  ∃ r, of_json (A := runRow) j = Some r ∧ rr_Execution r = Execution x ∧ rr_Status r = Status x.
Proof.
  unfold of_json, WorkflowExecution_codec, runRow_codec. destruct (as_obj j) as [o|]; [|done]. cbn [mbind option_bind].
  repeat match goal with |- context [rd o ?k ≫= _] => destruct (rd o k); [cbn [mbind option_bind]|done] end.
  intros [= <-]. eauto.
Qed.

Lemma openRun_safe p ns ref : segment ns → RunId ref ≠ "" → safe (openRun p ns ref).
Proof.
  intros Hns Hr w HI. unfold openRun. apply wp_put.
  - intros e w' St _. by apply adv_still.
  - intros w' k n r _ _ _ Hrow. split; [by eapply Inv_put_open|]. apply same_status_mono.
    intros q ns' s _. unfold status_of. destruct Hrow as [Hrow _]. rewrite Hrow, decide_False; [done|].
    intros [_ E]. rewrite openKey_eq in E. revert E. by apply kind_ne.
Qed.

Lemma run_prefix_good ns : good_prefix ("wf" +:+ "/" +:+ ns +:+ "/").
Proof. rewrite <- !sapp_assoc. apply good_slash. Qed.

Lemma index_walk_safe fuel : ∀ p ns after, segment ns → ns ≠ "" → safe (index_walk fuel p ns after).
Proof.
  induction fuel as [|fuel IH]; intros p ns after Hns Hne; cbn [index_walk]; [apply safe_keeps; auto with tasks|].
  intros w HI. wp_step. unfold page. wp_step. change ("wf" +:+ "/" +:+ ns +:+ "/") with ("wf" +:+ "/" +:+ ns +:+ "/" +:+ "").
  apply wp_store_scan; [by apply engine_kind_of|done|done|intros; by apply adv_still|].
  intros w1 St1 Hs. wp_step. set (rows := Scan _ _ _ _). pose proof (adv_still _ _ St1 HI) as A1. apply wp_adv; [exact A1|].
  apply safe_bind; [|intros _; apply safe_if; [apply safe_keeps; auto with tasks|by apply IH]|apply A1].
  apply safe_for_each. intros r Hr. apply safe_if; [apply safe_keeps; auto with tasks|]. apply openRun_safe; [done|].
  apply list_elem_of_omap in Hr as ([k j] & Hin & Hj). cbn in Hj.
  apply elem_of_Scan in Hin as [Hk Hp]; [|apply run_prefix_good].
  apply has_prefix_spec in Hp as [s ->]. rewrite !sapp_assoc in Hk.
  assert (row w p ("wf" +:+ "/" +:+ ns +:+ "/" +:+ s) = Some j) as Hrow.
  { unfold row. by rewrite NsFromKey_key. }
  destruct (inv_run w HI _ _ _ _ Hns Hrow) as (x & Hx & _ & Hr & _).
  destruct (runRow_of_run j x Hx) as (r' & Hr' & E & _). rewrite Hj in Hr'. injection Hr' as <-. by rewrite E.
Qed.

Lemma index_other ns : other_kind (openIndexKey ns).
Proof. apply outside_key; kinds. Qed.

Lemma indexOpenRuns_safe p ns : segment ns → ns ≠ "" → safe (indexOpenRuns p ns).
Proof.
  intros Hns Hne. apply safe_bind; [apply safe_get|]. intros [t|]; [apply safe_keeps; auto with tasks|].
  apply safe_bind; [apply safe_keeps; auto with tasks|intros fuel]. apply safe_bind; [by apply index_walk_safe|intros _].
  apply safe_bind; [apply safe_keeps; auto with tasks|intros t]. apply safe_put_other, index_other.
Qed.

Lemma act_prefix_kind ns wf run : wfActPrefix ns wf run = "wfact" +:+ "/" +:+ ns +:+ "/" +:+ (wf +:+ "/" +:+ run +:+ "/").
Proof. done. Qed.

Lemma recoverRun_safe p ns wf run : segment ns → run ≠ "" → safe (recoverRun p ns wf run).
Proof.
  intros Hns Hrun w HI. unfold recoverRun. wp_step.
  assert (∀ w', still w w' → (∀ j x, row w p (runKey ns wf run) = Some j → of_json j = Some x → isTerminal (Status x) = true) →
    wp (store_del p (openKey ns wf run)) (λ _ w2, adv w w2) w') as Hdel.
  { intros w' St Hterm. apply wp_adv; [by apply adv_still|]. apply wp_del.
    - intros e w2 St2 _. apply adv_still; [done|by eapply Inv_still].
    - intros w2 k n r _ _ _ Hrow. split; [eapply Inv_del_open; [done| |exact Hrow|by eapply Inv_still]|].
      + intros j x. rewrite (still_row w w') by done. apply Hterm.
      + apply same_status_mono. intros q ns' s _. unfold status_of. destruct Hrow as [Hrow _]. rewrite Hrow, decide_False; [done|].
        intros [_ E]. rewrite openKey_eq in E. revert E. by apply kind_ne. }
  apply wp_describe; [done|done|intros; by apply adv_still| |].
  - intros w1 St1 Hnone. apply Hdel; [done|]. intros j x Hr. by rewrite Hnone in Hr.
  - intros w1 x St1 Hst Hr Hn _. destruct (isTerminal (Status x)) eqn:Hx.
    + apply Hdel; [done|]. intros j y Hy Hj. destruct Hst as (j' & Hr' & Hj'). unfold names in Hn.
      destruct (String.eqb_spec run "") as [|_]; [done|]. rewrite runKey_eq in Hr', Hy. unfold suffix in Hn.
      rewrite Hn, (still_row w w1) in Hr' by done. congruence.
    + apply wp_adv; [by apply adv_still|]. apply safe_bind; [unfold listWorkflowActivities; rewrite act_prefix_kind; by apply safe_list_into, engine_kind_of| |by eapply Inv_still].
      intros acts. apply safe_bind; [|intros _; by apply schedule_safe].
      apply safe_for_each. intros a _. apply safe_if; [apply safe_keeps; auto with tasks|by apply dispatchActivityAttempt_safe].
Qed.

Lemma listed_refs w p ns rows l ref :
  Inv w → segment ns → listed w p (openPrefix ns) rows → mapM (λ r, of_json (A := ExecutionRef) r.2) rows = Some l →
  ref ∈ l → RunId ref ≠ "".
Proof.
  intros HI Hns Hl Hm Hx. apply mapM_Some in Hm.
  apply list_elem_of_lookup in Hx as [i Hi]. destruct (Forall2_lookup_r _ _ _ _ _ Hm Hi) as ([k j] & Hk & Hj). cbn in Hj.
  apply list_elem_of_lookup_2 in Hk. apply (elem_of_listed w p _ rows k j Hl) in Hk as [Hr Hp].
  2: { unfold openPrefix. rewrite <- !sapp_assoc. apply good_slash. }
  2: { intros kind s E Hk'. apply segment_inj in E as [<- _]; [|done|done]. done. }
  apply has_prefix_spec in Hp as [s ->]. unfold openPrefix in Hr. rewrite !sapp_assoc in Hr.
  destruct (inv_open w HI _ _ _ _ Hns Hr) as (ref' & Hj' & _ & Hne). congruence.
Qed.

Lemma recover_namespace_safe p ns : segment ns → ns ≠ "" → safe (recover_namespace p ns).
Proof.
  intros Hns Hne. apply safe_bind; [by apply indexOpenRuns_safe|intros _]. intros w HI. wp_step.
  change (openPrefix ns) with ("wfopen" +:+ "/" +:+ ns +:+ "/" +:+ "").
  apply wp_listInto; [by apply engine_kind_of|intros; by apply adv_still|]. intros w1 rows l St Hl Hm.
  apply wp_adv; [by apply adv_still|]. apply safe_for_each; [|by eapply Inv_still]. intros ref Hr.
  apply recoverRun_safe; [done|]. by eapply listed_refs.
Qed.

End RunInv.
