(* ===== verification/Creates.v ===== *)
(** Operations that create or reset runs keep the invariant of the run rows: the
    index entry goes in before the row. Unlike the operations of [RunInv] they may
    write over a run that is there, so they are [sound] and not [safe]. *)

From Stdlib Require Import Ascii ZArith Lia.
From stdpp Require Import prelude strings gmap.
From S2P Require Import Prelude GoStrings Json Types EngineTypes Env Principal Router Shard GoTime Temporal Dispatch Events World WorldFacts Failure Workflow Durable Commands Frames RunInv.

Section Creates.
Context `{Env} `{!SegmentRule} (gapless : bool).
Abbreviation Inv := (RunInv.Inv gapless).
Abbreviation safe := (RunInv.safe gapless).
Abbreviation adv := (RunInv.adv gapless).

(** ** Operations that create runs keep the invariant *)

Definition keeps_inv : relation world := λ w w', Inv w → Inv w'.
#[local] Instance keeps_inv_pre : PreOrder keeps_inv.
Proof. unfold keeps_inv. split; [by intros w ?|]. intros w1 w2 w3 H1 H2 HI. auto. Qed.

Abbreviation sound m := (respects keeps_inv m).

Lemma safe_sound {A} (m : W A) : safe m → sound m.
Proof. intros Hm w. apply wp_intro. intros HI. apply (wp_elim m _ w (Hm w HI)). Qed.
Lemma tables_sound {A} (m : W A) : keeps_tables m → sound m.
Proof. intros Hm. by apply safe_sound, safe_keeps. Qed.

Lemma sound_intro {A} (m : W A) : (∀ w, Inv w → wp m (λ _ w', Inv w') w) → sound m.
Proof. intros Hm w. apply wp_intro. intros HI. apply (wp_elim m _ w (Hm w HI)). Qed.
Lemma sound_use {A} (m : W A) (Q : err + A → world → Prop) w : sound m → Inv w → (∀ r w', Inv w' → Q r w') → wp m Q w.
Proof. intros Hm HI HQ. eapply wp_mono; [apply Hm|]. intros r w' H1. auto. Qed.

Lemma Inv_put_ns p name n w w' :
  ni_Name (ns_Info n) = name → segment name → name ≠ "" →
  row_put p ("ns" +:+ "/" +:+ name) (Some (to_json n)) w w' → Inv w → Inv w'.
Proof.
  intros Hn Hs Hne Hrow [I1 I2 I3 I4 I5 I6].
  assert (outside ["wf"; "wfopen"; "wfh"; "wfact"] ("ns" +:+ "/" +:+ name)) as Ho by (apply outside_key; kinds).
  pose proof Hrow as [Hr _]. split.
  - intros q ns s j. frame Hrow Ho. apply I1.
  - intros q ns s j. frame Hrow Ho. apply I2.
  - intros q s j. rewrite Hr. case_decide as D; [|apply I3]. destruct D as [-> D]. apply segment_inj in D as [_ ->]; [|done|done].
    intros <-%(inj Some). exists n. by rewrite of_to.
  - intros q s j. frame Hrow Ho. apply I4.
  - intros q s j. frame Hrow Ho. apply I5.
  - intros q ns s j x i. unfold eventKey. frame Hrow Ho. apply I6.
Qed.

Lemma RegisterNamespace_safe p n : segment (ni_Name (ns_Info n)) → safe (RegisterNamespace p n).
Proof.
  intros Hs. unfold RegisterNamespace. destruct (String.eqb_spec (ni_Name (ns_Info n)) "") as [|Hne].
  { apply safe_keeps; auto with tasks. }
  apply safe_bind. { case_match; apply safe_keeps; auto with tasks. }
  intros t. apply safe_bind; [|intros _; apply safe_keeps; auto with tasks].
  intros w HI. apply wp_put.
  - intros e w' St _. by apply adv_still.
  - intros w' kind ns rest _ _ _ Hrow. split.
    + eapply Inv_put_ns; [|done|done|exact Hrow|done]. done.
    + eapply same_status_mono, put_other_status; [|exact Hrow]. apply outside_key; kinds.
Qed.
Lemma RegisterNamespace_sound p n : segment (ni_Name (ns_Info n)) → sound (RegisterNamespace p n).
Proof. intros Hs. by apply safe_sound, RegisterNamespace_safe. Qed.

Lemma namespace_safe p name : safe (namespace p name).
Proof.
  intros w HI. unfold namespace. wp_step. apply wp_lift_name; [intros; by apply adv_refl|]. intros Hv.
  apply safe_bind; [apply safe_get| |done]. intros [n|]; [apply safe_keeps; auto with tasks|].
  apply safe_bind; [by apply RegisterNamespace_safe, ValidName_segment|intros _].
  apply safe_bind; [apply safe_get|]. intros [n|]; apply safe_keeps; auto with tasks.
Qed.
Lemma namespace_sound p name : sound (namespace p name).
Proof. apply safe_sound, namespace_safe. Qed.

(** A computation that starts by creating a run: the index entry first. *)
Lemma new_run_sound {A} p ns x (rest : W A) :
  segment ns → RunId (Execution x) ≠ "" → HistoryLen x = 0%Z → sound rest →
  sound (openRun p ns (Execution x);; store_put p (runKey ns (WorkflowId (Execution x)) (RunId (Execution x))) x;; rest).
Proof.
  intros Hns Hr Hlen Hrest. apply sound_intro. intros w HI. wp_step. unfold openRun. apply wp_put.
  { intros e w' St _. by eapply Inv_still. }
  intros w1 k1 n1 r1 _ _ _ Hrow1. assert (Inv w1) as HI1 by (by eapply Inv_put_open).
  wp_step. apply wp_put. { intros e w' St _. by eapply Inv_still. }
  intros w2 k2 n2 r2 _ _ _ Hrow2. apply sound_use; [done| |done].
  eapply Inv_put_run; [done|done| | |exact Hrow2|done].
  - intros _. destruct Hrow1 as [Hrow1 _]. rewrite Hrow1, decide_True by done. eauto.
  - intros _ i Hi. rewrite Hlen in Hi. lia.
Qed.

Lemma hex_ne n r : n ≠ 0 → hex n r ≠ "".
Proof. intros Hn E. pose proof (hex_length n r) as L. rewrite E in L. cbn in L. lia. Qed.

Lemma new_id_sound {A} (f : string → W A) : (∀ r, r ≠ "" → sound (f r)) → sound (newRunId ≫= f).
Proof.
  intros Hf. apply sound_intro. intros w HI. wp_step. unfold newRunId. wp_step. unfold rand_draw, wp at 1. cbv beta iota zeta.
  wp_step.
  eapply sound_use; [apply Hf; by apply hex_ne| |done]. by eapply Inv_tables; [|exact HI].
Qed.

Lemma run_id_sound {A} run (f : string → W A) :
  (∀ r, r ≠ "" → sound (f r)) → sound ((if String.eqb run "" then newRunId else mret run) ≫= f).
Proof.
  intros Hf. destruct (String.eqb_spec run "") as [|Hne]; [by apply new_id_sound|].
  apply sound_intro. intros w HI. wp_step. wp_step. by apply sound_use; [apply Hf|..].
Qed.

Lemma described_sound {A} p ns wf run what (f : WorkflowExecution → W A) :
  segment ns → (∀ x, RunId (Execution x) ≠ "" → sound (f x)) → sound (must_find (DescribeWorkflow p ns wf run) what ≫= f).
Proof.
  intros Hns Hf. apply sound_intro. intros w HI. wp_step. apply (wp_must_describe gapless); [done|done|intros; by eapply Inv_still|].
  intros w1 x St _ Hr _ _. apply sound_use; [by apply Hf|by eapply Inv_still|done].
Qed.

(** Closing whatever run sits at the key of [x]. *)
Lemma closeRun_sound p ns x :
  segment ns → RunId (Execution x) ≠ "" → isTerminal (Status x) = true → gapless = false → sound (closeRun p ns x).
Proof.
  intros Hns Hr Ht HG. apply sound_intro. intros w HI. unfold closeRun. wp_step. apply wp_put.
  { intros e w' St _. by eapply Inv_still. }
  intros w1 k1 n1 r1 _ _ _ Hrow1. assert (Inv w1) as HI1.
  { eapply Inv_put_run; [done|done|by rewrite Ht| |exact Hrow1|done]. intros HG'. congruence. }
  apply wp_del. { intros e w' St _. by eapply Inv_still. }
  intros w2 k2 n2 r2 _ _ _ Hrow2. eapply Inv_del_open; [done| |exact Hrow2|done].
  intros j y Hy Hj. destruct Hrow1 as [Hrow1 _]. rewrite Hrow1, decide_True in Hy by done.
  apply (inj Some) in Hy as <-. rewrite of_to in Hj by done. by injection Hj as <-.
Qed.

#[local] Hint Resolve safe_sound safe_attempt safe_describe safe_must_find safe_must_deref append_safe schedule_safe
  terminalTransition_safe signal_safe AckCanceled_safe applyScheduleActivity_safe safe_get namespace_sound : walk.
#[local] Hint Resolve tables_sound keeps_ret keeps_gets keeps_throw keeps_time_now keeps_rand keeps_now keeps_newRunId
  keeps_emit keeps_log : walk.

Lemma idem_other ns wf req : other_kind (idemKey ns wf req).
Proof. apply outside_key; kinds. Qed.

Lemma create_run_sound p ns wf run typ q i req sa memo :
  segment ns → run ≠ "" → sound (create_run p ns wf run typ q i req sa memo).
Proof.
  intros Hns Hr. unfold create_run. apply (resp_bind keeps_inv); [auto with walk|intros t]. cbv zeta.
  match goal with |- context [openRun p ns (Execution ?x)] => apply (new_run_sound p ns x); [done|done|done|] end.
  assert (∀ v : string, sound (store_put p (idemKey ns wf req) v)) as Hidem by (intros; apply safe_sound, safe_put_other, idem_other).
  walk.
Qed.

Lemma resolve_sound p ns wf pol : segment ns → sound (resolveWorkflowIdConflict p ns wf pol).
Proof.
  intros Hns. unfold resolveWorkflowIdConflict.
  assert (∀ w r a b, sound (TerminateWorkflowWithReason p ns w r a b)) by (intros; by apply safe_sound, terminalTransition_safe).
  walk.
Qed.
Lemma prior_start_sound p ns wf req : segment ns → sound (prior_start p ns wf req).
Proof. intros Hns. unfold prior_start, lookupIdempotency. walk. Qed.

Lemma start_sound p ns wf run typ q i req sa memo pol :
  segment ns → sound (startWorkflowFull p ns wf run typ q i req sa memo pol).
Proof.
  intros Hns. unfold startWorkflowFull. apply (resp_bind keeps_inv); [auto with walk|intros _].
  destruct (String.eqb (TypeName typ) ""); [walk|]. apply (resp_bind keeps_inv); [walk|intros wf'].
  apply (resp_bind keeps_inv); [by apply prior_start_sound|]. intros [x|]; [walk|].
  apply (resp_bind keeps_inv); [by apply resolve_sound|]. intros [x|]; [walk|].
  apply run_id_sound. intros r Hr. by apply create_run_sound.
Qed.

Lemma signalWithStart_sound p ns wf run typ q i name payload req sa memo :
  segment ns → sound (signalWithStartFull p ns wf run typ q i name payload req sa memo).
Proof. intros Hns. unfold signalWithStartFull, SignalWorkflow. pose proof start_sound. walk. Qed.

(** *** Reset *)

(** The copied events leave the run and its index entry alone. *)
Lemma copy_events_spec p ns wf run cut l : ∀ w,
  Inv w → wp (copy_events p ns wf run cut l) (λ _ w', Inv w' ∧ ∀ k, is_Some (row w p (openKey ns wf k)) → is_Some (row w' p (openKey ns wf k))) w.
Proof.
  induction l as [|ev l IH]; intros w HI; cbn [copy_events]; [by wp_step|]. case_match; [by wp_step|].
  wp_step. apply wp_put.
  - intros e w' St _. split; [by eapply Inv_still|]. intros k. by rewrite (still_row w w').
  - intros w' k n r _ _ _ Hrow. eapply wp_mono.
    + apply IH. rewrite histKey_eq in Hrow. by eapply Inv_put_event; [|exact Hrow|].
    + intros r' w2 [HI2 Ho]. split; [done|]. intros k' Hk. apply Ho. destruct Hrow as [-> _]. by case_decide.
Qed.

Lemma reset_sound p ns wf run ev r i : gapless = false → segment ns → sound (ResetWorkflow p ns wf run ev r i).
Proof.
  intros HG Hns. unfold ResetWorkflow. apply described_sound; [done|]. intros src Hsrc. case_match; [walk|].
  cbv zeta. apply (resp_bind keeps_inv).
  { apply safe_sound. rewrite hist_prefix_kind. by apply safe_list_into, engine_kind_of. }
  intros all. apply new_id_sound. intros newRun Hnew. apply (resp_bind keeps_inv); [auto with walk|intros t].
  match goal with |- context [openRun p ns (Execution ?x)] => set (x0 := x) end.
  assert (∀ A (rest : W A), sound rest → sound (openRun p ns (Execution x0);; store_put p (runKey ns (WorkflowId (Execution src)) newRun) x0;;
    copy_events p ns (WorkflowId (Execution src)) newRun ev all;;
    store_put p (runKey ns (WorkflowId (Execution src)) newRun) (wf_set_len ev x0);; rest)) as Hcopy.
  { intros A rest Hrest. apply sound_intro. intros w HI. wp_step. unfold openRun. apply wp_put.
    { intros e w' St _. by eapply Inv_still. }
    intros w1 k1 n1 r1 _ _ _ Hrow1. assert (Inv w1) as HI1 by (eapply Inv_put_open; [done| |exact Hrow1|done]; done).
    assert (is_Some (row w1 p (openKey ns (WorkflowId (Execution src)) newRun))) as Ho.
    { destruct Hrow1 as [-> _]. rewrite decide_True by done. eauto. }
    wp_step. apply wp_put. { intros e w' St _. by eapply Inv_still. }
    intros w2 k2 n2 r2 _ _ _ Hrow2. assert (Inv w2) as HI2 by (eapply (Inv_put_run gapless p ns x0); try done; intros ?; congruence).
    wp_step. eapply wp_mono; [by apply copy_events_spec|]. intros [e|[]] w3 [HI3 Ho3]; [done|].
    wp_step. apply wp_put. { intros e w' St _. by eapply Inv_still. }
    intros w4 k4 n4 r4 _ _ _ Hrow4. apply sound_use; [done| |done]. eapply (Inv_put_run gapless p ns (wf_set_len ev x0)); [done|done| |intros ?; congruence|done|done].
    intros _. apply Ho3. destruct Hrow2 as [-> _]. by case_decide. }
  apply Hcopy. assert (∀ t, sound (closeRun p ns (wf_set_close TERMINATED t src))) by (intros; by apply closeRun_sound).
  walk.
Qed.

(** *** Commands *)

Lemma decode_keeps i : keeps_tables (decode_args i).
Proof. destruct i; cbn; auto with tasks. Qed.

Lemma continue_sound p ns wf run i ty q : segment ns → sound (applyContinueAsNew p ns wf run i ty q).
Proof.
  intros Hns. unfold applyContinueAsNew. pose proof start_sound. pose proof decode_keeps.
  assert (isTerminal CONTINUED_AS_NEW = true) by done. walk.
Qed.

Lemma child_recorded_sound p ns wf run seq : segment ns → sound (childStartRecorded p ns wf run seq).
Proof.
  intros Hns. unfold childStartRecorded. rewrite hist_prefix_kind.
  assert (safe (listInto HistoryEvent p ("wfh" +:+ "/" +:+ ns +:+ "/" +:+ wf +:+ "/" +:+ run +:+ "/"))) by (by apply safe_list_into, engine_kind_of).
  walk.
Qed.

Lemma child_sound p ns wf run seq cw ct q i sa : segment ns → sound (applyStartChild p ns wf run seq cw ct q i sa).
Proof.
  intros Hns. unfold applyStartChild. pose proof start_sound. pose proof decode_keeps. pose proof child_recorded_sound. walk.
Qed.

Lemma command_sound t c : segment (wt_ns t) → sound (apply_command t c).
Proof.
  intros Hns. unfold apply_command. pose proof continue_sound. pose proof child_sound.
  assert (isTerminal COMPLETED = true) by done. assert (isTerminal FAILED = true) by done. walk.
Qed.

End Creates.
