(* ===== verification/Upkeep.v ===== *)
(** The components beside the runs keep the invariant of the run rows: standalone
    activities, schedules, deployments, attributes, batches, endpoints and
    identities write rows of other kinds; a schedule that fires starts a run; the
    purge removes runs, and only those that are terminal and expired. *)

From Stdlib Require Import Ascii ZArith Lia.
From stdpp Require Import prelude strings gmap.
From S2P Require Import Prelude GoStrings Json Types EngineTypes Env Principal Router Shard GoTime Temporal Dispatch Events World WorldFacts Failure Workflow Durable Commands Activities Schedules Deployments Admin Retention Frames RunInv Creates.

(** The kinds of rows the invariant speaks of. *)
Definition main_kinds : list string := ["wf"; "wfopen"; "ns"; "wfh"; "wfact"].

(** ** What a tenant can ask of these components *)

Inductive activity_op :=
| AStart (ns id run : string) (typ : TypeRef) (queue : string) (input : json) (retry : option RetryPolicy)
    (scheduleToClose scheduleToStart startToClose heartbeat identity req : string)
| ACancel (ns id run reason identity : string)
| AComplete (ns id run : string) (result : json) (identity : string)
| AFail (ns id run cause identity : string)
| AClaim (ns queue identity : string) (lease : Z)
| ABeat (ns id run : string) (details : json).

Inductive schedule_op :=
| SCreate (s : Schedule)
| SDelete (ns id : string)
| SPause (ns id : string) (paused : bool) (note : string)
| SUpdate (ns id : string) (s : Schedule).

Inductive admin_op :=
| DCreate (ns name description owner compute : string)
| DUpdate (ns name : string) (patch : DeploymentPatch)
| DDelete (ns name : string) (force : bool)
| DVersion (ns name build description compute image : string) (env : gmap string string)
| DPatch (ns name build : string) (patch : DeploymentVersionPatch)
| DCurrent (ns name build : string)
| DDrop (ns name build : string)
| MDropAttr (ns name : string)
| MBatch (b : BatchOperation)
| MEndBatch (ns id reason identity : string)
| MNexus (n : NexusEndpoint)
| MDropNexus (ns name : string)
| MGrant (i : Identity)
| MRevoke (ns email : string).

(** The kind of row each of them writes. *)
Definition admin_kind (o : admin_op) : string :=
  match o with
  | DCreate _ _ _ _ _ | DUpdate _ _ _ | DDelete _ _ _ | DVersion _ _ _ _ _ _ _ | DPatch _ _ _ _ | DCurrent _ _ _ | DDrop _ _ _ => "dp"
  | MDropAttr _ _ => "sa"
  | MBatch _ | MEndBatch _ _ _ _ => "bt"
  | MNexus _ | MDropNexus _ _ => "nx"
  | MGrant _ | MRevoke _ _ => "id"
  end.

(** Operations that also write rows of runs and namespaces. *)
Inductive meta_op :=
| MAttr (ns : string) (sa : SearchAttribute)
| MNamespace (name : string) (patch : NamespaceMetadataPatch)
| MDeprecate (name : string)
| MWorkflow (ns wf run : string) (m : WorkflowUserMetadata).

Section Serve.
Context `{Env}.

Definition serve_activity (p : Principal) (o : activity_op) : W unit :=
  match o with
  | AStart ns id run typ q i retry a b c d who req => StartActivity p ns id run typ q i retry a b c d who req;; mret tt
  | ACancel ns id run r who => CancelActivity p ns id run r who
  | AComplete ns id run res who => CompleteActivity p ns id run res who
  | AFail ns id run c who => FailActivity p ns id run c who
  | AClaim ns q who lease => ClaimNextActivity p ns q who lease;; mret tt
  | ABeat ns id run d => HeartbeatActivity p ns id run d
  end.

Definition serve_schedule (p : Principal) (o : schedule_op) : W unit :=
  match o with
  | SCreate s => CreateSchedule p s
  | SDelete ns id => DeleteSchedule p ns id
  | SPause ns id b note => PauseSchedule p ns id b note
  | SUpdate ns id s => UpdateSchedule p ns id s;; mret tt
  end.

Definition serve_admin (p : Principal) (o : admin_op) : W unit :=
  match o with
  | DCreate ns name a b c => CreateDeployment p ns name a b c;; mret tt
  | DUpdate ns name patch => UpdateDeployment p ns name patch;; mret tt
  | DDelete ns name f => DeleteDeployment p ns name f
  | DVersion ns name b d c i e => CreateVersion p ns name b d c i e;; mret tt
  | DPatch ns name b patch => UpdateVersion p ns name b patch;; mret tt
  | DCurrent ns name b => SetCurrentDeploymentVersion p ns name b;; mret tt
  | DDrop ns name b => DeleteDeploymentVersion p ns name b;; mret tt
  | MDropAttr ns name => RemoveSearchAttribute p ns name
  | MBatch b => StartBatch p b;; mret tt
  | MEndBatch ns id r i => TerminateBatch p ns id r i;; mret tt
  | MNexus n => CreateNexusEndpoint p n
  | MDropNexus ns name => DeleteNexusEndpoint p ns name
  | MGrant i => GrantIdentity p i
  | MRevoke ns email => RevokeIdentity p ns email
  end.

Definition serve_meta (p : Principal) (o : meta_op) : W unit :=
  match o with
  | MAttr ns sa => AddSearchAttribute p ns sa
  | MNamespace name patch => UpdateNamespaceMetadata p name patch;; mret tt
  | MDeprecate name => DeprecateNamespace p name;; mret tt
  | MWorkflow ns wf run m => UpdateWorkflowMetadata p ns wf run m;; mret tt
  end.

Lemma resp_then (R : relation world) `{!PreOrder R} {A} (m : W A) : respects R m → respects R (m;; mret tt).
Proof. intros Hm. apply (resp_bind R); [done|intros; apply (resp_ret R)]. Qed.

Context `{!SegmentRule} (R : relation world) (p : Principal) (P K : string → Prop) (HR : Steps R p P K).
#[local] Instance serve_pre : PreOrder R := st_pre _ _ _ _ HR.

Lemma serve_activity_resp o : (∀ kind, kind ∈ act_kinds → K kind) → respects R (serve_activity p o).
Proof.
  intros HA. destruct o; cbn [serve_activity].
  - by eapply (resp_then R), resp_StartActivity.
  - by eapply resp_activityTerminal.
  - by eapply resp_activityTerminal.
  - by eapply resp_activityTerminal.
  - by eapply (resp_then R), resp_Claim.
  - by eapply resp_Heartbeat.
Qed.
Lemma serve_schedule_resp o : (∀ kind, kind ∈ sched_kinds → K kind) → respects R (serve_schedule p o).
Proof.
  intros HS. destruct o; cbn [serve_schedule].
  - by eapply resp_CreateSchedule.
  - by eapply resp_DeleteSchedule.
  - by eapply resp_PauseSchedule.
  - by eapply (resp_then R), resp_UpdateSchedule.
Qed.
Lemma serve_admin_resp o : K (admin_kind o) → respects R (serve_admin p o).
Proof.
  intros HM. destruct o; cbn [serve_admin admin_kind] in *.
  - by eapply (resp_then R), resp_CreateDeployment.
  - by eapply (resp_then R), resp_UpdateDeployment.
  - by eapply resp_DeleteDeployment.
  - by eapply (resp_then R), resp_CreateVersion.
  - by eapply (resp_then R), resp_UpdateVersion.
  - by eapply (resp_then R), resp_SetCurrent.
  - by eapply (resp_then R), resp_DeleteVersion.
  - by eapply resp_RemoveSearchAttribute.
  - by eapply (resp_then R), resp_StartBatch.
  - by eapply (resp_then R), resp_TerminateBatch.
  - by eapply resp_CreateNexus.
  - by eapply resp_DeleteNexus.
  - by eapply resp_Grant.
  - by eapply resp_Revoke.
Qed.
Lemma serve_meta_resp o : (∀ kind, kind ∈ run_kinds → K kind) → K "sa" → respects R (serve_meta p o).
Proof.
  intros HK HSa. destruct o; cbn [serve_meta]; [|apply (resp_then R)..].
  - by eapply resp_AddSearchAttribute.
  - by eapply resp_UpdateNamespaceMetadata.
  - by eapply resp_DeprecateNamespace.
  - by eapply resp_UpdateWorkflowMetadata.
Qed.

End Serve.

Section Upkeep.
Context `{Env} `{!SegmentRule} (gapless : bool).
Abbreviation Inv := (RunInv.Inv gapless).
Abbreviation safe := (RunInv.safe gapless).
Abbreviation adv := (RunInv.adv gapless).
Abbreviation keeps_inv := (Creates.keeps_inv gapless).
Abbreviation sound m := (respects keeps_inv m).
#[local] Existing Instance keeps_inv_pre.

Lemma NsFromKey_kind key kind ns rest : NsFromKey key = Some (kind, ns, rest) → ∃ s, key = kind +:+ "/" +:+ s ∧ segment kind.
Proof.
  unfold NsFromKey. destruct (cut "/" key) as [[a b]|] eqn:E; [|done]. intros Ek. exists b.
  pose proof E as E'. apply cut_some in E' as ->. destruct (cut_first "/" a b) as (a' & b' & E' & Ha & _).
  rewrite E in E'. injection E' as <- <-. destruct a as [|c a]; [done|].
  repeat case_match; simplify_eq; done.
Qed.

(** ** Rows of other kinds *)

Definition advances : relation world := λ w w', Inv w → adv w w'.

Lemma other_steps p : Steps advances p (λ _, True) (λ kind, kind ∉ main_kinds).
Proof.
  assert (∀ key kind ns rest f v w w', NsFromKey key = Some (kind, ns, rest) → kind ∉ main_kinds →
    (∀ t k, f t !! k = if decide (k = key) then v else t !! k) → wrote p ns f w w' → advances w w') as Hw.
  { intros key kind ns rest f v w w' Hk Hn Hf Hw HI. pose proof (wrote_row _ _ _ _ _ _ _ _ _ Hk Hf Hw) as Hrow.
    destruct (NsFromKey_kind _ _ _ _ Hk) as (s & -> & Hs). assert (other_kind (kind +:+ "/" +:+ s)) as Ho by (by apply outside_key).
    split; [by eapply Inv_put_other|]. by eapply same_status_mono, put_other_status; [apply other_not_run|]. }
  assert (∀ w w', w_shards w' = w_shards w → advances w w') as Hq.
  { intros w w' E HI. apply adv_tables; [|done]. intros q ns. unfold shard_table. by rewrite E. }
  split.
  - split; [intros w HI; by apply adv_refl|]. intros w1 w2 w3 A1 A2 HI. eapply adv_trans; [by apply A1|]. apply A2, A1, HI.
  - intros w w' St HI. by apply adv_still.
  - intros key kind ns rest v w w' Hk Hn. eapply Hw; [done|done|]. intros. apply localPut_lookup.
  - intros key kind ns rest w w' Hk Hn. eapply Hw; [done|done|]. intros. apply localDel_lookup.
  - intros w w' E _ _ _. by apply Hq.
  - intros o w _. by apply Hq.
  - intros t w _ _. by apply Hq.
  - intros ns wf run t w _. by apply Hq.
  - intros k w. by apply Hq.
Qed.

Lemma advances_safe {A} (m : W A) : respects advances m → safe m.
Proof. intros Hm w HI. eapply wp_mono; [apply Hm|]. intros r w' Ha. by apply Ha. Qed.

Lemma act_other kind : kind ∈ act_kinds → kind ∉ main_kinds.
Proof. unfold act_kinds, main_kinds. set_solver. Qed.
Lemma sched_other kind : kind ∈ sched_kinds → kind ∉ main_kinds.
Proof. unfold sched_kinds, main_kinds. set_solver. Qed.
Lemma admin_other o : admin_kind o ∉ main_kinds.
Proof. destruct o; cbn; unfold main_kinds; set_solver. Qed.

Lemma serve_activity_safe p o : safe (serve_activity p o).
Proof. apply advances_safe. eapply serve_activity_resp; [apply other_steps|apply act_other]. Qed.
Lemma serve_schedule_safe p o : safe (serve_schedule p o).
Proof. apply advances_safe. eapply serve_schedule_resp; [apply other_steps|apply sched_other]. Qed.
Lemma serve_admin_safe p o : safe (serve_admin p o).
Proof. apply advances_safe. eapply serve_admin_resp; [apply other_steps|apply admin_other]. Qed.

(** ** Rows of namespaces and runs *)

(** Reading a namespace and writing it back under the same name. *)
Lemma rewrite_namespace_safe p name (f : Namespace → Namespace) :
  (∀ n, ni_Name (ns_Info (f n)) = ni_Name (ns_Info n)) →
  safe (n ← must_find (DescribeNamespace p name) (ErrUnregistered name); store_put p ("ns" +:+ "/" +:+ name) (f n);; mret (f n)).
Proof.
  intros Hf w HI. wp_step. apply wp_must_find. apply wp_get; cbn [found]; [intros; by apply adv_still|intros; by apply adv_still|].
  intros w1 j n St Hr Hj. apply wp_adv; [by apply adv_still|]. assert (Inv w1) as HI1 by (by eapply Inv_still).
  destruct (inv_ns _ w HI p name j Hr) as (n' & Hj' & Hn & Hs & Hne). rewrite Hj in Hj'. injection Hj' as <-.
  wp_step. apply wp_put; [intros; by apply adv_still|]. intros w2 k ns rest _ _ _ Hrow. wp_step. split.
  - eapply Inv_put_ns; [|done|done|exact Hrow|done]. by rewrite Hf.
  - eapply same_status_mono, put_other_status; [|exact Hrow]. apply outside_key; kinds.
Qed.

Lemma update_workflow_safe p ns wf run m : segment ns → safe (UpdateWorkflowMetadata p ns wf run m).
Proof.
  intros Hns w HI. unfold UpdateWorkflowMetadata. wp_step. apply (wp_must_describe gapless); [done|done|intros; by apply adv_still|].
  intros w1 x St Hst Hr _ _. apply wp_adv; [by apply adv_still|]. assert (Inv w1) as HI1 by (by eapply Inv_still).
  wp_step. apply keeps_use; [auto with tasks|]. intros [e|t] w2 St2; [by apply adv_tables|].
  apply wp_adv; [by apply adv_tables|]. assert (Inv w2) as HI2 by (by eapply Inv_tables).
  assert (stored w2 p ns x) as Hst2 by (by eapply stored_tables).
  wp_step. set (x' := wf_set_meta _ x). apply (wp_rewrite_run gapless _ p ns x x'); [done|done|done|done|done|done|change (HistoryLen x') with (HistoryLen x); by apply stored_events|].
  intros [e|[]] w3 HI3 S3; [|wp_step]; (split; [done|by apply same_status_mono]).
Qed.

Lemma attr_safe p ns sa : safe (AddSearchAttribute p ns sa).
Proof.
  apply safe_bind; [apply namespace_safe|intros _]. repeat (apply safe_if; [apply safe_keeps; auto with tasks|]).
  apply safe_bind; [apply safe_attempt, safe_get|intros r]. destruct (found r); [apply safe_keeps; auto with tasks|].
  apply safe_put_other, outside_key; kinds.
Qed.

Definition meta_ns (o : meta_op) : string :=
  match o with MAttr ns _ => ns | MNamespace name _ => name | MDeprecate name => name | MWorkflow ns _ _ _ => ns end.

Lemma serve_meta_safe p o : segment (meta_ns o) → safe (serve_meta p o).
Proof.
  intros Hns. destruct o; cbn [serve_meta meta_ns] in *.
  - apply attr_safe.
  - apply safe_bind; [|intros; apply safe_keeps; auto with tasks]. by apply (rewrite_namespace_safe p name (patch_namespace patch)).
  - apply safe_bind; [|intros; apply safe_keeps; auto with tasks]. by apply (rewrite_namespace_safe p name deprecate).
  - apply safe_bind; [|intros; apply safe_keeps; auto with tasks]. by apply update_workflow_safe.
Qed.

(** ** Schedules start runs *)

Lemma start_any_sound p ns wf run typ q i req sa memo pol : sound (startWorkflowFull p ns wf run typ q i req sa memo pol).
Proof.
  destruct (ValidName ns) as [e|] eqn:E; [|by apply start_sound, ValidName_segment].
  unfold startWorkflowFull, namespace. rewrite E. intros w. unfold wp, mbind, M_bind. cbn. reflexivity.
Qed.

Lemma sched_key_other ns id : other_kind (schedKey ns id).
Proof. apply outside_key; kinds. Qed.
Lemma trig_key_other ns id req : other_kind (sctrigKey ns id req).
Proof. apply outside_key; kinds. Qed.

Lemma trigger_sound p ns id req : segment ns → sound (TriggerSchedule p ns id req).
Proof.
  intros Hns. unfold TriggerSchedule, prior_trigger, DescribeSchedule, start_action. pose proof start_any_sound.
  assert (∀ A `(Codec A) q k, sound (store_get (A := A) q k)) by (intros; apply safe_sound, safe_get).
  assert (∀ wf run, sound (DescribeWorkflow p ns wf run)) by (intros; by apply safe_sound, safe_describe).
  assert (∀ i (s : Schedule), sound (store_put p (schedKey ns i) s)) by (intros; apply safe_sound, safe_put_other, sched_key_other).
  assert (∀ i r (x : ExecutionRef), sound (store_put p (sctrigKey ns i r) x)) by (intros; apply safe_sound, safe_put_other, trig_key_other).
  assert (∀ e, sound (broker_publish e)) by (intros; apply tables_sound, keeps_publish).
  assert (sound nowRFC3339) by (apply tables_sound, keeps_now).
  walk.
Qed.

Lemma fire_due_sound now d : sound (fire_due now d).
Proof.
  unfold fire_due, start_action, reportFire, unreached, disp_HasSubscribers. pose proof start_any_sound.
  assert (∀ p ns i (s : Schedule), sound (store_put p (schedKey ns i) s)) by (intros; apply safe_sound, safe_put_other, sched_key_other).
  assert (∀ k, sound (fails_fail k)) by (intros; apply tables_sound, keeps_fails_fail).
  assert (∀ k, sound (fails_ok k)) by (intros; apply tables_sound, keeps_fails_ok).
  assert (∀ l, sound (log l)) by (intros; apply tables_sound, keeps_log).
  walk.
Qed.

End Upkeep.
