(* ===== verification/PurgeSpec.v ===== *)
(** The purge, [pkg/tasks/retention.go], as a relation between worlds: a pass over
    a namespace removes the rows of terminal runs and standalone activities whose
    retention has passed, and keeps every row of every other run; the invariant of
    the run rows survives it, although it removes the history of a run before the
    run itself and may stop anywhere between. *)

From Stdlib Require Import Ascii ZArith Lia.
From stdpp Require Import prelude strings gmap.
From S2P Require Import Prelude GoStrings Json Types EngineTypes Env Principal Router Shard GoTime Temporal Dispatch Events World WorldFacts Failure Workflow Durable Commands Activities Schedules Deployments Admin Retention Frames RunInv Creates Upkeep.

(** ** Separators *)

Fixpoint slashes (s : string) : nat :=
  match s with EmptyString => 0 | String c s => (if Ascii.eqb c "/" then 1 else 0) + slashes s end.

Lemma slashes_app a b : slashes (a +:+ b) = slashes a + slashes b.
Proof.
  induction a as [|c a IH]; [done|].
  change (slashes (String c a +:+ b)) with ((if Ascii.eqb c "/" then 1 else 0) + slashes (a +:+ b)). rewrite IH. cbn [slashes]. lia.
Qed.

Lemma segment_slashes s : segment s ↔ slashes s = 0.
Proof.
  unfold segment. induction s as [|c s IH]; cbn; [done|]. destruct (Ascii.eqb c "/"); cbn; [|exact IH]. split; [done|lia].
Qed.

(** A path of three segments begins with one pair only. *)
Lemma pair_prefix a b c x y t :
  segment a → segment b → segment c → a +:+ "/" +:+ b +:+ "/" +:+ c = x +:+ "/" +:+ y +:+ "/" +:+ t → a = x ∧ b = y.
Proof.
  intros Ha Hb Hc E. pose proof (f_equal slashes E) as En. rewrite !slashes_app in En. rewrite !segment_slashes in *.
  cbn in En. rewrite Ha, Hb, Hc in En. rewrite <-segment_slashes in *.
  assert (segment x) by (apply segment_slashes; lia). assert (segment y) by (apply segment_slashes; lia).
  apply segment_inj in E as [-> E]; [|done|done]. by apply segment_inj in E as [-> _].
Qed.

(** A prefix that ends in a separator. *)
Ltac slash := rewrite <- !sapp_assoc; apply good_slash.

Section PurgeSpec.
Context `{Env} `{!SegmentRule}.
Abbreviation Inv := (RunInv.Inv false).

(** Without the gapless clause, a row may go unless it is an index entry. *)
Lemma Inv_del_row p key w w' : outside ["wfopen"] key → row_put p key None w w' → Inv w → Inv w'.
Proof.
  intros Ho Hrow [I1 I2 I3 I4 I5 I6]. pose proof Hrow as [Hr _].
  assert (∀ q k j, row w' q k = Some j → row w q k = Some j) as Hsub by (intros q k j; rewrite Hr; by case_decide).
  split.
  - intros q ns s j Hns Hj%Hsub. frame Hrow Ho. by eapply I1.
  - intros q ns s j Hns Hj%Hsub. by eapply (I2 q).
  - intros q s j Hj%Hsub. by eapply (I3 q).
  - intros q s j Hj%Hsub. by eapply (I4 q).
  - intros q s j Hj%Hsub. by eapply (I5 q).
  - done.
Qed.

(** ** What a pass may remove *)

Section Pass.
Context (p : Principal) (ns : string) (cutoff : Z) (Hns : segment ns) (Hne : ns ≠ "").

(** The row of a run or of a standalone activity that the pass may remove. *)
Inductive expired : Principal → string → json → Prop :=
| expired_run s j x : of_json j = Some x → purgeable PhaseRuns cutoff (Status x) (CloseTime x) (StartTime x) = true →
    expired p ("wf" +:+ "/" +:+ ns +:+ "/" +:+ s) j
| expired_activity s j a : of_json j = Some a → purgeable PhaseActivities cutoff (act_Status a) (act_CloseTime a) (act_StartTime a) = true →
    expired p ("act" +:+ "/" +:+ ns +:+ "/" +:+ s) j.

Lemma expired_inv q s j : expired q ("wf" +:+ "/" +:+ s) j →
  ∃ x, of_json j = Some x ∧ purgeable PhaseRuns cutoff (Status x) (CloseTime x) (StartTime x) = true.
Proof.
  intros He. remember ("wf" +:+ "/" +:+ s) as k eqn:Ek. destruct He as [s' j x Hx Hp|s' j a _ _]; [by eauto|].
  apply segment_inj in Ek as [Ek _]; done.
Qed.

(** The keys a pass must leave alone: the row of a run or activity that has not
    expired, the index entry of such a run, and its history. *)
Inductive guarded (w : world) (q : Principal) : string → Prop :=
| guarded_row kind s j : kind ∈ ["wf"; "act"] → row w q (kind +:+ "/" +:+ s) = Some j → ¬ expired q (kind +:+ "/" +:+ s) j →
    guarded w q (kind +:+ "/" +:+ s)
| guarded_open s j : row w q ("wf" +:+ "/" +:+ s) = Some j → ¬ expired q ("wf" +:+ "/" +:+ s) j → guarded w q ("wfopen" +:+ "/" +:+ s)
| guarded_event ns' wf run i j : segment ns' → segment wf → segment run → segment i →
    row w q (runKey ns' wf run) = Some j → ¬ expired q (runKey ns' wf run) j → guarded w q (histPrefix ns' wf run +:+ i).

Definition prunes : relation world := λ w w', Inv w → Inv w' ∧ ∀ q k, guarded w q k → row w' q k = row w q k.

Lemma guarded_mono w w' q k : (∀ k, guarded w q k → row w' q k = row w q k) → guarded w q k → guarded w' q k.
Proof.
  intros Hrows [kind s j Hk Hr He|s j Hr He|ns' wf run i j H1 H2 H3 H4 Hr He].
  - econstructor; [done| |done]. rewrite Hrows; [done|by econstructor].
  - econstructor; [|done]. rewrite Hrows; [done|]. eapply (guarded_row w q "wf"); [set_solver|done|done].
  - econstructor; [done|done|done|done| |done]. rewrite Hrows; [done|]. eapply (guarded_row w q "wf"); [set_solver|done|done].
Qed.

#[local] Instance prunes_pre : PreOrder prunes.
Proof.
  split; [by intros w HI|]. intros w1 w2 w3 P1 P2 HI. destruct (P1 HI) as [HI2 R1]. destruct (P2 HI2) as [HI3 R2]. split; [done|].
  intros q k Hk. rewrite R2; [by apply R1|]. eapply guarded_mono; [|exact Hk]. intros. by apply R1.
Qed.

Lemma prunes_tables w w' : same_tables w w' → prunes w w'.
Proof. intros St HI. split; [by eapply Inv_tables|]. intros q k _. by apply tables_row. Qed.
Lemma prunes_still w w' : still w w' → prunes w w'.
Proof. intros [St _]. by apply prunes_tables. Qed.

(** ** Removing one run *)

(** The row named [rowkey] is expired or gone. *)
Definition doomed (rowkey : string) (w : world) : Prop := ∀ j, row w p rowkey = Some j → expired p rowkey j.

(** A key of the run at suffix [wf/run]. *)
Inductive mine (wf run : string) : string → Prop :=
| mine_row : mine wf run (runKey ns wf run)
| mine_open : mine wf run (openKey ns wf run)
| mine_event i : mine wf run (histPrefix ns wf run +:+ i)
| mine_other kind s : segment kind → kind ∉ ["wf"; "act"; "wfopen"; "wfh"] → mine wf run (kind +:+ "/" +:+ s).

Lemma mine_inv wf run k : mine wf run k →
  runKey ns wf run = k ∨ openKey ns wf run = k ∨ (∃ i, k = (histPrefix ns wf run +:+ i)) ∨
  ∃ kind s, segment kind ∧ (kind ∉ ["wf"; "act"; "wfopen"; "wfh"]) ∧ (kind +:+ "/" +:+ s) = k.
Proof. destruct 1; naive_solver. Qed.

Lemma not_guarded_run w wf run k : doomed (runKey ns wf run) w → mine wf run k → ¬ guarded w p k.
Proof.
  intros Hd Hm Hg. destruct Hg as [kind s j Hk Hr He|s j Hr He|ns' wf' run' i j H1 H2 H3 H4 Hr He].
  - assert (segment kind) as Hs by (revert Hk; set_unfold; naive_solver). apply He. destruct (mine_inv _ _ _ Hm) as [E|[E|[[i E%symmetry]|(kind' & s' & Hs' & Hk' & E)]]].
    + rewrite <-E in *. by apply Hd.
    + apply segment_inj in E as [<- _]; [|done|done]. set_solver.
    + unfold histPrefix in E. rewrite sapp_assoc in E. apply segment_inj in E as [<- _]; [|done|done]. set_solver.
    + apply segment_inj in E as [<- _]; [|done|done]. set_solver.
  - apply He. destruct (mine_inv _ _ _ Hm) as [E|[E|[[i E%symmetry]|(kind' & s' & Hs' & Hk' & E)]]].
    + apply segment_inj in E as [E _]; done.
    + apply segment_inj in E as [_ <-]; [|done|done]. by apply Hd.
    + unfold histPrefix in E. rewrite sapp_assoc in E. apply segment_inj in E as [E _]; done.
    + apply segment_inj in E as [-> _]; [|done|done]. set_solver.
  - unfold histPrefix in Hm. rewrite !sapp_assoc in Hm. apply He. destruct (mine_inv _ _ _ Hm) as [E|[E|[[i' E%symmetry]|(kind' & s' & Hs' & Hk' & E)]]].
    + apply segment_inj in E as [E _]; done.
    + apply segment_inj in E as [E _]; done.
    + unfold histPrefix in E. rewrite !sapp_assoc in E. apply segment_inj in E as [_ E]; [|done|done].
      apply segment_inj in E as [-> E]; [|done|done]. symmetry in E. apply pair_prefix in E as [-> ->]; [|done..]. by apply Hd.
    + apply segment_inj in E as [-> _]; [|done|done]. set_solver.
Qed.

Lemma doomed_del rowkey key w w' : row_put p key None w w' → doomed rowkey w → doomed rowkey w'.
Proof. intros [Hr _] Hd j. rewrite Hr. case_decide; [done|]. apply Hd. Qed.

(** Removing one key of an expired run. *)
Lemma del_run_key wf run key w w' :
  doomed (runKey ns wf run) w → mine wf run key → row_put p key None w w' → prunes w w'.
Proof.
  intros Hd Hm Hrow HI. pose proof Hrow as [Hr _]. split.
  - destruct Hm as [| |i|kind s Hs Hk]; [| |..].
    + eapply Inv_del_row; [|exact Hrow|done]. apply (outside_key _ "wf"); kinds.
    + eapply Inv_del_open; [done| |exact Hrow|done]. intros j x Hj Hx. apply Hd in Hj.
      apply expired_inv in Hj as (x' & Hx' & Hp). rewrite Hx in Hx'. injection Hx' as <-. by apply andb_true_iff in Hp as [? _].
    + eapply Inv_del_row; [|exact Hrow|done]. unfold histPrefix. rewrite sapp_assoc. apply (outside_key _ "wfh"); kinds.
    + eapply Inv_del_row; [|exact Hrow|done]. apply outside_key; [done|]. set_solver.
  - intros q k Hg. rewrite Hr. case_decide as E; [|done]. destruct E as [-> ->]. by destruct (not_guarded_run w wf run key).
Qed.

(** Removing one key of an expired activity. *)
Lemma del_activity_key id run key w w' :
  doomed (actKey ns id run) w → key = actKey ns id run ∨ outside ["wf"; "act"; "wfopen"; "wfh"] key →
  row_put p key None w w' → prunes w w'.
Proof.
  intros Hd Hm Hrow HI. pose proof Hrow as [Hr _].
  assert (outside ["wf"; "wfopen"; "wfh"] key) as Ho.
  { destruct Hm as [->|(kind & s & -> & Hk & Hn)]; apply outside_key; [kinds|kinds|done|set_solver]. }
  split.
  - eapply Inv_del_row; [|exact Hrow|done]. destruct Ho as (kind & s & -> & ? & ?). apply outside_key; [done|set_solver].
  - intros q k Hg. rewrite Hr. case_decide as E; [|done]. destruct E as [-> ->]. exfalso.
    destruct Ho as (kind & rest & -> & Hs & Hn). remember (kind +:+ "/" +:+ rest) as k eqn:Ek.
    destruct Hg as [kind' s j Hk Hj He|s j _ _|ns' wf' run' i j _ _ _ _ _ _].
    + assert (segment kind') by (revert Hk; set_unfold; naive_solver). apply He. destruct Hm as [Hm|(kind2 & r2 & Hm & H2 & H3)].
      * rewrite Hm in *. by apply Hd.
      * rewrite Hm in Ek. apply segment_inj in Hm as [-> _]; [|done|done]. set_solver.
    + apply segment_inj in Ek as [<- _]; [set_solver|done|done].
    + unfold histPrefix in Ek. rewrite sapp_assoc in Ek. apply segment_inj in Ek as [<- _]; [set_solver|done|done].
Qed.

(** The keys a listing of a prefix returns carry the prefix. *)
Lemma wp_keys_where (Q : err + list string → world → Prop) kind s keep w :
  engine_kind kind → good_prefix (kind +:+ "/" +:+ ns +:+ "/" +:+ s) → (∀ e w', still w w' → Q (inl e) w') →
  (∀ w' l, still w w' → (∀ k, k ∈ l → ∃ t, k = ((kind +:+ "/" +:+ ns +:+ "/" +:+ s) +:+ t)) → Q (inr l) w') →
  wp (keys_where p (kind +:+ "/" +:+ ns +:+ "/" +:+ s) keep) Q w.
Proof.
  intros Hk Hg He Hq. unfold keys_where. wp_step. apply wp_list; [done|auto|]. intros w' rows St Hl. wp_step. apply Hq; [done|].
  intros k ([k' v] & -> & [_ Hin]%list_elem_of_filter)%list_elem_of_fmap. destruct Hl as (kind' & ns' & s' & E & _ & _ & _ & ->).
  apply elem_of_List in Hin as [_ Hin]; [by apply has_prefix_spec|done].
Qed.

(** A loop of deletions, each of which prunes while the row is doomed. *)
Lemma wp_delAll rowkey keys w :
  (∀ k w1 w2, k ∈ keys → doomed rowkey w1 → row_put p k None w1 w2 → prunes w1 w2) → doomed rowkey w →
  wp (delAll p keys) (λ _ w', prunes w w') w.
Proof.
  intros Hk Hd. eapply wp_mono; [apply (wp_for_each (λ w', prunes w w' ∧ doomed rowkey w'))|].
  - intros k w1 Hin [P1 D1]. apply wp_del.
    + intros e w2 St _. split; [etrans; [exact P1|by apply prunes_still]|]. intros j. rewrite (still_row w1 w2) by done. apply D1.
    + intros w2 kind n rest _ _ _ Hrow. split; [etrans; [exact P1|by eapply Hk]|by eapply doomed_del].
  - by split.
  - by intros r w' [].
Qed.

(** ** Removing a run, a page, a pass *)

(** The keys of a run that [run_keys] lists are the run's. *)
Lemma wp_run_keys (Q : err + list string → world → Prop) wf run x w :
  (∀ e w', still w w' → Q (inl e) w') → (∀ w' l, still w w' → Forall (mine wf run) l → Q (inr l) w') →
  wp (run_keys p ns wf run x) Q w.
Proof.
  intros He Hq. unfold run_keys, histPrefix, wfActPrefix.
  assert (∀ kind s t, segment kind → kind ∉ ["wf"; "act"; "wfopen"; "wfh"] →
    mine wf run ((kind +:+ "/" +:+ ns +:+ "/" +:+ s) +:+ t)) as Hother.
  { intros kind s t Hk Hn. rewrite !sapp_assoc. by apply mine_other. }
  assert (∀ kind s l, segment kind → kind ∉ ["wf"; "act"; "wfopen"; "wfh"] →
    (∀ k, k ∈ l → ∃ t, k = ((kind +:+ "/" +:+ ns +:+ "/" +:+ s) +:+ t)) → Forall (mine wf run) l) as Hall.
  { intros kind s l Hk Hn Hl. apply Forall_forall. intros k (t & ->)%Hl. by apply Hother. }
  wp_step. apply (wp_keys_where _ "wfh" (wf +:+ "/" +:+ run +:+ "/")); [by apply engine_kind_of|slash|auto|]. intros w1 l1 St1 H1.
  wp_step. apply (wp_keys_where _ "wfact" (wf +:+ "/" +:+ run +:+ "/")); [by apply engine_kind_of|slash|intros; apply He; by etrans|]. intros w2 l2 St2 H2.
  wp_step. apply (wp_keys_where _ "idem" (wf +:+ "/")); [by apply engine_kind_of|slash|intros; apply He; do 2 (etrans; [done|]); done|]. intros w3 l3 St3 H3.
  assert (still w w3) as St by (do 2 (etrans; [done|]); done).
  assert (Forall (mine wf run) (l1 ++ l2 ++ l3)) as Hl.
  { rewrite !Forall_app. split_and!; [|eapply Hall; [| |exact H2]; kinds|eapply Hall; [| |exact H3]; kinds].
    apply Forall_forall. intros k (t & ->)%H1. apply mine_event. }
  wp_step. destruct (String.eqb _ "").
  - wp_step. wp_step. apply Hq; [done|]. by rewrite app_nil_r.
  - apply (wp_keys_where _ "sctrig" (attr_string (SearchAttrs x) searchAttrScheduleID +:+ "/")); [by apply engine_kind_of|slash|intros; apply He; by etrans|].
    intros w4 l4 St4 H4. wp_step. apply Hq; [by etrans|]. rewrite !app_assoc, Forall_app. rewrite !app_assoc in Hl. split; [done|].
    eapply Hall; [| |exact H4]; kinds.
Qed.

Lemma purgeWorkflowRun_prunes ref : RunId ref ≠ "" → respects prunes (purgeWorkflowRun p ns ref cutoff).
Proof.
  intros Hr w. unfold purgeWorkflowRun, DescribeWorkflow. destruct (String.eqb_spec (RunId ref) "") as [|_]; [done|].
  wp_step. apply wp_get; [intros; by apply prunes_still|intros w' St _; wp_step; by apply prunes_still|].
  intros w1 j x St1 Hj Hx. destruct (purgeable _ _ _ _ _) eqn:Hp; cbn [negb]; [|wp_step; by apply prunes_still].
  wp_step. apply wp_run_keys; [intros e w2 St2; apply prunes_still; by etrans|]. intros w2 l St2 Hl.
  assert (still w w2) as St by (by etrans).
  wp_step. wp_step. eapply wp_mono; [apply (wp_delAll (runKey ns (WorkflowId ref) (RunId ref)))|].
  - intros k w3 w4 Hk Hd Hrow. eapply del_run_key; [exact Hd| |exact Hrow].
    apply elem_of_app in Hk as [Hk|[->|[->|[]%elem_of_nil]%elem_of_cons]%elem_of_cons]; [|constructor|constructor].
    by eapply Forall_forall in Hl.
  - intros j'. rewrite (still_row w w2) by done. rewrite Hj. intros <-%(inj Some). by eapply expired_run.
  - intros r w3 P. wp_step. etrans; [by apply prunes_still|exact P].
Qed.

Lemma purgeActivityRun_prunes ref : respects prunes (purgeActivityRun p ns ref cutoff).
Proof.
  intros w. unfold purgeActivityRun, DescribeActivity, ahistPrefix.
  wp_step. apply wp_get; [intros; by apply prunes_still|intros w' St _; wp_step; by apply prunes_still|].
  intros w1 j a St1 Hj Ha. destruct (purgeable _ _ _ _ _) eqn:Hp; cbn [negb]; [|wp_step; by apply prunes_still].
  wp_step. apply (wp_keys_where _ "ahist" (WorkflowId ref +:+ "/" +:+ RunId ref +:+ "/")); [by apply engine_kind_of|slash|intros; apply prunes_still; by etrans|].
  intros w2 l2 St2 H2. assert (still w w2) as StA by (by etrans).
  wp_step. apply (wp_keys_where _ "aidem" (WorkflowId ref +:+ "/")); [by apply engine_kind_of|slash|intros; apply prunes_still; by etrans|].
  intros w3 l3 St3 H3. assert (still w w3) as StB by (by etrans).
  wp_step. wp_step. eapply wp_mono; [apply (wp_delAll (actKey ns (WorkflowId ref) (RunId ref)))|].
  - intros k w4 w5 Hk Hd Hrow. eapply del_activity_key; [exact Hd| |exact Hrow].
    apply elem_of_app in Hk as [Hk|[Hk|[->|[]%elem_of_nil]%elem_of_cons]%elem_of_app]; [right|right|by left].
    + apply H2 in Hk as (t & ->). rewrite sapp_assoc. apply outside_key; kinds.
    + apply H3 in Hk as (t & ->). rewrite sapp_assoc. apply outside_key; kinds.
  - intros j'. rewrite (still_row w w3) by done. rewrite Hj. intros <-%(inj Some). by eapply expired_activity.
  - intros r w4 P. wp_step. etrans; [by apply prunes_still|exact P].
Qed.

Lemma prunes_intro {A} (m : W A) : (∀ w, Inv w → wp m (λ _ w', prunes w w') w) → respects prunes m.
Proof. intros Hm w. apply wp_intro. intros HI. by apply (wp_elim m _ w (Hm w HI)). Qed.

(** A page of run rows names runs. *)
Definition named (f : phase) (rows : list runRow) : Prop := f = PhaseRuns → ∀ r, r ∈ rows → RunId (rr_Execution r) ≠ "".

Lemma purge_rows_prunes f rows : ∀ purged first, named f rows → respects prunes (purge_rows f p ns cutoff rows purged first).
Proof.
  induction rows as [|r rows IH]; intros purged first Hr; cbn [purge_rows]; [apply (resp_ret prunes)|].
  assert (named f rows) as Hrows by (intros E r' Hin; apply Hr; [done|by right]).
  case_match; [by apply IH|]. apply (resp_bind prunes).
  - apply (resp_attempt prunes). destruct f; [apply purgeWorkflowRun_prunes, Hr; [done|by left]|apply purgeActivityRun_prunes].
  - intros res. destruct (match res with inl e => _ | inr x => _ end) as [gone e]. by apply IH.
Qed.

Lemma wp_page (Q : err + (list runRow * string * Z) → world → Prop) f after limit w :
  Inv w → (∀ e w', still w w' → Q (inl e) w') → (∀ w' rows last n, still w w' → named f rows → Q (inr (rows, last, n)) w') →
  wp (page p (phase_prefix ns f) after limit) Q w.
Proof.
  intros HI He Hq. unfold page. wp_step.
  assert (∃ kind, engine_kind kind ∧ phase_prefix ns f = kind +:+ "/" +:+ ns +:+ "/" +:+ "") as (kind & Hk & E).
  { destruct f; [exists "wf"|exists "act"]; (split; [by apply engine_kind_of|done]). }
  rewrite E. apply wp_store_scan; [done|done|done|auto|]. intros w1 St _. wp_step. apply Hq; [done|]. intros -> r Hr.
  apply list_elem_of_omap in Hr as ([k j] & Hin & Hj). cbn in Hj. rewrite <-E in Hin.
  apply elem_of_Scan in Hin as [Hk' Hp]; [|apply run_prefix_good]. apply has_prefix_spec in Hp as [s ->].
  cbn [phase_prefix] in Hk'. rewrite !sapp_assoc in Hk'.
  assert (row w p ("wf" +:+ "/" +:+ ns +:+ "/" +:+ s) = Some j) as Hrow by (unfold row; by rewrite NsFromKey_key).
  destruct (inv_run _ w HI _ _ _ _ Hns Hrow) as (x & Hx & _ & Hr & _).
  destruct (runRow_of_run j x Hx) as (r' & Hr' & Ex & _). rewrite Hj in Hr'. injection Hr' as <-. by rewrite Ex.
Qed.

Lemma purge_walk_prunes phases : ∀ at_ left purged first, respects prunes (purge_walk phases p ns cutoff at_ left purged first).
Proof.
  induction phases as [|f phases IH]; intros at_ left purged first; cbn [purge_walk]; [apply (resp_ret prunes)|].
  case_match; [apply (resp_ret prunes)|]. apply prunes_intro. intros w HI. wp_step. apply wp_page; [done|intros; by apply prunes_still|].
  intros w1 rows last n St Hrows. apply (wp_mono _ (λ _ w', prunes w1 w')); [|intros r w' P; etrans; [by apply prunes_still|exact P]].
  apply (resp_bind prunes); [by apply purge_rows_prunes|intros r]. case_match; [apply IH|apply (resp_ret prunes)].
Qed.

End Pass.
(** ** A pass over a namespace *)

Lemma purge_other ns : other_kind (purgeKey ns).
Proof. apply outside_key; kinds. Qed.

Lemma purge_key_prunes p ns cutoff q (v : string) : respects (prunes p ns cutoff) (store_put q (purgeKey ns) v).
Proof.
  apply prunes_intro. intros w HI. apply wp_put; [intros; by apply prunes_still|]. intros w' kind n rest _ _ _ Hrow _.
  split; [eapply Inv_put_other; [apply purge_other|exact Hrow|done]|]. intros q' k Hg. destruct Hrow as [Hr _]. rewrite Hr.
  case_decide as E; [|done]. destruct E as [-> E]. exfalso. unfold purgeKey in E. destruct Hg as [kind' s j Hk _ _|s j _ _|ns' wf run i j _ _ _ _ _ _].
  - assert (segment kind') by (revert Hk; set_unfold; naive_solver). apply segment_inj in E as [-> _]; [set_solver|done|done].
  - apply segment_inj in E as [E _]; done.
  - unfold histPrefix in E. rewrite sapp_assoc in E. apply segment_inj in E as [E _]; done.
Qed.

Lemma reclaim_prunes p ns cutoff b : respects (prunes p ns cutoff) (store_reclaim p ns b).
Proof.
  intros w. apply (wp_mono _ (λ _ w', still w w')); [|intros r w'; apply prunes_still].
  assert (PreOrder still) as Hpre by (split; [by intros ?|by intros ? ? ? ? ?; etrans]).
  assert (respects still db_op) as Hdb by (intros w'; by apply wp_db_op).
  assert (respects still (Manager_Get p ns)) as Hget by (intros w'; by apply wp_Get).
  revert w. change (respects still (store_reclaim p ns b)). unfold store_reclaim, Shard_Reclaim. walk.
Qed.

Lemma purge_prunes p n now limit keep :
  retentionOf n = Some keep → segment (ni_Name (ns_Info n)) → ni_Name (ns_Info n) ≠ "" →
  respects (prunes p (ni_Name (ns_Info n)) (now - keep)) (purge p n now limit).
Proof.
  intros Hk Hs Hne. unfold purge. rewrite Hk. cbv zeta. set (ns := ni_Name (ns_Info n)) in *. set (R := prunes p ns (now - keep)).
  pose proof (prunes_pre p ns (now - keep) Hs Hne) as Hpre. fold R in Hpre.
  assert (∀ k, respects R (store_get (A := string) p k)) by (intros k w; apply wp_get; intros; by apply prunes_still).
  assert (∀ l at_ left m e, respects R (purge_walk l p ns (now - keep) at_ left m e)) by (intros; by apply purge_walk_prunes).
  pose proof (purge_key_prunes p ns (now - keep) p). pose proof (reclaim_prunes p ns (now - keep)).
  apply (resp_bind R); [done|intros o]. apply (resp_bind R); [done|]. intros [[[at_ walked] purged] first].
  apply (resp_bind R); [case_match; [apply (resp_ret R)|done]|intros _].
  apply (resp_bind R); [by apply (resp_attempt R)|intros; apply (resp_ret R)].
Qed.

Lemma purge_sound p n now limit :
  segment (ni_Name (ns_Info n)) → ni_Name (ns_Info n) ≠ "" → respects (keeps_inv false) (purge p n now limit).
Proof.
  intros Hs Hne w. destruct (retentionOf n) as [keep|] eqn:Hk.
  - eapply wp_mono; [by eapply purge_prunes|]. intros r w' P HI. by apply P.
  - unfold purge. rewrite Hk. wp_step. by intros HI.
Qed.

End PurgeSpec.
