(* ===== verification/PurgeLive.v ===== *)
(** The purge does its work: when no operation on disk fails, an expired run goes
    with its index entry, its history and its activities, and the purge says so. *)

From Stdlib Require Import Ascii ZArith Lia.
From stdpp Require Import prelude strings gmap.
From S2P Require Import Prelude GoStrings Json Types EngineTypes Env Principal Router Shard GoTime Temporal Dispatch Events World WorldFacts Failure Workflow Durable Commands Activities Schedules Deployments Admin Retention Frames RunInv Creates Upkeep PurgeSpec.

Section PurgeLive.
Context `{Env} `{!SegmentRule} `{!NoFaults} (p : Principal) (ns : string) (Hv : ValidName ns = None).

Let Hseg : segment ns := ValidName_segment ns Hv.
Let Hne : ns ≠ "" := ValidName_not_empty ns Hv.

(** A key of the namespace. *)
Definition local (key : string) : Prop := ∃ kind rest, NsFromKey key = Some (kind, ns, rest).

Lemma local_key kind rest : engine_kind kind → local (kind +:+ "/" +:+ ns +:+ "/" +:+ rest).
Proof. intros Hk. exists kind, rest. by apply NsFromKey_key; [apply engine_plain|..]. Qed.

(** Every row under the prefix that [keep] accepts is listed. *)
Lemma wp_keys_all (Q : err + list string → world → Prop) kind s keep w :
  serves w p ns → engine_kind kind → good_prefix (kind +:+ "/" +:+ ns +:+ "/" +:+ s) →
  (∀ w' l, still w w' → Forall local l →
     (∀ t v, row w p ((kind +:+ "/" +:+ ns +:+ "/" +:+ s) +:+ t) = Some v → keep v = true → ((kind +:+ "/" +:+ ns +:+ "/" +:+ s) +:+ t) ∈ l) →
     Q (inr l) w') →
  wp (keys_where p (kind +:+ "/" +:+ ns +:+ "/" +:+ s) keep) Q w.
Proof.
  intros Hs Hk Hg Hq. unfold keys_where. wp_step. apply wp_list; [done| |].
  { intros e w' St []. split; [done|]. exists kind, ns, s. split_and!; [done|apply Hk|done|done]. }
  intros w' rows St Hl. assert (∀ k v, (k, v) ∈ rows ↔ row w p k = Some v ∧ has_prefix k (kind +:+ "/" +:+ ns +:+ "/" +:+ s) = true) as Hin.
  { intros k v. apply (elem_of_listed w p _ rows k v Hl); [done|]. intros k' s' E Hk'. apply segment_inj in E as [<- _]; [by apply engine_plain|apply Hk|done]. }
  wp_step. apply Hq; [done| |].
  - apply Forall_forall. intros k ([k' v] & -> & [_ [_ Hp]%Hin]%list_elem_of_filter)%list_elem_of_fmap.
    apply has_prefix_spec in Hp as [t E]. cbn. rewrite E, !sapp_assoc. by apply local_key.
  - intros t v Hr Hkeep. apply list_elem_of_fmap. eexists (_, v). split; [done|]. apply list_elem_of_filter. split; [done|].
    apply Hin. split; [done|]. apply has_prefix_spec. by exists t.
Qed.

(** The deletions all succeed, and delete. *)
Lemma wp_delAll_all keys : ∀ w, serves w p ns → Forall local keys →
  wp (delAll p keys) (λ r w', r = inr tt ∧ serves w' p ns ∧ (∀ k, k ∈ keys → row w' p k = None) ∧
    ∀ k, row w p k = None → row w' p k = None) w.
Proof.
  induction keys as [|k keys IH]; intros w Hs Hl; cbn [delAll for_each].
  { wp_step. split_and!; [done|done|by intros k ?%elem_of_nil|done]. }
  apply Forall_cons in Hl as [(kind & rest & Hk) Hl]. wp_step. apply wp_del.
  - intros e w' St []. split; [done|]. by exists kind, ns, rest.
  - intros w1 k' n' r' _ _ _ [Hrow Hrest]. assert (row w1 p k = None) as Hk1 by (rewrite Hrow; by rewrite decide_True).
    eapply wp_mono; [apply IH; [by eapply serves_rest|done]|]. intros r w2 (-> & Hs2 & Hgone & Hmono).
    split_and!; [done|done| |].
    + intros k2 [->|Hin]%elem_of_cons; [by apply Hmono|by apply Hgone].
    + intros k2 Hn. apply Hmono. rewrite Hrow. by case_decide.
Qed.

(** The keys of a run include its whole history and its activities. *)
Lemma wp_run_keys_all (Q : err + list string → world → Prop) wf rid x w :
  serves w p ns →
  (∀ w' l, still w w' → Forall local l →
     (∀ i v, row w p (histPrefix ns wf rid +:+ i) = Some v → (histPrefix ns wf rid +:+ i) ∈ l) →
     (∀ i v, row w p (wfActPrefix ns wf rid +:+ i) = Some v → (wfActPrefix ns wf rid +:+ i) ∈ l) → Q (inr l) w') →
  wp (run_keys p ns wf rid x) Q w.
Proof.
  intros Hs Hq. unfold run_keys, histPrefix, wfActPrefix in *. wp_step.
  apply (wp_keys_all _ "wfh" (wf +:+ "/" +:+ rid +:+ "/")); [done|by apply engine_kind_of|slash|]. intros w2 l2 St2 L2 I2.
  assert (serves w2 p ns) as Hs2 by (eapply serves_rest; [apply St2|done]).
  wp_step. apply (wp_keys_all _ "wfact" (wf +:+ "/" +:+ rid +:+ "/")); [done|by apply engine_kind_of|slash|]. intros w3 l3 St3 L3 I3.
  assert (serves w3 p ns) as Hs3 by (eapply serves_rest; [apply St3|done]).
  wp_step. apply (wp_keys_all _ "idem" (wf +:+ "/")); [done|by apply engine_kind_of|slash|]. intros w4 l4 St4 L4 _.
  assert (serves w4 p ns) as Hs4 by (eapply serves_rest; [apply St4|done]).
  assert (still w w4) as St by (do 2 (etrans; [done|]); done).
  cut (∀ l5 w5, still w w5 → Forall local l5 → Q (inr (l2 ++ l3 ++ l4 ++ l5)) w5).
  { intros Hdone. wp_step. case_match.
    - wp_step. wp_step. by apply Hdone.
    - apply (wp_keys_all _ "sctrig" (attr_string (SearchAttrs x) searchAttrScheduleID +:+ "/")); [done|by apply engine_kind_of|slash|].
      intros w5 l5 St5 L5 _. wp_step. apply Hdone; [by etrans|done]. }
  intros l5 w5 St5 L5. apply Hq; [done|by rewrite !Forall_app| |].
  - intros i v Hi. apply elem_of_app; left. by eapply I2.
  - intros i v Hi. apply elem_of_app; right. apply elem_of_app; left. eapply I3; [|done]. by rewrite (still_row w w2).
Qed.

(** (C23) An expired run is removed, whole: when no operation on disk fails and the
    store serves the namespace, purging a run whose row says it is terminal and past
    the cutoff reports it gone, and leaves neither its row, its index entry, an
    event of its history nor a record of its activities. *)
Theorem purge_removes_run wf rid j x cutoff w :
  serves w p ns → rid ≠ "" → row w p (runKey ns wf rid) = Some j → of_json j = Some x →
  purgeable PhaseRuns cutoff (Status x) (CloseTime x) (StartTime x) = true →
  let '(w', r) := purgeWorkflowRun p ns {| WorkflowId := wf; RunId := rid |} cutoff w in
  r = inr (true, None) ∧ row w' p (runKey ns wf rid) = None ∧ row w' p (openKey ns wf rid) = None ∧
  (∀ i, row w' p (histPrefix ns wf rid +:+ i) = None) ∧ (∀ i, row w' p (wfActPrefix ns wf rid +:+ i) = None).
Proof.
  intros Hs Hr Hj Hx Hp. cut (wp (purgeWorkflowRun p ns {| WorkflowId := wf; RunId := rid |} cutoff)
    (λ r w', r = inr (true, None) ∧ row w' p (runKey ns wf rid) = None ∧ row w' p (openKey ns wf rid) = None ∧
      (∀ i, row w' p (histPrefix ns wf rid +:+ i) = None) ∧ (∀ i, row w' p (wfActPrefix ns wf rid +:+ i) = None)) w); [done|].
  unfold purgeWorkflowRun, DescribeWorkflow. cbn [WorkflowId RunId]. destruct (String.eqb_spec rid "") as [|_]; [done|].
  wp_step. apply wp_get.
  { intros e w1 St [[]|(j' & Hj' & Hx')]; [|congruence]. split; [done|]. exists "wf", ns, (wf +:+ "/" +:+ rid).
    split; [by apply NsFromKey_key|done]. }
  { intros w1 St Hn. congruence. }
  intros w1 j' x' St1 Hj' Hx'. assert (x' = x) as -> by congruence. rewrite Hp. cbn [negb].
  assert (serves w1 p ns) as Hs1 by (eapply serves_rest; [apply St1|done]).
  wp_step. apply wp_run_keys_all; [done|]. intros w2 l St2 Hl Ih Ia. wp_step. wp_step. eapply wp_mono; [apply wp_delAll_all|].
  - eapply serves_rest; [apply St2|done].
  - rewrite Forall_app. split; [done|]. repeat constructor; by apply local_key, engine_kind_of.
  - intros r w3 (-> & _ & Hgone & Hmono). wp_step. split_and!; [done|apply Hgone; set_solver|apply Hgone; set_solver| |]; intros i.
    + destruct (row w2 p (histPrefix ns wf rid +:+ i)) as [v|] eqn:Ei; [|by apply Hmono]. apply Hgone, elem_of_app. left.
      apply (Ih i v). by rewrite <-(still_row w1 w2).
    + destruct (row w2 p (wfActPrefix ns wf rid +:+ i)) as [v|] eqn:Ei; [|by apply Hmono]. apply Hgone, elem_of_app. left.
      apply (Ia i v). by rewrite <-(still_row w1 w2).
Qed.

End PurgeLive.
