(* ===== verification/Reach.v ===== *)
(** The system as a whole: requests of tenants, answers of workers, timers, the
    sweep of cancellations, subscriptions and restarts, in any order and with any
    schedule of storage failures. The invariant of the run rows holds in every
    world it can reach, a request touches the rows of its own tenant only, and a
    task token answers for the tenant it was minted for. *)

From Stdlib Require Import Ascii ZArith Lia.
From stdpp Require Import prelude strings gmap.
From S2P Require Import Prelude GoStrings Json Types EngineTypes Env Principal Router Shard GoTime Temporal Dispatch Events World WorldFacts Failure Workflow Durable Commands Activities Schedules Deployments Admin Retention Frames RunInv Creates Upkeep PurgeSpec.

Section Reach.
Context `{Env} `{!SegmentRule} (gapless : bool).
Abbreviation Inv := (RunInv.Inv gapless).
Abbreviation safe := (RunInv.safe gapless).
Abbreviation adv := (RunInv.adv gapless).
Abbreviation keeps_inv := (Creates.keeps_inv gapless).
Abbreviation sound m := (respects keeps_inv m).
#[local] Existing Instance keeps_inv_pre.

(** ** What memory holds between requests *)

(** Every row is in the shard its key names. *)
Definition placed (w : world) : Prop :=
  ∀ p ns k v, shard_table p ns w !! k = Some v → ∃ kind rest, NsFromKey k = Some (kind, ns, rest).

Record held (w : world) : Prop := {
  h_placed : placed w;
  h_tokens : tokens_in (λ _, segment) (w_disp w);
  h_timers : Forall (λ t, segment (rt_ns t)) (w_timers w);
  h_cancel k : is_Some (w_cancelling w !! k) → ∃ ns wf run, k = wfKey ns wf run ∧ segment ns
}.

Definition keeps_held : relation world := λ w w', held w → held w'.

Lemma held_same w w' :
  same_tables w w' → w_disp w' = w_disp w → w_timers w' = w_timers w → w_cancelling w' = w_cancelling w → keeps_held w w'.
Proof.
  intros E1 E2 E3 E4 [P1 P2 P3 P4]. split; [|by rewrite E2|by rewrite E3|by rewrite E4].
  intros p ns k v. rewrite E1. apply P1.
Qed.

Lemma placed_wrote p ns f key kind rest w w' :
  NsFromKey key = Some (kind, ns, rest) → (∀ t k v, f t !! k = Some v → k = key ∨ t !! k = Some v) →
  wrote p ns f w w' → placed w → placed w'.
Proof.
  intros Hk Hf [Hw _] Hp q m k v. rewrite Hw. case_decide as E; [|apply Hp]. injection E as -> ->.
  intros [->|Hv]%Hf; [by exists kind, rest|by eapply Hp].
Qed.

Lemma held_wrote p ns f key kind rest w w' :
  NsFromKey key = Some (kind, ns, rest) → (∀ t k v, f t !! k = Some v → k = key ∨ t !! k = Some v) →
  wrote p ns f w w' → keeps_held w w'.
Proof.
  intros Hk Hf Hw [P1 P2 P3 P4]. pose proof Hw as [_ (_ & Ed & _ & _ & Ec & _ & _ & Et & _)].
  split; [by eapply placed_wrote|by rewrite Ed|by rewrite Et|by rewrite Ec].
Qed.

Lemma held_steps p : Steps keeps_held p segment (λ _, True).
Proof.
  split.
  - unfold keeps_held. split; [by intros w ?|]. intros w1 w2 w3 H1 H2 Hh. auto.
  - intros w w' [St (_ & Ed & _ & _ & Ec & _ & _ & Et & _)]. by apply held_same.
  - intros key kind ns rest v w w' Hk _. apply (held_wrote p ns _ key kind rest); [done|]. intros t k v'.
    rewrite localPut_lookup. case_decide; auto.
  - intros key kind ns rest w w' Hk _. apply (held_wrote p ns _ key kind rest); [done|]. intros t k v'.
    rewrite localDel_lookup. case_decide; auto.
  - intros w w' Es Ed Et Ec. apply held_same; [|done..]. intros q m. unfold shard_table. by rewrite Es.
  - intros o w Hm [P1 P2 P3 P4]. split; [done| |done|done]. apply dstep_tokens; [|done]. destruct o; cbn in *; tauto.
  - intros t w _ Hns [P1 P2 P3 P4]. split; [done|done| |done]. cbn. apply Forall_app. split; [done|]. by apply Forall_singleton.
  - intros ns wf run t w Hns [P1 P2 P3 P4]. split; [done|done|done|]. cbn. intros k.
    rewrite lookup_insert_is_Some'. intros [<-|Hk]; [by exists ns, wf, run|by apply P4].
  - intros k w [P1 P2 P3 P4]. split; [done|done|done|]. cbn. intros k' Hk. apply P4. rewrite lookup_delete_is_Some in Hk. tauto.
Qed.

(** *** The sweep of cancellations *)

Lemma sweep_key ns wf run a l : segment ns → str_split_n "|" (wfKey ns wf run) 3 = a :: l → segment a.
Proof.
  intros Hns. unfold str_split_n, wfKey. cbn [pred str_split_go].
  destruct (cut_prefix "|" ns (wf +:+ "|" +:+ run)) as (a' & b & t & E & ->).
  change ((a' +:+ t) +:+ "|" +:+ wf +:+ "|" +:+ run) with ((a' +:+ t) +:+ String "|" (wf +:+ "|" +:+ run)).
  rewrite E. intros [= <- _]. by apply segment_app in Hns as [? _].
Qed.

Lemma sweep_spec p w : held w → Inv w → wp (sweepCanceling p) (λ _ w', adv w w') w.
Proof.
  intros Hh HI. unfold sweepCanceling. wp_step. unfold time_now, wp at 1. cbv beta iota zeta. set (w1 := with_counters _ _ _ w).
  assert (adv w w1) as A1 by (by apply adv_tables). wp_step. wp_step. apply wp_adv; [exact A1|].
  apply safe_for_each; [|apply A1].
  intros k Hk. apply list_elem_of_fmap in Hk as ([k' t] & -> & Hk). apply list_elem_of_filter in Hk as [_ Hk].
  apply elem_of_map_to_list in Hk. destruct (h_cancel w Hh k') as (ns & wf & run & -> & Hns); [eauto|].
  cbn [fst]. destruct (str_split_n "|" (wfKey ns wf run) 3) as [|a [|b [|c [|]]]] eqn:E;
    try by apply safe_keeps, keeps_modify.
  apply safe_ignore, AckCanceled_safe. by eapply sweep_key.
Qed.

(** *** Listing the namespaces of a tenant *)

Lemma wp_scan_shards (Q : err + list (string * json) → world → Prop) p prefix l : ∀ w,
  (∀ e w', still w w' → Q (inl e) w') →
  (∀ w' rows, still w w' → (∀ k v, (k, v) ∈ rows → ∃ ns, (k, v) ∈ Scan prefix "" 0 (shard_table p ns w)) → Q (inr rows) w') →
  wp (scan_shards p prefix l) Q w.
Proof.
  revert Q. induction l as [|ns l IH]; intros Q w He Hq; cbn [scan_shards].
  { wp_step. apply Hq; [done|]. by intros k v ?%elem_of_nil. }
  wp_step. unfold Shard_Scan. wp_step. apply wp_db_op; [by eauto|]. intros w1 St1 _. wp_step. wp_step.
  apply IH; [intros; apply He; by etrans|]. intros w2 rest St2 Hrest. wp_step. apply Hq; [by etrans|].
  intros k v [Hin|Hin]%elem_of_app.
  - exists ns. destruct St1 as [St1 _]. by rewrite <- St1.
  - destruct (Hrest k v Hin) as [ns' Hin']. exists ns'. destruct St1 as [St1 _]. by rewrite <- St1.
Qed.

Lemma wp_ListShards (Q : err + list string → world → Prop) p w :
  (∀ r w', still w w' → Q r w') → wp (ListShards p) Q w.
Proof.
  intros HQ. unfold ListShards. wp_step. wp_step. wp_step. eapply wp_mono; [apply (wp_for_each (λ w', still w w'))|].
  - intros ns w1 _ St. apply wp_Get; intros; by etrans.
  - done.
  - intros [e|[]] w1 St; [by apply HQ|]. wp_step. by apply HQ.
Qed.

(** A namespace row in a shard is named by a segment. *)
Lemma shard_namespace p ns k j n w :
  Inv w → placed w → (k, j) ∈ Scan ("ns" +:+ "/") "" 0 (shard_table p ns w) → of_json j = Some n →
  segment (ni_Name (ns_Info n)) ∧ ni_Name (ns_Info n) ≠ "".
Proof.
  intros HI Hp Hs Hj. apply elem_of_Scan in Hs as [Hs Hpre]; [|by apply (good_slash "ns")].
  destruct (Hp p ns k j Hs) as (kind & rest & E). apply has_prefix_spec in Hpre as [s ->].
  destruct (inv_ns _ w HI p s j) as (n' & Hn' & Hname & Hseg & Hne).
  { unfold row. by rewrite sapp_assoc in E, Hs; rewrite E. }
  rewrite Hj in Hn'. injection Hn' as <-. by rewrite Hname.
Qed.

Lemma wp_ListNamespaces (Q : err + list Namespace → world → Prop) p w :
  Inv w → placed w → (∀ e w', still w w' → Q (inl e) w') →
  (∀ w' l, still w w' → (∀ n, n ∈ l → segment (ni_Name (ns_Info n)) ∧ ni_Name (ns_Info n) ≠ "") → Q (inr l) w') →
  wp (ListNamespaces p) Q w.
Proof.
  intros HI Hp He Hq. unfold ListNamespaces, listInto. wp_step. unfold store_list.
  change (IsCrossNamespacePrefix ("ns" +:+ "/")) with true. cbv iota. wp_step. apply wp_ListShards.
  intros [e|names] w1 St1; [by apply He|]. apply wp_scan_shards; [intros; apply He; by etrans|].
  intros w2 rows St2 Hrows. destruct (mapM _ rows) as [l|] eqn:Hm; wp_step; [|apply He; by etrans].
  apply Hq; [by etrans|]. intros n Hn. apply mapM_Some in Hm. apply list_elem_of_lookup in Hn as [i Hi].
  destruct (Forall2_lookup_r _ _ _ _ _ Hm Hi) as ([k j] & Hk & Hj). cbn in Hj. apply list_elem_of_lookup_2 in Hk.
  destruct (Hrows k j Hk) as [ns Hs]. destruct St1 as [St1 _]. rewrite St1 in Hs. by eapply shard_namespace.
Qed.

Lemma Recover_safe p w : Inv w → placed w → wp (Recover p) (λ _ w', adv w w') w.
Proof.
  intros HI Hp. unfold Recover. wp_step. apply wp_ListNamespaces; [done|done|intros; by apply adv_still|].
  intros w1 l St Hl. apply wp_adv; [by apply adv_still|]. apply safe_for_each; [|by eapply Inv_still].
  intros n Hn. apply recover_namespace_safe; by apply Hl.
Qed.

Lemma Recover_held p w : Inv w → held w → wp (Recover p) (λ _ w', held w') w.
Proof.
  intros HI Hh. unfold Recover. wp_step. pose proof (st_still _ _ _ _ (held_steps p)) as Hst.
  apply wp_ListNamespaces; [done|apply Hh|intros; by eapply Hst|].
  intros w1 l St Hl. pose proof (st_pre _ _ _ _ (held_steps p)) as Hpre.
  eapply wp_mono; [apply (resp_for_each keeps_held)|].
  - intros n Hn. apply (resp_recover_namespace _ _ _ _ (held_steps p) (λ _ _, I)). by apply Hl.
  - intros r w2 Hw. apply Hw. by eapply Hst.
Qed.

(** ** Transitions of the system *)

(** What a tenant can ask for. *)
Inductive request :=
| RRegister (n : Namespace)
| RStart (ns wf run : string) (typ : TypeRef) (queue : string) (input : json) (req : string) (sa : gmap string json) (memo : json) (policy : string)
| RSignal (ns wf run name : string) (payload : json) (identity : string)
| RSignalWithStart (ns wf run : string) (typ : TypeRef) (queue : string) (input : json) (name : string) (payload : json) (req : string) (sa : gmap string json) (memo : json)
| RTerminate (ns wf run reason identity : string)
| RCancel (ns wf run reason identity : string)
| RReset (ns wf run : string) (event : Z) (reason identity : string)
| RQuery (ns wf run ty : string) (args : json)
| RTrigger (ns id req : string)
| RActivity (o : activity_op)
| RSchedule (o : schedule_op)
| RAdmin (o : admin_op)
| RMeta (o : meta_op).

(** The namespace whose runs a request reaches; the other requests touch none. *)
Definition request_ns (r : request) : string :=
  match r with
  | RRegister n => ni_Name (ns_Info n)
  | RStart ns _ _ _ _ _ _ _ _ _ | RSignal ns _ _ _ _ _ | RSignalWithStart ns _ _ _ _ _ _ _ _ _ _ | RTerminate ns _ _ _ _
  | RCancel ns _ _ _ _ | RReset ns _ _ _ _ _ | RQuery ns _ _ _ _ | RTrigger ns _ _ => ns
  | RMeta o => meta_ns o
  | RActivity _ | RSchedule _ | RAdmin _ => ""
  end.

Definition serve (p : Principal) (r : request) : W unit :=
  match r with
  | RRegister n => RegisterNamespace p n
  | RStart ns wf run typ q i req sa memo pol => startWorkflowFull p ns wf run typ q i req sa memo pol;; mret tt
  | RSignal ns wf run name payload i => signalWorkflow p ns wf run name payload i
  | RSignalWithStart ns wf run typ q i name payload req sa memo => signalWithStartFull p ns wf run typ q i name payload req sa memo;; mret tt
  | RTerminate ns wf run r i => TerminateWorkflowWithReason p ns wf run r i;; mret tt
  | RCancel ns wf run r i => CancelWorkflowWithReason p ns wf run r i;; mret tt
  | RReset ns wf run ev r i => ResetWorkflow p ns wf run ev r i;; mret tt
  | RQuery ns wf run ty args => QueryWorkflow_begin p ns wf run ty args;; mret tt
  | RTrigger ns id req => TriggerSchedule p ns id req;; mret tt
  | RActivity o => serve_activity p o
  | RSchedule o => serve_schedule p o
  | RAdmin o => serve_admin p o
  | RMeta o => serve_meta p o
  end.

(** One transition: a request, a worker's answer, the end of a wait for a query,
    the firing of a timer, the sweep of cancellations, a tick of the scheduler, a
    purge, a worker coming or going, the recovery of
    a tenant, a restart of the process. *)
Inductive label :=
| LRequest (p : Principal) (r : request)
| LWorkflowDone (token : string) (cmds : list command)
| LActivityDone (token : string) (result failure : raw)
| LQueryEnd (token : string) (ch : nat)
| LTimer (i : nat)
| LSweep (p : Principal)
| LTick (p : Principal)
| LPurge (now : Z)
| LWorker (o : dop)
| LRecover (p : Principal)
| LRestart (wired : bool).

Definition worker_op (o : dop) : Prop :=
  match o with
  | OpSubscribe _ _ _ _ _ | OpUnsubscribe _ | OpRemovePeer _ | OpCompleteQuery _ _ _ => True
  | _ => False
  end.

Definition is_reset (r : request) : bool := match r with RReset _ _ _ _ _ _ => true | _ => false end.

(** A request names a namespace, not a path, where its rows matter to the runs; a
    gapless system serves no reset and purges nothing. *)
Definition label_ok (l : label) : Prop :=
  match l with
  | LRequest _ r => segment (request_ns r) ∧ gapless && is_reset r = false
  | LWorker o => worker_op o
  | LPurge _ => gapless = false
  | _ => True
  end.

Definition next (l : label) (w : world) : world :=
  match l with
  | LRequest p r => (serve p r w).1
  | LWorkflowDone token cmds => (respondWorkflowHandler token cmds w).1
  | LActivityDone token result failure => (respond_activity token result failure w).1
  | LQueryEnd token ch => (QueryWorkflow_end token ch w).1
  | LTimer i => match w_timers w !! i with
                | Some t => (fire_retry t (with_timers (delete i (w_timers w)) w)).1
                | None => w
                end
  | LSweep p => (sweepCanceling p w).1
  | LTick p => (sweepOnce p w).1
  | LPurge now => (purgeOnce now w).1
  | LWorker o => with_disp (dstep (w_disp w) o) w
  | LRecover p => (Recover p w).1
  | LRestart wired => restart wired w
  end.

Definition run (wired : bool) (ls : list label) : world := foldl (λ w l, next l w) (new_world wired) ls.

Lemma wp_next {A} (m : W A) (Q : world → Prop) w : wp m (λ _, Q) w → Q (m w).1.
Proof. intros Hm. apply (wp_elim m _ w Hm). Qed.

Lemma query_safe p ns wf run ty args : segment ns → safe (QueryWorkflow_begin p ns wf run ty args).
Proof.
  intros Hns. apply safe_bind; [by apply safe_must_find|intros x]. repeat (apply safe_if; [apply safe_keeps; auto with tasks|]).
  do 3 (apply safe_bind; [apply safe_keeps; auto with tasks|intros ?]).
  apply safe_bind; [apply safe_keeps|intros r; destruct r as [|[? ?]]; apply safe_keeps; auto with tasks].
  intros w. unfold wp. by destruct (PushQuery _ _ _ _ _ _ _ _ _ _).
Qed.

Lemma serve_sound p r : segment (request_ns r) → gapless && is_reset r = false → sound (serve p r).
Proof.
  intros Hns HG. destruct r; cbn [serve request_ns] in *.
  - by apply RegisterNamespace_sound.
  - by apply (resp_then keeps_inv), start_sound.
  - by apply safe_sound, signal_safe.
  - by apply (resp_then keeps_inv), signalWithStart_sound.
  - by apply (resp_then keeps_inv), safe_sound, terminalTransition_safe.
  - by apply (resp_then keeps_inv), safe_sound, CancelWorkflow_safe.
  - cbn in HG. rewrite andb_true_r in HG. by apply (resp_then keeps_inv), reset_sound.
  - by apply (resp_then keeps_inv), safe_sound, query_safe.
  - by apply (resp_then keeps_inv), trigger_sound.
  - apply safe_sound, serve_activity_safe.
  - apply safe_sound, serve_schedule_safe.
  - apply safe_sound, serve_admin_safe.
  - by apply safe_sound, serve_meta_safe.
Qed.

Lemma serve_resp R p P r :
  Steps R p P (λ _, True) → (∀ ns, ValidName ns = None → P ns) → P (request_ns r) → respects R (serve p r).
Proof.
  intros HR HV Hns. pose proof (st_pre _ _ _ _ HR). assert (∀ (l : list string) kind, kind ∈ l → True) as HK by done.
  destruct r; cbn [serve request_ns] in *.
  - by apply (resp_RegisterNamespace R p P _ HR (HK _)).
  - by apply (resp_then R), (resp_start R p P _ HR (HK _)).
  - by apply (resp_signal R p P _ HR (HK _)).
  - by apply (resp_then R), (resp_signalWithStart R p P _ HR (HK _)).
  - by apply (resp_then R), (resp_terminal R p P _ HR (HK _)).
  - by apply (resp_then R), (resp_CancelWorkflow R p P _ HR (HK _)).
  - by apply (resp_then R), (resp_reset R p P _ HR (HK _)).
  - by apply (resp_then R), (resp_query R p P _ HR).
  - by apply (resp_then R), (resp_TriggerSchedule R p P _ HR (HK _) (HK _)).
  - by apply (serve_activity_resp R p P _ HR).
  - by apply (serve_schedule_resp R p P _ HR).
  - by apply (serve_admin_resp R p P _ HR).
  - by apply (serve_meta_resp R p P _ HR).
Qed.

(** An answer either names no task, or runs as the tenant of the task it consumes. *)
Lemma wp_respond_wf (Q : err + ack → world → Prop) token cmds w :
  (d_wfByToken (w_disp w) !! token = None → Q (inr ack_not_found) w) →
  (∀ t, d_wfByToken (w_disp w) !! token = Some t →
     wp (for_each (apply_command t) cmds;; mret ack_ok) Q (with_disp (dstep (w_disp w) (OpCompleteWF token)) w)) →
  wp (respondWorkflowHandler token cmds) Q w.
Proof.
  intros Hn Hs. unfold respondWorkflowHandler. wp_step. unfold wp at 1. cbn [dstep] in Hs. unfold CompleteWorkflowTask in *.
  destruct (d_wfByToken (w_disp w) !! token) as [t|]; [by apply Hs|]. wp_step. assert (with_disp (w_disp w) w = w) as -> by (by destruct w). by apply Hn.
Qed.

Lemma wp_respond_act (Q : err + ack → world → Prop) token res fail w :
  (d_actByToken (w_disp w) !! token = None → Q (inr ack_not_found) w) →
  (∀ t, d_actByToken (w_disp w) !! token = Some t →
     wp (completeWorkflowActivity (at_principal t) (at_ns t) (at_workflowID t) (at_runID t) (at_seq t) res fail)
       (λ _ w', ∀ a, Q (inr a) w') (with_disp (dstep (w_disp w) (OpResolveAct token)) w)) →
  wp (respond_activity token res fail) Q w.
Proof.
  intros Hn Hs. unfold respond_activity. wp_step. unfold wp at 1. cbn [dstep] in Hs. unfold ResolveActivityToken in *.
  destruct (d_actByToken (w_disp w) !! token) as [t|].
  - wp_step. wp_step. eapply wp_mono; [by apply Hs|]. intros r w' HQ. wp_step. apply HQ.
  - wp_step. assert (with_disp (w_disp w) w = w) as -> by (by destruct w). by apply Hn.
Qed.

Definition Sys (w : world) : Prop := Inv w ∧ held w.

Lemma keeps_held_use {A} (m : W A) w : respects keeps_held m → held w → wp m (λ _ w', held w') w.
Proof. intros Hm Hh. eapply wp_mono; [apply Hm|]. intros r w' Hw. by apply Hw. Qed.

Lemma disp_inv w d : Inv w → Inv (with_disp d w).
Proof. by apply Inv_ext. Qed.

Lemma workflow_done_sys token cmds w : Sys w → wp (respondWorkflowHandler token cmds) (λ _, Sys) w.
Proof.
  intros [HI Hh]. apply wp_respond_wf; [done|]. intros t Ht.
  assert (segment (wt_ns t)) as Hns by (by apply (proj1 (h_tokens w Hh) _ _ Ht)).
  pose proof (st_disp _ _ _ _ (held_steps (wt_principal t)) (OpCompleteWF token) w I Hh) as Hh1.
  pose proof (st_pre _ _ _ _ (held_steps (wt_principal t))). apply wp_and.
  - apply (sound_use gapless); [|by apply disp_inv|done]. apply (resp_bind keeps_inv); [|intros; apply (resp_ret keeps_inv)].
    apply (resp_for_each keeps_inv). intros c _. by apply command_sound.
  - eapply keeps_held_use; [|done]. apply (resp_bind keeps_held); [|intros; apply (resp_ret keeps_held)].
    apply (resp_for_each keeps_held). intros c _. by apply (resp_command _ _ _ _ (held_steps (wt_principal t)) (λ _ _, I)).
Qed.

Lemma activity_done_sys token res fail w : Sys w → wp (respond_activity token res fail) (λ _, Sys) w.
Proof.
  intros [HI Hh]. apply wp_respond_act; [done|]. intros t Ht.
  assert (segment (at_ns t)) as Hns by (by apply (proj2 (h_tokens w Hh) _ _ Ht)).
  pose proof (st_disp _ _ _ _ (held_steps (at_principal t)) (OpResolveAct token) w I Hh) as Hh1.
  eapply wp_mono; [apply wp_and|].
  - apply (sound_use gapless); [apply safe_sound; by apply completeWorkflowActivity_safe|by apply disp_inv|]. intros r w' HI'. exact HI'.
  - eapply keeps_held_use; [|done]. by apply (resp_complete _ _ _ _ (held_steps (at_principal t)) (λ _ _, I)).
  - intros r w' [HI' Hh'] a. by split.
Qed.

Lemma query_end_sys token ch w : Sys w → wp (QueryWorkflow_end token ch) (λ _, Sys) w.
Proof.
  intros [HI Hh]. unfold QueryWorkflow_end. wp_step. wp_step. destruct (d_chans (w_disp w) !! ch) as [res|].
  - case_match; [wp_step; by split|]. case_match; wp_step; by split.
  - wp_step. wp_step. wp_step. split; [by apply disp_inv|].
    by apply (st_disp _ _ _ _ (held_steps (Build_Principal "" "" "")) (OpCancelQuery token) w I).
Qed.

Lemma timer_sys t i w : Sys w → w_timers w !! i = Some t →
  wp (fire_retry t) (λ _, Sys) (with_timers (delete i (w_timers w)) w).
Proof.
  intros [HI [P1 P2 P3 P4]] Hi. assert (segment (rt_ns t)) as Hns by (by eapply (Forall_lookup_1 _ _ _ _ P3)).
  apply wp_and.
  - apply (sound_use gapless); [apply safe_sound; by apply fire_retry_safe|by eapply Inv_ext; [|exact HI]|done].
  - eapply keeps_held_use; [by apply (resp_fire _ _ _ _ (held_steps (rt_principal t)) (λ _ _, I))|].
    split; [done|done| |done]. cbn. by apply Forall_delete.
Qed.

(** ** The scheduler and the purge *)

(** Rows of every tenant, as the shards hold them. *)
Definition in_shards (prefix : string) (w : world) (rows : list (Principal * (string * json))) : Prop :=
  ∀ q k v, (q, (k, v)) ∈ rows → ∃ ns, (k, v) ∈ Scan prefix "" 0 (shard_table q ns w).

Lemma in_shards_still prefix w w' rows : still w w' → in_shards prefix w' rows → in_shards prefix w rows.
Proof. intros [St _] Hin q k v Hr. destruct (Hin q k v Hr) as [ns Hs]. exists ns. by rewrite <-St. Qed.
Lemma in_shards_app prefix w l1 l2 : in_shards prefix w l1 → in_shards prefix w l2 → in_shards prefix w (l1 ++ l2).
Proof. intros H1 H2 q k v [?|?]%elem_of_app; [by apply H1|by apply H2]. Qed.
Lemma in_shards_nil prefix w : in_shards prefix w [].
Proof. by intros q k v ?%elem_of_nil. Qed.

Lemma wp_scan_tenant (Q : err + (list (Principal * (string * json)) * option err) → world → Prop) p prefix names w :
  (∀ w' rows e, still w w' → in_shards prefix w rows → Q (inr (rows, e)) w') → wp (scan_tenant p prefix names) Q w.
Proof.
  revert Q w. induction names as [|ns names IH]; intros Q w HQ; cbn [scan_tenant]; [wp_step; apply HQ; [done|apply in_shards_nil]|].
  wp_step. wp_step. unfold Shard_Scan. wp_step. apply wp_db_op; [intros; wp_step; apply HQ; [done|apply in_shards_nil]|].
  intros w1 St1 _. wp_step. wp_step. apply IH. intros w2 rows e St2 Hin. wp_step. apply HQ; [by etrans|].
  apply (in_shards_still _ _ w1); [done|]. apply in_shards_app; [|done].
  intros q k v ([k' v'] & [= -> -> ->] & Hr)%list_elem_of_fmap. by exists ns.
Qed.

Lemma wp_scan_tenants (Q : err + (list (Principal * (string * json)) * option err) → world → Prop) prefix l w :
  (∀ w' rows e, still w w' → in_shards prefix w rows → Q (inr (rows, e)) w') → wp (scan_tenants prefix l) Q w.
Proof.
  revert Q w. induction l as [|p l IH]; intros Q w HQ; cbn [scan_tenants]; [wp_step; apply HQ; [done|apply in_shards_nil]|].
  wp_step. wp_step. apply wp_ListShards. intros [e|names] w1 St1; [wp_step; apply HQ; [done|apply in_shards_nil]|].
  wp_step. apply wp_scan_tenant. intros w2 rows [e|] St2 Hin2; apply (in_shards_still _ _ _ _ St1) in Hin2.
  { wp_step. apply HQ; [by etrans|done]. }
  assert (still w w2) as St by (by etrans).
  wp_step. apply IH. intros w3 rows3 e St3 Hin3. wp_step. apply HQ; [by etrans|]. apply in_shards_app; [done|].
  by apply (in_shards_still _ _ _ _ St).
Qed.

Lemma wp_everyTenant (Q : err + (list (Principal * (string * json)) * option err) → world → Prop) prefix w :
  (∀ w' rows e, still w w' → in_shards prefix w rows → Q (inr (rows, e)) w') → wp (listEveryTenant prefix) Q w.
Proof.
  intros HQ. unfold listEveryTenant, ListPrincipals. wp_step. wp_step. wp_step.
  apply wp_db_op; [intros; wp_step; apply HQ; [done|apply in_shards_nil]|]. intros w1 St _. wp_step.
  apply wp_scan_tenants. intros w2 rows e St2 Hin. apply HQ; [by etrans|by apply (in_shards_still _ _ _ _ St)].
Qed.

Definition keeps_sys : relation world := λ w w', Sys w → Sys w'.
#[local] Instance keeps_sys_pre : PreOrder keeps_sys.
Proof. unfold keeps_sys. split; [by intros w ?|]. intros w1 w2 w3 H1 H2 HS. auto. Qed.

Lemma sys_of {A} (m : W A) : sound m → respects keeps_held m → respects keeps_sys m.
Proof.
  intros Hs Hh w. apply wp_intro. intros [HI Hd]. apply (wp_elim m (λ _ w', Sys w') w). apply wp_and.
  - by apply (sound_use gapless).
  - by apply keeps_held_use.
Qed.
Lemma sys_intro {A} (m : W A) : (∀ w, Sys w → wp m (λ _ w', Sys w') w) → respects keeps_sys m.
Proof. intros Hm w. apply wp_intro. intros HS. by apply (wp_elim m _ w (Hm w HS)). Qed.
Lemma sys_still w w' : still w w' → Sys w → Sys w'.
Proof.
  intros St [HI Hh]. split; [by eapply Inv_still|]. by apply (st_still _ _ _ _ (held_steps (Build_Principal "" "" "")) w).
Qed.

Abbreviation anyone := (Build_Principal "" "" "").

Lemma fire_due_sys now d : respects keeps_sys (fire_due now d).
Proof.
  apply sys_of; [apply fire_due_sound|].
  by apply (resp_fire_due _ _ _ _ (held_steps (due_principal d)) (λ _ _, I) (λ _ _, I) ValidName_segment).
Qed.
Lemma fails_fail_sys k : respects keeps_sys (fails_fail k).
Proof. apply sys_of; [apply tables_sound, keeps_fails_fail|apply (resp_fails_fail _ _ _ _ (held_steps anyone))]. Qed.
Lemma fails_ok_sys k : respects keeps_sys (fails_ok k).
Proof. apply sys_of; [apply tables_sound, keeps_fails_ok|apply (resp_fails_ok _ _ _ _ (held_steps anyone))]. Qed.
Lemma log_sys l : respects keeps_sys (log l).
Proof. apply sys_of; [apply tables_sound, keeps_log|apply (resp_log _ _ _ _ (held_steps anyone))]. Qed.
Lemma time_now_sys : respects keeps_sys time_now.
Proof. apply sys_of; [apply tables_sound, keeps_time_now|apply (resp_time_now _ _ _ _ (held_steps anyone))]. Qed.
Lemma sweepCanceling_sys p : respects keeps_sys (sweepCanceling p).
Proof.
  apply sys_intro. intros w [HI Hh]. apply wp_and; [eapply wp_mono; [by apply sweep_spec|]; by intros r w' []|].
  apply keeps_held_use; [|done]. apply (resp_sweep _ _ _ _ (held_steps p) (λ _ _, I)).
Qed.
Lemma sweepLeases_sys p : respects keeps_sys (sweepLeases p).
Proof.
  apply sys_of.
  - apply safe_sound, advances_safe. apply (resp_sweepLeases _ _ _ _ (other_steps gapless p)), act_other.
  - apply (resp_sweepLeases _ _ _ _ (held_steps p)). done.
Qed.
#[local] Hint Resolve fire_due_sys fails_fail_sys fails_ok_sys log_sys time_now_sys sweepCanceling_sys sweepLeases_sys : walk.

Lemma everyTenant_sys prefix : respects keeps_sys (listEveryTenant prefix).
Proof. intros w. apply wp_everyTenant. intros w' rows e St _ HS. by eapply sys_still. Qed.
#[local] Hint Resolve everyTenant_sys : walk.

Lemma tick_sys p : respects keeps_sys (sweepOnce p).
Proof. unfold sweepOnce, sweepSchedules. walk. Qed.

Lemma reportPurge_sys q ns e : respects keeps_sys (reportPurge q ns e).
Proof. unfold reportPurge. walk. Qed.
#[local] Hint Resolve reportPurge_sys : walk.

Lemma purgeOnce_sys now : gapless = false → respects keeps_sys (purgeOnce now).
Proof.
  intros HG. apply sys_intro. intros w HS. unfold purgeOnce. wp_step. apply wp_everyTenant. intros w1 rows e St Hin.
  assert (Sys w1) as HS1 by (by eapply sys_still). cbn [fst snd].
  apply (wp_mono _ (λ _ w', keeps_sys w1 w')); [|intros r w' Hk; by apply Hk].
  apply (resp_bind keeps_sys); [auto with walk|intros _]. apply (resp_for_each keeps_sys).
  intros [q n] Ht. unfold purge_targets in Ht. apply list_elem_of_omap in Ht as ([q' [k j]] & Hr & Ht). cbn in Ht.
  destruct (of_json j) as [n'|] eqn:Hj; [|done]. cbn in Ht. destruct (String.eqb_spec (ni_Name (ns_Info n')) "") as [|Hne]; [done|].
  injection Ht as -> ->. destruct (Hin q k j Hr) as [ns Hs]. destruct HS as [HI Hh].
  destruct (shard_namespace q ns k j n w HI (h_placed w Hh) Hs Hj) as [Hseg _]. cbn [fst snd].
  apply (resp_bind keeps_sys); [|intros; auto with walk]. apply (resp_attempt keeps_sys), sys_of.
  - rewrite HG. by apply purge_sound.
  - apply (resp_purge _ _ _ _ (held_steps q)); [|done]. intros key. by apply (resp_del _ _ _ _ (held_steps q)).
Qed.

Lemma restart_sys b w : Sys w → Sys (restart b w).
Proof.
  intros [HI [P1 P2 P3 P4]]. split; [by eapply Inv_ext; [|exact HI]|]. split.
  - done.
  - by split; apply map_Forall_empty.
  - by apply Forall_nil.
  - cbn. intros k. rewrite lookup_empty. by intros [].
Qed.

Lemma new_world_sys b : Sys (new_world b).
Proof.
  split; [apply new_world_inv|]. split.
  - intros p ns k v. unfold shard_table. cbn. by rewrite lookup_empty.
  - by split; apply map_Forall_empty.
  - by apply Forall_nil.
  - cbn. intros k. rewrite lookup_empty. by intros [].
Qed.

Lemma next_sys l w : label_ok l → Sys w → Sys (next l w).
Proof.
  intros Hl HS. pose proof HS as [HI Hh]. destruct l; cbn [next label_ok] in *.
  - apply wp_next, wp_and.
    + destruct Hl. by apply (sound_use gapless); [apply serve_sound|..].
    + apply keeps_held_use; [|done]. destruct Hl. by apply (serve_resp _ _ _ _ (held_steps p) ValidName_segment).
  - by apply wp_next, workflow_done_sys.
  - by apply wp_next, activity_done_sys.
  - by apply wp_next, query_end_sys.
  - destruct (w_timers w !! i) as [t|] eqn:E; [|done]. by apply (wp_next (fire_retry t)), timer_sys.
  - apply wp_next, wp_and; [eapply wp_mono; [by apply sweep_spec|]; by intros r w' []|].
    apply keeps_held_use; [|done]. apply (resp_sweep _ _ _ _ (held_steps p) (λ _ _, I)).
  - by apply (wp_next (sweepOnce p)); eapply wp_mono; [apply tick_sys|]; intros r w' Hk; apply Hk.
  - by apply (wp_next (purgeOnce now)); eapply wp_mono; [apply purgeOnce_sys|]; [done|]; intros r w' Hk; apply Hk.
  - split; [by apply disp_inv|]. apply (st_disp _ _ _ _ (held_steps (Build_Principal "" "" ""))); [|done]. by destruct o.
  - apply wp_next, wp_and; [eapply wp_mono; [apply Recover_safe; [done|apply Hh]|]; by intros r w' []|by apply Recover_held].
  - by apply restart_sys.
Qed.

Lemma run_sys b ls : Forall label_ok ls → Sys (run b ls).
Proof.
  intros Hls. unfold run. pose proof (new_world_sys b) as HS. revert HS. generalize (new_world b) as w.
  induction Hls as [|l ls Hl Hls IH]; intros w HS; cbn; [done|]. apply IH. by apply next_sys.
Qed.

(** ** Closed runs stay closed *)

(** Transitions that may start a run or purge one: a caller can name the run id of
    a start, so only these can replace or remove the row of a run that exists. *)
Definition replaces (l : label) : bool :=
  match l with
  | LRequest _ (RStart _ _ _ _ _ _ _ _ _ _) | LRequest _ (RSignalWithStart _ _ _ _ _ _ _ _ _ _ _) | LRequest _ (RReset _ _ _ _ _ _)
  | LRequest _ (RTrigger _ _ _) | LTick _ | LPurge _ => true
  | LWorkflowDone _ cmds => existsb (λ c, (c_Kind c =? 4)%Z || (c_Kind c =? 5)%Z) cmds
  | _ => false
  end.

Lemma serve_safe p r : segment (request_ns r) → replaces (LRequest p r) = false → safe (serve p r).
Proof.
  intros Hns Hc. destruct r; cbn [serve request_ns] in *; try done.
  - by apply RegisterNamespace_safe.
  - by apply signal_safe.
  - apply safe_bind; [by apply terminalTransition_safe|intros; apply safe_keeps; auto with tasks].
  - apply safe_bind; [by apply CancelWorkflow_safe|intros; apply safe_keeps; auto with tasks].
  - apply safe_bind; [by apply query_safe|intros; apply safe_keeps; auto with tasks].
  - apply serve_activity_safe.
  - apply serve_schedule_safe.
  - apply serve_admin_safe.
  - by apply serve_meta_safe.
Qed.

Lemma command_safe t c : segment (wt_ns t) → (c_Kind c =? 4)%Z || (c_Kind c =? 5)%Z = false → safe (apply_command t c).
Proof.
  intros Hns Hc. apply orb_false_iff in Hc as [H4%Z.eqb_neq H5%Z.eqb_neq]. unfold apply_command.
  assert (safe (mret tt : W unit)) as Hret by (apply safe_keeps; auto with tasks).
  destruct (c_Kind c) as [|k|k]; [by apply safe_ignore, terminalTransition_safe| |exact Hret].
  destruct k as [k|k|]; [destruct k as [k|k|]|destruct k as [k|k|]|by apply safe_ignore, terminalTransition_safe].
  - exact Hret.
  - destruct k; [exact Hret..|done].
  - by apply safe_ignore, AckCanceled_safe.
  - exact Hret.
  - destruct k; [exact Hret..|done].
  - by apply safe_ignore, applyScheduleActivity_safe.
Qed.

Lemma disp_adv w d : Inv w → adv w (with_disp d w).
Proof. intros HI. by apply adv_tables. Qed.

Lemma workflow_done_mono token cmds w :
  Sys w → replaces (LWorkflowDone token cmds) = false → wp (respondWorkflowHandler token cmds) (λ _, mono w) w.
Proof.
  intros [HI Hh] Hc. apply wp_respond_wf; [reflexivity|]. intros t Ht.
  assert (segment (wt_ns t)) as Hns by (by apply (proj1 (h_tokens w Hh) _ _ Ht)).
  eapply wp_mono; [apply wp_adv; [by apply disp_adv|]|by intros r w' []].
  apply safe_bind; [|intros; apply safe_keeps; auto with tasks|by apply disp_inv].
  apply safe_for_each. intros c Hin. apply command_safe; [done|]. cbn in Hc.
  destruct (_ || _) eqn:E; [|done]. rewrite <- Hc. symmetry. apply existsb_exists. exists c. by rewrite <- list_elem_of_In.
Qed.

Lemma next_mono l w : label_ok l → Sys w → replaces l = false → mono w (next l w).
Proof.
  intros Hl HS Hc. pose proof HS as [HI Hh]. destruct l; cbn [next label_ok] in *.
  - apply (wp_next (serve p r)). destruct Hl. eapply wp_mono; [by apply serve_safe|]. by intros ? w' [].
  - by apply (wp_next (respondWorkflowHandler token cmds)), workflow_done_mono.
  - apply (wp_next (respond_activity token result failure)). apply wp_respond_act; [reflexivity|]. intros t Ht.
    assert (segment (at_ns t)) as Hns by (by apply (proj2 (h_tokens w Hh) _ _ Ht)).
    eapply wp_mono; [apply wp_adv; [by apply disp_adv|]|by intros r w' [] a].
    apply completeWorkflowActivity_safe; [done|by apply disp_inv].
  - apply (wp_next (QueryWorkflow_end token ch)). unfold QueryWorkflow_end. wp_step. wp_step.
    destruct (d_chans (w_disp w) !! ch) as [res|]; [repeat case_match; wp_step; reflexivity|repeat wp_step; by apply same_status_mono, row_same_status].
  - destruct (w_timers w !! i) as [t|] eqn:E; [|reflexivity]. set (w1 := with_timers _ w).
    apply (wp_next (fire_retry t)). assert (Inv w1) as HI1 by (by eapply Inv_ext; [|exact HI]).
    eapply wp_mono; [apply fire_retry_safe; [|done]|intros r w' [_ M]; exact M].
    by eapply (Forall_lookup_1 _ _ _ _ (h_timers w Hh)).
  - apply (wp_next (sweepCanceling p)). eapply wp_mono; [by apply sweep_spec|]. by intros r w' [].
  - done.
  - done.
  - by apply same_status_mono, row_same_status.
  - apply (wp_next (Recover p)). eapply wp_mono; [apply Recover_safe; [done|apply Hh]|]. by intros r w' [].
  - by apply same_status_mono, row_same_status.
Qed.

End Reach.

(** ** Tenant isolation *)

Section Isolation.
Context `{Env} `{!SegmentRule}.

(** Only the rows of [p] changed. *)
Definition only (p : Principal) : relation world := λ w w', ∀ q k, q ≠ p → row w' q k = row w q k.

Lemma only_tables p w w' : same_tables w w' → only p w w'.
Proof. intros St q k _. by apply tables_row. Qed.

Lemma only_wrote p ns f w w' : wrote p ns f w w' → only p w w'.
Proof.
  intros [Hw _] q k Hq. unfold row. destruct (NsFromKey k) as [[[? m] ?]|]; [|done]. rewrite Hw, decide_False; [done|].
  by intros [= ->].
Qed.

Lemma only_steps p : Steps (only p) p (λ _, True) (λ _, True).
Proof.
  split.
  - split; [by intros w q k|]. intros w1 w2 w3 E1 E2 q k Hq. by rewrite E2, E1.
  - intros w w' [St _]. by apply only_tables.
  - intros key kind ns rest v w w' _ _ Hw. by eapply only_wrote.
  - intros key kind ns rest w w' _ _ Hw. by eapply only_wrote.
  - intros w w' Es _ _ _. apply only_tables. intros q m. unfold shard_table. by rewrite Es.
  - done.
  - done.
  - done.
  - done.
Qed.

Lemma serve_only p r w : only p w (serve p r w).1.
Proof. apply (wp_next (serve p r)). by apply (serve_resp _ _ _ _ (only_steps p)). Qed.

Lemma workflow_done_only token cmds w t :
  d_wfByToken (w_disp w) !! token = Some t → only (wt_principal t) w (respondWorkflowHandler token cmds w).1.
Proof.
  intros Ht. apply (wp_next (respondWorkflowHandler token cmds)). apply wp_respond_wf; [by rewrite Ht|].
  intros t'. rewrite Ht. intros [= <-]. pose proof (only_steps (wt_principal t)) as HS. pose proof (st_pre _ _ _ _ HS).
  assert (respects (only (wt_principal t)) (for_each (apply_command t) cmds;; mret ack_ok)) as Hr.
  { apply (resp_bind (only _)); [|intros; apply (resp_ret (only _))]. apply (resp_for_each (only _)). intros c _.
    by apply (resp_command _ _ _ _ HS (λ _ _, I)). }
  eapply wp_mono; [apply Hr|]. intros r w' Ho. exact Ho.
Qed.

End Isolation.
