(* ===== verification/Serves.v ===== *)
(** What a call of a surface does to the engine: it reads, or it is one request of a
    tenant with reads after it. The handlers of both surfaces are built from the
    wrapped calls of this file. *)

From Stdlib Require Import Ascii ZArith Lia.
From stdpp Require Import prelude strings gmap.
From S2P Require Import Prelude GoStrings Json Types EngineTypes Env Principal Router Shard GoTime Temporal Dispatch Events World WorldFacts Failure Workflow Durable Commands Visibility Activities Schedules Deployments Admin Surface Frames RunInv Creates Upkeep Reach.

Local Open Scope Z_scope.

(** Reading leaves the tables, the queues, the feed and the log as they were. *)
Definition reads (w w' : world) : Prop :=
  same_tables w w' ∧ w_closed w' = w_closed w ∧ w_disp w' = w_disp w ∧ w_broker w' = w_broker w ∧ w_events w' = w_events w ∧
  w_cancelling w' = w_cancelling w ∧ w_fails w' = w_fails w ∧ w_log w' = w_log w ∧ w_timers w' = w_timers w.

#[export] Instance reads_pre : PreOrder reads.
Proof.
  unfold reads. split; [by intros w|]. intros w1 w2 w3 (H1 & ?) (H2 & ?). split; [by etrans|]. naive_solver congruence.
Qed.
Lemma reads_still w w' : still w w' → reads w w'.
Proof. intros [Ht Hr]. split; [done|]. unfold same_rest in Hr. naive_solver. Qed.

Section Serves.
Context `{Env}.

Lemma reads_time_now : respects reads time_now.
Proof. by intros w. Qed.
#[local] Hint Extern 1 (respects reads (store_get _ _)) => apply (read_get reads reads_still) : walk.
#[local] Hint Extern 1 (respects reads (listInto _ _ _)) => apply (read_listInto reads reads_still) : walk.
#[local] Hint Resolve reads_time_now : walk.

(** The operations that only read. *)
Lemma reads_describe p ns wf run : respects reads (DescribeWorkflow p ns wf run).
Proof. unfold DescribeWorkflow. walk. Qed.
Lemma reads_activity p ns id run : respects reads (DescribeActivity p ns id run).
Proof. unfold DescribeActivity. walk. Qed.
#[local] Hint Resolve reads_describe reads_activity : walk.
Lemma reads_query p ns q : respects reads (ListWorkflowExecutions p ns q).
Proof. unfold ListWorkflowExecutions, ListWorkflows. walk. Qed.
Lemma reads_history p ns wf run a n r : respects reads (GetWorkflowHistory p ns wf run a n r).
Proof. unfold GetWorkflowHistory. walk. Qed.
Lemma reads_act_history p ns id run a n r : respects reads (GetActivityHistory p ns id run a n r).
Proof. unfold GetActivityHistory. walk. Qed.
Lemma reads_activities p ns c n : respects reads (ListActivities p ns c n).
Proof. unfold ListActivities. walk. Qed.
Lemma reads_chain p ns wf : respects reads (ListWorkflowChain p ns wf).
Proof. unfold ListWorkflowChain. walk. Qed.
Lemma reads_times p ns id a b : respects reads (ScheduleMatchingTimes p ns id a b).
Proof. unfold ScheduleMatchingTimes, DescribeSchedule. walk. Qed.
Lemma reads_validate p n ns d b : respects reads (ValidateVersion p n ns d b).
Proof. unfold ValidateVersion, DescribeDeployment. walk. Qed.
#[local] Hint Resolve reads_query reads_history reads_act_history reads_activities reads_chain reads_times reads_validate : walk.

(** The world a wrapped call leaves is the one the call leaves. *)
Lemma run_op_world {A} (m : W A) w : (run_op m w).1 = (m w).1.
Proof. unfold run_op, attempt, mbind, M_bind. destruct (m w) as [w' [[]|a]]; done. Qed.
Lemma then_world {A B} (m : W A) (f : err + A → W B) w :
  (∀ r w', (f r w').1 = w') → ((run_op m ≫= f) w).1 = (m w).1.
Proof.
  intros Hf. pose proof (run_op_world m w) as E. unfold mbind, M_bind. destruct (run_op m w) as [w' [e|r]]; cbn in E; [done|]. by rewrite Hf.
Qed.
Lemma respects_world {A} (R : relation world) (m : W A) w : respects R m → R w (m w).1.
Proof. intros Hm. apply (wp_elim m _ w (Hm w)). Qed.

(** The namespace a request works in. *)
Definition asked_ns (r : request) : string :=
  match r with
  | RActivity (AStart ns _ _ _ _ _ _ _ _ _ _ _ _ | ACancel ns _ _ _ _ | AComplete ns _ _ _ _ | AFail ns _ _ _ _ | AClaim ns _ _ _ | ABeat ns _ _ _) => ns
  | RSchedule (SCreate s) => sc_Namespace s
  | RSchedule (SDelete ns _ | SPause ns _ _ _ | SUpdate ns _ _) => ns
  | RAdmin (DCreate ns _ _ _ _ | DUpdate ns _ _ | DDelete ns _ _ | DVersion ns _ _ _ _ _ _ | DPatch ns _ _ _ | DCurrent ns _ _ | DDrop ns _ _
           | MDropAttr ns _ | MEndBatch ns _ _ _ | MDropNexus ns _ | MRevoke ns _) => ns
  | RAdmin (MBatch b) => bt_Namespace b
  | RAdmin (MNexus n) => nx_Namespace n
  | RAdmin (MGrant i) => id_Namespace i
  | _ => request_ns r
  end.

(** A call reads, or is one request of the tenant, in a namespace of which [P] holds, with
    reads after it. *)
Definition asks (P : string → Prop) (p : Principal) {A} (m : W A) : Prop :=
  ∃ r, P (asked_ns r) ∧ ∀ w, (m w).1 = (serve p r w).1.
Definition handles (P : string → Prop) (p : Principal) {A} (m : W A) : Prop :=
  ∀ w, reads w (m w).1 ∨ ∃ r, P (asked_ns r) ∧ reads (serve p r w).1 (m w).1.

Lemma handles_reads P p {A} (m : W A) : respects reads m → handles P p m.
Proof. intros Hm w. left. by apply respects_world. Qed.
Lemma handles_weaken (P Q : string → Prop) p {A} (m : W A) : (∀ ns, P ns → Q ns) → handles P p m → handles Q p m.
Proof. intros HPQ Hm w. destruct (Hm w) as [|(r & ? & ?)]; eauto. Qed.
Lemma handles_then P p {A B} (m : W A) (f : err + A → W B) :
  (∀ r w', (f r w').1 = w') → respects reads m ∨ asks P p m → handles P p (run_op m ≫= f).
Proof.
  intros Hf [Hm|(r & Hr & E)] w; rewrite then_world by done; [left; by apply respects_world|]. right. exists r. split; [done|]. by rewrite E.
Qed.
(** No row of another tenant changes. *)
Lemma handles_only `{!SegmentRule} P p {A} (m : W A) w q k : handles P p m → q ≠ p → row (m w).1 q k = row w q k.
Proof.
  intros Hm Hq. destruct (Hm w) as [[Ht _]|(r & _ & [Ht _])]; [by apply tables_row|]. rewrite (tables_row _ _ _ _ Ht). by apply serve_only.
Qed.

Lemma tt_world {A} (m : W A) w : (m w).1 = ((m;; mret tt) w).1.
Proof. unfold mbind, M_bind. by destruct (m w) as [w' []]. Qed.

End Serves.

#[export] Hint Extern 1 (respects reads (store_get _ _)) => apply (read_get reads reads_still) : walk.
#[export] Hint Extern 1 (respects reads (listInto _ _ _)) => apply (read_listInto reads reads_still) : walk.
#[export] Hint Resolve reads_time_now reads_describe reads_activity reads_query reads_history reads_act_history reads_activities reads_chain
  reads_times reads_validate : walk.

(** The request an operation of the engine is. *)
Ltac asked :=
  let by_ r := (exists r; split; [first [done|by left|by right]|intros ?; first [reflexivity|apply tt_world]]) in
  lazymatch goal with
  | |- asks _ ?p (StartWorkflowWithRequestID ?p ?ns ?wf ?run ?ty ?q ?i ?req) => by_ constr:(RStart ns wf run ty q i req ∅ JNull "")
  | |- asks _ ?p (SignalWithStartWorkflow ?p ?ns ?wf ?run ?ty ?q ?i ?n ?pl ?req) => by_ constr:(RSignalWithStart ns wf run ty q i n pl req ∅ JNull)
  | |- asks _ ?p (CancelWorkflowWithReason ?p ?ns ?wf ?run ?a ?b) => by_ constr:(RCancel ns wf run a b)
  | |- asks _ ?p (TerminateWorkflowWithReason ?p ?ns ?wf ?run ?a ?b) => by_ constr:(RTerminate ns wf run a b)
  | |- asks _ ?p (RegisterNamespace ?p ?n) => by_ constr:(RRegister n)
  | |- asks _ ?p (startWorkflowFull ?p ?ns ?wf ?run ?ty ?q ?i ?req ?sa ?memo ?pol) => by_ constr:(RStart ns wf run ty q i req sa memo pol)
  | |- asks _ ?p (signalWithStartFull ?p ?ns ?wf ?run ?ty ?q ?i ?n ?pl ?req ?sa ?memo) => by_ constr:(RSignalWithStart ns wf run ty q i n pl req sa memo)
  | |- asks _ ?p (SignalWorkflow ?p ?ns ?wf ?run ?n ?pl) => by_ constr:(RSignal ns wf run n pl "")
  | |- asks _ ?p (QueryWorkflow_begin ?p ?ns ?wf ?run ?ty ?a) => by_ constr:(RQuery ns wf run ty a)
  | |- asks _ ?p (ResetWorkflow ?p ?ns ?wf ?run ?e ?a ?b) => by_ constr:(RReset ns wf run e a b)
  | |- asks _ ?p (UpdateWorkflowMetadata ?p ?ns ?wf ?run ?m) => by_ constr:(RMeta (MWorkflow ns wf run m))
  | |- asks _ ?p (DeprecateNamespace ?p ?ns) => by_ constr:(RMeta (MDeprecate ns))
  | |- asks _ ?p (UpdateNamespaceMetadata ?p ?ns ?x) => by_ constr:(RMeta (MNamespace ns x))
  | |- asks _ ?p (AddSearchAttribute ?p ?ns ?x) => by_ constr:(RMeta (MAttr ns x))
  | |- asks _ ?p (RemoveSearchAttribute ?p ?ns ?x) => by_ constr:(RAdmin (MDropAttr ns x))
  | |- asks _ ?p (CreateSchedule ?p ?x) => by_ constr:(RSchedule (SCreate x))
  | |- asks _ ?p (UpdateSchedule ?p ?ns ?id ?x) => by_ constr:(RSchedule (SUpdate ns id x))
  | |- asks _ ?p (DeleteSchedule ?p ?ns ?id) => by_ constr:(RSchedule (SDelete ns id))
  | |- asks _ ?p (PauseSchedule ?p ?ns ?id ?b ?n) => by_ constr:(RSchedule (SPause ns id b n))
  | |- asks _ ?p (TriggerSchedule ?p ?ns ?id ?r) => by_ constr:(RTrigger ns id r)
  | |- asks _ ?p (StartBatch ?p ?b) => by_ constr:(RAdmin (MBatch b))
  | |- asks _ ?p (TerminateBatch ?p ?ns ?id ?a ?b) => by_ constr:(RAdmin (MEndBatch ns id a b))
  | |- asks _ ?p (CreateDeployment ?p ?ns ?n ?a ?b ?c) => by_ constr:(RAdmin (DCreate ns n a b c))
  | |- asks _ ?p (UpdateDeployment ?p ?ns ?n ?x) => by_ constr:(RAdmin (DUpdate ns n x))
  | |- asks _ ?p (DeleteDeployment ?p ?ns ?n ?f) => by_ constr:(RAdmin (DDelete ns n f))
  | |- asks _ ?p (SetCurrentDeploymentVersion ?p ?ns ?n ?b) => by_ constr:(RAdmin (DCurrent ns n b))
  | |- asks _ ?p (CreateVersion ?p ?ns ?n ?a ?b ?c ?d ?e) => by_ constr:(RAdmin (DVersion ns n a b c d e))
  | |- asks _ ?p (UpdateVersion ?p ?ns ?n ?b ?x) => by_ constr:(RAdmin (DPatch ns n b x))
  | |- asks _ ?p (DeleteDeploymentVersion ?p ?ns ?n ?b) => by_ constr:(RAdmin (DDrop ns n b))
  | |- asks _ ?p (CreateNexusEndpoint ?p ?x) => by_ constr:(RAdmin (MNexus x))
  | |- asks _ ?p (DeleteNexusEndpoint ?p ?ns ?x) => by_ constr:(RAdmin (MDropNexus ns x))
  | |- asks _ ?p (GrantIdentity ?p ?x) => by_ constr:(RAdmin (MGrant x))
  | |- asks _ ?p (RevokeIdentity ?p ?ns ?x) => by_ constr:(RAdmin (MRevoke ns x))
  | |- asks _ ?p (StartActivity ?p ?ns ?id ?run ?ty ?q ?i ?r ?a ?b ?c ?d ?e ?req) => by_ constr:(RActivity (AStart ns id run ty q i r a b c d e req))
  | |- asks _ ?p (ClaimNextActivity ?p ?ns ?q ?i ?l) => by_ constr:(RActivity (AClaim ns q i l))
  | |- asks _ ?p (CancelActivity ?p ?ns ?id ?run ?a ?b) => by_ constr:(RActivity (ACancel ns id run a b))
  | |- asks _ ?p (CompleteActivity ?p ?ns ?id ?run ?a ?b) => by_ constr:(RActivity (AComplete ns id run a b))
  | |- asks _ ?p (FailActivity ?p ?ns ?id ?run ?a ?b) => by_ constr:(RActivity (AFail ns id run a b))
  | |- asks _ ?p (HeartbeatActivity ?p ?ns ?id ?run ?a) => by_ constr:(RActivity (ABeat ns id run a))
  end.
