(* ===== verification/Mcp.v ===== *)
(** The MCP endpoint ([mcp.go]): the engine as tools of an agent, JSON-RPC 2.0 over POST.
    Every answer is a 200; the verdict of a call is in the body. *)

From Corelib Require Import SpecFloat.
From Stdlib Require Import Ascii ZArith Lia.
From stdpp Require Import prelude strings gmap.
From S2P Require Import Prelude GoStrings Json Types EngineTypes Env Principal Router Shard GoTime Temporal Dispatch Events World WorldFacts Failure Workflow Durable Visibility Activities Schedules Deployments Admin Surface Zap Frames RunInv Creates Upkeep Reach Serves.

Local Open Scope Z_scope.

(** ** Envelopes *)

Record mcpRequest := { mr_JSONRPC : string; mr_ID : json; mr_Method : string; mr_Params : json }.

Definition rpc (id : json) (k : string) (v : json) : answer := ok (JObj [(k, v); ("id", id); ("jsonrpc", JStr "2.0")]).
Definition mcpResult (id result : json) : answer := rpc id "result" result.
Definition mcpError (id : json) (code : Z) (msg : string) : answer :=
  rpc id "error" (JObj [("code", JNum code); ("message", JStr msg)]).

(** [rq.stream(&req)]: the first document of the body; no bytes are an error. *)
Definition stream (rq : call) (first : raw) : option mcpRequest :=
  if cl_unread rq then None else
  match first with
  | RJson j =>
      o ← as_obj j; v ← rd o "jsonrpc"; m ← rd o "method";
      Some {| mr_JSONRPC := v; mr_ID := any o "id"; mr_Method := m; mr_Params := any o "params" |}
  | RNone | RBad => None
  end.

(** ** The catalogue *)

Definition text_arg (desc : string) : json := JObj [("description", JStr desc); ("type", JStr "string")].
Definition object_arg (desc : string) : json := JObj [("additionalProperties", JBool true); ("description", JStr desc); ("type", JStr "object")].

(** A tool; without names of required arguments their list is null. *)
Definition tool (name desc : string) (props : list (string * json)) (required : list string) : json :=
  JObj [("description", JStr desc);
        ("inputSchema", JObj [("properties", JObj props);
                              ("required", match required with [] => JNull | _ => JArr (JStr <$> required) end);
                              ("type", JStr "object")]);
        ("name", JStr name)].

Definition arg_ns : string * json := ("namespace", text_arg "Namespace name.").
Definition arg_wf : string * json := ("workflow_id", text_arg "Workflow ID.").
Definition arg_run : string * json := ("run_id", text_arg "Run ID; empty for latest.").

Definition mcpTools : list (string * json) :=
  let t name desc props required := (name, tool name desc props required) in
  [t "list_namespaces" "List every registered namespace." [] [];
   t "describe_namespace" "Describe a namespace by name." [("name", text_arg "Namespace name.")] ["name"];
   t "list_workflows" "List workflow executions in a namespace." [arg_ns] ["namespace"];
   t "describe_workflow" "Describe a workflow execution."
     [arg_ns; ("run_id", text_arg "Run ID; if empty, latest run is used."); arg_wf] ["namespace"; "workflow_id"];
   t "start_workflow" "Start a new workflow execution."
     [("input", object_arg "Workflow input — arbitrary JSON."); arg_ns;
      ("task_queue", text_arg ("Task queue name; defaults to " +:+ quote "default" +:+ "."));
      ("workflow_id", text_arg "Workflow ID; if empty, server generates one.");
      ("workflow_type", text_arg "Workflow type (Go function name or registered name).")] ["namespace"; "workflow_type"];
   t "signal_workflow" "Send a signal to a running workflow."
     [("input", object_arg "Signal payload — arbitrary JSON."); arg_ns; arg_run; ("signal_name", text_arg "Signal name."); arg_wf]
     ["namespace"; "workflow_id"; "signal_name"];
   t "cancel_workflow" "Cancel a running workflow." [arg_ns; arg_run; arg_wf] ["namespace"; "workflow_id"];
   t "terminate_workflow" "Terminate a running workflow with prejudice." [arg_ns; arg_run; arg_wf] ["namespace"; "workflow_id"];
   t "list_schedules" "List schedules in a namespace." [arg_ns] ["namespace"];
   t "create_schedule" "Create a cron-or-interval schedule."
     [("cron", text_arg ("Cron expression, e.g. " +:+ quote "0 3 * * *" +:+ ".")); arg_ns; ("schedule_id", text_arg "Schedule ID.");
      ("task_queue", text_arg "Task queue."); ("workflow_type", text_arg "Workflow type to start on each tick.")]
     ["namespace"; "schedule_id"; "workflow_type"];
   t "pause_schedule" "Pause or unpause a schedule."
     [arg_ns; ("paused", JObj [("description", JStr "true to pause, false to resume."); ("type", JStr "boolean")]); ("schedule_id", text_arg "Schedule ID.")]
     ["namespace"; "schedule_id"; "paused"]].

Section Mcp.
Context `{Env} (wording : err → string).

(** The text of a result, as the content of an answer. *)
Definition emit (id v : json) : answer :=
  mcpResult id (JObj [("content", JArr [JObj [("text", JStr (env_bytes (RJson v))); ("type", JStr "text")]])]).

Definition emit_or {A} (id : json) (f : A → json) (m : W A) : W answer :=
  r ← run_op m;
  mret (match r with inl e => mcpError id (-32000) (err_text wording e) | inr a => emit id (f a) end).
Definition emit_found {A} (id : json) (missing : string) (f : A → json) (m : W (option A)) : W answer :=
  r ← run_op m;
  mret (match r with
        | inl e => mcpError id (-32000) (err_text wording e)
        | inr None => mcpError id (-32004) missing
        | inr (Some a) => emit id (f a)
        end).

Definition schedule_arg (a : list (string * json)) : Schedule :=
  {| ScheduleId := str a "schedule_id"; sc_Namespace := str a "namespace";
     Spec := {| CronString := [str a "cron"]; IntervalList := [] |};
     Action := {| sa_WorkflowType := {| TypeName := str a "workflow_type" |}; sa_TaskQueue := str a "task_queue"; sa_Input := JNull |};
     State := zero; Info := zero |}.

(** The arguments are members of an object; one of another type is read as empty. *)
Definition mcpToolCall (p : Principal) (req : mcpRequest) : W answer :=
  let params := obj (mr_Params req) in
  let name := str params "name" in let a := obj (any params "arguments") in let id := mr_ID req in
  let ns := str a "namespace" in let wf := str a "workflow_id" in let run := str a "run_id" in
  if String.eqb name "list_namespaces" then emit_or id (λ rows, JObj [("namespaces", to_json rows)]) (ListNamespaces p)
  else if String.eqb name "describe_namespace" then emit_found id "namespace not found" to_json (DescribeNamespace p (str a "name"))
  else if String.eqb name "list_workflows" then emit_or id (λ rows, JObj [("executions", to_json rows)]) (ListWorkflows p ns)
  else if String.eqb name "describe_workflow" then emit_found id "workflow not found" to_json (DescribeWorkflow p ns wf run)
  else if String.eqb name "start_workflow" then
    emit_or id to_json (StartWorkflow p ns wf run {| TypeName := str a "workflow_type" |} (str a "task_queue") (any a "input"))
  else if String.eqb name "signal_workflow" then
    emit_or id (λ _, JObj [("status", JStr "signaled")]) (SignalWorkflow p ns wf run (str a "signal_name") (any a "input"))
  else if String.eqb name "cancel_workflow" then emit_or id to_json (CancelWorkflowWithReason p ns wf run "" "")
  else if String.eqb name "terminate_workflow" then emit_or id to_json (TerminateWorkflowWithReason p ns wf run "" "")
  else if String.eqb name "list_schedules" then emit_or id (λ rows, JObj [("schedules", to_json rows)]) (ListSchedules p ns)
  else if String.eqb name "create_schedule" then let s := schedule_arg a in emit_or id (λ _, to_json s) (CreateSchedule p s)
  else if String.eqb name "pause_schedule" then
    let paused := boolOr a "paused" false in
    emit_or id (λ _, JObj [("paused", JBool paused)]) (PauseSchedule p ns (str a "schedule_id") paused "")
  else mret (mcpError id (-32601) ("unknown tool: " +:+ name)).

Definition initialize_result : json :=
  JObj [("capabilities", JObj [("tools", JObj [])]); ("protocolVersion", JStr "2025-06-18");
        ("serverInfo", JObj [("name", JStr "hanzo-tasks"); ("version", JStr "1.40.0")])].

(** [mcp], for the tenant of the caller; [first] is the first document of the body. *)
Definition mcp (rq : call) (first : raw) (p : Principal) : W answer :=
  match cl_method rq with
  | POST =>
      match stream rq first with
      | None => mret (mcpError JNull (-32700) ("parse error: " +:+ wording ErrDecode))
      | Some req =>
          let m := mr_Method req in
          if String.eqb m "initialize" then mret (mcpResult (mr_ID req) initialize_result)
          else if String.eqb m "tools/list" then mret (mcpResult (mr_ID req) (JObj [("tools", JArr mcpTools.*2)]))
          else if String.eqb m "tools/call" then mcpToolCall p req
          else if String.eqb m "ping" then mret (mcpResult (mr_ID req) (JObj []))
          else mret (mcpError (mr_ID req) (-32601) ("method not found: " +:+ m))
      end
  | _ => mret (plain 405 "POST required")
  end.

(** ** What a call does *)

(** The namespace a call names. *)
Definition call_ns (first : raw) : string :=
  match first with RJson j => str (obj (any (obj (any (obj j) "params")) "arguments")) "namespace" | _ => "" end.
Definition call_id (first : raw) : json := match first with RJson j => any (obj j) "id" | _ => JNull end.
Definition call_tool (first : raw) : string := match first with RJson j => str (obj (any (obj j) "params")) "name" | _ => "" end.
Definition is_call (rq : call) (first : raw) : Prop :=
  cl_method rq = POST ∧ ∃ req, stream rq first = Some req ∧ mr_Method req = "tools/call".

Lemma emit_handles P p {A} id (f : A → json) (m : W A) : respects reads m ∨ asks P p m → handles P p (emit_or id f m).
Proof. intros Hm. apply handles_then; [by intros []|done]. Qed.
Lemma found_handles P p {A} id missing (f : A → json) (m : W (option A)) : respects reads m → handles P p (emit_found id missing f m).
Proof. intros Hm. apply handles_then; [by intros [|[]]|by left]. Qed.

Ltac tool_branch :=
  first [ apply found_handles; unfold DescribeNamespace; solve [walk]
        | apply emit_handles; first [left; unfold ListNamespaces, ListWorkflows, ListSchedules; solve [walk] | right; unfold StartWorkflow; asked]
        | apply handles_reads; solve [walk] ].

Lemma tool_handles p req : handles (eq (str (obj (any (obj (mr_Params req)) "arguments")) "namespace")) p (mcpToolCall p req).
Proof. unfold mcpToolCall. cbv zeta. repeat case_match; tool_branch. Qed.

(** The code of the error an answer carries. *)
Definition verdict (a : answer) : option Z :=
  match an_body a with
  | JsonContent (JObj o) => match any o "error" with JObj e => match any e "code" with JNum n => Some n | _ => None end | _ => None end
  | _ => None
  end.
Definition unknown : Z := -32601.

(** An operation that answers never answers that it is unknown. *)
Definition known (m : W answer) : Prop := ∀ w w' a, m w = (w', inr a) → verdict a ≠ Some unknown.
Lemma emit_known {A} id (f : A → json) (m : W A) : known (emit_or id f m).
Proof.
  intros w w' a. unfold emit_or, mbind, M_bind. destruct (run_op m w) as [w1 [e|[e|x]]]; intros [= <- <-]; done.
Qed.
Lemma found_known {A} id missing (f : A → json) (m : W (option A)) : known (emit_found id missing f m).
Proof.
  intros w w' a. unfold emit_found, mbind, M_bind. destruct (run_op m w) as [w1 [e|[e|[x|]]]]; intros [= <- <-]; done.
Qed.
Lemma tool_known p req : str (obj (mr_Params req)) "name" ∈ mcpTools.*1 → known (mcpToolCall p req).
Proof.
  unfold mcpToolCall. cbv zeta. intros Hin. repeat case_match; auto using emit_known, found_known. exfalso.
  repeat match goal with E : String.eqb _ _ = false |- _ => apply String.eqb_neq in E end.
  unfold mcpTools in Hin. cbn [fmap list_fmap fst] in Hin. set_solver.
Qed.
Lemma tool_unknown p req w : str (obj (mr_Params req)) "name" ∉ mcpTools.*1 →
  mcpToolCall p req w = (w, inr (mcpError (mr_ID req) unknown ("unknown tool: " +:+ str (obj (mr_Params req)) "name"))).
Proof.
  intros Hn. unfold mcpToolCall. cbv zeta. unfold mcpTools in Hn. cbn [fmap list_fmap fst] in Hn.
  repeat case_match; try done; match goal with E : String.eqb _ _ = true |- _ => apply String.eqb_eq in E end; exfalso; apply Hn; set_solver.
Qed.
Lemma stream_fields rq first req : stream rq first = Some req →
  call_ns first = str (obj (any (obj (mr_Params req)) "arguments")) "namespace" ∧ call_tool first = str (obj (mr_Params req)) "name".
Proof.
  unfold stream. destruct (cl_unread rq); [done|]. destruct first as [|j|]; [done| |done]. unfold call_ns, call_tool.
  intros Hs. destruct (as_obj j) as [o|] eqn:Eo; [|done]. assert (obj j = o) as -> by (destruct j; by simplify_eq/=).
  cbn [mbind option_bind] in Hs. destruct (rd o "jsonrpc"); [|done]. cbn [mbind option_bind] in Hs. destruct (rd o "method"); [|done]. by simplify_eq/=.
Qed.

(** One call: reads, or one request with reads beside it. *)
Lemma mcp_steps rq first p w :
  let w' := (mcp rq first p w).1 in
  reads w w' ∨ is_call rq first ∧ ∃ r, asked_ns r = call_ns first ∧ reads (serve p r w).1 w'.
Proof.
  intros w'. subst w'. unfold mcp. destruct (cl_method rq) eqn:Em; [by left| |by left..]. destruct (stream rq first) as [req|] eqn:Es; [|by left].
    cbv zeta. destruct (String.eqb _ "initialize"); [by left|]. destruct (String.eqb _ "tools/list"); [by left|].
    destruct (String.eqb_spec (mr_Method req) "tools/call"); [|destruct (String.eqb _ "ping"); by left].
    destruct (stream_fields _ _ _ Es) as [-> _]. destruct (tool_handles p req w) as [|(r & Hr & ?)]; [by left|]. right. split; [|by exists r]. split; [done|]. by exists req.
Qed.
Lemma mcp_only `{!SegmentRule} rq first p w q k : q ≠ p → row (mcp rq first p w).1 q k = row w q k.
Proof.
  intros Hq. destruct (mcp_steps rq first p w) as [[Ht _]|(_ & r & _ & [Ht _])]; [by apply tables_row|].
  rewrite (tables_row _ _ _ _ Ht). by apply serve_only.
Qed.

(** (C14) An agent gets at the engine only as a tenant: whatever is posted, the engine reads,
    or a call of a tool serves one request of the caller's tenant in the namespace the call
    names, with reads beside it; no row of another tenant changes; a call is answered as
    unknown exactly when its tool is not in the catalogue, and leaves the engine as it was. *)
Theorem mcp_serves_requests `{!SegmentRule} rq first p w :
  let w' := (mcp rq first p w).1 in
  (reads w w' ∨ is_call rq first ∧ ∃ r, asked_ns r = call_ns first ∧ reads (serve p r w).1 w') ∧
  (∀ q k, q ≠ p → row w' q k = row w q k) ∧
  (is_call rq first → ∀ a, (mcp rq first p w).2 = inr a →
     (verdict a = Some unknown ↔ call_tool first ∉ mcpTools.*1) ∧ (verdict a = Some unknown → w' = w)).
Proof.
  intros w'. split; [apply mcp_steps|]. split; [intros q k; apply mcp_only|].
  intros (Em & req & Es & Ec) a. subst w'. unfold mcp. rewrite Em, Es, Ec. cbn [String.eqb Ascii.eqb Bool.eqb].
  destruct (stream_fields _ _ _ Es) as [_ ->]. destruct (decide (str (obj (mr_Params req)) "name" ∈ mcpTools.*1)) as [Hin|Hn].
  + destruct (mcpToolCall p req w) as [w1 r1] eqn:E. cbn [snd fst]. intros ->. pose proof (tool_known p req Hin _ _ _ E). split; [|done].
    split; [done|]. by intros [].
  + rewrite (tool_unknown p req w Hn). cbn [snd fst]. intros [= <-]. done.
Qed.
End Mcp.

Module McpDemo.
#[local] Existing Instance test_env.
#[local] Existing Instance test_segment_rule.

Definition word (e : err) : string := "error".
Definition acme : Principal := tenant "acme".
Definition post : call := {| cl_method := POST; cl_query := []; cl_body := RNone; cl_unread := false |}.
Definition calls (name : string) (args : list (string * json)) : raw :=
  RJson (JObj [("jsonrpc", JStr "2.0"); ("id", JNum 7); ("method", JStr "tools/call");
               ("params", JObj [("name", JStr name); ("arguments", JObj args)])]).
Definition start_order : raw :=
  calls "start_workflow" [("namespace", JStr "default"); ("workflow_id", JStr "order"); ("workflow_type", JStr "Order")].
Definition opened : world := (mcp word post start_order acme (new_world true)).1.

(** The run an agent starts is there for the tenant and for nobody else. *)
Example started_run :
  (λ p, match (DescribeWorkflow p "default" "order" "" opened).2 with inr (Some wf) => Status wf | _ => "" end) <$> [acme; tenant "globex"] = [RUNNING; ""].
Proof. by vm_compute. Qed.
Example verdicts :
  (λ first, match (mcp word post first acme opened).2 with inr a => verdict a | inl _ => None end) <$>
    [calls "cancel_workflow" [("namespace", JStr "default"); ("workflow_id", JStr "order")];
     calls "cancel_workflow" [("namespace", JStr "default"); ("workflow_id", JStr "parcel")];
     calls "describe_workflow" [("namespace", JStr "default"); ("workflow_id", JStr "parcel")];
     calls "delete_everything" []; RNone] =
  [None; Some (-32000); Some (-32004); Some (-32601); Some (-32700)].
Proof. by vm_compute. Qed.

Lemma mcp_serves_requests_witness :
  let w := new_world true in let w' := (mcp word post start_order acme w).1 in
  (reads w w' ∨ is_call post start_order ∧ ∃ r, asked_ns r = call_ns start_order ∧ reads (serve acme r w).1 w') ∧
  (∀ q k, q ≠ acme → row w' q k = row w q k) ∧
  (is_call post start_order → ∀ a, (mcp word post start_order acme w).2 = inr a →
     (verdict a = Some unknown ↔ call_tool start_order ∉ mcpTools.*1) ∧ (verdict a = Some unknown → w' = w)).
Proof. exact (mcp_serves_requests word post start_order acme (new_world true)). Defined.
End McpDemo.
