(* ===== verification/Migration.v ===== *)
(** Moving a shard ([migration/migration.go]): the barrier, the copy of the sealed file,
    the release, and the table of jobs. *)

From Stdlib Require Import Ascii ZArith Lia.
From stdpp Require Import prelude strings gmap.
From S2P Require Import Prelude GoStrings Json Types EngineTypes Env Principal Router Shard GoTime Temporal Dispatch Events World WorldFacts Failure Workflow Durable Visibility Activities Schedules Deployments Admin Surface Frames RunInv Creates Upkeep Reach Serves.

Local Open Scope Z_scope.

Definition StatusPending : string := "pending".
Definition StatusLocking : string := "locking".
Definition StatusCopying : string := "copying".
Definition StatusReplaying : string := "replaying".
Definition StatusReleased : string := "released".
Definition StatusFailed : string := "failed".

(** A time that was not set is the zero time. *)
Record Job := {
  jb_ID : string; jb_Principal : string; jb_Namespace : string; jb_From : string; jb_To : string; jb_Status : string; jb_Error : string;
  jb_Bytes : Z; jb_StartedAt : option Z; jb_FinishedAt : option Z }.

Definition job_begun (id : string) (now : Z) (j : Job) : Job :=
  {| jb_ID := id; jb_Principal := jb_Principal j; jb_Namespace := jb_Namespace j; jb_From := jb_From j; jb_To := jb_To j; jb_Status := jb_Status j;
     jb_Error := jb_Error j; jb_Bytes := jb_Bytes j; jb_StartedAt := Some now; jb_FinishedAt := jb_FinishedAt j |}.
Definition job_status (s : string) (j : Job) : Job :=
  {| jb_ID := jb_ID j; jb_Principal := jb_Principal j; jb_Namespace := jb_Namespace j; jb_From := jb_From j; jb_To := jb_To j; jb_Status := s;
     jb_Error := jb_Error j; jb_Bytes := jb_Bytes j; jb_StartedAt := jb_StartedAt j; jb_FinishedAt := jb_FinishedAt j |}.
Definition job_failed (msg : string) (j : Job) : Job :=
  {| jb_ID := jb_ID j; jb_Principal := jb_Principal j; jb_Namespace := jb_Namespace j; jb_From := jb_From j; jb_To := jb_To j; jb_Status := StatusFailed;
     jb_Error := msg; jb_Bytes := jb_Bytes j; jb_StartedAt := jb_StartedAt j; jb_FinishedAt := jb_FinishedAt j |}.
Definition job_copied (n : Z) (j : Job) : Job :=
  {| jb_ID := jb_ID j; jb_Principal := jb_Principal j; jb_Namespace := jb_Namespace j; jb_From := jb_From j; jb_To := jb_To j; jb_Status := jb_Status j;
     jb_Error := jb_Error j; jb_Bytes := n; jb_StartedAt := jb_StartedAt j; jb_FinishedAt := jb_FinishedAt j |}.
Definition job_released (now : Z) (j : Job) : Job :=
  {| jb_ID := jb_ID j; jb_Principal := jb_Principal j; jb_Namespace := jb_Namespace j; jb_From := jb_From j; jb_To := jb_To j; jb_Status := StatusReleased;
     jb_Error := jb_Error j; jb_Bytes := jb_Bytes j; jb_StartedAt := jb_StartedAt j; jb_FinishedAt := Some now |}.

(** The coordinator, the files it copied, and the store it works on. *)
Record coordinator := { co_jobs : gmap string Job; co_files : gmap string table; co_world : world }.
(** The steps of one job; an error carries the job as it stood. *)
Abbreviation CM := (M coordinator (Job * err)).

Section Migration.
Context `{Env} (wording : err → string) (file_bytes : table → Z).

Definition on_store {A} (j : Job) (m : W A) : CM A := λ c,
  let '(w, r) := m (co_world c) in
  ({| co_jobs := co_jobs c; co_files := co_files c; co_world := w |}, match r with inl e => inl (j, e) | inr a => inr a end).

(** [if c.rep != nil { c.rep.Propose(…) }]. *)
Definition barrier (op : string) (j : Job) : W unit :=
  r ← gets w_repl;
  match r with
  | None => mret tt
  | Some _ => Propose {| f_Principal := jb_Principal j; f_Namespace := jb_Namespace j; f_Seq := 0; f_Op := op;
                         f_Key := "__migration/" +:+ jb_ID j; f_Value := JStr (jb_To j) |}
  end.

(** Where the copy goes, under the root of the store. *)
Definition copy_path (j : Job) : string := "_migrations/" +:+ jb_ID j +:+ "/" +:+ jb_Namespace j +:+ ".db".
Definition copy_file (dst : string) (t : table) : CM unit := modify (λ c,
  {| co_jobs := co_jobs c; co_files := <[dst := t]> (co_files c); co_world := co_world c |}).

(** The two statements of [Shard.Checkpoint], then [CopyFile]. *)
Definition copy_shard (j : Job) (p : Principal) : CM Job :=
  on_store j (Manager_Get p (jb_Namespace j));;
  on_store j db_op;; on_store j db_op;;
  t ← on_store j (gets (shard_table p (jb_Namespace j)));
  on_store j db_op;;
  copy_file (copy_path j) t;;
  mret (job_copied (file_bytes t) j).

Definition run_job (j : Job) : CM Job :=
  let j := job_status StatusLocking j in
  on_store j (barrier "migration.lock" j);;
  let j := job_status StatusCopying j in
  match ParsePrincipal (jb_Principal j) with
  | inl e => throw (j, ErrBadPrincipal e)
  | inr p =>
      j ← copy_shard j p;
      let j := job_status StatusReplaying j in
      on_store j (barrier "migration.unlock" j);;
      now ← on_store j time_now;
      mret (job_released now j)
  end.

Definition job_id (j : Job) (now : Z) : string :=
  "mig-" +:+ jb_Principal j +:+ "-" +:+ jb_Namespace j +:+ "-" +:+ itoa now.
Definition record_job (j : Job) (c : coordinator) : coordinator :=
  {| co_jobs := <[jb_ID j := j]> (co_jobs c); co_files := co_files c; co_world := co_world c |}.

(** [Migrate]: the job as it ended and the error, or no job at all. The entry of the table
    is the job itself, so it is kept as it ends. *)
Definition Migrate (j : Job) (c : coordinator) : coordinator * (err + Job * option err) :=
  if String.eqb (jb_Namespace j) "" then (c, inl (ErrRequired "migration: namespace")) else
  let begin := (id ← (if String.eqb (jb_ID j) "" then t ← on_store j time_now; mret (job_id j t) else mret (jb_ID j));
                now ← on_store j time_now;
                run_job (job_begun id now j)) in
  match begin c with
  | (c, inl (j, e)) => let j := job_failed (err_text wording e) j in (record_job j c, inr (j, Some e))
  | (c, inr j) => (record_job j c, inr (j, None))
  end.

(** [Get], [List]. *)
Definition migr_Get (id : string) (c : coordinator) : option Job := co_jobs c !! id.
Definition migr_List (c : coordinator) : list Job := (map_to_list (co_jobs c)).*2.
Definition NewCoordinator (w : world) : coordinator := {| co_jobs := ∅; co_files := ∅; co_world := w |}.

(** ** What a migration does *)

(** The barrier is a round trip: it changes no row. *)
Lemma barrier_reads op j : op = "migration.lock" ∨ op = "migration.unlock" → respects reads (barrier op j).
Proof.
  intros Hop. assert (∀ f, respects reads (bump_repl f)) as Hb by (by intros f w).
  assert (∀ p ns, respects reads (Manager_Get p ns)) as Hg by (intros; apply (read_Get reads reads_still)).
  assert (∀ p ns f, f_Op f = op → respects reads (applyFrame p ns f)) as Ha.
  { intros p ns f E w. unfold applyFrame. rewrite E. destruct Hop as [-> | ->]; done. }
  unfold barrier, Propose, frame_handler. walk; auto.
Qed.

Definition with_store (w : world) (c : coordinator) : coordinator := {| co_jobs := co_jobs c; co_files := co_files c; co_world := w |}.

Lemma wp_on_store {A} j (m : W A) (Q : Job * err + A → coordinator → Prop) c :
  respects reads m →
  (∀ w e, reads (co_world c) w → Q (inl (j, e)) (with_store w c)) →
  (∀ w a, m (co_world c) = (w, inr a) → reads (co_world c) w → Q (inr a) (with_store w c)) → wp (on_store j m) Q c.
Proof.
  intros Hm He Ha. pose proof (respects_world reads m (co_world c) Hm) as Hr. unfold wp, on_store.
  destruct (m (co_world c)) as [w [e|a]] eqn:E; [by apply He|by apply Ha].
Qed.
Lemma reads_table w w' p ns : reads w w' → shard_table p ns w' = shard_table p ns w.
Proof. by intros [Ht _]. Qed.
#[local] Hint Resolve reads_time_now : walk.
#[local] Hint Extern 1 (respects reads db_op) => apply (read_db_op reads reads_still) : walk.
#[local] Hint Extern 1 (respects reads (Manager_Get _ _)) => apply (read_Get reads reads_still) : walk.

(** The job a run ends with, and the file it leaves. *)
Definition released (j k : Job) (c c' : coordinator) : Prop :=
  jb_ID k = jb_ID j ∧ jb_Status k = StatusReleased ∧ jb_Namespace k = jb_Namespace j ∧ jb_Error k = jb_Error j ∧
  ∃ p, ParsePrincipal (jb_Principal j) = inr p ∧
    let t := shard_table p (jb_Namespace j) (co_world c) in co_files c' !! copy_path k = Some t ∧ jb_Bytes k = file_bytes t.

(** One step on the store: the reads so far ([Hr]) grow by its own. *)
Ltac store_step Hr :=
  apply wp_bind, wp_on_store; cbn [co_world with_store];
  [ auto using barrier_reads with walk
  | let w := fresh in let e := fresh in let Hn := fresh in intros w e Hn; cbn [co_world co_jobs with_store]; split; [by etrans|done]
  | let w := fresh "w" in let a := fresh "a" in let E := fresh "E" in let Hn := fresh in
    intros w a E Hn; apply (transitivity Hr) in Hn; clear Hr; rename Hn into Hr ].

Lemma copy_shard_spec j p c : wp (copy_shard j p) (λ r c', reads (co_world c) (co_world c') ∧ co_jobs c' = co_jobs c ∧
  match r with
  | inl (k, _) => k = j
  | inr k => let t := shard_table p (jb_Namespace j) (co_world c) in k = job_copied (file_bytes t) j ∧ co_files c' = <[copy_path j := t]> (co_files c)
  end) c.
Proof.
  unfold copy_shard. assert (reads (co_world c) (co_world c)) as Hr by done.
  store_step Hr. store_step Hr. store_step Hr.
  apply wp_bind, wp_on_store; [by walk|intros ? ? Hn; split; [by etrans|done]|]. cbn [co_world with_store]. intros w4 t [= <- <-] _.
  rewrite (reads_table _ _ _ _ Hr). store_step Hr. by repeat wp_step.
Qed.
Lemma run_job_spec j c : wp (run_job j) (λ r c', reads (co_world c) (co_world c') ∧ co_jobs c' = co_jobs c ∧
  match r with inl (k, _) => jb_ID k = jb_ID j | inr k => released j k c c' end) c.
Proof.
  unfold run_job. cbv zeta. assert (reads (co_world c) (co_world c)) as Hr by done. store_step Hr.
  cbn [jb_Principal job_status]. destruct (ParsePrincipal (jb_Principal j)) as [e|p] eqn:Ep; [by wp_step|].
  apply wp_bind. eapply wp_mono; [apply copy_shard_spec|]. cbn [co_world with_store co_jobs co_files]. intros [[k e]|k] c1 (H1 & Ej & H2).
  { split; [by etrans|]. split; [done|]. by rewrite H2. }
  cbv zeta in H2. rewrite (reads_table _ _ _ _ Hr) in H2. destruct H2 as [-> Ef]. apply (transitivity Hr) in H1. clear Hr. rename H1 into Hr.
  apply wp_bind, wp_on_store; [auto using barrier_reads|intros w2 e Hn; cbn; rewrite Ej; split; [by etrans|done]|intros w2 a2 _ Hn].
  apply (transitivity Hr) in Hn. apply wp_bind, wp_on_store; [auto with walk|intros w3 e Hm; cbn; rewrite Ej; split; [by etrans|done]|intros w3 now _ Hm].
  wp_step. cbn [co_world with_store co_jobs co_files]. split; [by etrans|]. split; [done|]. repeat (split; [done|]). exists p. split; [done|].
  cbn [co_files with_store]. rewrite Ef. split; [|done]. apply lookup_insert_eq.
Qed.

(** How a migration ends. *)
Definition ended (j : Job) (c c' : coordinator) (r : err + Job * option err) : Prop :=
  match r with
  | inl _ => jb_Namespace j = "" ∧ c' = c
  | inr (k, Some e) => migr_Get (jb_ID k) c' = Some k ∧ jb_Status k = StatusFailed ∧ jb_Error k = err_text wording e
  | inr (k, None) => migr_Get (jb_ID k) c' = Some k ∧ jb_Status k = StatusReleased ∧
      ∃ p, ParsePrincipal (jb_Principal j) = inr p ∧
        let t := shard_table p (jb_Namespace j) (co_world c') in co_files c' !! copy_path k = Some t ∧ jb_Bytes k = file_bytes t
  end.
Lemma migrate_ends j c : let '(c', r) := Migrate j c in (∀ q k, row (co_world c') q k = row (co_world c) q k) ∧ ended j c c' r.
Proof.
  unfold Migrate. destruct (String.eqb_spec (jb_Namespace j) ""); [done|]. set (begin := mbind _ _).
  assert (wp begin (λ r c', reads (co_world c) (co_world c') ∧
    match r with inl _ => True | inr k => jb_Status k = StatusReleased ∧ jb_Namespace k = jb_Namespace j ∧
      ∃ p, ParsePrincipal (jb_Principal j) = inr p ∧
        let t := shard_table p (jb_Namespace j) (co_world c) in co_files c' !! copy_path k = Some t ∧ jb_Bytes k = file_bytes t end) c) as Hb.
  { assert (reads (co_world c) (co_world c)) as Hr by done. subst begin. apply wp_bind.
    assert (∀ (id : string) (c1 : coordinator), reads (co_world c) (co_world c1) → wp (now ← on_store j time_now; run_job (job_begun id now j)) (λ r c', reads (co_world c) (co_world c') ∧
      match r with inl _ => True | inr k => jb_Status k = StatusReleased ∧ jb_Namespace k = jb_Namespace j ∧
        ∃ p, ParsePrincipal (jb_Principal j) = inr p ∧
          let t := shard_table p (jb_Namespace j) (co_world c) in co_files c' !! copy_path k = Some t ∧ jb_Bytes k = file_bytes t end) c1) as Hrun.
    { intros id c1 Hc1. apply wp_bind, wp_on_store; [auto with walk|by intros; split; [by etrans|]|intros w1 now _ Hn]. apply (transitivity Hc1) in Hn.
      eapply wp_mono; [apply run_job_spec|]. cbn [co_world with_store]. intros [[k e]|k] c2 (H1 & _ & H2); [by split; [by etrans|]|]. split; [by etrans|].
      destruct H2 as (_ & ? & ? & _ & p & Hp & Hf). cbn [co_world with_store jb_Namespace job_begun jb_Principal] in *.
      rewrite (reads_table _ _ _ _ Hn) in Hf. split; [done|]. split; [done|]. by exists p. }
    case_match; [|wp_step; by apply Hrun]. apply wp_bind, wp_on_store; [auto with walk|by intros|intros w1 t _ Hn]. wp_step. by apply Hrun. }
  unfold wp in Hb. destruct (begin c) as [c' [[k e]|k]]; destruct Hb as [Hr Hk].
  - split; [intros; by apply tables_row, Hr|]. split; [|done]. apply lookup_insert_eq.
  - split; [intros; by apply tables_row, Hr|]. split; [apply lookup_insert_eq|]. destruct Hk as (? & _ & p & ? & Hf). split; [done|]. exists p. split; [done|].
    cbn [co_world record_job co_files]. by rewrite (reads_table _ _ _ _ Hr).
Qed.

(** ** Where nothing fails, the job is released *)

Section Quiet.
Context `{!NoFaults} (p : Principal) (ns : string).

Definition goes {A} (m : W A) : Prop := ∀ w, serves w p ns → wp m (λ r w', (∃ a, r = inr a) ∧ serves w' p ns) w.
Lemma goes_get : goes (Manager_Get p ns).
Proof.
  intros w Hs. apply wp_Get; [intros e w' Hw Hn; exfalso; by apply Hn|]. intros w' [_ Hw] _ _. split; [by eexists|]. by eapply serves_rest.
Qed.
Lemma goes_db_op : goes db_op.
Proof. intros w Hs. apply wp_db_op; [done|]. intros w' [_ Hw] _. split; [by eexists|]. by eapply serves_rest. Qed.
Lemma goes_barrier op j : op = "migration.lock" ∨ op = "migration.unlock" → ParsePrincipal (jb_Principal j) = inr p → jb_Namespace j = ns →
  goes (barrier op j).
Proof.
  intros Hop Hp Hns w Hs. unfold barrier. do 2 wp_step. case_match; [|wp_step; by split; [eexists|]]. unfold Propose, bump_repl. do 2 wp_step.
  do 2 wp_step. unfold frame_handler. cbn [f_Principal f_Namespace]. rewrite Hp, Hns. wp_step.
  eapply wp_mono; [apply goes_get; by apply Hs|]. intros r1 w1 [[a ->] Hs1].
  assert (wp (applyFrame p ns {| f_Principal := jb_Principal j; f_Namespace := ns; f_Seq := 0; f_Op := op; f_Key := "__migration/" +:+ jb_ID j; f_Value := JStr (jb_To j) |})
    (λ r w', r = inr tt ∧ w' = w1) w1) as Ha by (unfold applyFrame; destruct Hop as [-> | ->]; done).
  eapply wp_mono; [exact Ha|]. intros r w2 [-> ->]. wp_step. split; [by eexists|done].
Qed.
Lemma on_store_goes {A B} j (m : W A) (f : A → CM B) (Q : Job * err + B → coordinator → Prop) c :
  goes m → serves (co_world c) p ns → (∀ a c', serves (co_world c') p ns → wp (f a) Q c') → wp (on_store j m ≫= f) Q c.
Proof.
  intros Hm Hs Hf. apply wp_bind. unfold wp at 1, on_store. specialize (Hm _ Hs). unfold wp in Hm. destruct (m (co_world c)) as [w r].
  destruct Hm as [[a ->] Hw]. by apply Hf.
Qed.
Lemma goes_gets {A} (f : world → A) : goes (gets f).
Proof. intros w Hs. split; [by eexists|done]. Qed.
Lemma goes_time : goes time_now.
Proof. intros w Hs. split; [by eexists|done]. Qed.

Lemma run_job_goes j c : ParsePrincipal (jb_Principal j) = inr p → jb_Namespace j = ns → serves (co_world c) p ns →
  wp (run_job j) (λ r _, ∃ k, r = inr k) c.
Proof.
  intros Hp Hns Hs. unfold run_job. cbv zeta. apply on_store_goes; [by apply goes_barrier; [left| |]|done|]. intros _ c1 Hs1. cbn [jb_Principal job_status]. rewrite Hp.
  apply wp_bind. unfold copy_shard. cbn [jb_Namespace job_status]. rewrite Hns.
  apply on_store_goes; [apply goes_get|done|]. intros _ c2 Hs2. apply on_store_goes; [apply goes_db_op|done|]. intros _ c3 Hs3.
  apply on_store_goes; [apply goes_db_op|done|]. intros _ c4 Hs4. apply on_store_goes; [apply goes_gets|done|]. intros t c5 Hs5.
  apply on_store_goes; [apply goes_db_op|done|]. intros _ c6 Hs6. unfold copy_file. do 3 wp_step.
  apply on_store_goes; [by apply goes_barrier; [right| |]|done|]. intros _ c7 Hs7. apply on_store_goes; [apply goes_time|done|]. intros now c8 _. wp_step. by eexists.
Qed.
Lemma migrate_goes j c : ParsePrincipal (jb_Principal j) = inr p → jb_Namespace j = ns → serves (co_world c) p ns →
  ∃ k, (Migrate j c).2 = inr (k, None).
Proof.
  intros Hp Hns Hs. unfold Migrate. destruct (String.eqb_spec (jb_Namespace j) "") as [E|_].
  { destruct Hs as (_ & Hv & _). rewrite <-Hns, E in Hv. done. }
  set (begin := mbind _ _). assert (wp begin (λ r _, ∃ k, r = inr k) c) as Hb.
  { subst begin. apply wp_bind.
    assert (∀ (id : string) c1, serves (co_world c1) p ns → wp (now ← on_store j time_now; run_job (job_begun id now j)) (λ r _, ∃ k, r = inr k) c1) as Hrun.
    { intros id c1 Hs1. apply on_store_goes; [apply goes_time|done|]. intros now c2 Hs2. by apply run_job_goes. }
    case_match; [|wp_step; by apply Hrun]. apply on_store_goes; [apply goes_time|done|]. intros t c1 Hs1. wp_step. by apply Hrun. }
  unfold wp in Hb. destruct (begin c) as [c' r]. destruct Hb as [k ->]. by exists k.
Qed.
End Quiet.

(** (C28) A migration copies and changes nothing: whatever it answers, no row of any tenant
    changes; it is refused without a record exactly when no namespace is named; it ends
    released only after the whole shard was copied as it stands, and otherwise failed with
    its error, and the table of jobs has it as it ended; and where no operation on a
    database fails it is released. *)
Theorem migration_copies j c :
  let '(c', r) := Migrate j c in
  (∀ q k, row (co_world c') q k = row (co_world c) q k) ∧
  (∀ p, NoFaults → ParsePrincipal (jb_Principal j) = inr p → serves (co_world c) p (jb_Namespace j) → ∃ k, r = inr (k, None)) ∧
  ended j c c' r.
Proof.
  pose proof (λ p HN Hp Hs, @migrate_goes HN p (jb_Namespace j) j c Hp eq_refl Hs) as Hgo. destruct (Migrate j c) as [c' r] eqn:E.
  enough ((∀ q k, row (co_world c') q k = row (co_world c) q k) ∧ ended j c c' r) as [Hq Hr] by (split; [done|]; by split; [intros p HN Hp Hs; by apply (Hgo p HN)|]).
  pose proof (migrate_ends j c) as Hm. by rewrite E in Hm.
Qed.
End Migration.

Module MigrationDemo.
#[local] Existing Instance test_env.
#[local] Existing Instance test_segment_rule.

Definition word (e : err) : string := "error".
Definition acme : Principal := {| Org := "acme"; Project := ""; User := "" |}.
Definition bytes (t : table) : Z := 4096 * (1 + Z.of_nat (size t)).
Definition seeded : world := ((Manager_Get acme "jobs";; Shard_Put acme "jobs" "wf/jobs/a" (JNum 1)) (new_world true)).1.
Definition ask (ns to : string) : Job :=
  {| jb_ID := ""; jb_Principal := Principal_String acme; jb_Namespace := ns; jb_From := ""; jb_To := to; jb_Status := ""; jb_Error := "";
     jb_Bytes := 0; jb_StartedAt := None; jb_FinishedAt := None |}.

Lemma migration_copies_witness :
  let '(c', r) := Migrate word bytes (ask "jobs" "node-2") (NewCoordinator seeded) in
  (∀ q k, row (co_world c') q k = row seeded q k) ∧
  (∀ p, NoFaults → ParsePrincipal (Principal_String acme) = inr p → serves seeded p "jobs" → ∃ k, r = inr (k, None)) ∧
  ended word bytes (ask "jobs" "node-2") (NewCoordinator seeded) c' r.
Proof. exact (migration_copies word bytes (ask "jobs" "node-2") (NewCoordinator seeded)). Defined.

Example outcomes :
  (λ ns, match (Migrate word bytes (ask ns "node-2") (NewCoordinator seeded)).2 with
         | inl _ => ("refused", 0)
         | inr (k, _) => (jb_Status k, jb_Bytes k)
         end) <$> ["jobs"; ""; "../etc"] = [("released", 8192); ("refused", 0); ("failed", 0)].
Proof. by vm_compute. Qed.

(** The barrier holds nobody back: a write after the lock is taken and accepted is not in
    the copy of a run that sealed before it. *)
Example lock_does_not_lock :
  let locked := (barrier "migration.lock" (ask "jobs" "node-2") seeded).1 in
  ((barrier "migration.lock" (ask "jobs" "node-2") seeded).2, (Shard_Put acme "jobs" "wf/jobs/b" (JNum 2) locked).2) = (inr tt, inr tt).
Proof. by vm_compute. Qed.
End MigrationDemo.
