(* ===== verification/SurfaceSpec.v ===== *)
(** The surface and the engine behind it: the mux and the table of routes serve the
    same operations; whatever a caller sends, the engine sees at most one request of
    the caller's tenant, in a namespace that is no path; a redirect leads to a path
    that is not redirected again; the summaries of task queues count the runs. *)

From Stdlib Require Import Ascii ZArith Lia.
From stdpp Require Import prelude strings gmap.
From S2P Require Import Prelude GoStrings Json Types EngineTypes Env Principal Router Shard GoTime Temporal Dispatch Events World WorldFacts Failure Workflow Durable Commands Visibility Activities Schedules Deployments Admin Surface Frames RunInv Creates Upkeep Reach Serves.

Local Open Scope Z_scope.

(** ** Routes *)

(** A row of the table and the segments of a path below a namespace. *)
Definition fits_segment (pat s : string) : bool := match param_name pat with Some _ => negb (String.eqb s "") | None => String.eqb pat s end.
Definition fits (pat parts : list string) : bool :=
  (length pat =? length parts)%nat && forallb (λ x, fits_segment x.1 x.2) (zip pat parts).
Definition routed (m : method) (parts : list string) : bool :=
  existsb (λ r, bool_decide (r.1 = m) && fits (str_split "/" r.2) parts) contents.

(** What the router promises: a row it chooses is one of the method that fits, its
    parameters are the segments that matched them, and it gives up only when no row
    fits. *)
Record router_ok (route : method → list string → option (string * (string → string))) : Prop := {
  ro_sound m parts path param : route m parts = Some (path, param) →
    (m, path) ∈ contents ∧
    Forall2 (λ a s, match param_name a with Some name => param name = s | None => a = s end) (str_split "/" path) parts;
  ro_complete m parts : route m parts = None → routed m parts = false
}.

(** The resource of a row is spelled out. *)
Definition row_shape (r : method * string) : bool :=
  bool_decide (str_split "/" r.2 = row_kind r.2 :: row_rest r.2) && bool_decide (param_name (row_kind r.2) = None).
Lemma rows_shaped : forallb row_shape contents = true.
Proof. by vm_compute. Qed.

Lemma row_shaped m path : (m, path) ∈ contents → str_split "/" path = row_kind path :: row_rest path ∧ param_name (row_kind path) = None.
Proof.
  intros Hr. pose proof rows_shaped as Hs. rewrite forallb_forall in Hs. specialize (Hs _ (proj1 (list_elem_of_In _ _) Hr)).
  by apply andb_true_iff in Hs as [H1%bool_decide_eq_true H2%bool_decide_eq_true].
Qed.

(** What a row hands over is the path below the resource. *)
Lemma segments_match param rest sub :
  Forall2 (λ a s, match param_name a with Some name => param name = s | None => a = s end) rest sub → segments param rest = sub.
Proof. induction 1 as [|a s rest sub Ha _ IH]; [done|]. unfold segments in *. cbn [fmap list_fmap]. rewrite IH. f_equal. by destruct (param_name a). Qed.

(** ** Paths *)

Lemma cut_segment s : cut "/" s = None → segment s.
Proof.
  unfold segment. induction s as [|c s IH]; [done|]. cbn [cut contains_byte]. destruct (Ascii.eqb c "/"); [done|].
  destruct (cut "/" s) as [[]|]; [done|]. intros _. by apply IH.
Qed.
Lemma cut_first_segment s a b : cut "/" s = Some (a, b) → segment a.
Proof. intros E. destruct (cut_first "/" a b) as (a' & b' & E' & Ha & _). rewrite <-(cut_some _ _ _ _ E), E in E'. by injection E' as -> ->. Qed.
Lemma join_cons a b l : str_join "/" (a :: b :: l) = a +:+ "/" +:+ str_join "/" (b :: l).
Proof. done. Qed.
Lemma join_length l : (length l ≤ S (String.length (str_join "/" l)))%nat.
Proof.
  induction l as [|a [|b l] IH]; [cbn; lia|cbn; lia|]. rewrite join_cons, !slen_app. cbn [length String.length] in *. lia.
Qed.

Lemma split_go_join n l : l ≠ [] → Forall segment l → (length l ≤ S n)%nat → str_split_go n "/" (str_join "/" l) = l.
Proof.
  revert n. induction l as [|a [|b l] IH]; intros n Hne Hl Hn; [done| |].
  - apply Forall_cons in Hl as [Ha _]. destruct n; cbn [str_split_go str_join]; [done|]. by rewrite cut_none.
  - apply Forall_cons in Hl as [Ha Hl]. cbn [length] in Hn. destruct n as [|n]; [lia|]. rewrite join_cons.
    cbn [str_split_go]. rewrite cut_app by done. f_equal. apply IH; [done|done|cbn [length]; lia].
Qed.
(** Splitting what was joined, and the pieces of a split. *)
Lemma split_join l : l ≠ [] → Forall segment l → str_split "/" (str_join "/" l) = l.
Proof. intros Hne Hl. apply split_go_join; [done|done|apply join_length]. Qed.
Lemma split_pieces n s : (String.length s ≤ n)%nat → Forall segment (str_split_go n "/" s).
Proof.
  revert s. induction n as [|n IH]; intros s Hs; cbn [str_split_go].
  { destruct s; [|cbn in Hs; lia]. by apply Forall_singleton. }
  destruct (cut "/" s) as [[a b]|] eqn:E; [|apply Forall_singleton; by apply cut_segment].
  apply Forall_cons. split; [by eapply cut_first_segment|]. apply IH. apply cut_some in E as ->. rewrite slen_app in Hs. cbn in Hs. lia.
Qed.

(** A segment that cleaning leaves alone. *)
Definition tidy_segment (s : string) : Prop := segment s ∧ s ≠ "" ∧ s ≠ "." ∧ s ≠ "..".

Lemma clean_step_tidy acc s : tidy_segment s → clean_step acc s = s :: acc.
Proof. intros (_ & H1 & H2 & H3). unfold clean_step. by rewrite !(proj2 (String.eqb_neq _ _)). Qed.
Lemma clean_steps l acc : Forall segment l → Forall tidy_segment acc → Forall tidy_segment (foldl clean_step acc l).
Proof.
  revert acc. induction l as [|s l IH]; intros acc Hl Ha; [done|]. apply Forall_cons in Hl as [Hs Hl]. cbn [foldl]. apply IH; [done|].
  unfold clean_step. destruct (String.eqb_spec s ""); [done|]. destruct (String.eqb_spec s "."); [done|]. cbn [orb].
  destruct (String.eqb_spec s ".."); [destruct acc; [done|by apply Forall_cons in Ha as [_ ?]]|]. by apply Forall_cons.
Qed.
Lemma clean_tidy l : Forall tidy_segment l → clean_segments l = l.
Proof.
  intros Hl. unfold clean_segments. assert (∀ acc, foldl clean_step acc l = reverse l ++ acc) as ->; [|by rewrite app_nil_r, reverse_involutive].
  induction Hl as [|s l Hs _ IH]; intros acc; [done|]. cbn [foldl]. by rewrite clean_step_tidy, IH, reverse_cons, <-app_assoc.
Qed.
Lemma clean_segments_tidy s : Forall tidy_segment (clean_segments (str_split "/" s)).
Proof. apply Forall_reverse, clean_steps; [by apply split_pieces|by apply Forall_nil]. Qed.

(** A clean path is its own cleaning, with or without a slash at its end. *)
Lemma Clean_rooted l : Forall tidy_segment l → Clean (rooted l) = rooted l.
Proof.
  intros Hl. destruct l as [|a l]; [done|]. unfold Clean. change (rooted (a :: l)) with (str_join "/" ("" :: a :: l)) at 1.
  rewrite split_join; [|done|apply Forall_cons; split; [done|by eapply Forall_impl; [exact Hl|intros ? []]]].
  change (clean_segments ("" :: a :: l)) with (clean_segments (a :: l)). by rewrite clean_tidy.
Qed.
Lemma join_snoc l s : l ≠ [] → str_join "/" (l ++ [s]) = str_join "/" l +:+ "/" +:+ s.
Proof.
  induction l as [|a [|b l] IH]; intros Hl; [done..|]. change ((a :: b :: l) ++ [s]) with (a :: b :: (l ++ [s])). rewrite !join_cons.
  change (b :: (l ++ [s])) with ((b :: l) ++ [s]). by rewrite IH, !sapp_assoc.
Qed.
Lemma Clean_slash l : l ≠ [] → Forall tidy_segment l → Clean (rooted l +:+ "/") = rooted l.
Proof.
  intros Hne Hl. unfold Clean. replace (rooted l +:+ "/") with (str_join "/" (("" :: l) ++ [""])).
  2: { rewrite join_snoc by done. destruct l; [done|]. rewrite join_cons. unfold rooted. by rewrite !sapp_assoc. }
  rewrite split_join; [|done|].
  2: { apply Forall_app. split; [apply Forall_cons; split; [done|by eapply Forall_impl; [exact Hl|intros ? []]]|by apply Forall_singleton]. }
  replace (clean_segments (("" :: l) ++ [""])) with (clean_segments l); [by rewrite clean_tidy|].
  unfold clean_segments. by rewrite foldl_app.
Qed.

Lemma ends_app a b : b ≠ "" → ends_slash (a +:+ b) = ends_slash b.
Proof.
  intros Hb. induction a as [|c a IH]; [done|]. change (String c a +:+ b) with (String c (a +:+ b)). cbn [ends_slash].
  destruct (a +:+ b) as [|d r] eqn:E; [by destruct a|]. by rewrite IH.
Qed.
Lemma segment_no_slash s : segment s → ends_slash s = false.
Proof.
  unfold segment. induction s as [|c s IH]; [done|]. cbn [contains_byte ends_slash]. intros [Hc Hs]%orb_false_iff. destruct s; [done|by apply IH].
Qed.
Lemma joined_no_slash l : l ≠ [] → Forall tidy_segment l → str_join "/" l ≠ "" ∧ ends_slash (str_join "/" l) = false.
Proof.
  induction l as [|a [|b l] IH]; intros Hne Hl; [done| |].
  - apply Forall_cons in Hl as [(Ha & Hn & _) _]. split; [done|by apply segment_no_slash].
  - apply Forall_cons in Hl as [_ Hl]. rewrite join_cons. destruct IH as [H1 H2]; [done|done|]. split; [by destruct a|].
    rewrite <-sapp_assoc, ends_app by done. done.
Qed.
Lemma rooted_no_slash l : l ≠ [] → Forall tidy_segment l → ends_slash (rooted l) = false.
Proof. intros Hne Hl. destruct (joined_no_slash l) as [H1 H2]; [done|done|]. unfold rooted. by rewrite ends_app. Qed.
Lemma rooted_prefix l s : has_prefix (rooted l +:+ s) "/" = true.
Proof. unfold rooted. rewrite sapp_assoc. apply has_prefix_app. Qed.
Lemma rooted_root l : Forall tidy_segment l → rooted l = "/" → l = [].
Proof. intros Hl E. destruct l as [|a l]; [done|]. by pose proof (rooted_no_slash (a :: l) ltac:(done) Hl) as Hs; rewrite E in Hs. Qed.

Lemma tidy_rooted l : Forall tidy_segment l → tidy (rooted l) = (rooted l, false).
Proof.
  intros Hl. destruct l as [|a l]; [done|]. unfold tidy. rewrite (proj2 (String.eqb_neq _ _)) by done.
  pose proof (rooted_prefix (a :: l) "") as Hp. rewrite sapp_nil_r in Hp. rewrite Hp, Clean_rooted, rooted_no_slash by done. cbn [andb].
  by rewrite String.eqb_refl.
Qed.
Lemma tidy_slash l : l ≠ [] → Forall tidy_segment l → tidy (rooted l +:+ "/") = (rooted l +:+ "/", false).
Proof.
  intros Hne Hl. unfold tidy. rewrite (proj2 (String.eqb_neq _ _)) by done. rewrite rooted_prefix, Clean_slash, ends_app by done.
  assert (String.eqb (rooted l) "/" = false) as -> by (apply String.eqb_neq; intros E; by apply Hne, rooted_root).
  cbn [negb andb ends_slash Ascii.eqb]. rewrite slen_app, Nat.eqb_refl, has_prefix_app. cbn [andb]. by rewrite String.eqb_refl.
Qed.

(** A path of one byte more than a prefix of it that has no slash to end with. *)
Lemma one_more q c : ends_slash q = true → String.length q = (String.length c + 1)%nat → has_prefix q c = true → q = c +:+ "/".
Proof.
  intros He Hn Hp. apply has_prefix_spec in Hp as [r ->]. rewrite slen_app in Hn. destruct r as [|d [|? ?]]; [cbn in Hn; lia| |cbn in Hn; lia].
  rewrite ends_app in He by done. cbn in He. by apply Ascii.eqb_eq in He as ->.
Qed.

(** A redirect leads to an address that is not redirected again: the path [tidy]
    answers is one it leaves alone, whatever path came in. *)
Theorem redirect_once path : tidy (tidy path).1 = ((tidy path).1, false).
Proof.
  unfold tidy at 2 3. destruct (String.eqb_spec path ""); [done|]. set (q := if has_prefix path "/" then _ else _).
  pose proof (clean_segments_tidy q) as Hl. cbv zeta. unfold Clean. set (l := clean_segments _) in *. cbn [fst].
  destruct (ends_slash q && negb (String.eqb (rooted l) "/")) eqn:E; [|by apply tidy_rooted].
  apply andb_true_iff in E as [Hq Hn%negb_true_iff%String.eqb_neq].
  assert (l ≠ []) as Hne by (intros ->; by apply Hn). destruct (_ && _) eqn:Hc; [|by apply tidy_slash].
  apply andb_true_iff in Hc as [Hlen%Nat.eqb_eq Hp]. rewrite (one_more _ _ Hq Hlen Hp). by apply tidy_slash.
Qed.

Section Routes.
Context `{Env} (wording : err → string) (getenv : string → string) (workers : workerRegistry).

(** Every branch of a handler refuses, or the table has a row for it. *)
Ltac walk_handler Hs Hno rq :=
  destruct rq as [m ? ? ?]; cbn [cl_method] in *;
  do 5 try (match goal with l : list string |- _ => destruct l end; [|rewrite ?Forall_cons in Hs; destruct Hs as [? Hs]]); destruct m; try reflexivity;
  repeat lazymatch goal with
         | |- (if String.eqb ?a ?b then _ else _) = _ => destruct (String.eqb_spec a b); subst; try reflexivity
         | |- (if String.eqb ?a ?b && String.eqb ?c ?d then _ else _) = _ =>
             destruct (String.eqb_spec a b); [destruct (String.eqb_spec c d)|]; subst; try reflexivity
         end;
  exfalso; repeat match goal with Hx : ?a ≠ "" |- _ => is_var a; destruct a; [done|clear Hx] end; by vm_compute in Hno.

Lemma resource_refuses rq p ns kind sub :
  Forall (λ s, s ≠ "") sub → routed (cl_method rq) (kind :: sub) = false → resource wording workers rq p ns kind sub = refuse.
Proof.
  intros Hs Hno. unfold resource.
  repeat (case_match; [match goal with Hk : String.eqb _ _ = true |- _ => apply String.eqb_eq in Hk; subst end|]); [..|done].
  - unfold handleWorkflows. walk_handler Hs Hno rq.
  - unfold handleSchedules. walk_handler Hs Hno rq.
  - unfold handleBatches. walk_handler Hs Hno rq.
  - unfold handleDeployments. walk_handler Hs Hno rq.
  - unfold handleNexus. walk_handler Hs Hno rq.
  - unfold handleIdentities. walk_handler Hs Hno rq.
  - unfold handleTaskQueues. walk_handler Hs Hno rq.
  - unfold handleWorkers. walk_handler Hs Hno rq.
  - unfold handleSearchAttributes. walk_handler Hs Hno rq.
  - unfold handleNamespaceMetadata. walk_handler Hs Hno rq.
  - unfold handleArchival. walk_handler Hs Hno rq.
  - unfold handleActivities. replace (existsb _ sub) with false; [walk_handler Hs Hno rq|].
    symmetry. clear Hno. induction Hs as [|s sub Hs' _ IH]; [done|]. cbn [existsb]. by rewrite (proj2 (String.eqb_neq _ _) Hs'), IH.
Qed.
Lemma grammar_ok ns rest : validIdent ns = true → Forall (λ s, validPathSegment s = true) rest → grammar ns rest = None.
Proof. intros Hn Hr. unfold grammar. rewrite Hn. cbn [negb]. by rewrite (proj2 (forallb_forall _ _) (proj1 (List.Forall_forall _ _) Hr)). Qed.

Lemma every_segment f s : (∀ c, f c = true → c ≠ "/"%char) → every_byte f s = true → segment s.
Proof.
  intros Hf. unfold segment. induction s as [|c s IH]; [done|]. cbn [every_byte contains_byte]. intros [Hc Hs]%andb_true_iff.
  rewrite IH by done. apply Hf, Ascii.eqb_neq in Hc. by rewrite Hc.
Qed.
Lemma ident_tidy s : validIdent s = true → tidy_segment s.
Proof.
  unfold validIdent. destruct (String.eqb_spec s ""); [done|]. destruct (64 <? _)%nat; [done|]. destruct (String.eqb_spec s "."); [done|].
  destruct (String.eqb_spec s ".."); [done|]. cbn [orb]. intros Hb. split; [|done]. eapply every_segment; [|exact Hb]. by intros c Hc ->.
Qed.
Lemma path_tidy s : s ≠ "" → validPathSegment s = true → tidy_segment s.
Proof.
  unfold validPathSegment. intros Hs. destruct (String.eqb_spec s "."); [done|]. destruct (String.eqb_spec s ".."); [done|]. cbn [orb].
  intros Hb. split; [|done]. eapply every_segment; [|exact Hb]. by intros c Hc ->.
Qed.
Lemma address_tidy ns parts : tidy_segment ns → Forall tidy_segment parts → tidy (address ns parts) = (address ns parts, false).
Proof. intros Hn Hp. apply tidy_rooted. by repeat (apply Forall_cons; split; [by repeat split|]); apply Forall_cons. Qed.


End Routes.

(** ** What a call does to the engine *)

Section Requests.
Context `{Env} (wording : err → string) (getenv : string → string) (workers : workerRegistry).

(** The answer to an activity call reads the activity again. *)
Lemma handles_activity p ns id run (m : W unit) : asks (eq ns) p m → handles (eq ns) p (activityResult wording p ns id run m).
Proof.
  intros (r & Hr & E) w. right. exists r. split; [done|]. rewrite <-E, <-(run_op_world m). unfold activityResult.
  unfold mbind at 1, M_bind at 1. destruct (run_op m w) as [w' [e|[e|a]]]; [done|done|]. cbn [fst].
  rewrite then_world by done. apply respects_world, reads_activity.
Qed.

(** Every branch of a handler reads, or asks for one thing. *)
Ltac branch :=
  repeat case_match;
  first [ apply handles_activity; asked
        | apply handles_then; [by intros []|]; first [left; unfold DescribeBatch, ListBatches, ListDeployments, DescribeDeployment, DescribeSchedule, ListSchedules, ListSearchAttributes, ListNexusEndpoints, ListIdentities, ListWorkflows, DescribeNamespace; solve [walk] | right; asked]
        | apply handles_reads; solve [walk] ].

Tactic Notation "handler" reference(f) := intros; unfold f, refuse, bad_body, reply_with; branch.

Lemma workflows_handles rq p ns sub : handles (eq ns) p (handleWorkflows wording rq p ns sub).
Proof. handler handleWorkflows. Qed.
Lemma schedules_handles rq p ns sub : handles (eq ns) p (handleSchedules wording rq p ns sub).
Proof. handler handleSchedules. Qed.
Lemma batches_handles rq p ns sub : handles (eq ns) p (handleBatches wording rq p ns sub).
Proof. handler handleBatches. Qed.
Lemma deployments_handles rq p ns sub : handles (eq ns) p (handleDeployments wording workers rq p ns sub).
Proof. handler handleDeployments. Qed.
Lemma activities_handles rq p ns sub : handles (eq ns) p (handleActivities wording rq p ns sub).
Proof. handler handleActivities. Qed.
Lemma attributes_handles rq p ns sub : handles (eq ns) p (handleSearchAttributes wording rq p ns sub).
Proof. handler handleSearchAttributes. Qed.
Lemma metadata_handles rq p ns sub : handles (eq ns) p (handleNamespaceMetadata wording rq p ns sub).
Proof. handler handleNamespaceMetadata. Qed.
Lemma nexus_handles rq p ns sub : handles (eq ns) p (handleNexus wording rq p ns sub).
Proof. handler handleNexus. Qed.
Lemma identities_handles rq p ns sub : handles (eq ns) p (handleIdentities wording rq p ns sub).
Proof. handler handleIdentities. Qed.
Lemma queues_handles rq p ns sub : handles (eq ns) p (handleTaskQueues wording workers rq p ns sub).
Proof. handler handleTaskQueues. Qed.
Lemma workers_handles rq p ns sub : handles (eq ns) p (handleWorkers workers rq ns sub).
Proof. handler handleWorkers. Qed.
Lemma archival_handles rq p ns sub : handles (eq ns) p (handleArchival rq sub).
Proof. handler handleArchival. Qed.
Lemma namespace_handles rq p ns : handles (eq ns) p (namespace wording rq p ns).
Proof. handler namespace. Qed.

(** The namespace a path under the root of namespaces names, when it is no path itself. *)
Definition path_ns (parts : list string) (ns : string) : Prop := head parts = Some ns ∧ segment ns.

Lemma below_handles rq p parts : handles (path_ns parts) p (below wording workers rq p parts).
Proof.
  unfold below, refuse, reply_with. destruct parts as [|ns rest]; [by apply handles_reads, resp_ret, _|].
  case_match; [by apply handles_reads, resp_ret, _|]. destruct (grammar ns rest) eqn:E; [by apply handles_reads, resp_ret, _|].
  assert (segment ns) as Hns.
  { unfold grammar in E. destruct (validIdent ns) eqn:Ev; [|done]. by apply ident_tidy in Ev as []. }
  apply (handles_weaken (eq ns)); [by intros ? <-|]. destruct rest as [|kind sub]; [by apply namespace_handles|]. unfold resource.
  repeat case_match; auto using workflows_handles, schedules_handles, batches_handles, deployments_handles, activities_handles, attributes_handles,
    metadata_handles, nexus_handles, identities_handles, queues_handles, workers_handles, archival_handles. by apply handles_reads, resp_ret, _.
Qed.

(** The namespaces a call to an address may work in. *)
Definition named_in (path ns : string) : Prop :=
  ∃ rest, strip_prefix "/v1/tasks/namespaces/" path = Some rest ∧ path_ns (str_split "/" rest) ns.

(** One call: reads, or one request with reads beside it. *)
Lemma http_steps rq p path w :
  let w' := (HTTPHandler wording getenv workers rq p path w).1 in
  reads w w' ∨ ∃ r, (named_in path (asked_ns r) ∨ ∃ n, r = RRegister n) ∧ reads (serve p r w).1 w'.
Proof.
  intros w'. subst w'. unfold HTTPHandler.
  assert (∀ m : W reply, handles (named_in path) p m → reads w (m w).1 ∨ ∃ r, (named_in path (asked_ns r) ∨ ∃ n, r = RRegister n) ∧ reads (serve p r w).1 (m w).1) as Hh.
  { intros m Hm. destruct (Hm w) as [|(r & ? & ?)]; eauto. }
  case_match; [apply Hh; by handler settings|]. case_match.
  - unfold namespaces, bad_body, refuse, reply_with. destruct (cl_method rq); [apply Hh; unfold ListNamespaces; by branch| |apply Hh; by branch..].
    destruct (decode rq) as [n|]; [|apply Hh; by branch]. right. exists (RRegister n). split; [by right; exists n|].
    unfold answer_data. by rewrite then_world.
  - case_match; [apply Hh; unfold endpoints, ListAllNexusEndpoints, refuse; by branch|]. apply Hh. destruct (strip_prefix _ path) as [rest|] eqn:E; [|by handler refuse].
    apply (handles_weaken (path_ns (str_split "/" rest))); [|apply below_handles]. intros ns Hns. by exists rest.
Qed.
Lemma http_only `{!SegmentRule} rq p path w q k : q ≠ p → row (HTTPHandler wording getenv workers rq p path w).1 q k = row w q k.
Proof.
  intros Hq. destruct (http_steps rq p path w) as [[Ht _]|(r & _ & [Ht _])]; [by apply tables_row|].
  rewrite (tables_row _ _ _ _ Ht). by apply serve_only.
Qed.

(** (C7) Whatever a caller sends over HTTP, the engine either only reads, or serves one
    request of the caller's tenant in the namespace the path names, which is no path itself
    (or registers the namespace the body names), with nothing but reads beside it; and no
    row of another tenant changes. So what holds of every sequence of requests holds of the surface. *)
Theorem http_serves_requests `{!SegmentRule} rq p path w :
  let w' := (HTTPHandler wording getenv workers rq p path w).1 in
  (reads w w' ∨ ∃ r, (named_in path (asked_ns r) ∨ ∃ n, r = RRegister n) ∧ reads (serve p r w).1 w') ∧
  ∀ q k, q ≠ p → row w' q k = row w q k.
Proof. intros w'. split; [apply http_steps|]. intros q k. apply http_only. Qed.
End Requests.

(** ** Task queues *)

Definition on_queue (q : string) (rows : list WorkflowExecution) : list WorkflowExecution := filter (λ wf, queue_of wf = q) rows.
Definition running (rows : list WorkflowExecution) : list WorkflowExecution := filter (λ wf, is_running wf = true) rows.

Lemma add_run_lookup m wf q :
  add_run m wf !! q = if decide (queue_of wf = q)
                      then Some (count_run wf (default {| tq_Name := q; tq_Workflows := 0; tq_Running := 0; tq_LatestStart := "" |} (m !! q)))
                      else m !! q.
Proof. unfold add_run. cbv zeta. destruct (decide (queue_of wf = q)) as [->|Hq]; [by rewrite lookup_insert_eq|by rewrite lookup_insert_ne]. Qed.

Lemma on_queue_snoc q rows wf : on_queue q (rows ++ [wf]) = on_queue q rows ++ if decide (queue_of wf = q) then [wf] else [].
Proof. unfold on_queue. by rewrite filter_app. Qed.
Lemma running_snoc rows wf : length (running (rows ++ [wf])) = (length (running rows) + if is_running wf then 1 else 0)%nat.
Proof.
  unfold running. rewrite filter_app, length_app. f_equal. destruct (is_running wf) eqn:E; [by rewrite filter_cons_True|].
  by rewrite filter_cons_False by (by rewrite E).
Qed.

Lemma summary_counts rows q :
  match foldl add_run ∅ rows !! q with
  | None => on_queue q rows = []
  | Some s => tq_Name s = q ∧ tq_Workflows s = Z.of_nat (length (on_queue q rows)) ∧
              tq_Running s = Z.of_nat (length (running (on_queue q rows)))
  end.
Proof.
  induction rows as [|wf rows IH] using rev_ind; [done|]. rewrite foldl_app. cbn [foldl]. rewrite add_run_lookup, on_queue_snoc.
  case_decide; [|by rewrite app_nil_r]. rewrite length_app, running_snoc. cbn [length].
  destruct (foldl add_run ∅ rows !! q) as [s|]; cbn [default from_option id count_run tq_Name tq_Workflows tq_Running].
  - destruct IH as (H1 & H2 & H3). split_and!; [done|lia|destruct (is_running wf); lia].
  - rewrite IH. cbn. destruct (is_running wf); split_and!; done.
Qed.

(** The list of task queues names each queue of a run once and counts its runs as the
    page of that queue does. *)
Lemma queues_counted rows :
  NoDup (tq_Name <$> aggregateTaskQueues rows) ∧
  (∀ wf, wf ∈ rows → queue_of wf ∈ (tq_Name <$> aggregateTaskQueues rows)) ∧
  ∀ s, s ∈ aggregateTaskQueues rows →
    taskQueueDetail rows (tq_Name s) =
    JObj [("name", JStr (tq_Name s)); ("running", JNum (tq_Running s)); ("total", JNum (tq_Workflows s)); ("workflows", to_json (on_queue (tq_Name s) rows))].
Proof.
  pose proof (summary_counts rows) as Hc. unfold aggregateTaskQueues. set (m := foldl add_run ∅ rows) in *.
  assert (tq_Name <$> (map_to_list m).*2 = (map_to_list m).*1) as E.
  { rewrite <-list_fmap_compose. apply list_fmap_ext. intros i [q s] Hi. apply list_elem_of_lookup_2, elem_of_map_to_list in Hi.
    specialize (Hc q). rewrite Hi in Hc. cbn. tauto. }
  split_and!.
  - rewrite E. apply NoDup_fst_map_to_list.
  - intros wf Hwf. rewrite E. specialize (Hc (queue_of wf)). destruct (m !! queue_of wf) as [s|] eqn:Hs.
    + apply list_elem_of_fmap. exists (queue_of wf, s). split; [done|]. by apply elem_of_map_to_list.
    + exfalso. assert (wf ∈ on_queue (queue_of wf) rows) as Hin by (by apply list_elem_of_filter). rewrite Hc in Hin. by apply elem_of_nil in Hin.
  - intros s [[q s'] [-> Hq%elem_of_map_to_list]]%list_elem_of_fmap. specialize (Hc q). rewrite Hq in Hc. destruct Hc as (E1 & E2 & E3). cbn [snd]. by rewrite E1, E2, E3.
Qed.

(** ** A router, and calls evaluated *)

(** The first row that fits; a parameter is the segment under its name. *)
Fixpoint bound (pat parts : list string) (name : string) : string :=
  match pat, parts with
  | a :: pat, s :: parts => match param_name a with
                            | Some n => if String.eqb n name then s else bound pat parts name
                            | None => bound pat parts name
                            end
  | _, _ => ""
  end.
Definition first_row (m : method) (parts : list string) : option (string * (string → string)) :=
  match find (λ r, bool_decide (r.1 = m) && fits (str_split "/" r.2) parts) contents with
  | Some (_, path) => Some (path, bound (str_split "/" path) parts)
  | None => None
  end.

Lemma bound_later a pat s parts name : param_name a ≠ Some name → bound (a :: pat) (s :: parts) name = bound pat parts name.
Proof. intros Hn. cbn [bound]. destruct (param_name a) as [n|]; [|done]. destruct (String.eqb_spec n name); [by subst|done]. Qed.
Lemma bound_fits f pat parts : NoDup (omap param_name pat) → fits pat parts = true →
  (∀ name, name ∈ omap param_name pat → f name = bound pat parts name) →
  Forall2 (λ a s, match param_name a with Some name => f name = s | None => a = s end) pat parts.
Proof.
  revert parts. induction pat as [|a pat IH]; intros [|s parts] Hn Hf Hb; [done..|]. unfold fits in Hf.
  apply andb_true_iff in Hf as [Hl Hf]. cbn [length Nat.eqb zip zip_with forallb fst snd] in Hl, Hf.
  apply andb_true_iff in Hf as [Ha Hf]. assert (fits pat parts = true) as Hf' by (unfold fits; by rewrite Hl).
  cbn [omap list_omap] in Hn, Hb. unfold fits_segment in Ha. apply Forall2_cons. destruct (param_name a) as [n|] eqn:E.
  - apply NoDup_cons in Hn as [Hn1 Hn2]. split; [rewrite Hb by left; cbn [bound]; by rewrite E, String.eqb_refl|].
    apply IH; [done|done|]. intros name Hname. rewrite Hb by (by right). apply bound_later. rewrite E. by intros [= ->].
  - split; [by apply String.eqb_eq|]. apply IH; [done|done|]. intros name Hname. rewrite Hb by done. apply bound_later. by rewrite E.
Qed.

Lemma first_row_ok : router_ok first_row.
Proof.
  split; unfold first_row, routed.
  - intros m parts path param. destruct (find _ contents) as [[m' path']|] eqn:E; [|done]. intros [= -> <-].
    apply find_some in E as [Hin [Hm%bool_decide_eq_true Hf]%andb_true_iff]. cbn in Hm, Hf. subst m'. apply list_elem_of_In in Hin.
    split; [done|]. apply bound_fits; [|done|done].
    assert (forallb (λ r, bool_decide (NoDup (omap param_name (str_split "/" r.2)))) contents = true) as Hd by (by vm_compute).
    rewrite forallb_forall in Hd. apply list_elem_of_In, Hd in Hin. by apply bool_decide_eq_true in Hin.
  - intros m parts. destruct (find _ contents) as [[]|] eqn:E; [done|]. intros _. apply not_true_is_false. intros Hx.
    apply existsb_exists in Hx as (r & Hr & Hx). by rewrite (find_none _ _ E r Hr) in Hx.
Qed.

Module SurfaceDemo.
#[local] Existing Instance test_env.
#[local] Existing Instance test_segment_rule.

Definition acme : Principal := {| Org := "acme"; Project := ""; User := "" |}.
Definition post (j : json) : call := {| cl_method := POST; cl_query := []; cl_body := RJson j; cl_unread := false |}.
Definition get (q : list (string * string)) : call := {| cl_method := GET; cl_query := q; cl_body := RNone; cl_unread := false |}.
Definition word (e : err) : string := "error".
Definition handler := HTTPHandler word (λ _, "") newWorkerRegistry.
Definition start_order : call :=
  post (JObj [("workflowId", JStr "order"); ("runId", JStr "r1"); ("workflowType", JObj [("name", JStr "Order")]); ("taskQueue", JObj [("name", JStr "orders")])]).
Definition opened : world := (handler start_order acme "/v1/tasks/namespaces/default/workflows" (new_world true)).1.
Definition status_at (r : world * (err + reply)) : Z := match r.2 with inr (Answers a) => an_status a | _ => 0 end.

(** A start and a cancel over HTTP; a claim of nothing; an activity of a namespace that
    is not registered; a namespace that is a path. *)
Example statuses :
  (status_at (handler start_order acme "/v1/tasks/namespaces/default/workflows" (new_world true)),
   status_at (handler (get [("runId", "r1")]) acme "/v1/tasks/namespaces/default/workflows/order" opened),
   status_at (handler (get []) acme "/v1/tasks/namespaces/default/workflows/parcel" opened),
   status_at (handler (post JNull) acme "/v1/tasks/namespaces/default/activities/claim" opened),
   status_at (handler (post JNull) acme "/v1/tasks/namespaces/nowhere/search-attributes" opened),
   status_at (handler (post (JArr [])) acme "/v1/tasks/namespaces/default/workflows" opened),
   status_at (handler (get []) acme "/v1/tasks/namespaces/a%2Fb/workflows" opened)) =
  (200, 200, 404, 204, 400, 400, 400).
Proof. by vm_compute. Qed.

Definition cancel_order : call := post (JObj [("reason", JStr "late"); ("identity", JNum 7)]).

Lemma http_serves_requests_witness :
  let w' := (handler cancel_order acme "/v1/tasks/namespaces/default/workflows/order/cancel" opened).1 in
  (reads opened w' ∨ ∃ r, (named_in "/v1/tasks/namespaces/default/workflows/order/cancel" (asked_ns r) ∨ ∃ n, r = RRegister n) ∧ reads (serve acme r opened).1 w') ∧
  ∀ q k, q ≠ acme → row w' q k = row opened q k.
Proof.
  exact (http_serves_requests word (λ _, "") newWorkerRegistry cancel_order acme "/v1/tasks/namespaces/default/workflows/order/cancel" opened).
Defined.
End SurfaceDemo.
