(* ===== verification/ZapSpec.v ===== *)
(** The ZAP surface and the engine behind it: whatever message comes in, the engine takes
    at most one step of the system, a request of the tenant the token names, a step of the
    dispatcher, or the answer to a task; without an identity nothing is served where one is
    required; and the commands of a worker come out of the wire as they went in. *)

From Corelib Require Import SpecFloat.
From Stdlib Require Import Ascii ZArith Lia.
From stdpp Require Import prelude strings gmap.
From S2P Require Import Prelude GoStrings Base64 Json Types EngineTypes Env Principal Router Shard GoTime Temporal Dispatch Events World WorldFacts Failure Workflow Durable Commands Visibility Activities Schedules Deployments Admin Surface Zap Frames RunInv Creates Upkeep Reach Serves.

Local Open Scope Z_scope.

Create HintDb served.

Section Served.
Context `{Env} (wording : err → string) (defaultNS : string) (validator : option (string → string)) (requireID : bool).

(** The opcodes that are admitted by a task token instead of an identity. *)
Definition worker_answer (op : Z) : bool := (op_RespondWorkflowTaskCompleted <=? op) && (op <=? op_RecordActivityTaskHeartbeat).

(** The namespace a request reaches: the one it names, or the default. *)
Definition reaches (req : list (string * json)) (ns : string) : Prop := ns = ns_of defaultNS req ∨ ns = ni_Name (ns_Info (namespace_of req)).

(** The organization the verifier finds in the token of a request, if any. *)
Definition token_org (req : list (string * json)) (org : string) : Prop :=
  org ≠ "" ∧ ∃ org_of, validator = Some org_of ∧ str req "auth_token" ≠ "" ∧ org_of (trim_prefix (str req "auth_token") "Bearer ") = org.

(** The tenant a request acts for: the organization of its token; the root tenant only where
    there is no verifier, or no identity is required. *)
Definition acts_for (req : list (string * json)) (p : Principal) : Prop :=
  (∃ org, token_org req org ∧ p = tenant org ∧ p ≠ root) ∨ p = root ∧ (∀ org, ~ token_org req org) ∧ (validator = None ∨ requireID = false).

Lemma scope_acts_for req p : scope validator requireID req = inr p → acts_for req p.
Proof.
  unfold scope, acts_for, token_org. destruct validator as [org_of|]; [|intros [= <-]; right; naive_solver].
  destruct (String.eqb_spec (str req "auth_token") "") as [E|E].
  { destruct requireID; [done|]. intros [= <-]. right. naive_solver. }
  destruct (String.eqb_spec (org_of (trim_prefix (str req "auth_token") "Bearer ")) "") as [E'|E'].
  - destruct requireID; [done|]. intros [= <-]. right. naive_solver.
  - intros [= <-]. left. eexists. split; [split; [exact E'|]; by exists org_of|]. split; [done|]. by apply tenant_not_root.
Qed.

(** The steps of the system a message can be. *)
Definition zap_label (msg : message) (l : label) : Prop :=
  match l with
  | LRequest p r => acts_for (request_of msg) p ∧ reaches (request_of msg) (asked_ns r)
  | LWorker o => worker_op o
  | LWorkflowDone token _ | LActivityDone token _ _ => token = (decodeRespondFrame msg).1
  | _ => False
  end.

(** What every handler is shown to do. *)
Definition steps_once (op : Z) (msg : message) (w w' : world) : Prop :=
  reads w w' ∨ ∃ l, zap_label msg l ∧ reads (next l w) w' ∧ (worker_answer op = false → match l with LRequest _ _ | LWorker _ => True | _ => False end).

Lemma in_world_fst {A} (m : W A) s : sv_world (in_world m s).1 = (m (sv_world s)).1.
Proof. unfold in_world. by destruct (m (sv_world s)). Qed.
Lemma bind_world {A B} (m : M server err A) (f : A → B) s : sv_world ((a ← m; mret (f a)) s).1 = sv_world (m s).1.
Proof. unfold mbind, M_bind. by destruct (m s) as [s' []]. Qed.

Lemma steps_refused op msg w : steps_once op msg w w.
Proof. by left. Qed.

(** A wrapped handler is served for the tenant of its token. *)
Lemma wrap_steps op (fn : Principal → list (string * json) → W outcome) from msg s :
  (∀ p, handles (reaches (request_of msg)) p (fn p (request_of msg))) →
  steps_once op msg (sv_world s) (sv_world (wrap validator requireID fn from msg s).1).
Proof.
  intros Hf. unfold wrap, wrapPeer. destruct (scope _ _ _) as [em|p] eqn:E; [by left|]. rewrite bind_world, in_world_fst.
  destruct (Hf p (sv_world s)) as [|(r & Hr & Hw)]; [by left|]. right. exists (LRequest p r). split; [|done]. by split; [apply scope_acts_for|].
Qed.
Definition reads_or_worker (o : dop) (m : W outcome) : Prop :=
  ∀ w, reads (with_disp (dstep (w_disp w) o) w) (m w).1 ∨ reads w (m w).1.

(** A handler that works on the dispatcher. *)
Lemma wrap_worker op o (fn : Principal → list (string * json) → W outcome) from msg s :
  worker_op o → (∀ p, reads_or_worker o (fn p (request_of msg))) →
  steps_once op msg (sv_world s) (sv_world (wrap validator requireID fn from msg s).1).
Proof.
  intros Ho Hf. unfold wrap, wrapPeer. destruct (scope _ _ _) as [em|p] eqn:E; [by left|]. rewrite bind_world, in_world_fst.
  destruct (Hf p (sv_world s)); [right; by exists (LWorker o)|by left].
Qed.

Lemma subscribe_reads kind from req s :
  reads (sv_world s) (sv_world (opSubscribe defaultNS kind from req s).1) ∨
  ∃ r, reads (with_disp (dstep (w_disp (sv_world s)) (OpSubscribe r from (ns_of defaultNS req) (strOr req "task_queue" (str req "taskQueue")) kind)) (sv_world s))
         (sv_world (opSubscribe defaultNS kind from req s).1).
Proof.
  set (ns := ns_of defaultNS req). set (q := strOr req "task_queue" (str req "taskQueue")). set (r := env_rand (w_rand (sv_world s))).
  destruct (Subscribe r from ns q kind (w_disp (sv_world s))) as [[id|] d] eqn:E.
  - right. exists r. cbn [dstep]. rewrite E. cbn [snd].
    assert (sv_world (opSubscribe defaultNS kind from req s).1 =
            with_counters (S (w_clock (sv_world s))) (S (w_rand (sv_world s))) (w_ops (sv_world s)) (with_disp d (sv_world s))) as ->; [|by split].
    unfold opSubscribe. fold ns q. unfold mbind, M_bind, in_world, disp_Subscribe, rand_draw. fold r. by rewrite E.
  - left. assert (sv_world (opSubscribe defaultNS kind from req s).1 = sv_world s) as ->; [|done].
    unfold opSubscribe. fold ns q. unfold mbind, M_bind, in_world, disp_Subscribe, rand_draw. fold r. by rewrite E.
Qed.

Lemma subscribe_steps op kind from msg s :
  steps_once op msg (sv_world s) (sv_world (wrapPeer validator requireID (λ _, opSubscribe defaultNS kind) from msg s).1).
Proof.
  unfold wrapPeer. destruct (scope _ _ _) as [em|p]; [by left|]. rewrite bind_world.
  destruct (subscribe_reads kind from (request_of msg) s) as [|[r Hr]]; [by left|]. right. by exists (LWorker (OpSubscribe r from (ns_of defaultNS (request_of msg)) (strOr (request_of msg) "task_queue" (str (request_of msg) "taskQueue")) kind)).
Qed.

Lemma respond_steps op l f from msg s :
  worker_answer op = true → zap_label msg l → (∀ w, (f (decodeRespondFrame msg).1 (decodeRespondFrame msg).2 w).1 = next l w) →
  steps_once op msg (sv_world s) (sv_world (respond_with wording f from msg s).1).
Proof.
  intros Hop Hl Hf. unfold respond_with. destruct (decodeRespondFrame msg) as [t b] eqn:E. rewrite bind_world, in_world_fst. cbn in Hf. rewrite Hf.
  right. exists l. split; [done|]. split; [done|]. by rewrite Hop.
Qed.

(** Every operation reads, or asks for one thing. *)
Ltac served :=
  intros; unfold give_or, give_found, gives, declines; repeat case_match;
  first [ apply handles_then; [by intros; repeat case_match|]; first [left; unfold DescribeSchedule, ListSchedules, ListWorkflows, ListNamespaces, DescribeNamespace; solve [walk]
            | right; unfold reaches; asked ]
        | apply handles_reads; solve [walk] ].
Tactic Notation "operation" reference(f) := intros; unfold f; served.

Lemma start_handles p req : handles (reaches req) p (opStartWorkflow wording defaultNS p req).
Proof. operation opStartWorkflow. Qed.
Lemma signal_handles p req : handles (reaches req) p (opSignalWorkflow wording defaultNS p req).
Proof. operation opSignalWorkflow. Qed.
Lemma signal_start_handles p req : handles (reaches req) p (opSignalWithStartWorkflow wording defaultNS p req).
Proof. operation opSignalWithStartWorkflow. Qed.
Lemma cancel_handles p req : handles (reaches req) p (opCancelWorkflow wording defaultNS p req).
Proof. operation opCancelWorkflow. Qed.
Lemma terminate_handles p req : handles (reaches req) p (opTerminateWorkflow wording defaultNS p req).
Proof. operation opTerminateWorkflow. Qed.
Lemma reset_handles p req : handles (reaches req) p (opResetWorkflow wording defaultNS p req).
Proof. operation opResetWorkflow. Qed.
Lemma query_handles p req : handles (reaches req) p (opQueryWorkflow wording defaultNS p req).
Proof. operation opQueryWorkflow. Qed.
Lemma register_handles p req : handles (reaches req) p (opRegisterNamespace wording p req).
Proof. operation opRegisterNamespace. Qed.
Lemma create_schedule_handles p req : handles (reaches req) p (opCreateSchedule wording defaultNS p req).
Proof.
  assert (sc_Namespace (scheduleFromSDK req defaultNS) = ns_of defaultNS req) as E by (unfold scheduleFromSDK; by repeat case_match).
  unfold opCreateSchedule, give_or, declines. case_match; [by served|]. apply handles_then; [by intros []|]. right.
  exists (RSchedule (SCreate (scheduleFromSDK req defaultNS))). split; [by left|done].
Qed.
Lemma delete_schedule_handles p req : handles (reaches req) p (opDeleteSchedule wording defaultNS p req).
Proof. operation opDeleteSchedule. Qed.
Lemma pause_handles p req : handles (reaches req) p (opPauseSchedule wording defaultNS p req).
Proof. operation opPauseSchedule. Qed.
Lemma unpause_handles p req : handles (reaches req) p (opUnpauseSchedule wording defaultNS p req).
Proof. operation opUnpauseSchedule. Qed.
Lemma looks_handle p req :
  handles (reaches req) p (opListNamespaces wording p) ∧ handles (reaches req) p (opDescribeNamespace wording p req) ∧
  handles (reaches req) p (opListWorkflows wording defaultNS p req) ∧ handles (reaches req) p (opDescribeWorkflow wording defaultNS p req) ∧
  handles (reaches req) p (opGetWorkflowHistory wording defaultNS p req) ∧ handles (reaches req) p (opListSchedules wording defaultNS p req) ∧
  handles (reaches req) p (opDescribeSchedule wording defaultNS p req).
Proof.
  unfold opListNamespaces, opDescribeNamespace, opListWorkflows, opDescribeWorkflow, opGetWorkflowHistory, opListSchedules, opDescribeSchedule.
  split_and!; served.
Qed.

Lemma query_answer_worker req : reads_or_worker (OpCompleteQuery (str req "token") (decodeBytesField req "result") (str req "error")) (opRespondQuery req).
Proof.
  intros w. unfold opRespondQuery. case_match; [by right|]. left. unfold mbind, M_bind. cbn [dstep].
  destruct (CompleteQuery _ _ _ _) as [[] d]; by split.
Qed.

Lemma unsubscribe_worker req : reads_or_worker (OpUnsubscribe (strOr req "subscription_id" (str req "subscriptionId"))) (opUnsubscribe req).
Proof. intros w. left. by split. Qed.
#[local] Hint Resolve start_handles signal_handles signal_start_handles cancel_handles terminate_handles reset_handles query_handles register_handles
  create_schedule_handles delete_schedule_handles pause_handles unpause_handles : served.

(** The handler of one opcode. *)
Ltac each_opcode :=
  first [ by left
        | apply subscribe_steps
        | apply wrap_steps; intros; first [solve [auto with served] | apply looks_handle | unfold opHealth; served]
        | eapply wrap_worker; [|intros; apply unsubscribe_worker || apply query_answer_worker]; done
        | match goal with E : (_ =? _) = true |- _ => apply Z.eqb_eq in E; subst end;
          first [ eapply (respond_steps _ (LWorkflowDone _ _)); [done|done|reflexivity]
                | eapply (respond_steps _ (LActivityDone _ _ _)); [done|done|reflexivity] ] ].

(** (C9) Whatever message comes in on whatever opcode, the engine behind it reads, or takes
    one step of the system: a request of the tenant the token of the message names (the root
    tenant only where no token is needed), in the namespace it names; a step of the dispatcher for a subscription or the answer to a
    query; or, on the opcodes a task token admits, the answer to the task of that token. On
    the others no row of another tenant changes. So what holds of every run of the system
    holds of the traffic of this surface. *)
Theorem zap_refines_system `{!SegmentRule} op h from msg s :
  zapHandlers wording defaultNS validator requireID op = Some h →
  let w := sv_world s in let w' := sv_world (h from msg s).1 in
  (reads w w' ∨ ∃ l, zap_label msg l ∧ reads (next l w) w') ∧
  (worker_answer op = false → ∀ q k, ~ acts_for (request_of msg) q → row w' q k = row w q k).
Proof.
  intros Hh w w'. enough (steps_once op msg w w') as [Hw|(l & Hl & Hw & Hk)].
  - split; [by left|]. intros _ q k _. destruct Hw as [Ht _]. by apply tables_row.
  - split; [right; by exists l|]. intros Hop q k Hq. destruct Hw as [Ht _]. rewrite (tables_row _ _ _ _ Ht). specialize (Hk Hop).
    destruct l; try done; cbn [next]. destruct Hl as [Hs _]. apply serve_only. by intros ->.
  - revert Hh. unfold w', zapHandlers, w. repeat case_match; intros [= <-]; each_opcode.
Qed.

(** A message nobody is found to have sent. *)
Lemma unidentified_refused org_of op h from msg s :
  validator = Some org_of → requireID = true → zapHandlers wording defaultNS validator requireID op = Some h → worker_answer op = false →
  str (request_of msg) "auth_token" = "" ∨ org_of (trim_prefix (str (request_of msg) "auth_token") "Bearer ") = "" →
  ∃ why, h from msg s = (s, inr (Responds {| ev_body := RNone; ev_status := 401; ev_error := why |})).
Proof.
  intros -> -> Hh Hop Htok. assert (∃ why, scope (Some org_of) true (request_of msg) = inl why) as [why Hs].
  { unfold scope. destruct (String.eqb_spec (str (request_of msg) "auth_token") ""); [by eexists|]. destruct Htok as [?| ->]; [done|]. by eexists. }
  exists why. revert Hh. unfold zapHandlers. repeat case_match; intros [= <-];
    match goal with E : (_ =? _) = true |- _ => apply Z.eqb_eq in E; subst end;
    first [ unfold wrap, wrapPeer; by rewrite Hs | done ].
Qed.

(** (C11) Where an identity is required nothing is served without one: a message with no
    token, or with a token the verifier gives no organization for, leaves the engine and
    the registry of workers exactly as they were and is answered 401, on every opcode a
    task token does not admit. *)
Theorem zap_needs_identity org_of op h from msg s :
  validator = Some org_of → requireID = true → zapHandlers wording defaultNS validator requireID op = Some h → worker_answer op = false →
  str (request_of msg) "auth_token" = "" ∨ org_of (trim_prefix (str (request_of msg) "auth_token") "Bearer ") = "" →
  ∃ why, h from msg s = (s, inr (Responds {| ev_body := RNone; ev_status := 401; ev_error := why |})).
Proof. apply unidentified_refused. Qed.
End Served.

Module ZapDemo.
#[local] Existing Instance test_env.
#[local] Existing Instance test_segment_rule.

Definition word (e : err) : string := "error".
(** A verifier that reads the organization off the token. *)
Definition org_of (tok : string) : string := tok.
Definition table := zapHandlers word "default" (Some org_of) true.
Definition sent (op : Z) (from : string) (req : list (string * json)) (s : server) : server :=
  match table op with Some h => (h from (MEnvelope (RJson (JObj req))) s).1 | None => s end.
Definition fresh_server : server := {| sv_world := new_world true; sv_workers := newWorkerRegistry |}.

Definition start_order : list (string * json) :=
  [("namespace", JStr "default"); ("workflow_id", JStr "order"); ("workflow_type", JStr "Order"); ("task_queue", JStr "orders"); ("auth_token", JStr "Bearer acme")].
Definition start_msg : message := MEnvelope (RJson (JObj start_order)).
Definition start_handler : handler := wrap (Some org_of) true (opStartWorkflow word "default").

Lemma zap_refines_system_witness :
  let w := sv_world fresh_server in let w' := sv_world (start_handler "peer" start_msg fresh_server).1 in
  (reads w w' ∨ ∃ l, zap_label "default" (Some org_of) true start_msg l ∧ reads (next l w) w') ∧
  (worker_answer op_StartWorkflow = false → ∀ q k, ~ acts_for (Some org_of) true (request_of start_msg) q → row w' q k = row w q k).
Proof. exact (zap_refines_system word "default" (Some org_of) true op_StartWorkflow start_handler "peer" start_msg fresh_server eq_refl). Defined.

Definition bare_msg : message := MEnvelope (RJson (JObj [("namespace", JStr "default")])).
Lemma zap_needs_identity_witness :
  ∃ why, start_handler "peer" bare_msg fresh_server = (fresh_server, inr (Responds {| ev_body := RNone; ev_status := 401; ev_error := why |})).
Proof. exact (zap_needs_identity word "default" (Some org_of) true org_of op_StartWorkflow start_handler "peer" bare_msg fresh_server eq_refl eq_refl eq_refl eq_refl (or_introl eq_refl)). Defined.

(** A worker of one organization, subscribed under its own identity, is handed the runs of
    another: a subscription is filed by namespace and queue alone. *)
Definition subscribed : server :=
  sent op_SubscribeWorkflowTasks "globex-worker" [("namespace", JStr "default"); ("task_queue", JStr "orders"); ("auth_token", JStr "globex")] fresh_server.
Definition delivered : list push := d_sent (w_disp (sv_world (sent op_StartWorkflow "acme-client" start_order subscribed))).
Example delivered_across_tenants : pu_peer <$> delivered = ["globex-worker"].
Proof. by vm_compute. Qed.
End ZapDemo.
