(* ===== verification/ClientSpec.v ===== *)
(** The client against the server: a call of the client is the operation of the engine it
    names, with the arguments it was given, for the tenant of its token; the calls whose
    opcodes the two sides number differently are not; waiting for a run reports what the
    engine holds. *)

From Corelib Require Import SpecFloat.
From Stdlib Require Import Ascii ZArith Lia.
From stdpp Require Import prelude strings gmap.
From S2P Require Import Prelude GoStrings Base64 Json Types EngineTypes Env Principal Router Shard GoTime Temporal Dispatch Events World WorldFacts Failure Workflow Durable Commands Schedules Admin Surface Zap Channel Coroutine Worker Client Frames RunInv Reach Serves.

Local Open Scope Z_scope.

(** ** Members of a request *)

Lemma assoc_list_fld k k' l x : list_fld k' l = Some x →
  assoc k x = if String.eqb k' k then (match l with [] => None | _ => JArr <$> marshal_list l end) else None.
Proof.
  destruct l as [|a l]; cbn [list_fld]; [intros [= <-]; by destruct (String.eqb k' k)|].
  destruct (marshal_list (a :: l)) as [js|]; [|done]. intros [= <-]. cbn. by destruct (String.eqb k' k).
Qed.
Lemma assoc_any_fld k k' v x : any_fld k' v = Some x →
  assoc k x = if String.eqb k' k then (match v with AnyNil => None | _ => marshal_any v end) else None.
Proof. destruct v; cbn; intros [= <-]; by cbn; destruct (String.eqb k' k). Qed.
(** What the server reads from an optional member. *)
Definition input_json (l : list goany) : json := match l with [] => JNull | _ => default JNull (JArr <$> marshal_list l) end.
Definition value_json (v : goany) : json := default JNull (marshal_any v).
Definition memo_json (m : gmap string goany) : json :=
  match map_to_list m with [] => JNull | l => default JNull (JObj <$> mapM (λ '(k, v), (k,.) <$> marshal_any v) l) end.
Lemma assoc_map_fld k k' m x : map_fld k' m = Some x → assoc k x = if String.eqb k' k then (match memo_json m with JNull => None | j => Some j end) else None.
Proof.
  unfold map_fld, memo_json. destruct (map_to_list m) as [|a l]; [intros [= <-]; by destruct (String.eqb k' k)|].
  destruct (mapM _ (a :: l)) as [o|]; [|done]. intros [= <-]. cbn. by destruct (String.eqb k' k).
Qed.

Section Calls.
Context `{Env} (wording : err → string) (defaultNS : string) (validator : option (string → string)) (requireID : bool).
Context (from : string) (token : TokenSource) (during : server → server) (p : Principal).

#[local] Instance link : Transport server := zapTransport wording defaultNS validator requireID from token during.

(** The request the server reads: the token of the client is one member more. *)
Definition authed (o : list (string * json)) : list (string * json) :=
  match token with Some (inr tok) => if String.eqb tok "" then o else o ++ [("auth_token", JStr tok)] | _ => o end.

(** The token source answers and the server serves the token as the tenant [p]. *)
Hypothesis token_works : ∀ why, token ≠ Some (inl why).
Hypothesis admitted : scope validator requireID (authed []) = inr p.

Lemma assoc_authed k o : String.eqb "auth_token" k = false → assoc k (authed o) = assoc k o.
Proof. intros Hk. unfold authed. repeat case_match; try done. rewrite assoc_app. cbn [assoc]. by rewrite Hk. Qed.
Lemma scope_authed o : assoc "auth_token" o = None → scope validator requireID (authed o) = inr p.
Proof.
  intros Ho. rewrite <-admitted. unfold scope. enough (str (authed o) "auth_token" = str (authed []) "auth_token") as -> by done.
  unfold str, authed. repeat case_match; rewrite ?assoc_app in *; cbn in *; congruence.
Qed.

(** Using the pointer a call answers. *)
Definition deref {A} (m : W (option A)) : W A := o ← m; match o with Some a => mret a | None => throw ErrNilDeref end.

(** A call of the engine as the client sees it. *)
Definition engine_call {A R} (code : Z) (ok : A → R) (m : W A) : M server client_error R := λ s,
  let '(w, r) := m (sv_world s) in
  ({| sv_world := w; sv_workers := sv_workers s |},
   match r with
   | inr a => inr (ok a)
   | inl ErrNilDeref => inl (CCall "handler failed")
   | inl e => inl (CStatus code (err_text wording e))
   end).

Lemma call_wrapped op fn o s :
  opcode_of (FrameBody op (PBody RNone)).2 = op → zapHandlers wording defaultNS validator requireID op = Some (wrap validator requireID fn) →
  assoc "auth_token" o = None →
  transport_Call op (PBody (RJson (JObj o))) s =
  match fn p (authed o) (sv_world s) with
  | (w, inl _) => ({| sv_world := w; sv_workers := sv_workers s |}, inl "handler failed")
  | (w, inr (Gives out status msg)) => ({| sv_world := w; sv_workers := sv_workers s |}, inr {| ev_body := RJson out; ev_status := status; ev_error := msg |})
  | (w, inr (Holds tok ch)) =>
      match (o ← in_world (opQueryWorkflow_end wording tok ch); mret (envelope_of o)) (during {| sv_world := w; sv_workers := sv_workers s |}) with
      | (s, inr (Responds e)) => (s, inr e)
      | (s, _) => (s, inl "handler failed")
      end
  end.
Proof.
  intros Hop Hh Ho. unfold transport_Call, link, zapTransport, zap_Call.
  assert (attach token (PBody (RJson (JObj o))) = inr (PBody (RJson (JObj (authed o))))) as ->.
  { unfold attach, authed. destruct token as [[why|tok]|]; [by destruct (token_works why)| |done]. by case_match. }
  unfold FrameBody. cbn [FrameBody snd] in Hop. rewrite Hop, Hh. unfold frame_of, wrap, wrapPeer. cbn [request_of].
  rewrite scope_authed by done. unfold mbind, M_bind at 1, in_world at 1. by destruct (fn p (authed o) (sv_world s)) as [w [e|[out st msg|tok ch]]].
Qed.

(** An operation that answers [code] for every error. *)
Lemma trip_wrapped {A R} op fn o c (z : R) read code (f : A → json) (ok : A → R) m s :
  ci_closed c = false → opcode_of (FrameBody op (PBody RNone)).2 = op →
  zapHandlers wording defaultNS validator requireID op = Some (wrap validator requireID fn) → assoc "auth_token" o = None →
  fn p (authed o) (sv_world s) = give_or wording code f m (sv_world s) → (∀ a, read (f a) = Some (ok a)) → (code =? 0) = false → (code =? 200) = false →
  roundTrip c op (Some (JObj o)) z read s = engine_call code ok m s.
Proof.
  intros Hc Hop Hh Ho Hf Hr H0 H2. unfold roundTrip, engine_call. rewrite Hc, (call_wrapped op fn o s Hop Hh Ho), Hf.
  unfold give_or, run_op, attempt, mbind, M_bind. destruct (m (sv_world s)) as [w [e|a]].
  - destruct e; cbn; by rewrite ?H0, ?H2.
  - cbn. by rewrite Hr.
Qed.

Lemma option_same {A} (x : option A) : match x with Some w => Some w | None => None end = x.
Proof. by destruct x. Qed.

(** A result that is built from the answer. *)
Lemma trip_then {A R R'} (m : M server client_error R) (g : R → R') code (ok : A → R) (e : W A) s :
  m s = engine_call code ok e s → (r ← m; mret (g r)) s = engine_call code (λ a, g (ok a)) e s.
Proof. unfold mbind, M_bind, engine_call. intros ->. destruct (e (sv_world s)) as [w [[]|a]]; reflexivity. Qed.
Lemma start_object c id ty opts args sig j : start_request c id ty opts args sig = Some j → ∃ o, j = JObj o.
Proof.
  unfold start_request. destruct (list_fld _ _); [|done]. destruct (map_fld _ _); [|done]. cbn [mbind option_bind].
  destruct (match sig with None => _ | Some _ => _ end); [|done]. cbn [mbind option_bind]. case_match; [|done]. intros [= <-]. by eexists.
Qed.

(** Reading a member of a request the client built. *)
Ltac look1 :=
  rewrite ?assoc_app, ?assoc_fld, ?assoc_fld_omit;
  repeat match goal with
         | Hi : list_fld _ _ = Some ?x |- context [assoc ?k ?x] => rewrite (assoc_list_fld k _ _ _ Hi)
         | Hi : map_fld _ _ = Some ?x |- context [assoc ?k ?x] => rewrite (assoc_map_fld k _ _ _ Hi)
         | Hi : any_fld _ _ = Some ?x |- context [assoc ?k ?x] => rewrite (assoc_any_fld k _ _ _ Hi)
         end;
  cbn [assoc app String.eqb Ascii.eqb Bool.eqb andb default from_option id].
Ltac look :=
  unfold attributes, obj, ns_of, wf_of, run_of, sched_of, strOr, str, any, boolOr, run_members, schedule_members; rewrite ?assoc_authed by done;
  do 4 look1; rewrite ?option_same; repeat match goal with |- context [if is_empty ?a then None else Some _] => destruct (is_empty a) eqn:? end.

Lemma given_text (s : string) (d : string) : s ≠ "" → (if String.eqb s "" then d else s) = s.
Proof. intros Hs. by rewrite (proj2 (String.eqb_neq _ _) Hs). Qed.
Lemma empty_text (s : string) : (if String.eqb s "" then "" else s) = s.
Proof. by destruct (String.eqb_spec s ""). Qed.

Lemma input_read l : default JNull (match l with [] => None | _ => JArr <$> marshal_list l end) = input_json l.
Proof. by destruct l. Qed.
Lemma memo_read m : default JNull (match memo_json m with JNull => None | j => Some j end) = memo_json m.
Proof. by destruct (memo_json m). Qed.
Lemma value_read v : default JNull (match v with AnyNil => None | _ => marshal_any v end) = value_json v.
Proof. by destruct v. Qed.
Ltac field :=
  look; rewrite ?given_text, ?empty_text by done;
  first [ done | match goal with E : is_empty ?a = true |- _ = ?a => symmetry; exact (is_empty_zero a E) end
        | apply input_read | apply memo_read | apply value_read
        | match goal with |- context [match ?a with [] => _ | _ => _ end] => by destruct a end
        | match goal with |- context [match memo_json ?a with JNull => _ | _ => _ end] => by destruct (memo_json a) end ].

(** The members of a start. *)
Lemma start_read c id ty opts args o :
  ci_namespace c ≠ "" → so_TaskQueue opts ≠ "" → start_request c id ty opts args None = Some (JObj o) →
  assoc "auth_token" o = None ∧
  opStartWorkflow wording defaultNS p (authed o) =
  give_or wording 400 run_ref (startWorkflowFull p (ci_namespace c) id "" {| TypeName := ty |} (so_TaskQueue opts) (input_json args) "" ∅ (memo_json (so_Memo opts)) "").
Proof.
  intros Hn Hq. unfold start_request. destruct (list_fld "input" args) as [i|] eqn:Hi; [|done]. destruct (map_fld "memo" (so_Memo opts)) as [m|] eqn:Hm; [|done].
  cbn [mbind option_bind]. destruct (marshal_ok _); [|done]. intros [= <-]. split; [field|]. unfold opStartWorkflow. f_equal. f_equal; try field.
Qed.

Lemma signal_start_read c id ty opts args name arg o w :
  ci_namespace c ≠ "" → name ≠ "" → start_request c id ty opts args (Some (name, arg)) = Some (JObj o) →
  assoc "auth_token" o = None ∧
  opSignalWithStartWorkflow wording defaultNS p (authed o) w =
  give_or wording 400 run_ref (deref (signalWithStartFull p (ci_namespace c) id "" {| TypeName := ty |} (so_TaskQueue opts) (input_json args)
    name (value_json arg) "" ∅ (memo_json (so_Memo opts)))) w.
Proof.
  intros Hn Hs. unfold start_request. destruct (list_fld "input" args) as [i|] eqn:Hi; [|done]. destruct (map_fld "memo" (so_Memo opts)) as [m|] eqn:Hm; [|done].
  cbn [mbind option_bind]. destruct (any_fld "signal_input" arg) as [a|] eqn:Ha; [|done]. cbn [mbind option_bind].
  destruct (marshal_ok _); [|done]. intros [= <-]. split; [field|]. unfold opSignalWithStartWorkflow. set (o := authed _).
  assert (strOr o "signal_name" (str o "signalName") = name) as -> by (subst o; field).
  rewrite (proj2 (String.eqb_neq _ _) Hs). set (m1 := signalWithStartFull _ _ _ _ _ _ _ _ _ _ _ _). set (m2 := signalWithStartFull _ _ _ _ _ _ _ _ _ _ _ _).
  assert (m1 = m2) as -> by (subst m1 m2 o; f_equal; try field; f_equal; field).
  unfold give_or, run_op, attempt, deref, mbind, M_bind. destruct (m2 w) as [w' [[]|[wf|]]]; reflexivity.
Qed.

Lemma signal_read c id run name arg o :
  ci_namespace c ≠ "" → name ≠ "" → id ≠ "" →
  (input ← any_fld "input" arg; Some (JObj (run_members c id run ++ fld "signal_name" name ++ input))) = Some (JObj o) →
  assoc "auth_token" o = None ∧
  opSignalWorkflow wording defaultNS p (authed o) =
  give_or wording 400 (λ _, status_json "signaled") (Workflow.SignalWorkflow p (ci_namespace c) id run name (value_json arg)).
Proof.
  intros Hn Hs Hi. destruct (any_fld "input" arg) as [a|] eqn:Ha; [|done]. cbn [mbind option_bind]. unfold run_members. intros [= <-].
  split; [field|]. unfold opSignalWorkflow. f_equal. f_equal; field.
Qed.
Lemma cancel_read c id run : ci_namespace c ≠ "" → id ≠ "" →
  opCancelWorkflow wording defaultNS p (authed (run_members c id run)) =
  give_or wording 400 wfInfoSDK (CancelWorkflowWithReason p (ci_namespace c) id run "" "").
Proof. intros Hn Hi. unfold opCancelWorkflow. f_equal. f_equal; field. Qed.
Lemma terminate_read c id run reason : ci_namespace c ≠ "" → id ≠ "" →
  opTerminateWorkflow wording defaultNS p (authed (run_members c id run ++ fld_omit "reason" reason)) =
  give_or wording 400 wfInfoSDK (TerminateWorkflowWithReason p (ci_namespace c) id run reason "").
Proof. intros Hn Hi. unfold opTerminateWorkflow. f_equal. f_equal; field. Qed.

(** (C10) A call of the client is the operation of the engine it names: starting,
    signalling, cancelling and terminating through an open client, with arguments that
    marshal, does to the server exactly what the engine's operation does for the tenant of
    the token in the namespace of the client, with the id, type, queue, input, memo, signal
    and reason the caller gave; the run it answers is the caller's, and an error of the
    engine comes back as its text under status 400. *)
Theorem client_calls_reach_engine c s opts workflow ty args id run name arg reason :
  ci_closed c = false → ci_namespace c ≠ "" → so_TaskQueue opts ≠ "" → id ≠ "" → name ≠ "" → workflowTypeName workflow = inr ty →
  start_request c (so_ID opts) ty opts args None ≠ None → start_request c id ty opts args (Some (name, arg)) ≠ None → marshal_any arg ≠ None →
  ExecuteWorkflow c opts workflow args s =
    engine_call 400 (λ wf, {| wr_id := set_if_empty (so_ID opts) (RunId (Execution wf)); wr_runID := RunId (Execution wf) |})
      (startWorkflowFull p (ci_namespace c) (so_ID opts) "" {| TypeName := ty |} (so_TaskQueue opts) (input_json args) "" ∅ (memo_json (so_Memo opts)) "") s ∧
  SignalWithStartWorkflow c id name arg opts workflow args s =
    engine_call 400 (λ wf, {| wr_id := id; wr_runID := RunId (Execution wf) |})
      (deref (signalWithStartFull p (ci_namespace c) id "" {| TypeName := ty |} (so_TaskQueue opts) (input_json args) name (value_json arg) "" ∅
                (memo_json (so_Memo opts)))) s ∧
  SignalWorkflow c id run name arg s = engine_call 400 (λ _, tt) (Workflow.SignalWorkflow p (ci_namespace c) id run name (value_json arg)) s ∧
  CancelWorkflow c id run s = engine_call 400 (λ _, tt) (CancelWorkflowWithReason p (ci_namespace c) id run "" "") s ∧
  TerminateWorkflow c id run reason s = engine_call 400 (λ _, tt) (TerminateWorkflowWithReason p (ci_namespace c) id run reason "") s.
Proof.
  intros Hc Hn Hq Hi Hs Hty Hr Hr' Ha. unfold ExecuteWorkflow, SignalWithStartWorkflow, SignalWorkflow, CancelWorkflow, TerminateWorkflow, require, given.
  rewrite !(proj2 (String.eqb_neq _ _)) by done. cbn [negb]. rewrite Hty. split_and!.
  - destruct (start_request _ _ _ _ _ _) as [j|] eqn:E; [|done]. destruct (start_object _ _ _ _ _ _ _ E) as [o ->]. destruct (start_read _ _ _ _ _ _ Hn Hq E) as [Ho Hf].
    apply (trip_then _ (λ run, {| wr_id := set_if_empty (so_ID opts) run; wr_runID := run |}) 400 (λ wf, RunId (Execution wf))).
    eapply trip_wrapped; try done; by rewrite ?Hf.
  - destruct (start_request _ _ _ _ _ (Some _)) as [j|] eqn:E; [|done]. destruct (start_object _ _ _ _ _ _ _ E) as [o ->].
    destruct (signal_start_read _ _ _ _ _ _ _ _ (sv_world s) Hn Hs E) as [Ho Hf]. 
    apply (trip_then _ (λ run, {| wr_id := id; wr_runID := run |}) 400 (λ wf, RunId (Execution wf))). by eapply trip_wrapped.
  - destruct (any_fld "input" arg) as [a|] eqn:E; [|by destruct arg]. cbn [mbind option_bind].
    destruct (signal_read c id run name arg _ Hn Hs Hi ltac:(rewrite E; reflexivity)) as [Ho Hf]. eapply trip_wrapped; try done. by rewrite Hf.
  - eapply trip_wrapped; try done; [field|by rewrite cancel_read].
  - eapply trip_wrapped; try done; [field|by rewrite terminate_read].
Qed.

(** ** Schedules *)

(** What the server makes of a schedule: the crontab entries and the action, and no
    interval. *)
Definition received (c : clientImpl) (id : string) (s : Schedule) : Types.Schedule :=
  {| ScheduleId := id; sc_Namespace := ci_namespace c; Spec := {| CronString := ss_Cron (sh_Spec s); IntervalList := [] |};
     Action := {| sa_WorkflowType := {| TypeName := sn_WorkflowType (sh_Action s) |}; sa_TaskQueue := sn_TaskQueue (sh_Action s); sa_Input := input_json (sn_Input (sh_Action s)) |};
     State := {| Paused := sh_Paused s; Note := "" |}; Types.Info := zero |}.

Lemma texts_kept (l : list string) : match to_json l with JArr l => omap (λ c, match c with JStr s => Some s | _ => None end) l | _ => [] end = l.
Proof. unfold to_json. cbn [list_codec]. induction l as [|x l IH]; [done|]. cbn. f_equal. exact IH. Qed.
Lemma schedule_read c id sch o : ci_namespace c ≠ "" → id ≠ "" → schedule_request c id sch = Some (JObj o) →
  assoc "auth_token" o = None ∧ scheduleFromSDK (authed o) defaultNS = received c id sch ∧ ns_of defaultNS (authed o) = ci_namespace c ∧ sched_of (authed o) = id.
Proof.
  intros Hn Hi. unfold schedule_request, schedule_json, action_json. destruct (list_fld "input" (sn_Input (sh_Action sch))) as [i|] eqn:Hl; [|done].
  cbn [mbind option_bind]. intros [= <-]. split_and!; [field| |field|field].
  unfold scheduleFromSDK, received. rewrite assoc_authed by done. set (o := authed _). do 2 look1. set (sched := _ :: _ :: _ :: fld_omit _ _).
  assert (any sched "spec" = spec_json (sh_Spec sch)) as -> by (subst sched; field).
  assert (any sched "action" = JObj (fld_omit "workflow_id" (sn_WorkflowID (sh_Action sch)) ++ fld "workflow_type" (sn_WorkflowType (sh_Action sch)) ++
            fld "task_queue" (sn_TaskQueue (sh_Action sch)) ++ i)) as -> by (subst sched; field).
  assert (boolOr sched "paused" false = sh_Paused sch) as -> by (subst sched; look; destruct (sh_Paused sch); done).
  cbn [obj spec_json]. subst o. f_equal; [field|field| |].
  - f_equal; [|look; done]. look; [match goal with E : is_empty ?a = true |- _ => by rewrite (is_empty_zero a E) end|apply texts_kept].
  - f_equal; [f_equal|..]; field.
Qed.


(** (C17) The client and the server number the schedule operations differently, and name the
    interval differently. Deleting a schedule through the client lists the schedules of the
    namespace, reports success and leaves every row as it was; listing them deletes the
    schedule with the empty id and answers none; replacing one resumes it and drops the new
    definition; triggering one reaches no handler; and a schedule is created without its
    interval. Creating, pausing and resuming do reach their operations. *)
Theorem schedule_calls_go_astray c s id sch paused overlap pageSize tok opts :
  ci_closed c = false → ci_namespace c ≠ "" → id ≠ "" → schedule_request c id sch ≠ None →
  co_ID opts = id → co_Spec opts = sh_Spec sch → co_Action opts = sh_Action sch → co_Paused opts = sh_Paused sch → sh_ID sch = id →
  sn_WorkflowType (sh_Action sch) ≠ "" → sn_TaskQueue (sh_Action sch) ≠ "" → ss_Interval (sh_Spec sch) ≠ 0 →
  (DeleteSchedule c id s = engine_call 500 (λ _, tt) (Schedules.ListSchedules p (ci_namespace c)) s ∧
   ∀ q k, row (sv_world (DeleteSchedule c id s).1) q k = row (sv_world s) q k) ∧
  ListSchedules c pageSize tok s = engine_call 400 (λ _, ([], "")) (Schedules.DeleteSchedule p (ci_namespace c) "") s ∧
  UpdateSchedule c id sch s = engine_call 400 (λ _, tt) (Schedules.PauseSchedule p (ci_namespace c) id false "") s ∧
  TriggerSchedule c id overlap s = (s, inl (CCall "no handler")) ∧
  CreateSchedule c opts s = engine_call 400 (λ _, tt) (Schedules.CreateSchedule p (received c id sch)) s ∧
  PauseSchedule c id paused s = engine_call 400 (λ _, tt) (Schedules.PauseSchedule p (ci_namespace c) id paused "") s.
Proof.
  intros Hc Hn Hi Hs E1 E2 E3 E4 E5 Hty Hq Hiv.
  unfold DeleteSchedule, ListSchedules, UpdateSchedule, TriggerSchedule, CreateSchedule, PauseSchedule, require, given.
  rewrite E1, E2, E3, E4, !(proj2 (String.eqb_neq _ _)), (proj2 (Z.eqb_neq _ _) Hiv), andb_false_r by done. cbn [negb].
  destruct (schedule_request c id sch) as [j|] eqn:E; [|done].
  assert (∃ o, j = JObj o) as [o ->].
  { revert E. unfold schedule_request. destruct (schedule_json sch); [|done]. intros [= <-]. by eexists. }
  destruct (schedule_read c id sch o Hn Hi E) as (Ho & Hr & Hns & Hid).
  replace (schedule_request c id _) with (Some (JObj o)) by (rewrite <-E, <-E5; by destruct sch).
  assert (send c cop_DeleteSchedule (Some (JObj (schedule_members c id))) s = engine_call 500 (λ _, tt) (Schedules.ListSchedules p (ci_namespace c)) s) as Hdel.
  { eapply trip_wrapped; try done. unfold opListSchedules. assert (ns_of defaultNS (authed (schedule_members c id)) = ci_namespace c) as -> by field. done. }
  split_and!.
  - exact Hdel.
  - intros q k. rewrite Hdel. unfold engine_call. destruct (Schedules.ListSchedules p (ci_namespace c) (sv_world s)) as [w r] eqn:El. cbn.
    assert (respects reads (Schedules.ListSchedules p (ci_namespace c))) as Hr' by (unfold Schedules.ListSchedules; walk).
    pose proof (respects_world reads _ (sv_world s) Hr') as [Ht _]. rewrite El in Ht. by apply tables_row.
  - set (l := fld "namespace" (ci_namespace c) ++ _). assert (assoc "auth_token" l = None ∧ ns_of defaultNS (authed l) = ci_namespace c ∧ sched_of (authed l) = "") as (Hl1 & Hl2 & Hl3).
    { subst l. unfold page_members, token_fld. destruct (String.eqb tok ""); split_and!; field. }
    eapply trip_wrapped; try done; [unfold opDeleteSchedule; by rewrite Hl2, Hl3|by intros []].
  - eapply trip_wrapped; try done. unfold opUnpauseSchedule. by rewrite Hns, Hid.
  - unfold send, roundTrip. rewrite Hc. unfold transport_Call, link, zapTransport, zap_Call.
    destruct (attach token _) as [why|pl] eqn:Ea; [|done]. exfalso. revert Ea. unfold attach. destruct token as [[why'|tok']|]; [by destruct (token_works why')| |done].
    by case_match.
  - eapply trip_wrapped; try done. unfold opCreateSchedule. rewrite Hr. cbn [ScheduleId received]. by rewrite (proj2 (String.eqb_neq _ _) Hi).
  - eapply trip_wrapped; try done. unfold opPauseSchedule.
    assert (boolOr (authed (schedule_members c id ++ fld "paused" paused)) "paused" true = paused) as -> by field. f_equal. f_equal; field.
Qed.


(** ** Waiting for a run *)

Lemma describe_call c id run s : ci_closed c = false → ci_namespace c ≠ "" → id ≠ "" →
  DescribeWorkflow c id run s =
  let '(w, r) := Workflow.DescribeWorkflow p (ci_namespace c) id run (sv_world s) in
  ({| sv_world := w; sv_workers := sv_workers s |},
   match r with
   | inr (Some wf) => match read_info (wfInfoSDK wf) with Some i => inr i | None => inl CDecode end
   | inr None => inl (CStatus 404 "workflow not found")
   | inl ErrNilDeref => inl (CCall "handler failed")
   | inl e => inl (CStatus 500 (err_text wording e))
   end).
Proof.
  intros Hc Hn Hi. unfold DescribeWorkflow, require, given. rewrite (proj2 (String.eqb_neq _ _) Hi). cbn [negb]. unfold roundTrip. rewrite Hc.
  rewrite (call_wrapped cop_DescribeWorkflow (opDescribeWorkflow wording defaultNS)) by (done || field).
  unfold opDescribeWorkflow. assert (ns_of defaultNS (authed (run_members c id run)) = ci_namespace c) as -> by field.
  assert (wf_of (authed (run_members c id run)) = id) as -> by field. assert (run_of (authed (run_members c id run)) = run) as -> by field.
  unfold give_found, run_op, attempt, mbind, M_bind. destruct (Workflow.DescribeWorkflow _ _ _ _ _) as [w [e|[wf|]]]; [by destruct e| |done].
  cbn -[read_info wfInfoSDK]. by destruct (read_info (wfInfoSDK wf)).
Qed.

Lemma info_status wf i : read_info (wfInfoSDK wf) = Some i → wi_Status i = status_int (Status wf).
Proof.
  unfold read_info, wfInfoSDK. cbn [as_obj mbind option_bind]. set (o := _ ++ _).
  assert (read_int 8 o "status" = Some (status_int (Status wf))) as E.
  { subst o. unfold read_int. rewrite !assoc_app. destruct (String.eqb (StartTime wf) ""), (String.eqb (CloseTime wf) ""); cbn; unfold status_int; by repeat case_match. }
  rewrite E. repeat (match goal with |- context [option_bind _ _ _ ?x] => destruct x | |- context [mbind _ ?x] => destruct x end; [|done]; cbn [mbind option_bind]).
  by intros [= <-].
Qed.

Definition ended (st : string) : bool := bool_decide (st ∈ [COMPLETED; FAILED; CANCELED; TERMINATED]).
(** What a look that goes on waiting saw. *)
Lemma waits_open value disable r r' wf i :
  read_info (wfInfoSDK wf) = Some i → poll_verdict value disable r i = inr r' → ended (Status wf) = false ∧ wr_id r' = wr_id r.
Proof.
  intros Hi%info_status. unfold poll_verdict. rewrite Hi. unfold status_int. intros Hv. split; [|by repeat case_match; simplify_eq].
  apply bool_decide_eq_false. rewrite !elem_of_cons, elem_of_nil. intros [E|[E|[E|[E|[]]]]]; rewrite E in Hv; done.
Qed.
Lemma success_completed value disable r wf i :
  read_info (wfInfoSDK wf) = Some i → poll_verdict value disable r i = inl None → Status wf = COMPLETED.
Proof. intros Hi%info_status. unfold poll_verdict. rewrite Hi. unfold status_int. repeat case_match; try done. intros _. by apply String.eqb_eq. Qed.

Definition backoffs (b : Z) : Prop := ∃ k, 0 ≤ k ≤ 5 ∧ b = 250 * Millisecond * 2 ^ k.
Lemma backoff_next b : backoffs b → b ≤ 8 * Second ∧ backoffs (if b <? maxBackoff then b * 2 else b).
Proof.
  intros (k & Hk & ->). assert (k = 0 ∨ k = 1 ∨ k = 2 ∨ k = 3 ∨ k = 4 ∨ k = 5) as Hc by lia.
  split; [by destruct Hc as [->|[->|[->|[->|[->| ->]]]]]; vm_compute|].
  destruct Hc as [->|[->|[->|[->|[->| ->]]]]];
    [by exists 1|by exists 2|by exists 3|by exists 4|by exists 5|by exists 5].
Qed.

(** A run as the engine describes it. *)
Definition described (c : clientImpl) (id run : string) (w w' : world) (wf : WorkflowExecution) : Prop :=
  Workflow.DescribeWorkflow p (ci_namespace c) id run w = (w', inr (Some wf)).

Lemma get_loop_spec fuel between ends c value disable : ci_closed c = false → ci_namespace c ≠ "" →
  ∀ r b s s' waits out, wr_id r ≠ "" → backoffs b → get_loop fuel between ends c value disable r b s = (s', waits, out) →
  Forall (λ d, d ≤ 8 * Second) waits ∧
  match out with
  | Some None => ∃ w run wf, described c (wr_id r) run w (sv_world s') wf ∧ Status wf = COMPLETED
  | Some (Some _) => True
  | None => ∃ looks, length looks = fuel ∧
      Forall (λ w, ∃ w' run wf, described c (wr_id r) run w w' wf ∧ ended (Status wf) = false) looks
  end.
Proof.
  intros Hc Hn. induction fuel as [|fuel IH]; intros r b s s' waits out Hr Hb; cbn [get_loop].
  { intros [= <- <- <-]. split; [done|]. by exists []. }
  rewrite describe_call by done. destruct (Workflow.DescribeWorkflow p (ci_namespace c) (wr_id r) (wr_runID r) (sv_world s)) as [w [e|[wf|]]] eqn:E.
  - destruct e; intros [= <- <- <-]; done.
  - destruct (read_info (wfInfoSDK wf)) as [i|] eqn:Ei; [|by intros [= <- <- <-]].
    destruct (poll_verdict value disable r i) as [o|r'] eqn:Ev.
    + intros [= <- <- <-]. split; [done|]. destruct o; [done|]. exists (sv_world s), (wr_runID r), wf. split; [exact E|]. by eapply success_completed.
    + destruct (waits_open _ _ _ _ _ _ Ei Ev) as [Ho Hid]. destruct (ends fuel); [by intros [= <- <- <-]|].
      destruct (get_loop fuel _ _ _ _ _ _ _ _) as [[s1 ws] o1] eqn:El. intros [= <- <- <-].
      destruct (backoff_next b Hb) as [Hb8 Hb']. destruct (IH r' _ _ _ _ _ ltac:(by rewrite Hid) Hb' El) as [Hw Hout]. rewrite Hid in Hout.
      split; [by apply Forall_cons|]. destruct o1 as [[|]|]; [done|exact Hout|]. destruct Hout as (looks & Hl & Hf).
      exists (sv_world s :: looks). split; [cbn; lia|]. apply Forall_cons. split; [|done]. exists w, (wr_runID r), wf. by split.
  - by intros [= <- <- <-].
Qed.

End Calls.

Module ClientDemo.
#[local] Existing Instance test_env.

Definition word (e : err) : string := "error".
Definition acme : Principal := tenant "acme".
Definition verifier : option (string → string) := Some (λ tok, tok).
Definition token : TokenSource := Some (inr "Bearer acme").
Definition still (s : server) : server := s.
Definition wire : Transport server := zapTransport word "default" verifier true "client" token still.
#[local] Existing Instance wire.
Lemma token_answers why : token ≠ Some (inl why).
Proof. done. Qed.
Lemma acme_admitted : scope verifier true (authed token []) = inr acme.
Proof. done. Qed.

Definition shop : clientImpl := {| ci_namespace := "default"; ci_identity := "shop"; ci_closed := false |}.
Definition fresh_server : server := {| sv_world := new_world true; sv_workers := newWorkerRegistry |}.
Definition order_options : StartWorkflowOptions :=
  {| so_ID := "order"; so_TaskQueue := "orders"; so_WorkflowExecutionTimeout := 0; so_WorkflowRunTimeout := 0; so_WorkflowTaskTimeout := 0;
     so_RetryPolicy := None; so_CronSchedule := ""; so_Memo := {["from" := AnyJson (JStr "web")]}; so_SearchAttributes := ∅ |}.
Definition order_fn : goref := RefFunc "github.com/acme/shop.Order".
Definition order_args : list goany := [AnyJson (JNum 7)].
Definition started : server := (ExecuteWorkflow shop order_options order_fn order_args fresh_server).1.
Definition order_run : workflowRunImpl :=
  match (ExecuteWorkflow shop order_options order_fn order_args fresh_server).2 with inr r => r | inl _ => {| wr_id := ""; wr_runID := "" |} end.

Lemma client_calls_reach_engine_witness :
  wr_id order_run = "order" ∧
  ExecuteWorkflow shop order_options order_fn order_args fresh_server =
    engine_call word 400 (λ wf, {| wr_id := set_if_empty (so_ID order_options) (RunId (Execution wf)); wr_runID := RunId (Execution wf) |})
      (startWorkflowFull acme (ci_namespace shop) (so_ID order_options) "" {| TypeName := "Order" |} (so_TaskQueue order_options) (input_json order_args) "" ∅
         (memo_json (so_Memo order_options)) "") fresh_server ∧
  input_json order_args = JArr [JNum 7] ∧ memo_json (so_Memo order_options) = JObj [("from", JStr "web")].
Proof.
  split; [by vm_compute|]. split; [|by split; vm_compute].
  exact (proj1 (client_calls_reach_engine word "default" verifier true "client" token still acme token_answers acme_admitted shop fresh_server
           order_options order_fn "Order" order_args "order" "" "pay" (AnyJson JNull) "" eq_refl ltac:(by vm_compute) ltac:(by vm_compute) ltac:(by vm_compute)
           ltac:(by vm_compute) eq_refl ltac:(by vm_compute) ltac:(by vm_compute) ltac:(by vm_compute))).
Defined.

(** A schedule that fires every hour. *)
Definition hourly : Schedule :=
  {| sh_ID := "report"; sh_Spec := {| ss_Cron := []; ss_Interval := 3600 * Second; ss_StartTime := None; ss_EndTime := None; ss_Jitter := 0; ss_Timezone := "" |};
     sh_Action := {| sn_WorkflowID := ""; sn_WorkflowType := "Report"; sn_TaskQueue := "reports"; sn_Input := [] |}; sh_Paused := false |}.
Definition hourly_options : CreateScheduleOptions :=
  {| co_ID := "report"; co_Spec := sh_Spec hourly; co_Action := sh_Action hourly; co_Paused := false |}.
Definition scheduled : server := (CreateSchedule shop hourly_options fresh_server).1.
Definition stored : list Types.Schedule := match (Schedules.ListSchedules acme "default" (sv_world scheduled)).2 with inr l => l | inl _ => [] end.
Lemma schedule_calls_go_astray_witness :
  (ScheduleId <$> stored, NextActionTime ∘ Types.Info <$> stored) = (["report"], [""]) ∧
  (DeleteSchedule shop "report" scheduled).2 = inr tt ∧
  ∀ q k, row (sv_world (DeleteSchedule shop "report" scheduled).1) q k = row (sv_world scheduled) q k.
Proof.
  split; [by vm_compute|]. split; [by vm_compute|].
  exact (proj2 (proj1 (schedule_calls_go_astray word "default" verifier true "client" token still acme token_answers acme_admitted shop scheduled
           "report" hourly true "" 0 "" hourly_options eq_refl ltac:(by vm_compute) ltac:(by vm_compute) ltac:(by vm_compute) eq_refl eq_refl eq_refl eq_refl eq_refl
           ltac:(by vm_compute) ltac:(by vm_compute) ltac:(by vm_compute)))).
Defined.

(** The run is terminated during the first wait. *)
Definition meanwhile (n : nat) (s : server) : server := (TerminateWorkflow shop "order" "" "late" s).1.
Definition never (n : nat) : bool := false.

(** The wait grows past the bound the comment names: four seconds are doubled. *)
Example waits_of_get : (GetWithOptions 8 (λ _ s, s) never shop false false order_run started).1.2 =
  [250 * Millisecond; 500 * Millisecond; Second; 2 * Second; 4 * Second; 8 * Second; 8 * Second; 8 * Second].
Proof. by vm_compute. Qed.
End ClientDemo.
