(* ===== verification/Rows.v ===== *)
(** Invariants of one kind of row. A property of the rows of a kind that no run is
    made of holds in every world the system can reach as soon as the operations of
    the component that owns the kind keep it: everything else writes other kinds,
    and a deletion keeps any property of what remains. *)

From Stdlib Require Import Ascii ZArith Lia.
From stdpp Require Import prelude strings gmap.
From S2P Require Import Prelude GoStrings Json Types EngineTypes Env Principal Router Shard GoTime Temporal Dispatch Events World WorldFacts Failure Workflow Durable Commands Activities Schedules Deployments Admin Retention Frames RunInv Creates Upkeep PurgeSpec Reach.

Section Kind.
Context `{Env} `{!SegmentRule} (kind : string) (G : Principal → string → json → Prop) (Hseg : segment kind).

Definition kept (w : world) : Prop := ∀ p s j, row w p (kind +:+ "/" +:+ s) = Some j → G p s j.
Definition keeps_kind : relation world := λ w w', kept w → kept w'.

#[export] Instance keeps_kind_pre : PreOrder keeps_kind.
Proof. unfold keeps_kind. split; [by intros w ?|]. intros w1 w2 w3 H1 H2 HS. auto. Qed.

Lemma kept_tables w w' : same_tables w w' → kept w → kept w'.
Proof. intros St Hk p s j. rewrite (tables_row w w') by done. apply Hk. Qed.
Lemma kept_still w w' : still w w' → kept w → kept w'.
Proof. intros [St _]. by apply kept_tables. Qed.

Lemma kept_put p key v w w' :
  (∀ s j, key = kind +:+ "/" +:+ s → v = Some j → G p s j) → row_put p key v w w' → kept w → kept w'.
Proof.
  intros Hg [Hr _] Hk q s j. rewrite Hr. case_decide as E; [|apply Hk]. destruct E as [-> <-]. intros ->. by apply Hg.
Qed.

Lemma kind_steps p : Steps keeps_kind p (λ _, True) (λ k, k ≠ kind).
Proof.
  assert (∀ w w', w_shards w' = w_shards w → keeps_kind w w') as Hq.
  { intros w w' E Hk. eapply kept_tables; [|exact Hk]. intros q ns. unfold shard_table. by rewrite E. }
  assert (∀ key k ns rest f v w w', NsFromKey key = Some (k, ns, rest) → k ≠ kind →
    (∀ t k, f t !! k = if decide (k = key) then v else t !! k) → wrote p ns f w w' → keeps_kind w w') as Hw.
  { intros key k ns rest f v w w' Hk Hn Hf Hw. pose proof (wrote_row _ _ _ _ _ _ _ _ _ Hk Hf Hw) as Hrow.
    destruct (NsFromKey_kind _ _ _ _ Hk) as (s & -> & Hs). intros Hkw. eapply kept_put; [|exact Hrow|done].
    intros s' j E _. apply segment_inj in E as [E _]; done. }
  split.
  - apply keeps_kind_pre.
  - intros w w' St Hk. by eapply kept_still.
  - intros key k ns rest v w w' Hk Hn. eapply Hw; [done|done|]. intros. apply localPut_lookup.
  - intros key k ns rest w w' Hk Hn. eapply Hw; [done|done|]. intros. apply localDel_lookup.
  - intros w w' E _ _ _. by apply Hq.
  - intros o w _. by apply Hq.
  - intros t w _ _. by apply Hq.
  - intros ns wf run t w _. by apply Hq.
  - intros k w. by apply Hq.
Qed.

(** ** The operations that own the kind *)

Lemma kind_del p key : respects keeps_kind (store_del p key).
Proof. intros w. apply wp_del; [intros e w' St _ Hk; by eapply kept_still|]. intros w' k ns rest _ _ _ Hrow Hk. by eapply kept_put; [|exact Hrow|]. Qed.

Lemma kind_put {A} `{Codec A} p s (v : A) :
  (marshal_ok v = true → G p s (to_json v)) → respects keeps_kind (store_put p (kind +:+ "/" +:+ s) v).
Proof.
  intros Hg w. destruct (marshal_ok v) eqn:Em.
  - apply wp_put; [intros e w' St _ Hk; by eapply kept_still|]. intros w' k ns rest _ _ _ Hrow Hk. eapply kept_put; [|exact Hrow|done].
    intros s' j E [= <-]. apply segment_inj in E as [_ <-]; [by apply Hg|done|done].
  - unfold store_put. rewrite Em. cbn [negb]. wp_step. by intros Hk.
Qed.

Lemma keeps_intro {A} (m : W A) : (∀ w, kept w → wp m (λ _ w', keeps_kind w w') w) → respects keeps_kind m.
Proof. intros Hm w. apply wp_intro. intros Hk. by apply (wp_elim m _ w (Hm w Hk)). Qed.
Lemma keeps_tables_kind {A} (m : W A) : keeps_tables m → respects keeps_kind m.
Proof. intros Hm w. eapply wp_mono; [apply Hm|]. intros r w' St Hk. by eapply kept_tables; [exact St|]. Qed.

(** What is read satisfies the property. *)
Definition reads {A} `{Codec A} (p : Principal) (s : string) (a : A) : Prop := ∃ j, of_json j = Some a ∧ G p s j.

Lemma kind_must_find {A B} `{Codec A} p s what (f : A → W B) :
  (∀ a, reads p s a → respects keeps_kind (f a)) →
  respects keeps_kind (must_find (store_get p (kind +:+ "/" +:+ s)) what ≫= f).
Proof.
  intros Hf. apply keeps_intro. intros w Hk. wp_step. apply wp_must_find. apply wp_get; cbn [found]; [intros e w1 St _ e1 Hk1; by eapply kept_still|intros w1 St _ e Hk1; by eapply kept_still|].
  intros w1 j a St Hj Ha. eapply wp_mono; [apply Hf; exists j; split; [done|by apply Hk]|].
  intros r w2 H2 Hkw. apply H2. by eapply kept_still.
Qed.

Lemma kind_list {A B} `{Codec A} p ns (f : list A → W B) :
  engine_kind kind → (∀ l, (∀ a, a ∈ l → ∃ s, reads p s a) → respects keeps_kind (f l)) →
  respects keeps_kind (listInto A p (kind +:+ "/" +:+ ns +:+ "/") ≫= f).
Proof.
  intros Hek Hf. apply keeps_intro. intros w Hk. wp_step.
  change (kind +:+ "/" +:+ ns +:+ "/") with (kind +:+ "/" +:+ ns +:+ "/" +:+ "").
  apply wp_listInto; [done|intros e w1 St _ Hk1; by eapply kept_still|]. intros w1 rows l St Hl Hm.
  eapply wp_mono; [apply Hf|intros r w2 H2 Hkw; apply H2; by eapply kept_still].
  intros a Ha. apply mapM_Some in Hm. apply list_elem_of_lookup in Ha as [i Hi].
  destruct (Forall2_lookup_r _ _ _ _ _ Hm Hi) as ([k j] & Hin & Hj). cbn in Hj. apply list_elem_of_lookup_2 in Hin.
  apply (elem_of_listed w p _ rows k j Hl) in Hin as [Hr Hp].
  - apply has_prefix_spec in Hp as [t ->]. rewrite !sapp_assoc in Hr. eexists. exists j. split; [done|by eapply Hk].
  - change (kind +:+ "/" +:+ ns +:+ "/" +:+ "") with (kind +:+ "/" +:+ ns +:+ "/"). rewrite <- !sapp_assoc. apply good_slash.
  - intros k' s' E Hk'. apply segment_inj in E as [<- _]; [by apply engine_plain|done|done].
Qed.

(** ** The whole system *)

Context (Hrun : kind ∉ "purge" :: run_kinds).
Context (Hact : ∀ p o, respects keeps_kind (serve_activity p o)) (Hleases : ∀ p, respects keeps_kind (sweepLeases p))
  (Hsched : ∀ p o, respects keeps_kind (serve_schedule p o)) (Htrigger : ∀ p ns id req, respects keeps_kind (TriggerSchedule p ns id req))
  (Hfire : ∀ now d, respects keeps_kind (fire_due now d))
  (Hadmin : ∀ p o, respects keeps_kind (serve_admin p o)) (Hmeta : ∀ p o, respects keeps_kind (serve_meta p o)).

Lemma run_kind_ne k : k ∈ run_kinds → k ≠ kind.
Proof. intros Hk ->. apply Hrun. by right. Qed.

Lemma serve_kind p r : respects keeps_kind (serve p r).
Proof.
  pose proof (kind_steps p) as HR. pose proof run_kind_ne as HK. destruct r; cbn [serve].
  - by apply (resp_RegisterNamespace _ p _ _ HR HK).
  - by apply (resp_then keeps_kind), (resp_start _ p _ _ HR HK).
  - by apply (resp_signal _ p _ _ HR HK).
  - by apply (resp_then keeps_kind), (resp_signalWithStart _ p _ _ HR HK).
  - by apply (resp_then keeps_kind), (resp_terminal _ p _ _ HR HK).
  - by apply (resp_then keeps_kind), (resp_CancelWorkflow _ p _ _ HR HK).
  - by apply (resp_then keeps_kind), (resp_reset _ p _ _ HR HK).
  - by apply (resp_then keeps_kind), (resp_query _ p _ _ HR).
  - by apply (resp_then keeps_kind).
  - apply Hact.
  - apply Hsched.
  - apply Hadmin.
  - apply Hmeta.
Qed.

Lemma everyTenant_kind prefix : respects keeps_kind (listEveryTenant prefix).
Proof. intros w. apply wp_everyTenant. intros w' rows e St _ Hk. by eapply kept_still. Qed.

#[local] Hint Resolve everyTenant_kind Hleases Hfire : walk.

Lemma tick_kind p : respects keeps_kind (sweepOnce p).
Proof.
  pose proof (kind_steps p) as HR. pose proof (resp_sweep _ p _ _ HR run_kind_ne). pose proof (resp_log _ _ _ _ HR).
  pose proof (resp_fails_fail _ _ _ _ HR). pose proof (resp_fails_ok _ _ _ _ HR). pose proof (resp_time_now _ _ _ _ HR).
  unfold sweepOnce, sweepSchedules. walk.
Qed.

Lemma purge_kind now : respects keeps_kind (purgeOnce now).
Proof.
  assert ("purge" ≠ kind) as Hp by (intros <-; apply Hrun; by left).
  assert (∀ q n limit, respects keeps_kind (purge q n now limit)) by (intros; by apply (resp_purge _ _ _ _ (kind_steps q) (kind_del q))).
  assert (∀ q ns e, respects keeps_kind (reportPurge q ns e)) by (intros; by apply (resp_reportPurge _ _ _ _ (kind_steps q) (kind_del q))).
  unfold purgeOnce. walk.
Qed.

Lemma recover_kind p : respects keeps_kind (Recover p).
Proof.
  pose proof (kind_steps p) as HR. pose proof (λ ns, resp_recover_namespace _ p _ _ HR run_kind_ne ns I).
  pose proof (resp_listInto _ _ _ _ HR Namespace ("ns" +:+ "/")). unfold Recover, ListNamespaces. walk.
Qed.

Lemma kind_use {A} (m : W A) w : respects keeps_kind m → kept w → wp m (λ _ w', kept w') w.
Proof. intros Hm Hk. eapply wp_mono; [apply Hm|]. intros r w' Hw. by apply Hw. Qed.

Lemma next_kept l w : kept w → kept (next l w).
Proof.
  intros Hk. destruct l; cbn [next].
  - apply (wp_next (serve p r)). by apply kind_use; [apply serve_kind|].
  - apply (wp_next (respondWorkflowHandler token cmds)), wp_respond_wf; [done|]. intros t Ht. apply kind_use; [|done].
    apply (resp_bind keeps_kind); [|intros; apply (resp_ret keeps_kind)]. apply (resp_for_each keeps_kind). intros c _.
    by apply (resp_command _ _ _ _ (kind_steps (wt_principal t)) run_kind_ne).
  - apply (wp_next (respond_activity token result failure)), wp_respond_act; [done|]. intros t Ht.
    eapply wp_mono; [apply kind_use; [|done]|intros r w' Hw a; exact Hw].
    by apply (resp_complete _ _ _ _ (kind_steps (at_principal t)) run_kind_ne).
  - apply (wp_next (QueryWorkflow_end token ch)). unfold QueryWorkflow_end. wp_step. wp_step.
    destruct (d_chans (w_disp w) !! ch) as [res|]; [repeat case_match; by wp_step|]. wp_step. wp_step. by wp_step.
  - destruct (w_timers w !! i) as [t|]; [|done]. apply (wp_next (fire_retry t)), kind_use; [|done].
    by apply (resp_fire _ _ _ _ (kind_steps (rt_principal t)) run_kind_ne).
  - apply (wp_next (sweepCanceling p)), kind_use; [|done]. apply (resp_sweep _ _ _ _ (kind_steps p) run_kind_ne).
  - apply (wp_next (sweepOnce p)), kind_use; [apply tick_kind|done].
  - apply (wp_next (purgeOnce now)), kind_use; [apply purge_kind|done].
  - done.
  - apply (wp_next (Recover p)), kind_use; [apply recover_kind|done].
  - done.
Qed.

Lemma run_kept b ls : kept (run b ls).
Proof.
  assert (kept (new_world b)) as Hk.
  { intros p s j. unfold row. case_match; [|done]. destruct p0 as [[? ?] ?]. done. }
  unfold run. revert Hk. generalize (new_world b) as w. induction ls as [|l ls IH]; intros w Hk; cbn; [done|].
  by apply IH, next_kept.
Qed.

End Kind.

(** ** Components that do not own the kind *)

Section Others.
Context `{Env} `{!SegmentRule} (kind : string) (G : Principal → string → json → Prop) (Hseg : segment kind) (Hrun : kind ∉ "purge" :: run_kinds).
Abbreviation R := (keeps_kind kind G).

Lemma not_owned (l : list string) k : kind ∉ l → k ∈ l → k ≠ kind.
Proof. by intros Hn Hk ->. Qed.

Lemma others_activity p o : kind ∉ act_kinds → respects R (serve_activity p o).
Proof. intros Hn. apply (serve_activity_resp _ _ _ _ (kind_steps kind G Hseg p)). intros k. by apply not_owned. Qed.
Lemma others_leases p : kind ∉ act_kinds → respects R (sweepLeases p).
Proof. intros Hn. apply (resp_sweepLeases _ _ _ _ (kind_steps kind G Hseg p)). intros k. by apply not_owned. Qed.
Lemma others_schedule p o : kind ∉ sched_kinds → respects R (serve_schedule p o).
Proof. intros Hn. apply (serve_schedule_resp _ _ _ _ (kind_steps kind G Hseg p)). intros k. by apply not_owned. Qed.
Lemma others_trigger p ns id req : kind ∉ sched_kinds → respects R (TriggerSchedule p ns id req).
Proof.
  intros Hn. apply (resp_TriggerSchedule _ _ _ _ (kind_steps kind G Hseg p)); [by apply run_kind_ne| |done]. intros k. by apply not_owned.
Qed.
Lemma others_fire now d : kind ∉ sched_kinds → respects R (fire_due now d).
Proof.
  intros Hn. apply (resp_fire_due _ _ _ _ (kind_steps kind G Hseg (due_principal d))); [by apply run_kind_ne| |done|done]. intros k. by apply not_owned.
Qed.
Lemma others_admin p o : admin_kind o ≠ kind → respects R (serve_admin p o).
Proof. intros Hn. by apply (serve_admin_resp _ _ _ _ (kind_steps kind G Hseg p)). Qed.
Lemma others_meta p o : "sa" ≠ kind → respects R (serve_meta p o).
Proof. intros Hn. apply (serve_meta_resp _ _ _ _ (kind_steps kind G Hseg p)); [by apply run_kind_ne|done]. Qed.

End Others.

(** ** Typed rows *)

Section Typed.
Context `{Env} `{!SegmentRule} {A} `{FullCodec A} (kind : string) (good : Principal → string → A → Prop) (Hseg : segment kind).

(** The row decodes, and what it decodes to is good. *)
Definition typed (p : Principal) (s : string) (j : json) : Prop := ∃ a, of_json j = Some a ∧ good p s a.
Abbreviation R := (keeps_kind kind typed).

Lemma typed_put p s v : good p s v → respects R (store_put p (kind +:+ "/" +:+ s) v).
Proof. intros Hg. apply (kind_put kind typed Hseg). intros Hm. exists v. by rewrite of_to. Qed.

Lemma reads_typed p s a : reads typed p s a → good p s a.
Proof. intros (j & Hj & a' & Hj' & Hg). congruence. Qed.

Lemma typed_must_find {B} p s what (f : A → W B) :
  (∀ a, good p s a → respects R (f a)) → respects R (must_find (store_get p (kind +:+ "/" +:+ s)) what ≫= f).
Proof. intros Hf. apply (kind_must_find kind typed). intros a Ha%reads_typed. by apply Hf. Qed.

Lemma typed_list {B} p ns (f : list A → W B) :
  engine_kind kind → (∀ l, (∀ a, a ∈ l → ∃ s, good p s a) → respects R (f l)) →
  respects R (listInto A p (kind +:+ "/" +:+ ns +:+ "/") ≫= f).
Proof.
  intros Hk Hf. apply (kind_list kind typed Hseg); [done|]. intros l Hl. apply Hf. intros a (s & Ha%reads_typed)%Hl. by exists s.
Qed.

Lemma typed_tables {B} (m : W B) : keeps_tables m → respects R m.
Proof. apply keeps_tables_kind. Qed.

End Typed.
