(* ===== verification/RowSpec.v ===== *)
(** What the rows of each component say in every world the system can reach:
    standalone activities never exceed their attempts, a deployment has one current
    version, no search attribute has a reserved name, and every row decodes as the
    type its key promises. *)

From Stdlib Require Import Ascii ZArith Lia.
From stdpp Require Import prelude strings gmap sorting.
From S2P Require Import Prelude GoStrings Json Types EngineTypes Env Principal Router Shard GoTime Temporal GoDuration Dispatch Events World WorldFacts Failure Workflow Durable Commands Activities Schedules Deployments Admin Retention Frames RunInv Creates Upkeep PurgeSpec PurgeLive Reach Rows.

#[local] Open Scope Z_scope.

(** The steps of an operation that leave the kind alone. *)
Ltac use_steps HR :=
  pose proof (resp_time_now _ _ _ _ HR); pose proof (resp_now _ _ _ _ HR); pose proof (resp_newRunId _ _ _ _ HR);
  pose proof (resp_emit _ _ _ _ HR); pose proof (resp_publish _ _ _ _ HR); pose proof (resp_DescribeNamespace _ _ _ _ HR);
  pose proof (resp_fails_ok _ _ _ _ HR).

(** The components that write no row of the kind. *)
Ltac not_in := unfold act_kinds, sched_kinds, run_kinds; set_solver.
Ltac others :=
  lazymatch goal with
  | |- respects _ (serve_activity _ _) => by apply others_activity; [|not_in]
  | |- respects _ (sweepLeases _) => by apply others_leases; [|not_in]
  | |- respects _ (serve_schedule _ _) => by apply others_schedule; [|not_in]
  | |- respects _ (TriggerSchedule _ _ _ _) => by apply others_trigger; [|not_in|not_in]
  | |- respects _ (fire_due _ _) => by apply others_fire; [|not_in|not_in]
  | |- respects _ (serve_admin _ ?o) => by apply others_admin; [|destruct o]
  | |- respects _ (serve_meta _ _) => by apply others_meta; [|not_in|]
  end.

(** ** Standalone activities *)

(** Attempts are counted from one, and stay within the maximum where there is one. *)
Definition attempts_ok (a : StandaloneActivity) : Prop := 1 ≤ act_Attempt a ∧ (0 < MaximumAttempts a → act_Attempt a ≤ MaximumAttempts a).

Definition good_activity (p : Principal) (s : string) (a : StandaloneActivity) : Prop :=
  (∃ ns, s = ns +:+ "/" +:+ WorkflowId (act_Execution a) +:+ "/" +:+ RunId (act_Execution a)) ∧ attempts_ok a.

Section Activity.
Context `{Env} `{!SegmentRule}.
Abbreviation R := (keeps_kind "act" (typed good_activity)).
Abbreviation steps p := (kind_steps "act" (typed good_activity) eq_refl p).

Lemma act_get p ns id run what {B} (f : StandaloneActivity → W B) :
  (∀ a, good_activity p (ns +:+ "/" +:+ id +:+ "/" +:+ run) a → respects R (f a)) →
  respects R (must_find (DescribeActivity p ns id run) what ≫= f).
Proof. apply (typed_must_find "act"). Qed.
Lemma act_put p ns id run a : good_activity p (ns +:+ "/" +:+ id +:+ "/" +:+ run) a → respects R (store_put p (actKey ns id run) a).
Proof. by apply (typed_put "act"). Qed.

(** A row rewritten with the same reference and no more attempts stays good. *)
Lemma good_same p s a b : good_activity p s a → act_Execution b = act_Execution a → act_Attempt b = act_Attempt a →
  MaximumAttempts b = MaximumAttempts a → good_activity p s b.
Proof. unfold good_activity, attempts_ok. by intros H1 -> -> ->. Qed.
Lemma good_at p ns s a : good_activity p s a → good_activity p (ns +:+ "/" +:+ WorkflowId (act_Execution a) +:+ "/" +:+ RunId (act_Execution a)) a.
Proof. intros [_ Ha]. split; [by exists ns|done]. Qed.

Lemma other_put {A} `{Codec A} p kind s (v : A) : segment kind → kind ≠ "act" → respects R (store_put p (kind +:+ "/" +:+ s) v).
Proof. intros Hs Hk. by apply (resp_put _ _ _ _ (steps p)), keyed_kind. Qed.

Lemma act_history p ns id run ty at_ : respects R (appendActivityHistory p ns id run ty at_).
Proof.
  apply act_get. intros a Ha. use_steps (steps p). apply (resp_bind R); [done|intros t]. cbv zeta.
  apply (resp_bind R). { unfold ahistKey, ahistPrefix. rewrite sapp_assoc. by apply other_put. }
  intros _. apply (resp_bind R); [|intros; apply (resp_ret R)]. apply act_put. by eapply good_same.
Qed.
#[local] Hint Resolve act_history : walk.

Lemma act_data p ns id run : respects R (describe_data p ns id run).
Proof. apply (resp_describe_data _ _ _ _ (steps p)). Qed.
Lemma act_prior p ns id req : respects R (prior_activity p ns id req).
Proof. apply (resp_prior_activity _ _ _ _ (steps p)). Qed.
Lemma act_idem p ns id req (v : activityIdempotency) : respects R (store_put p (aidemKey ns id req) v).
Proof. by apply other_put. Qed.
Lemma act_record p id r t : respects R (recordFailure p id r t).
Proof. by apply (resp_recordFailure _ _ _ _ (steps p)). Qed.
Lemma act_clear p id : respects R (clearFailure p id).
Proof. by apply (resp_clearFailure _ _ _ _ (steps p)). Qed.
#[local] Hint Resolve act_data act_prior act_idem act_record act_clear : walk.

Lemma act_start p ns id run typ q i retry a b c d who req : respects R (StartActivity p ns id run typ q i retry a b c d who req).
Proof.
  use_steps (steps p). unfold StartActivity. apply (resp_bind R); [by apply (resp_attempt R)|intros r]. destruct (found r); [|apply (resp_throw R)].
  case_match; [apply (resp_throw R)|]. case_match; [apply (resp_throw R)|]. apply (resp_bind R); [auto with walk|]. intros [x|]; [apply (resp_ret R)|].
  apply (resp_bind R); [case_match; [done|apply (resp_ret R)]|intros run']. cbv zeta. apply (resp_bind R); [done|intros t].
  apply (resp_bind R); [|walk]. apply act_put. split; [by exists ns|]. split; cbn; lia.
Qed.

Lemma act_terminal p ns id run st ty k at_ r c : respects R (activityTerminal p ns id run st ty k at_ r c).
Proof.
  use_steps (steps p). apply act_get. intros a Ha. case_match; [apply (resp_throw R)|]. apply (resp_bind R); [done|intros t]. cbv zeta.
  apply (resp_bind R); [|walk]. apply act_put. by eapply good_same.
Qed.
#[local] Hint Resolve act_terminal : walk.

Lemma act_reap_row p ns now a s : good_activity p s a → respects R (reap_row p ns now a).
Proof.
  intros Ha. use_steps (steps p). unfold reap_row. case_match; [apply (resp_ret R)|]. cbv zeta.
  destruct (attempts_spent a) eqn:Hs; [apply (resp_ignore R), act_terminal|].
  apply (resp_bind R); [|walk]. apply act_put. destruct (good_at p ns s a Ha) as [Hn [Ha1 Ha2]]. split; [done|].
  unfold attempts_spent in Hs. split; cbn; [lia|]. intros Hm. apply andb_false_iff in Hs as [Hs|Hs]; [lia|]. apply Z.leb_gt in Hs. lia.
Qed.

Lemma act_reap p ns : respects R (reapExpiredLeases p ns).
Proof.
  use_steps (steps p). apply (typed_list "act"); [done|by apply engine_kind_of|]. intros l Hl. apply (resp_bind R); [done|intros now].
  apply (resp_for_each R). intros a [s Ha]%Hl. by eapply act_reap_row.
Qed.

Lemma act_claim_row p ns who lease a s : good_activity p s a → respects R (claim_row p ns who lease a).
Proof.
  intros Ha. use_steps (steps p). unfold claim_row. cbv zeta. apply (resp_bind R); [done|intros now]. apply (resp_bind R); [|walk].
  apply act_put. eapply good_same; [by eapply good_at|done..].
Qed.

Lemma act_take p ns q who lease : respects R (ClaimNextActivity p ns q who lease).
Proof.
  use_steps (steps p). unfold ClaimNextActivity. apply (resp_bind R); [by apply (resp_attempt R)|intros r].
  destruct (found r); [|apply (resp_throw R)]. apply (resp_bind R); [apply act_reap|intros _].
  apply (typed_list "act"); [done|by apply engine_kind_of|]. intros l Hl. destruct (next_claim q l) as [a|] eqn:E; [|apply (resp_ret R)].
  assert (a ∈ l) as Hin.
  { rewrite <-(merge_sort_Permutation claim_le l). eapply list_elem_of_filter. unfold next_claim in E. by apply head_Some_elem_of in E. }
  destruct (Hl a Hin) as [s Ha]. apply (resp_bind R); [by eapply act_claim_row|intros; apply (resp_ret R)].
Qed.

Lemma act_heartbeat p ns id run d : respects R (HeartbeatActivity p ns id run d).
Proof.
  use_steps (steps p). apply act_get. intros a Ha. case_match; [apply (resp_throw R)|]. apply (resp_bind R); [done|intros beat].
  apply (resp_bind R); [walk|intros lease]. apply (resp_bind R); [|walk]. apply act_put. by eapply good_same.
Qed.

Lemma act_serve p o : respects R (serve_activity p o).
Proof.
  destruct o; cbn [serve_activity].
  - by apply (resp_then R), act_start.
  - apply act_terminal.
  - apply act_terminal.
  - apply act_terminal.
  - by apply (resp_then R), act_take.
  - apply act_heartbeat.
Qed.

Lemma act_sweep p : respects R (sweepLeases p).
Proof.
  pose proof (resp_listInto _ _ _ _ (steps p) Namespace ("ns" +:+ "/")). pose proof (act_reap p). unfold sweepLeases, ListNamespaces. walk.
Qed.

Lemma run_activities b ls : kept "act" (typed good_activity) (run b ls).
Proof.
  apply run_kept; [done|not_in|exact act_serve|exact act_sweep|intros; others..].
Qed.

End Activity.

(** ** Deployments *)

Section Deployment.
Context `{Env} `{!SegmentRule}.
Definition good_deployment (p : Principal) (s : string) (d : Deployment) : Prop := series_ok d.
Abbreviation R := (keeps_kind "dp" (typed good_deployment)).
Abbreviation steps p := (kind_steps "dp" (typed good_deployment) eq_refl p).

Lemma dep_get p ns name what {B} (f : Deployment → W B) :
  (∀ d, series_ok d → respects R (f d)) → respects R (must_find (DescribeDeployment p ns name) what ≫= f).
Proof. intros Hf. by apply (typed_must_find "dp"). Qed.
Lemma dep_put p ns name d {B} (b : B) : series_ok d → respects R (store_put p (depKey ns name) d;; mret b).
Proof. intros Hd. apply (resp_bind R); [by apply (typed_put "dp")|intros; apply (resp_ret R)]. Qed.

Lemma dep_serve p o : respects R (serve_admin p o).
Proof.
  destruct (decide (admin_kind o = "dp")) as [Hk|]; [|by apply others_admin]. use_steps (steps p).
  destruct o; try done; cbn [serve_admin].
  - apply (resp_then R). unfold CreateDeployment. case_match; [apply (resp_throw R)|].
    apply (resp_bind R); [apply (resp_attempt R), (resp_DescribeDeployment _ _ _ _ (steps p))|intros r].
    destruct (found r); [apply (resp_throw R)|]. apply (resp_bind R); [done|intros t]. apply dep_put, new_series_ok.
  - apply (resp_then R), dep_get. intros d Hd. apply (resp_bind R); [done|intros t]. by apply dep_put, patch_series_ok.
  - apply dep_get. intros d Hd. case_match; [apply (resp_throw R)|apply kind_del].
  - apply (resp_then R). unfold CreateVersion. destruct (String.eqb_spec build "") as [|Hb]; [apply (resp_throw R)|].
    apply dep_get. intros d Hd. destruct (has_build build d) eqn:Hn; [apply (resp_throw R)|].
    apply (resp_bind R); [done|intros t]. apply (resp_bind R); [done|intros t']. by apply dep_put, add_series_ok.
  - apply (resp_then R), dep_get. intros d Hd. destruct (has_build build d); [|apply (resp_throw R)].
    apply (resp_bind R); [done|intros t]. destruct (patch_first _ _ _ _) as [[v l]|] eqn:E; [|apply (resp_throw R)].
    apply patch_first_spec in E as [E1 E2]. by apply dep_put, same_series_ok.
  - apply (resp_then R). unfold SetCurrentDeploymentVersion. case_match; [apply (resp_throw R)|]. apply dep_get. intros d Hd.
    case_match; [apply (resp_ret R)|]. destruct (has_build build d) eqn:Hb; [|apply (resp_throw R)].
    apply (resp_bind R); [done|intros t]. by apply dep_put, current_series_ok.
  - apply (resp_then R), dep_get. intros d Hd. destruct (String.eqb_spec (DefaultBuildId d) build); [apply (resp_throw R)|].
    destruct (has_build build d) eqn:Hb; [|apply (resp_throw R)]. apply (resp_bind R); [done|intros t]. by apply dep_put, delete_series_ok.
Qed.

Lemma run_deployments b ls : kept "dp" (typed good_deployment) (run b ls).
Proof.
  apply run_kept; [done|not_in|intros; others..|exact dep_serve|intros; others].
Qed.

End Deployment.

(** ** Search attributes *)

Section Attribute.
Context `{Env} `{!SegmentRule}.

(** A registered attribute has a name of its own, which no built-in uses, and a
    type the engine knows. *)
Definition good_attribute (p : Principal) (s : string) (sa : SearchAttribute) : Prop :=
  (∃ ns, s = ns +:+ "/" +:+ attr_Name sa) ∧ attr_Name sa ≠ "" ∧ reserved_attr (attr_Name sa) = false ∧ attr_Type sa ∈ validSearchAttrTypes.
Abbreviation R := (keeps_kind "sa" (typed good_attribute)).
Abbreviation steps p := (kind_steps "sa" (typed good_attribute) eq_refl p).

Lemma sa_run_kinds k : k ∈ run_kinds → k ≠ "sa".
Proof. unfold run_kinds. set_solver. Qed.

Lemma attribute_meta p o : respects R (serve_meta p o).
Proof.
  destruct o; cbn [serve_meta]; [|apply (resp_then R)..].
  - unfold AddSearchAttribute. apply (resp_bind R); [by apply (resp_namespace _ _ _ _ (steps p)), sa_run_kinds|intros _].
    destruct (String.eqb_spec (attr_Name sa) "") as [|Hn]; [apply (resp_throw R)|].
    destruct (reserved_attr (attr_Name sa)) eqn:Hr; [apply (resp_throw R)|].
    case_bool_decide as Ht; cbn [negb]; [|apply (resp_throw R)].
    apply (resp_bind R); [apply (resp_attempt R), (resp_get _ _ _ _ (steps p))|intros r]. destruct (found r); [apply (resp_throw R)|].
    apply (typed_put "sa"); [done|]. split; [by exists ns|done].
  - apply (resp_UpdateNamespaceMetadata _ _ _ _ (steps p)), sa_run_kinds.
  - apply (resp_DeprecateNamespace _ _ _ _ (steps p)), sa_run_kinds.
  - apply (resp_UpdateWorkflowMetadata _ _ _ _ (steps p)), sa_run_kinds.
Qed.

Lemma attribute_admin p o : respects R (serve_admin p o).
Proof.
  destruct (decide (admin_kind o = "sa")) as [Hk|]; [|by apply others_admin]. use_steps (steps p).
  destruct o; try done; cbn [serve_admin]. unfold RemoveSearchAttribute. pose proof (kind_del "sa" (typed good_attribute)). walk.
Qed.

Lemma run_attributes b ls : kept "sa" (typed good_attribute) (run b ls).
Proof.
  apply run_kept; [done|not_in|intros; others..|exact attribute_admin|exact attribute_meta].
Qed.

End Attribute.

(** ** Schedules, batches, endpoints, identities *)

Section Plain.
Context `{Env} `{!SegmentRule}.
Definition any {A} (p : Principal) (s : string) (a : A) : Prop := True.

Abbreviation RS := (keeps_kind "sc" (typed (A := Schedule) any)).
Abbreviation ssteps p := (kind_steps "sc" (typed (A := Schedule) any) eq_refl p).

Lemma sc_put p ns id (s : Schedule) : respects RS (store_put p (schedKey ns id) s).
Proof. by apply (typed_put "sc"). Qed.
Lemma sc_get p ns id : respects RS (DescribeSchedule p ns id).
Proof. apply (resp_DescribeSchedule _ _ _ _ (ssteps p)). Qed.
#[local] Hint Resolve sc_put sc_get kind_del : walk.

Lemma sc_serve p o : respects RS (serve_schedule p o).
Proof.
  use_steps (ssteps p). destruct o; cbn [serve_schedule]; [| | |apply (resp_then RS)];
    unfold CreateSchedule, DeleteSchedule, PauseSchedule, UpdateSchedule; walk.
Qed.

Lemma sc_start p s l : respects RS (start_action p s l).
Proof. apply (resp_start_action _ _ _ _ (ssteps p)); [intros k; not_in|done]. Qed.
#[local] Hint Resolve sc_start : walk.

Lemma sc_trigger p ns id req : respects RS (TriggerSchedule p ns id req).
Proof.
  use_steps (ssteps p). pose proof (resp_prior_trigger _ _ _ _ (ssteps p)).
  assert (∀ i r (x : ExecutionRef), respects RS (store_put p (sctrigKey ns i r) x)).
  { intros. by apply (resp_put _ _ _ _ (ssteps p)), (keyed_kind _ "sctrig"). }
  unfold TriggerSchedule. walk.
Qed.

Lemma sc_fire now d : respects RS (fire_due now d).
Proof.
  pose proof (resp_reportFire _ _ _ _ (ssteps (due_principal d))). pose proof (resp_unreached _ _ _ _ (ssteps (due_principal d))).
  unfold fire_due. walk.
Qed.

Lemma run_schedules b ls : kept "sc" (typed (A := Schedule) any) (run b ls).
Proof. apply run_kept; [done|not_in|intros; others|intros; others|exact sc_serve|exact sc_trigger|exact sc_fire|intros; others|intros; others]. Qed.

Lemma bt_serve p o : respects (keeps_kind "bt" (typed (A := BatchOperation) any)) (serve_admin p o).
Proof.
  destruct (decide (admin_kind o = "bt")) as [Hk|]; [|by apply others_admin]. set (HR := kind_steps "bt" (typed (A := BatchOperation) any) eq_refl p). use_steps HR.
  assert (∀ ns id (x : BatchOperation), respects (keeps_kind "bt" (typed (A := BatchOperation) any)) (store_put p (batchKey ns id) x)) by (intros; by apply (typed_put "bt")).
  pose proof (resp_get _ _ _ _ HR (A := BatchOperation)).
  destruct o; try done; cbn [serve_admin]; unfold StartBatch, TerminateBatch, DescribeBatch; walk.
Qed.
Lemma run_batches b ls : kept "bt" (typed (A := BatchOperation) any) (run b ls).
Proof. apply run_kept; [done|not_in|intros; others..|exact bt_serve|intros; others]. Qed.

Lemma nx_serve p o : respects (keeps_kind "nx" (typed (A := NexusEndpoint) any)) (serve_admin p o).
Proof.
  destruct (decide (admin_kind o = "nx")) as [Hk|]; [|by apply others_admin]. set (HR := kind_steps "nx" (typed (A := NexusEndpoint) any) eq_refl p). use_steps HR.
  assert (∀ ns id (x : NexusEndpoint), respects (keeps_kind "nx" (typed (A := NexusEndpoint) any)) (store_put p (nexusKey ns id) x)) by (intros; by apply (typed_put "nx")).
  destruct o; try done; cbn [serve_admin]; unfold CreateNexusEndpoint, DeleteNexusEndpoint; walk.
Qed.
Lemma run_endpoints b ls : kept "nx" (typed (A := NexusEndpoint) any) (run b ls).
Proof. apply run_kept; [done|not_in|intros; others..|exact nx_serve|intros; others]. Qed.

Lemma id_serve p o : respects (keeps_kind "id" (typed (A := Identity) any)) (serve_admin p o).
Proof.
  destruct (decide (admin_kind o = "id")) as [Hk|]; [|by apply others_admin]. set (HR := kind_steps "id" (typed (A := Identity) any) eq_refl p). use_steps HR.
  assert (∀ ns id (x : Identity), respects (keeps_kind "id" (typed (A := Identity) any)) (store_put p (identityKey ns id) x)) by (intros; by apply (typed_put "id")).
  destruct o; try done; cbn [serve_admin]; unfold GrantIdentity, RevokeIdentity; walk.
Qed.
Lemma run_identities b ls : kept "id" (typed (A := Identity) any) (run b ls).
Proof. apply run_kept; [done|not_in|intros; others..|exact id_serve|intros; others]. Qed.

End Plain.

(** ** Properties *)

Definition decodes (A : Type) `{Codec A} (j : json) : bool := bool_decide (is_Some (of_json (A := A) j)).

(** Whether a row decodes as the type the engine reads it at. *)
Definition row_typed (kind : string) (j : json) : bool :=
  if String.eqb kind "ns" then decodes Namespace j
  else if String.eqb kind "wf" then decodes WorkflowExecution j
  else if String.eqb kind "wfopen" then decodes ExecutionRef j
  else if String.eqb kind "wfh" then decodes HistoryEvent j
  else if String.eqb kind "wfact" then decodes workflowActivity j
  else if String.eqb kind "act" then decodes StandaloneActivity j
  else if String.eqb kind "sc" then decodes Schedule j
  else if String.eqb kind "dp" then decodes Deployment j
  else if String.eqb kind "sa" then decodes SearchAttribute j
  else if String.eqb kind "bt" then decodes BatchOperation j
  else if String.eqb kind "nx" then decodes NexusEndpoint j
  else if String.eqb kind "id" then decodes Identity j
  else true.

Lemma decodes_some A `{Codec A} j (a : A) : of_json j = Some a → decodes A j = true.
Proof. intros E. unfold decodes. apply bool_decide_true. by rewrite E. Qed.

Section Properties.
Context `{Env} `{!SegmentRule}.

Lemma kept_decodes {A} `{Codec A} kind (good : Principal → string → A → Prop) w p s j :
  kept kind (typed good) w → row w p (kind +:+ "/" +:+ s) = Some j → decodes A j = true.
Proof. intros Hk Hr. destruct (Hk p s j Hr) as (a & Ha & _). by eapply decodes_some. Qed.


(** (C31) Standalone activities stay within their attempts: in every world the system
    can reach, whatever workers claimed, lost and reclaimed, an activity counts its
    attempts from one and never beyond its maximum when it has one; and its row is
    under the key its own reference names. *)
Theorem activity_attempts_bounded b ls p ns s j :
  row (run b ls) p ("act" +:+ "/" +:+ ns +:+ "/" +:+ s) = Some j →
  ∃ a, of_json j = Some a ∧ 1 ≤ act_Attempt a ∧ (0 < MaximumAttempts a → act_Attempt a ≤ MaximumAttempts a) ∧
    ∃ ns', ns +:+ "/" +:+ s = ns' +:+ "/" +:+ WorkflowId (act_Execution a) +:+ "/" +:+ RunId (act_Execution a).
Proof. intros Hr. destruct (run_activities b ls p _ j Hr) as (a & Ha & Hn & H1 & H2). by exists a. Qed.

(** A deployment has one current version: in every world the system can reach,
    the build ids of a series are distinct and not empty; when it has versions one
    of them is the default, and a version is current exactly when it is the
    default. *)
Theorem one_current_version b ls p s j :
  row (run b ls) p ("dp" +:+ "/" +:+ s) = Some j →
  ∃ d, of_json j = Some d ∧ NoDup (BuildId <$> Versions d) ∧ Forall (λ v, BuildId v ≠ "") (Versions d) ∧
    (Versions d ≠ [] → DefaultBuildId d ∈ BuildId <$> Versions d) ∧
    ∀ v, v ∈ Versions d → dv_State v = DEPLOYMENT_CURRENT ↔ BuildId v = DefaultBuildId d.
Proof.
  intros Hr. destruct (run_deployments b ls p s j Hr) as (d & Hd & [S1 S2 S3 S4]). exists d. split_and!; [done..| |done].
  intros Hne. by destruct S3 as [[_ ?]|].
Qed.

(** No registered search attribute shadows a built-in one: its name is not
    empty, not reserved and without the reserved prefix, its type is one the engine
    knows, and it is stored under its own name. *)
Theorem attributes_never_reserved b ls p s j :
  row (run b ls) p ("sa" +:+ "/" +:+ s) = Some j →
  ∃ sa ns, of_json j = Some sa ∧ s = ns +:+ "/" +:+ attr_Name sa ∧ attr_Name sa ≠ "" ∧
    (attr_Name sa ∉ reservedSearchAttrNames) ∧ has_prefix (attr_Name sa) "Temporal" = false ∧ attr_Type sa ∈ validSearchAttrTypes.
Proof.
  intros Hr. destruct (run_attributes b ls p s j Hr) as (sa & Hj & [ns Hs] & Hn & [H1 H2]%orb_false_iff & Ht).
  exists sa, ns. split_and!; try done. by apply bool_decide_eq_false in H1.
Qed.

(** (C22) The purge spares what it must. In every world the system can reach, a pass
    over a namespace leaves alone the row of every run and standalone activity that
    is not terminal or closed after the cutoff, the index entry of such a run and,
    when its ids hold no separator, every event of its history; and the rows of
    every other namespace and tenant. *)
Theorem purge_spares_live_runs b ls p n now limit keep q k :
  Forall (label_ok false) ls → retentionOf n = Some keep → segment (ni_Name (ns_Info n)) → ni_Name (ns_Info n) ≠ "" →
  guarded p (ni_Name (ns_Info n)) (now - keep) (run b ls) q k →
  row (purge p n now limit (run b ls)).1 q k = row (run b ls) q k.
Proof.
  intros Hls Hk Hs Hne Hg. destruct (run_sys false b ls Hls) as [HI _].
  apply (wp_next (purge p n now limit) (λ w', row w' q k = row (run b ls) q k)).
  eapply wp_mono; [by eapply purge_prunes|]. intros r w' P. by apply (proj2 (P HI)).
Qed.

End Properties.

(** ** A system in use *)

Module RowDemo.
#[local] Existing Instance test_env.
#[local] Existing Instance test_segment_rule.
#[local] Instance quiet : NoFaults.
Proof. by intros i. Qed.

Definition acme : Principal := {| Org := "acme"; Project := ""; User := "" |}.
Definition shop : Namespace :=
  {| ns_Info := {| ni_Name := "default"; ni_State := ""; ni_Description := ""; ni_OwnerEmail := ""; ni_Region := ""; ni_CreateTime := "" |};
     ns_Config := zero; IsActive := true |}.
Definition twice : RetryPolicy :=
  {| rp_InitialInterval := ""; rp_BackoffCoefficient := zero; rp_MaximumInterval := ""; rp_MaximumAttempts := 2; rp_NonRetryableErrorTypes := [] |}.

Definition ask (r : request) : label := LRequest acme r.
Definition start_order : label := ask (RStart "default" "order" "r1" {| TypeName := "Order" |} "orders" JNull "" ∅ JNull "").
Definition terminate_order : label := ask (RTerminate "default" "order" "r1" "done" "ops").

(** A job claimed under a lease of a nanosecond, lost, and claimed again. *)
Definition start_job : label :=
  ask (RActivity (AStart "default" "job" "j1" {| TypeName := "Render" |} "gpu" JNull (Some twice) "" "" "" "" "ops" "")).
Definition claim_job : label := ask (RActivity (AClaim "default" "gpu" "w1" 1)).
Definition jobs : list label := [ask (RRegister shop); start_job; claim_job; claim_job].

(** A deployment with two versions, the second made current. *)
Definition deploys : list label :=
  [ask (RRegister shop); ask (RAdmin (DCreate "default" "web" "" "" "")); ask (RAdmin (DVersion "default" "web" "v1" "" "" "" ∅));
   ask (RAdmin (DVersion "default" "web" "v2" "" "" "" ∅)); ask (RAdmin (DCurrent "default" "web" "v2"))].

Definition attributes : list label := [ask (RMeta (MAttr "default" {| attr_Name := "Customer"; attr_Type := "Keyword" |}))].

Definition row_of (ls : list label) (key : string) : json := default JNull (row (run true ls) acme key).

Lemma demo_ok g : Forall (label_ok g) [start_order; terminate_order].
Proof. repeat constructor; by destruct g. Qed.


Lemma activity_attempts_bounded_witness :
  ∃ a, of_json (row_of jobs (actKey "default" "job" "j1")) = Some a ∧ (1 ≤ act_Attempt a) ∧
    (0 < MaximumAttempts a → act_Attempt a ≤ MaximumAttempts a) ∧
    ∃ ns', "default" +:+ "/" +:+ "job/j1" = ns' +:+ "/" +:+ WorkflowId (act_Execution a) +:+ "/" +:+ RunId (act_Execution a).
Proof. apply (activity_attempts_bounded true jobs acme "default" "job/j1"). by vm_compute. Defined.

(** The second claim finds the job in its second and last attempt. *)
Example second_attempt :
  (λ a, (act_Attempt a, MaximumAttempts a, act_Status a)) <$> of_json (A := StandaloneActivity) (row_of jobs (actKey "default" "job" "j1"))
  = Some (2, 2, activityStateStarted).
Proof. by vm_compute. Qed.

Lemma one_current_version_witness :
  ∃ d, of_json (row_of deploys (depKey "default" "web")) = Some d ∧ NoDup (BuildId <$> Versions d) ∧
    Forall (λ v, BuildId v ≠ "") (Versions d) ∧ (Versions d ≠ [] → DefaultBuildId d ∈ BuildId <$> Versions d) ∧
    ∀ v, v ∈ Versions d → dv_State v = DEPLOYMENT_CURRENT ↔ BuildId v = DefaultBuildId d.
Proof. apply (one_current_version true deploys acme "default/web"). by vm_compute. Defined.

Lemma attributes_never_reserved_witness :
  ∃ sa ns, of_json (row_of attributes (attrKey "default" "Customer")) = Some sa ∧ "default/Customer" = ns +:+ "/" +:+ attr_Name sa ∧
    attr_Name sa ≠ "" ∧ (attr_Name sa ∉ reservedSearchAttrNames) ∧ has_prefix (attr_Name sa) "Temporal" = false ∧
    attr_Type sa ∈ validSearchAttrTypes.
Proof. apply (attributes_never_reserved true attributes acme "default/Customer"). by vm_compute. Defined.

(** A purge a year later leaves the open order alone. *)
Definition later : Z := 1798761600 * Second.
Definition month : Z := 720 * Hour.

Lemma open_order_guarded : guarded acme "default" (later - month) (run true [start_order]) acme (runKey "default" "order" "r1").
Proof.
  apply (guarded_row _ _ _ _ _ "wf" "default/order/r1" (row_of [start_order] (runKey "default" "order" "r1"))); [set_solver|by vm_compute|].
  intros (x & Hx & Hp)%(expired_inv _ _ _ _ "default/order/r1").
  assert (Some (Status x) = Some RUNNING) as [= E].
  { transitivity (Status <$> of_json (A := WorkflowExecution) (row_of [start_order] (runKey "default" "order" "r1"))); [by rewrite Hx|by vm_compute]. }
  unfold purgeable in Hp. rewrite E in Hp. by vm_compute in Hp.
Defined.

Lemma purge_spares_live_runs_witness :
  row (purge acme shop later purgeBatch (run true [start_order])).1 acme (runKey "default" "order" "r1") =
  row (run true [start_order]) acme (runKey "default" "order" "r1").
Proof.
  apply (purge_spares_live_runs true [start_order] acme shop later purgeBatch month acme);
    [repeat constructor|by vm_compute|done|done|apply open_order_guarded].
Defined.

Definition closed_row : json := row_of [start_order; terminate_order] (runKey "default" "order" "r1").

Lemma valid_default : ValidName "default" = None.
Proof. by vm_compute. Qed.

Lemma purge_removes_run_witness :
  let '(w', r) := purgeWorkflowRun acme "default" {| WorkflowId := "order"; RunId := "r1" |} (later - month) (run true [start_order; terminate_order]) in
  r = inr (true, None) ∧ row w' acme (runKey "default" "order" "r1") = None ∧ row w' acme (openKey "default" "order" "r1") = None ∧
  (∀ i, row w' acme (histPrefix "default" "order" "r1" +:+ i) = None) ∧ (∀ i, row w' acme (wfActPrefix "default" "order" "r1" +:+ i) = None).
Proof.
  apply (purge_removes_run acme "default" valid_default "order" "r1" closed_row (default zero (of_json closed_row)));
    [by vm_compute|done|by vm_compute|by vm_compute|by vm_compute].
Defined.

(** ** The reaper and a completion

    The background sweep lists the rows of a namespace and then treats them one by
    one, without the lock of the claims: a worker may complete a job in between. *)

Definition complete_job : label := ask (RActivity (AComplete "default" "job" "j1" (JStr "done") "w1")).
Definition claimed : list label := [ask (RRegister shop); start_job; claim_job].
Definition listed_job : StandaloneActivity := default zero (of_json (row_of claimed (actKey "default" "job" "j1"))).
Definition job_status (w : world) : option string :=
  j ← row w acme (actKey "default" "job" "j1"); a ← of_json (A := StandaloneActivity) j; Some (act_Status a).

(** A job completed between the listing and its turn goes back to the queue, and
    will run again. *)
Lemma reap_undoes_completion :
  let w := next complete_job (run true claimed) in
  job_status w = Some activityStateCompleted ∧
  job_status (reap_row acme "default" later listed_job w).1 = Some activityStateScheduled.
Proof. split; by vm_compute. Qed.

End RowDemo.
