(* ===== verification/System.v ===== *)
(** Properties of every world the system can reach. *)

From Stdlib Require Import Ascii ZArith Lia.
From stdpp Require Import prelude strings gmap.
From S2P Require Import Prelude GoStrings Json Types EngineTypes Env Principal Router Shard GoTime Temporal Dispatch Events World WorldFacts Failure Workflow Durable Commands Frames RunInv Reach.

Section System.
Context `{Env} `{!SegmentRule}.

Lemma event_row w p ns x i :
  Inv true w → segment ns → stored w p ns x → (1 ≤ i ≤ HistoryLen x)%Z →
  ∃ j ev, row w p (histKey ns (WorkflowId (Execution x)) (RunId (Execution x)) i) = Some j ∧ of_json j = Some ev ∧
    pad 20 (EventId ev) = pad 20 i.
Proof.
  intros HI Hns Hst Hi. destruct (stored_events true w p ns x HI Hns Hst eq_refl i Hi) as [j Hj].
  rewrite histKey_eq. unfold suffix in Hj. exists j. pose proof Hj as Hj'. unfold eventKey in Hj'.
  destruct (inv_event _ w HI p _ j Hj') as (ev & s' & Hev & E). exists ev. split_and!; [done..|].
  symmetry. revert E. rewrite <- !sapp_assoc. rewrite (sapp_assoc _ "/" (pad 20 i)), (sapp_assoc _ "/" (pad 20 (EventId ev))).
  intros E. apply last_segment_inj in E as [_ E]; [done|apply pad_segment..].
Qed.


(** (C3) History has no gaps. In every world reachable without a reset, whatever
    failed on the way, a run whose counter says [n] has a readable event row for
    each number from 1 to [n]: the event is written before the counter. *)
Theorem history_gapless b ls p ns x i :
  Forall (label_ok true) ls → segment ns → stored (run b ls) p ns x → (1 ≤ i ≤ HistoryLen x)%Z →
  ∃ j ev, row (run b ls) p (histKey ns (WorkflowId (Execution x)) (RunId (Execution x)) i) = Some j ∧ of_json j = Some ev ∧
    pad 20 (EventId ev) = pad 20 i.
Proof. intros Hls. destruct (run_sys true b ls Hls) as [HI _]. by apply event_row. Qed.


(** (C5) Tenant isolation: whatever a tenant asks for, and whatever fails while it
    is served, no row of another tenant changes. *)
Theorem tenant_isolation p r w q k : q ≠ p → row (serve p r w).1 q k = row w q k.
Proof. intros Hq. by apply serve_only. Qed.


End System.

(** ** A system in use *)

Module Demo.
#[local] Existing Instance test_env.
#[local] Existing Instance test_segment_rule.

Definition acme : Principal := {| Org := "acme"; Project := ""; User := "" |}.
Definition globex : Principal := {| Org := "globex"; Project := ""; User := "" |}.

Definition start_order : label :=
  LRequest acme (RStart "default" "order" "r1" {| TypeName := "Order" |} "orders" JNull "" ∅ JNull "").
Definition signal_order : label := LRequest acme (RSignal "default" "order" "r1" "pay" JNull "").
Definition terminate_order : label := LRequest acme (RTerminate "default" "order" "r1" "done" "ops").

(** A history of two requests: the run is open with two events. *)
Definition opened : list label := [start_order; signal_order].
Definition closed : list label := [start_order; terminate_order].

Definition order_row (ls : list label) : json := default JNull (row (run true ls) acme (runKey "default" "order" "r1")).
Definition order_of (ls : list label) : WorkflowExecution := default zero (of_json (order_row ls)).

Lemma opened_ok g : Forall (label_ok g) opened.
Proof. repeat constructor; by destruct g. Qed.
Lemma closed_ok g : Forall (label_ok g) closed.
Proof. repeat constructor; by destruct g. Qed.


Lemma history_gapless_witness :
  HistoryLen (order_of opened) = 2%Z ∧
  ∃ j ev, row (run true opened) acme (histKey "default" (WorkflowId (Execution (order_of opened))) (RunId (Execution (order_of opened))) 2) = Some j ∧
    of_json j = Some ev ∧ pad 20 (EventId ev) = pad 20 2.
Proof.
  split; [by vm_compute|].
  apply (history_gapless true opened acme "default" (order_of opened) 2); [apply opened_ok|done| |].
  - exists (order_row opened). split; by vm_compute.
  - change (HistoryLen (order_of opened)) with 2%Z. lia.
Defined.


Lemma tenant_isolation_witness :
  row (serve globex (RTerminate "default" "order" "r1" "x" "y") (run true opened)).1 acme (runKey "default" "order" "r1") =
  row (run true opened) acme (runKey "default" "order" "r1").
Proof. apply (tenant_isolation globex (RTerminate "default" "order" "r1" "x" "y") (run true opened) acme). done. Defined.

(** The token of the workflow task that the start left waiting. *)
Definition order_token : string := default "" (fst <$> head (map_to_list (d_wfByToken (w_disp (run true opened))))).
Definition complete_order : command :=
  {| c_Kind := 0; c_Result := RNone; c_Failure := RNone; c_Seq := 0; c_ActivityType := ""; c_WorkflowType := "";
     c_ChildWorkflowId := ""; c_Input := RNone; c_TaskQueue := ""; c_SearchAttrs := ∅; c_StartToCloseMs := 0;
     c_HeartbeatMs := 0; c_RetryPolicy := None |}.


End Demo.
