(* ===== verification/Lifecycle.v ===== *)
(** What the operations on a run do when nothing fails: the rows each writes, and
    the machine of a run (status and event types) that they implement. *)

From Stdlib Require Import Ascii ZArith Lia.
From stdpp Require Import prelude strings gmap.
From S2P Require Import Prelude GoStrings Json Types EngineTypes Env Principal Router Shard GoTime Temporal Dispatch Events World WorldFacts Failure Workflow Durable Commands Frames RunInv.

(** ** Successful runs *)

(** Writes and deletions of one tenant, the latest first. *)
Definition writes : Type := list (string * option json).

Fixpoint written (l : writes) (k : string) (old : option json) : option json :=
  match l with
  | [] => old
  | (k', v) :: l => if decide (k = k') then v else written l k old
  end.

Section Effects.
Context `{Env}.

(** The rows after the writes; the store is as open as it was. *)
Definition moved (p : Principal) (l : writes) (w w' : world) : Prop :=
  (∀ q k, row w' q k = if decide (q = p) then written l k (row w p k) else row w q k) ∧ w_closed w' = w_closed w.

Lemma written_app l1 l2 k old : written (l1 ++ l2) k old = written l1 k (written l2 k old).
Proof. induction l1 as [|[k' v] l1 IH]; cbn; [done|]. by case_decide. Qed.

Lemma moved_refl p w : moved p [] w w.
Proof. split; [|done]. intros q k. by case_decide; subst. Qed.
Lemma moved_trans p l1 l2 w1 w2 w3 : moved p l1 w1 w2 → moved p l2 w2 w3 → moved p (l2 ++ l1) w1 w3.
Proof.
  intros [E1 C1] [E2 C2]. split; [|congruence]. intros q k. rewrite E2, !E1, written_app. case_decide; subst; [|done].
  by rewrite decide_True.
Qed.
Lemma moved_row p l w w' k : moved p l w w' → row w' p k = written l k (row w p k).
Proof. intros [E _]. by rewrite E, decide_True. Qed.
Lemma still_moved p w w' : still w w' → moved p [] w w'.
Proof. intros St. split; [|apply St]. intros q k. rewrite (still_row w w') by done. by case_decide; subst. Qed.
Lemma row_put_moved p key v w w' : row_put p key v w w' → moved p [(key, v)] w w'.
Proof.
  intros [E (Ec & _)]. split; [|done]. intros q k. rewrite E. cbn.
  destruct (decide (q = p)) as [->|]; [|by rewrite decide_False by naive_solver].
  destruct (decide (k = key)) as [->|]; [by rewrite decide_True|by rewrite decide_False by naive_solver].
Qed.

(** [m] succeeds from [w], with a value and a world in [Q]. *)
Definition succeeds {A} (m : W A) (w : world) (Q : A → world → Prop) : Prop :=
  wp m (λ r w', match r with inr a => Q a w' | inl _ => False end) w.

Lemma succ_ret {A} (a : A) w (Q : A → world → Prop) : Q a w → succeeds (mret a) w Q.
Proof. done. Qed.
Lemma succ_bind {A B} (m : W A) (f : A → W B) w (Q : B → world → Prop) :
  succeeds m w (λ a w', succeeds (f a) w' Q) → succeeds (m ≫= f) w Q.
Proof. intros Hm. unfold succeeds. wp_step. eapply wp_mono; [exact Hm|]. by intros [e|a] w'. Qed.
Lemma succ_mono {A} (m : W A) w (Q Q' : A → world → Prop) :
  succeeds m w Q → (∀ a w', Q a w' → Q' a w') → succeeds m w Q'.
Proof. intros Hm HQ. eapply wp_mono; [exact Hm|]. intros [e|a] w'; [done|apply HQ]. Qed.
Lemma succ_attempt {A} (m : W A) w (Q : err + A → world → Prop) :
  succeeds m w (λ a w', Q (inr a) w') → succeeds (attempt m) w Q.
Proof. intros Hm. unfold succeeds. wp_step. eapply wp_mono; [exact Hm|]. by intros [e|a] w'. Qed.
Lemma succ_ignore {A} (m : W A) w (Q : unit → world → Prop) :
  succeeds m w (λ _ w', Q tt w') → succeeds (ignore m) w Q.
Proof. intros Hm. unfold succeeds. wp_step. eapply wp_mono; [exact Hm|]. by intros [e|a] w'. Qed.
Lemma succ_must_find {A} (m : W (option A)) what w (Q : A → world → Prop) :
  succeeds m w (λ o w', match o with Some a => Q a w' | None => False end) → succeeds (must_find m what) w Q.
Proof. intros Hm. apply succ_bind, succ_attempt. eapply succ_mono; [exact Hm|]. intros [a|] w'; [|done]. apply succ_ret. Qed.
Lemma succ_must_deref {A} (m : W (option A)) w (Q : A → world → Prop) :
  succeeds m w (λ o w', match o with Some a => Q a w' | None => False end) → succeeds (must_deref m) w Q.
Proof. intros Hm. apply succ_bind, succ_attempt. eapply succ_mono; [exact Hm|]. intros [a|] w'; [|done]. apply succ_ret. Qed.

(** Steps that write no row. *)
Definition idle {A} (m : W A) : Prop := ∀ p w, succeeds m w (λ _ w', moved p [] w w').

Lemma idle_intro {A} (m : W A) :
  (∀ w, (∃ a, (m w).2 = inr a) ∧ w_shards (m w).1 = w_shards w ∧ w_closed (m w).1 = w_closed w) → idle m.
Proof.
  intros Hm p w. destruct (Hm w) as ([a Ea] & Es & Ec). unfold succeeds, wp. destruct (m w) as [w' r]. cbn in *. subst r.
  split; [|done]. intros q k. unfold row, shard_table. rewrite Es. by case_decide; subst.
Qed.
Lemma idle_time_now : idle time_now.
Proof. apply idle_intro. intros w. split; [by eexists|done]. Qed.
Lemma idle_now : idle nowRFC3339.
Proof. apply idle_intro. intros w. split; [by eexists|done]. Qed.
Lemma idle_newRunId : idle newRunId.
Proof. apply idle_intro. intros w. split; [by eexists|done]. Qed.
Lemma idle_emit q e : idle (emit q e).
Proof.
  apply idle_intro. intros w. unfold emit, broker_publish, mbind, M_bind. destruct (String.eqb _ _); cbn; (split; [by eexists|done]).
Qed.
Lemma idle_log l : idle (log l).
Proof. apply idle_intro. intros w. split; [by eexists|done]. Qed.
Lemma idle_fails_fail k : idle (fails_fail k).
Proof. apply idle_intro. intros w. unfold fails_fail. destruct (tracker_fail k (w_fails w)) as [[? ?] ?]. split; [by eexists|done]. Qed.
Lemma idle_fails_ok k : idle (fails_ok k).
Proof. apply idle_intro. intros w. unfold fails_ok. destruct (tracker_ok k (w_fails w)) as [? ?]. split; [by eexists|done]. Qed.
Lemma idle_enqueue p ns q wf run ty i : idle (disp_EnqueueWorkflowTask p ns q wf run ty i).
Proof. apply idle_intro. intros w. split; [by eexists|done]. Qed.
Lemma idle_dispatch p ns q wf run seq aid ty i a b : idle (disp_DispatchActivity p ns q wf run seq aid ty i a b).
Proof. apply idle_intro. intros w. split; [by eexists|done]. Qed.
Lemma idle_push_cancel ns q wf run r i : idle (disp_PushCancelRequest ns q wf run r i).
Proof. apply idle_intro. intros w. split; [by eexists|done]. Qed.
Lemma idle_cancelling f : idle (modify (with_cancelling f)).
Proof. apply idle_intro. intros w. split; [by eexists|done]. Qed.
Lemma idle_ret {A} (a : A) : idle (mret a).
Proof. intros p w. apply succ_ret, moved_refl. Qed.

End Effects.

(** ** Operations of a tenant on a namespace the store serves *)

Section Ready.
Context `{Env} `{!SegmentRule} `{!NoFaults} (p : Principal) (ns : string).
Hypothesis Hns : ValidName ns = None.
Hypothesis Hp : Placeable p = None.

(** The world started as [w0], open, and has since seen the writes [l]. *)
Definition at_ (w0 : world) (l : writes) (w : world) : Prop := w_closed w0 = false ∧ moved p l w0 w.

Lemma at_start w0 : w_closed w0 = false → at_ w0 [] w0.
Proof. split; [done|apply moved_refl]. Qed.
Lemma at_row w0 l w k : at_ w0 l w → row w p k = written l k (row w0 p k).
Proof. intros [_ Hm]. by apply moved_row. Qed.
Lemma at_serves w0 l w : at_ w0 l w → serves w p ns.
Proof. intros [Ho [_ Hc]]. unfold serves. by rewrite Hc. Qed.
Lemma at_moved w0 l l' w w' : at_ w0 l w → moved p l' w w' → at_ w0 (l' ++ l) w'.
Proof. intros [Ho Hm] Hm'. split; [done|]. by eapply moved_trans. Qed.

(** A key of this namespace. *)
Definition here (key : string) : Prop := ∃ kind rest, NsFromKey key = Some (kind, ns, rest).

Lemma here_can w0 l w key : at_ w0 l w → here key → can w p key.
Proof. intros Ha (kind & rest & Hk). split; [done|]. exists kind, ns, rest. split; [done|]. by eapply at_serves. Qed.
Lemma here_key kind rest : plain_kind kind → here (kind +:+ "/" +:+ ns +:+ "/" +:+ rest).
Proof. intros Hk. exists kind, rest. apply NsFromKey_key; [done|by apply ValidName_segment|by apply ValidName_not_empty]. Qed.

Lemma succ_idle {A B} (m : W A) (f : A → W B) w0 l w (Q : B → world → Prop) :
  idle m → at_ w0 l w → (∀ a w', at_ w0 l w' → succeeds (f a) w' Q) → succeeds (m ≫= f) w Q.
Proof.
  intros Hm Ha Hf. apply succ_bind. eapply succ_mono; [apply (Hm p)|]. intros a w' Hw. apply Hf. by apply (at_moved w0 l []  w).
Qed.

Lemma put_succeeds {A} `{Codec A} key (v : A) w0 l w :
  here key → marshal_ok v = true → at_ w0 l w →
  succeeds (store_put p key v) w (λ _ w', at_ w0 ((key, Some (to_json v)) :: l) w').
Proof.
  intros Hk Hv Ha. unfold succeeds. apply wp_put.
  - intros e w' _ []. split; [by eapply here_can|done].
  - intros w' kind n rest _ _ _ Hrow. apply (at_moved w0 l [(key, Some (to_json v))] w); [done|]. by apply row_put_moved.
Qed.
Lemma del_succeeds key w0 l w : here key → at_ w0 l w → succeeds (store_del p key) w (λ _ w', at_ w0 ((key, None) :: l) w').
Proof.
  intros Hk Ha. unfold succeeds. apply wp_del.
  - intros e w' _ []. by eapply here_can.
  - intros w' kind n rest _ _ _ Hrow. apply (at_moved w0 l [(key, None)] w); [done|]. by apply row_put_moved.
Qed.
Lemma get_succeeds {A} `{Codec A} key w0 l w (o : option A) :
  here key → at_ w0 l w →
  match written l key (row w0 p key) with Some j => ∃ a, of_json j = Some a ∧ o = Some a | None => o = None end →
  succeeds (store_get p key) w (λ o' w', o' = o ∧ at_ w0 l w').
Proof.
  intros Hk Ha Ho. rewrite <- (at_row w0 l w) in Ho by done. unfold succeeds. apply wp_get.
  - intros e w' _ [[]|(j & Hj & Hn)]; [by eapply here_can|]. rewrite Hj in Ho. destruct Ho as (a & Ha' & _). congruence.
  - intros w' St Hr. rewrite Hr in Ho. split; [done|]. apply (at_moved w0 l [] w); [done|]. by apply still_moved.
  - intros w' j a St Hr Hj. rewrite Hr in Ho. destruct Ho as (a' & Ha' & ->). split; [congruence|].
    apply (at_moved w0 l [] w); [done|]. by apply still_moved.
Qed.

(** The run row that the writes leave. *)
Definition has_run (w0 : world) (l : writes) (x : WorkflowExecution) : Prop :=
  RunId (Execution x) ≠ "" ∧
  ∃ j, written l (runKey ns (WorkflowId (Execution x)) (RunId (Execution x)))
         (row w0 p (runKey ns (WorkflowId (Execution x)) (RunId (Execution x)))) = Some j ∧ of_json j = Some x.

Lemma describe_succeeds w0 l w x :
  has_run w0 l x → at_ w0 l w →
  succeeds (DescribeWorkflow p ns (WorkflowId (Execution x)) (RunId (Execution x))) w (λ o w', o = Some x ∧ at_ w0 l w').
Proof.
  intros (Hr & j & Hw & Hj) Ha. unfold DescribeWorkflow. destruct (String.eqb_spec (RunId (Execution x)) "") as [|_]; [done|].
  apply get_succeeds; [by apply here_key|done|]. rewrite Hw. eauto.
Qed.

Lemma find_succeeds w0 l w x what :
  has_run w0 l x → at_ w0 l w →
  succeeds (must_find (DescribeWorkflow p ns (WorkflowId (Execution x)) (RunId (Execution x))) what) w (λ y w', y = x ∧ at_ w0 l w').
Proof. intros Hx Ha. apply succ_must_find. eapply succ_mono; [by apply describe_succeeds|]. by intros o w' [-> ?]. Qed.
Lemma deref_succeeds w0 l w x :
  has_run w0 l x → at_ w0 l w →
  succeeds (must_deref (DescribeWorkflow p ns (WorkflowId (Execution x)) (RunId (Execution x)))) w (λ y w', y = x ∧ at_ w0 l w').
Proof. intros Hx Ha. apply succ_must_deref. eapply succ_mono; [by apply describe_succeeds|]. by intros o w' [-> ?]. Qed.

(** A row just written. *)
Lemma has_run_put w0 l x :
  RunId (Execution x) ≠ "" →
  has_run w0 ((runKey ns (WorkflowId (Execution x)) (RunId (Execution x)), Some (to_json x)) :: l) x.
Proof. intros Hr. split; [done|]. exists (to_json x). cbn. rewrite decide_True by done. split; [done|]. by apply of_to. Qed.
Lemma has_run_other w0 l x key v :
  key ≠ runKey ns (WorkflowId (Execution x)) (RunId (Execution x)) → has_run w0 l x → has_run w0 ((key, v) :: l) x.
Proof. intros Hk (Hr & j & Hw & Hj). split; [done|]. exists j. cbn. by rewrite decide_False. Qed.

Lemma kind_not_run kind rest wf run : segment kind → kind ≠ "wf" → kind +:+ "/" +:+ rest ≠ runKey ns wf run.
Proof. intros Hk Hn. apply (kind_ne kind "wf"); done. Qed.

(** ** Appending an event *)

Definition appended (x : WorkflowExecution) (ty : string) (a : gmap string json) (ev : HistoryEvent) : Prop :=
  EventId ev = (HistoryLen x + 1)%Z ∧ EventType ev = ty ∧ Attributes ev = a.

(** The writes of an append, the run row last. *)
Definition append_writes (x : WorkflowExecution) (ev : HistoryEvent) : writes :=
  [(runKey ns (WorkflowId (Execution x)) (RunId (Execution x)), Some (to_json (wf_set_len (HistoryLen x + 1) x)));
   (histKey ns (WorkflowId (Execution x)) (RunId (Execution x)) (HistoryLen x + 1), Some (to_json ev))].

Lemma hist_here wf run i : here (histKey ns wf run i).
Proof. unfold histKey, histPrefix. rewrite !sapp_assoc. by apply here_key. Qed.
Lemma hist_not_run wf run i wf' run' : histKey ns wf run i ≠ runKey ns wf' run'.
Proof. unfold histKey, histPrefix. rewrite !sapp_assoc. by apply (kind_not_run "wfh"). Qed.

Lemma append_succeeds w0 l w x ty a :
  has_run w0 l x → at_ w0 l w →
  succeeds (appendHistory p ns (WorkflowId (Execution x)) (RunId (Execution x)) ty a) w
    (λ ev w', appended x ty a ev ∧ at_ w0 (append_writes x ev ++ l) w').
Proof.
  intros Hx Ha. unfold appendHistory. apply succ_bind. eapply succ_mono; [by apply find_succeeds|]. intros ? w1 [-> A1].
  eapply succ_idle; [apply idle_now|exact A1|]. intros t w2 A2. cbv zeta. apply succ_bind.
  eapply succ_mono; [apply put_succeeds; [apply hist_here|done|exact A2]|]. intros [] w3 A3. apply succ_bind.
  eapply succ_mono; [apply put_succeeds; [by apply here_key|done|exact A3]|]. intros [] w4 A4. apply succ_ret. done.
Qed.

Lemma has_run_append w0 l x ev :
  RunId (Execution x) ≠ "" → has_run w0 (append_writes x ev ++ l) (wf_set_len (HistoryLen x + 1) x).
Proof. intros Hr. by apply (has_run_put w0 _ (wf_set_len (HistoryLen x + 1) x)). Qed.

(** ** Failure streaks *)

(** Writes to the failure rows only. *)
Definition streak_writes (l : writes) : Prop := Forall (λ kv, ∃ s, kv.1 = "fail" +:+ "/" +:+ s) l.

Lemma get_any {A} `{Codec A} key w0 l w :
  here key → at_ w0 l w → succeeds (attempt (store_get (A := A) p key)) w (λ _ w', at_ w0 l w').
Proof.
  intros Hk Ha. unfold succeeds. wp_step.
  apply wp_get; intros; apply (at_moved w0 l [] w); first [done|by apply still_moved].
Qed.

Lemma recordFailure_succeeds w0 l w id r t :
  fi_Namespace id = ns → at_ w0 l w →
  succeeds (recordFailure p id r t) w (λ _ w', ∃ lf, streak_writes lf ∧ at_ w0 (lf ++ l) w').
Proof.
  intros Hid Ha. unfold recordFailure. rewrite Hid. unfold failKey.
  eapply succ_idle; [apply idle_time_now|exact Ha|]. intros now w1 A1. apply succ_bind.
  eapply succ_mono; [apply get_any; [by apply here_key|exact A1]|]. intros old w2 A2. apply succ_bind, succ_ignore.
  eapply succ_mono; [apply put_succeeds; [by apply here_key|done|exact A2]|]. intros ? w3 A3.
  eapply succ_idle; [apply idle_fails_fail|exact A3|]. intros t' w4 A4.
  eapply succ_mono; [apply (succ_mono _ _ (λ _ w', moved p [] w4 w'))|].
  - case_match; [apply (idle_ret tt p)|apply (idle_log _ p)].
  - intros ? w' Hm. exact Hm.
  - intros ? w5 Hm. eexists [_]. split; [|apply (at_moved w0 _ [] w4 w5 A4 Hm)]. apply Forall_singleton. by eexists.
Qed.

Lemma clearFailure_succeeds w0 l w id :
  fi_Namespace id = ns → at_ w0 l w →
  succeeds (clearFailure p id) w (λ _ w', ∃ lf, streak_writes lf ∧ at_ w0 (lf ++ l) w').
Proof.
  intros Hid Ha. unfold clearFailure. rewrite Hid. unfold failKey.
  eapply succ_idle; [apply idle_fails_ok|exact Ha|]. intros n w1 A1. apply succ_bind.
  eapply succ_mono; [apply get_any; [by apply here_key|exact A1]|]. intros old w2 A2. destruct (found old) as [rec|].
  2: { apply succ_ret. exists []. split; [by apply Forall_nil|done]. }
  apply succ_bind, succ_ignore. eapply succ_mono; [apply del_succeeds; [by apply here_key|exact A2]|]. intros ? w3 A3.
  eapply succ_mono; [apply (idle_log _ p)|]. intros ? w4 Hm. eexists [_].
  split; [|apply (at_moved w0 _ [] w3 w4 A3 Hm)]. apply Forall_singleton. by eexists.
Qed.

(** ** Closing a run *)

Definition close_writes (x : WorkflowExecution) : writes :=
  [(openKey ns (WorkflowId (Execution x)) (RunId (Execution x)), None);
   (runKey ns (WorkflowId (Execution x)) (RunId (Execution x)), Some (to_json x))].

Lemma open_not_run wf run wf' run' : openKey ns wf run ≠ runKey ns wf' run'.
Proof. by apply (kind_not_run "wfopen"). Qed.

(** What a terminal transition of the open run [x] leaves. *)
Definition terminated (w0 : world) (l : writes) (x : WorkflowExecution) (st ty : string) (a : gmap string json)
    (y : WorkflowExecution) (w' : world) : Prop :=
  ∃ t ev lf, let closed := wf_set_close st t x in
    y = wf_set_len (HistoryLen x + 1) closed ∧ appended x ty a ev ∧ streak_writes lf ∧
    at_ w0 (lf ++ append_writes closed ev ++ close_writes closed ++ l) w'.

Lemma terminal_succeeds w0 l w x st k ty a :
  has_run w0 l x → at_ w0 l w → isTerminal (Status x) = false →
  succeeds (terminalTransition p ns (WorkflowId (Execution x)) (RunId (Execution x)) st k ty a) w (terminated w0 l x st ty a).
Proof.
  intros Hx Ha Ht. pose proof Hx as [Hr _]. unfold terminalTransition. apply succ_bind.
  eapply succ_mono; [by apply find_succeeds|]. intros ? w1 [-> A1]. rewrite Ht.
  eapply succ_idle; [apply idle_now|exact A1|]. intros t w2 A2. cbv zeta. set (closed := wf_set_close st t x).
  apply succ_bind. unfold closeRun. apply succ_bind.
  eapply succ_mono; [apply put_succeeds; [by apply here_key|done|exact A2]|]. intros [] w3 A3.
  eapply succ_mono; [apply del_succeeds; [by apply here_key|exact A3]|]. intros [] w4 A4. apply succ_bind.
  assert (has_run w0 (close_writes closed ++ l) closed) as Hc.
  { apply has_run_other; [apply open_not_run|]. by apply has_run_put. }
  eapply succ_mono; [apply (append_succeeds w0 (close_writes closed ++ l) w4 closed); [exact Hc|exact A4]|].
  intros ev w5 [Hev A5]. apply succ_bind.
  eapply succ_mono; [apply (deref_succeeds w0 (append_writes closed ev ++ close_writes closed ++ l) w5 (wf_set_len (HistoryLen closed + 1) closed)); [by apply has_run_append|exact A5]|].
  intros ? w6 [-> A6]. eapply succ_idle; [apply idle_emit|exact A6|]. intros ? w7 A7. apply succ_bind.
  eapply (succ_mono _ _ (λ _ w', ∃ lf, streak_writes lf ∧ at_ w0 (lf ++ append_writes closed ev ++ close_writes closed ++ l) w')).
  - case_match; [by apply recordFailure_succeeds|]. case_match; [by apply clearFailure_succeeds|].
    apply succ_ret. exists []. split; [by apply Forall_nil|done].
  - intros ? w8 (lf & Hlf & A8). apply succ_ret. by exists t, ev, lf.
Qed.

(** ** Scheduling a workflow task *)

(** Every event row of the tenant decodes. *)
Definition events_decode (w : world) : Prop :=
  ∀ s j, row w p ("wfh" +:+ "/" +:+ s) = Some j → ∃ ev : HistoryEvent, of_json j = Some ev.

(** Writes that leave it so. *)
Definition event_writes (l : writes) : Prop :=
  Forall (λ kv, outside ["wfh"] kv.1 ∨ ∃ ev : HistoryEvent, kv.2 = Some (to_json ev)) l.

Lemma Inv_events g w : Inv g w → events_decode w.
Proof. intros HI s j Hj. destruct (inv_event g w HI p s j Hj) as (ev & _ & Hev & _). eauto. Qed.

Lemma events_decode_at w0 l w : events_decode w0 → event_writes l → at_ w0 l w → events_decode w.
Proof.
  intros Hd Hl Ha s j. rewrite (at_row w0 l w) by done. clear Ha. induction Hl as [|[k v] l Hk Hl IH]; cbn [written]; [apply Hd|].
  case_decide as E; [|apply IH]. subst k. cbn in Hk. intros ->. destruct Hk as [(kind & rest & E & Hs & Hn)|[ev Hev]].
  - destruct Hn. apply segment_inj in E as [<- _]; [by left|done|done].
  - injection Hev as ->. exists ev. by apply of_to.
Qed.

Lemma append_event_writes x ev : event_writes (append_writes x ev).
Proof.
  repeat apply Forall_cons_2; [left; apply (outside_key _ "wf"); kinds|right; by exists ev|apply Forall_nil; done].
Qed.

Lemma can_list_here w0 l w prefix s : at_ w0 l w → prefix = "wfh" +:+ "/" +:+ ns +:+ "/" +:+ s → can_list w p prefix.
Proof.
  intros Ha ->. split; [done|]. exists "wfh", ns, s. split_and!; [done|done|by apply ValidName_segment|by eapply at_serves].
Qed.

Lemma events_listed w wf run :
  events_decode w → ∀ rows, listed w p (histPrefix ns wf run) rows → mapM (λ r, of_json (A := HistoryEvent) r.2) rows ≠ None.
Proof.
  intros HI rows Hl. apply not_eq_None_Some, mapM_is_Some, Forall_forall. intros [k j] Hin.
  apply (elem_of_listed w p _ rows k j Hl) in Hin as [Hr Hpre].
  - apply has_prefix_spec in Hpre as [s ->]. rewrite hist_prefix_kind, !sapp_assoc in Hr.
    destruct (HI _ j Hr) as [ev Hev]. cbn. eauto.
  - rewrite hist_prefix_kind. rewrite <- !sapp_assoc. apply good_slash.
  - intros kind s E Hk. rewrite hist_prefix_kind in E. apply segment_inj in E as [<- _]; [|done|done]. done.
Qed.

Lemma history_succeeds w0 l w wf run :
  events_decode w → at_ w0 l w → succeeds (workflowHistoryBytes p ns wf run) w (λ _ w', at_ w0 l w').
Proof.
  intros HI Ha. unfold workflowHistoryBytes. apply succ_bind. unfold succeeds.
  pose proof (events_listed w wf run HI) as Hev. rewrite hist_prefix_kind in *. apply wp_listInto; [by apply engine_kind_of| |].
  - intros e w' _ [Hc|(rows & Hl & Hm)]; [|by apply (Hev rows)]. apply Hc. by eapply can_list_here.
  - intros w' rows evs St _ _. apply succ_ret. apply (at_moved w0 l [] w); [done|]. by apply still_moved.
Qed.

Lemma schedule_succeeds w0 l w x :
  events_decode w0 → event_writes l → has_run w0 l x → at_ w0 l w →
  succeeds (scheduleWorkflowTask p ns (WorkflowId (Execution x)) (RunId (Execution x))) w (λ _ w', at_ w0 l w').
Proof.
  intros Hd Hl Hx Ha. unfold scheduleWorkflowTask. apply succ_bind. eapply succ_mono; [by apply describe_succeeds|].
  intros ? w1 [-> A1]. case_match; [by apply succ_ret|]. apply succ_bind.
  eapply succ_mono; [apply (history_succeeds w0 l w1); [by eapply events_decode_at|done]|]. intros h w2 A2.
  eapply succ_mono; [apply (idle_enqueue _ _ _ _ _ _ _ p)|]. intros ? w3 Hm. apply (at_moved w0 l [] w2 w3 A2 Hm).
Qed.

(** ** Signal *)

Definition evtSignaled : string := "WORKFLOW_EXECUTION_SIGNALED".

Lemma signal_succeeds w0 l w x name payload i :
  events_decode w0 → event_writes l → has_run w0 l x → at_ w0 l w → isTerminal (Status x) = false →
  succeeds (signalWorkflow p ns (WorkflowId (Execution x)) (RunId (Execution x)) name payload i) w
    (λ _ w', ∃ a ev, appended x evtSignaled a ev ∧ at_ w0 (append_writes x ev ++ l) w').
Proof.
  intros Hd Hl Hx Ha Ht. pose proof Hx as [Hr _]. unfold signalWorkflow. apply succ_bind.
  eapply succ_mono; [by apply find_succeeds|]. intros ? w1 [-> A1]. rewrite Ht. apply succ_bind.
  eapply succ_mono; [by apply append_succeeds|]. intros ev w2 [Hev A2]. set (x1 := wf_set_len (HistoryLen x + 1) x).
  assert (has_run w0 (append_writes x ev ++ l) x1) as Hx2 by (by apply has_run_append).
  apply succ_bind. eapply succ_mono; [apply (deref_succeeds w0 (append_writes x ev ++ l) w2 x1); done|].
  intros ? w3 [-> A3]. eapply succ_idle; [apply idle_emit|exact A3|]. intros ? w4 A4.
  eapply succ_mono; [apply (schedule_succeeds w0 (append_writes x ev ++ l) w4 x1); [done| |done|done]|].
  { apply Forall_app. split; [apply append_event_writes|done]. }
  intros ? w5 A5. by exists (attrs [("signalName", JStr name); ("input", payload); ("identity", JStr i)]), ev.
Qed.

Lemma succ_inv {A} g (m : W A) w (Q : A → world → Prop) :
  succeeds m w Q → safe g m → Inv g w → succeeds m w (λ a w', Q a w' ∧ Inv g w').
Proof.
  intros Hm Hs HI. eapply wp_mono; [apply (wp_and _ _ _ _ Hm (Hs w HI))|]. intros [e|a] w' [HQ [HI' _]]; [done|by split].
Qed.

(** ** Cancel *)

(** Nothing was handed to the dispatcher. *)
Definition same_disp : relation world := λ w w', w_disp w' = w_disp w.
#[local] Instance same_disp_pre : PreOrder same_disp.
Proof. unfold same_disp. split; [by intros w|]. intros w1 w2 w3 E1 E2. congruence. Qed.

Lemma still_disp w w' : still w w' → same_disp w w'.
Proof. intros (_ & _ & E & _). exact E. Qed.
Lemma put_disp {A} `{Codec A} q key (v : A) : respects same_disp (store_put q key v).
Proof.
  intros w. apply wp_put; [intros; by apply still_disp|]. intros w' kind n rest _ _ _ [_ (_ & E & _)]. exact E.
Qed.
Lemma describe_disp q n wf run : segment n → ∀ g w, Inv g w → wp (DescribeWorkflow q n wf run) (λ _ w', same_disp w w') w.
Proof. intros Hn g w HI. apply (wp_describe g); [done|done|intros; by apply still_disp..]. Qed.

Lemma append_disp g w wf run ty a :
  Inv g w → wp (appendHistory p ns wf run ty a) (λ _ w', same_disp w w') w.
Proof.
  intros HI. pose proof (ValidName_segment ns Hns) as Hseg. unfold appendHistory. wp_step.
  apply (wp_must_describe g); [done|done|intros; by apply still_disp|]. intros w1 x St _ _ _ _.
  assert (respects same_disp nowRFC3339) as Hnow by (by intros w'). pose proof @put_disp as Hput.
  eapply wp_mono; [|intros r w' E; etrans; [by apply still_disp|exact E]].
  apply (resp_bind same_disp); [done|intros t]. apply (resp_bind same_disp); [apply Hput|intros _].
  apply (resp_bind same_disp); [apply Hput|intros _; apply (resp_ret same_disp)].
Qed.

Lemma succ_disp {A} (m : W A) w (Q : A → world → Prop) :
  succeeds m w Q → wp m (λ _ w', same_disp w w') w → succeeds m w (λ a w', Q a w' ∧ same_disp w w').
Proof. intros Hm Hd. eapply wp_mono; [apply (wp_and _ _ _ _ Hm Hd)|]. intros [e|a] w' [HQ E]; [done|by split]. Qed.

Definition evtCancelRequested : string := "WORKFLOW_EXECUTION_CANCEL_REQUESTED".
Definition evtCanceled : string := "WORKFLOW_EXECUTION_CANCELED".

(** What a cancel of the open run [x] leaves: with a worker subscribed the run
    waits for its acknowledgement, without one it is closed at once. *)
Definition canceled (w0 : world) (l : writes) (x : WorkflowExecution) (subscribed : bool) (w' : world) : Prop :=
  ∃ a ev, let x1 := wf_set_len (HistoryLen x + 1) x in
    appended x evtCancelRequested a ev ∧
    if subscribed
    then at_ w0 ((runKey ns (WorkflowId (Execution x)) (RunId (Execution x)), Some (to_json (wf_set_status CANCELING x1))) ::
                 append_writes x ev ++ l) w'
    else ∃ y, terminated w0 (append_writes x ev ++ l) x1 CANCELED evtCanceled a y w'.

Lemma cancel_succeeds g w0 l w x r i :
  Inv g w → has_run w0 l x → at_ w0 l w → isTerminal (Status x) = false → Status x ≠ CANCELING →
  succeeds (CancelWorkflowWithReason p ns (WorkflowId (Execution x)) (RunId (Execution x)) r i) w
    (λ _ w', canceled w0 l x (HasSubscribers ns (TaskQueue x) kindWorkflow (w_disp w)) w').
Proof.
  intros HI Hx Ha Ht Hc. pose proof Hx as [Hr _]. pose proof (ValidName_segment ns Hns) as Hseg.
  unfold CancelWorkflowWithReason. apply succ_bind. eapply succ_mono; [apply succ_disp; [apply (succ_inv g)|]|].
  { by apply find_succeeds. } { by apply safe_must_find. } { done. }
  { apply wp_must_find. eapply wp_mono; [by eapply describe_disp|]. intros o w' E. by destruct (found o). }
  intros ? w1 [[[-> A1] HI1] D1]. rewrite Ht. destruct (String.eqb_spec (Status x) CANCELING) as [|_]; [done|].
  apply succ_bind. eapply succ_mono; [apply succ_disp; [apply (succ_inv g)|]|].
  { by apply append_succeeds. } { by apply append_safe. } { done. } { by eapply append_disp. }
  intros ev w2 [[[Hev A2] HI2] D2]. set (x1 := wf_set_len (HistoryLen x + 1) x).
  assert (has_run w0 (append_writes x ev ++ l) x1) as Hx2 by (by apply has_run_append).
  apply succ_bind. eapply succ_mono; [apply succ_disp|].
  { apply (deref_succeeds w0 (append_writes x ev ++ l) w2 x1); done. }
  { apply wp_must_deref. eapply wp_mono; [by eapply describe_disp|]. intros o w' E. by destruct (found o). }
  intros ? w3 [[-> A3] D3]. apply succ_bind. unfold disp_HasSubscribers, succeeds. wp_step.
  assert (w_disp w3 = w_disp w) as -> by (unfold same_disp in *; congruence). fold (succeeds (A := WorkflowExecution)).
  unfold canceled. cbn [TaskQueue x1 wf_set_len]. destruct (HasSubscribers ns (TaskQueue x) kindWorkflow (w_disp w)); cbn [negb].
  - apply succ_bind. eapply succ_mono; [apply put_succeeds; [by apply here_key|done|exact A3]|]. intros ? w4 A4.
    eapply succ_idle; [apply idle_time_now|exact A4|]. intros now w5 A5. eapply succ_idle; [apply idle_cancelling|exact A5|]. intros ? w6 A6.
    eapply succ_idle; [apply idle_push_cancel|exact A6|]. intros ? w7 A7. eapply succ_idle; [apply idle_emit|exact A7|]. intros ? w8 A8.
    apply succ_ret. by exists (reason_attrs r i), ev.
  - eapply succ_mono; [apply (terminal_succeeds w0 (append_writes x ev ++ l) w3 x1); done|].
    intros y w' Hy. exists (reason_attrs r i), ev. split; [done|]. by exists y.
Qed.

(** ** Start *)

(** Writes to the registry row only. *)
Definition registry_writes (l : writes) : Prop := Forall (λ kv, kv.1 = "ns" +:+ "/" +:+ ns) l.

Lemma registry_here : here ("ns" +:+ "/" +:+ ns).
Proof. exists "ns", "". apply NsFromKey_registry. Qed.

Lemma register_succeeds n w0 l w :
  ni_Name (ns_Info n) = ns → at_ w0 l w →
  succeeds (RegisterNamespace p n) w (λ _ w', ∃ n', at_ w0 (("ns" +:+ "/" +:+ ns, Some (to_json (A := Namespace) n')) :: l) w').
Proof.
  intros Hn Ha. unfold RegisterNamespace. rewrite Hn. destruct (String.eqb_spec ns "") as [E|_]; [by apply ValidName_not_empty in Hns|].
  eapply succ_idle; [|exact Ha|].
  { intros q w'. case_match; [apply (idle_now q)|apply (idle_ret _ q)]. }
  intros t w1 A1. cbv zeta. apply succ_bind. eapply succ_mono; [apply put_succeeds; [apply registry_here|done|exact A1]|].
  intros ? w2 A2. eapply succ_mono; [apply (idle_emit _ _ p)|]. intros ? w3 Hm. eexists. apply (at_moved w0 _ [] w2 w3 A2 Hm).
Qed.

Lemma namespace_succeeds g w0 w :
  Inv g w0 → at_ w0 [] w → succeeds (namespace p ns) w (λ _ w', ∃ l, registry_writes l ∧ at_ w0 l w').
Proof.
  intros HI Ha. unfold namespace. rewrite Hns. cbn [lift_name]. apply succ_bind, succ_ret. unfold DescribeNamespace.
  assert (∃ o : option Namespace, match row w0 p ("ns" +:+ "/" +:+ ns) with Some j => ∃ a, of_json j = Some a ∧ o = Some a | None => o = None end) as [o Ho].
  { destruct (row w0 p ("ns" +:+ "/" +:+ ns)) as [j|] eqn:E; [|by exists None].
    destruct (inv_ns g w0 HI p ns j E) as (n & Hj & _). exists (Some n). eauto. }
  apply succ_bind. eapply succ_mono; [apply (get_succeeds _ w0 [] w o); [apply registry_here|done|exact Ho]|].
  intros ? w1 [-> A1]. destruct o as [n|]. { apply succ_ret. exists []. split; [by apply Forall_nil|done]. }
  apply succ_bind. eapply succ_mono; [by apply register_succeeds|]. intros ? w2 [n' A2]. apply succ_bind.
  eapply succ_mono; [apply (get_succeeds _ w0 [("ns" +:+ "/" +:+ ns, Some (to_json n'))] w2 (Some n')); [apply registry_here|exact A2|]|].
  { cbn [written]. rewrite decide_True by done. exists n'. split; [by apply of_to|done]. }
  intros ? w3 [-> A3]. apply succ_ret. eexists. split; [|exact A3]. by apply Forall_singleton.
Qed.

Definition evtStarted : string := "WORKFLOW_EXECUTION_STARTED".

(** What a start leaves: the index entry, the row of a running run, its first event. *)
Definition started (w0 : world) (ref : ExecutionRef) (w' : world) : Prop :=
  ∃ x ev a ln, Execution x = ref ∧ Status x = RUNNING ∧ HistoryLen x = 0%Z ∧ appended x evtStarted a ev ∧ registry_writes ln ∧
    at_ w0 (append_writes x ev ++ (runKey ns (WorkflowId ref) (RunId ref), Some (to_json x)) ::
            (openKey ns (WorkflowId ref) (RunId ref), Some (to_json ref)) :: ln) w'.

Lemma start_succeeds g w wf rid typ q i sa memo :
  Inv g w → w_closed w = false → TypeName typ ≠ "" → wf ≠ "" → rid ≠ "" →
  succeeds (startWorkflowFull p ns wf rid typ q i "" sa memo "") w
    (λ _ w', started w {| WorkflowId := wf; RunId := rid |} w').
Proof.
  intros HI Hop Hty Hwf Hrid. pose proof (ValidName_segment ns Hns) as Hseg. unfold startWorkflowFull. apply succ_bind.
  eapply succ_mono; [apply (namespace_succeeds g w w HI); by apply at_start|]. intros ? w1 (ln & Hln & A1).
  destruct (String.eqb_spec (TypeName typ) "") as [|_]; [done|]. destruct (String.eqb_spec wf "") as [|_]; [done|].
  do 3 apply succ_bind, succ_ret. destruct (String.eqb_spec rid "") as [|_]; [done|]. apply succ_bind, succ_ret.
  unfold create_run. eapply succ_idle; [apply idle_now|exact A1|]. intros t w2 A2. cbv zeta.
  match goal with |- context [openRun p ns (Execution ?y)] => set (x := y) end.
  apply succ_bind. unfold openRun. eapply succ_mono; [apply put_succeeds; [by apply here_key|done|exact A2]|]. intros ? w3 A3.
  apply succ_bind. eapply succ_mono; [apply put_succeeds; [by apply here_key|done|exact A3]|]. intros ? w4 A4.
  apply succ_bind, succ_ret. apply succ_bind.
  cbv beta in A4. match type of A4 with at_ _ ?l _ => set (l4 := l) in A4 end.
  assert (has_run w l4 x) as Hx by (by apply (has_run_put w _ x)).
  eapply succ_mono; [apply (append_succeeds w l4 w4 x); done|]. intros ev w5 [Hev A5].
  set (x1 := wf_set_len (HistoryLen x + 1) x). assert (has_run w (append_writes x ev ++ l4) x1) as Hx1 by (by apply has_run_append).
  apply succ_bind, succ_attempt. eapply succ_mono; [apply (describe_succeeds w (append_writes x ev ++ l4) w5 x1); done|].
  intros ? w6 [-> A6]. apply succ_bind.
  eapply succ_mono; [apply (schedule_succeeds w (append_writes x ev ++ l4) w6 x1); [by eapply Inv_events| |done|done]|].
  { apply Forall_app. split; [apply append_event_writes|]. repeat apply Forall_cons_2.
    - left. apply (outside_key _ "wf"); kinds.
    - left. apply (outside_key _ "wfopen"); kinds.
    - eapply Forall_impl; [exact Hln|]. intros [k v] Hk. cbn in Hk. left. cbn. rewrite Hk. apply (outside_key _ "ns"); kinds. }
  intros ? w7 A7. eapply succ_idle; [apply idle_emit|exact A7|]. intros ? w8 A8. apply succ_ret.
  by exists x, ev, (attrs [("workflowType", JStr (TypeName typ)); ("taskQueue", JStr (set_if_empty q "default")); ("input", i)]), ln.
Qed.

End Ready.
