(* ===== verification/Machine.v ===== *)
(** The run as a machine: a status and the types of its events. The rows of the
    store implement it: when nothing fails, each request moves the run it names
    as the machine says and leaves every other run of the namespace alone. *)

From Stdlib Require Import Ascii ZArith Lia.
From stdpp Require Import prelude strings gmap list_numbers.
From S2P Require Import Prelude GoStrings Json Types EngineTypes Env Principal Router Shard GoTime Temporal Dispatch Events World WorldFacts Failure Workflow Durable Commands Frames RunInv Reach System Lifecycle.

(** ** The abstract run *)

Definition arun : Type := string * list string.

(** What a request does to the run it names; [subscribed] says whether a worker
    listens on the run's queue. *)
Definition machine (subscribed : bool) (r : request) (s : option arun) : option arun :=
  match r, s with
  | RStart _ _ _ _ _ _ _ _ _ _, _ => Some (RUNNING, [evtStarted])
  | RSignal _ _ _ _ _ _, Some (st, evs) => if isTerminal st then s else Some (st, evs ++ [evtSignaled])
  | RTerminate _ _ _ _ _, Some (st, evs) => if isTerminal st then s else Some (TERMINATED, evs ++ ["WORKFLOW_EXECUTION_TERMINATED"])
  | RCancel _ _ _ _ _, Some (st, evs) =>
      if isTerminal st || String.eqb st CANCELING then s
      else if subscribed then Some (CANCELING, evs ++ [evtCancelRequested])
      else Some (CANCELED, evs ++ [evtCancelRequested; evtCanceled])
  | _, _ => s
  end.

(** ** The rows as an abstract run *)

Lemma omap_ext {A B} (f g : A → option B) (l : list A) : (∀ x, x ∈ l → f x = g x) → omap f l = omap g l.
Proof.
  induction l as [|x l IH]; intros E; [done|]. cbn. rewrite E by left. rewrite IH; [done|]. intros y Hy. apply E. by right.
Qed.

Section Views.
Context (ns : string).
Implicit Types f : string → option json.

Definition event_type f (s : string) (i : Z) : option string :=
  j ← f (eventKey ns s i); ev ← of_json (A := HistoryEvent) j; Some (EventType ev).
Definition events_of f (s : string) (n : Z) : list string := omap (event_type f s) (seqZ 1 n).
Definition view f (s : string) : option arun :=
  j ← f ("wf" +:+ "/" +:+ ns +:+ "/" +:+ s); x ← of_json (A := WorkflowExecution) j; Some (Status x, events_of f s (HistoryLen x)).

(** The rows after some writes. *)
Definition after (l : writes) f : string → option json := λ k, written l k (f k).

Lemma after_app l1 l2 f k : after (l1 ++ l2) f k = after l1 (after l2 f) k.
Proof. apply written_app. Qed.

Lemma view_ext f f' s : (∀ k, f' k = f k) → view f' s = view f s.
Proof.
  intros E. unfold view. rewrite E. destruct (f _) as [j|]; [|done]. cbn [mbind option_bind]. destruct (of_json j) as [x|]; [|done].
  cbn. f_equal. f_equal. unfold events_of. apply omap_ext. intros i _. unfold event_type. by rewrite E.
Qed.

(** Writes to other keys do not show. *)
Definition invisible (l : writes) (s : string) : Prop :=
  Forall (λ kv, kv.1 ≠ "wf" +:+ "/" +:+ ns +:+ "/" +:+ s ∧ ∀ i, kv.1 ≠ eventKey ns s i) l.

Lemma written_other l k old : Forall (λ kv, kv.1 ≠ k) l → written l k old = old.
Proof. induction 1 as [|[k' v] l Hk _ IH]; [done|]. cbn in *. by rewrite decide_False. Qed.

Lemma events_invisible l s f n : invisible l s → events_of (after l f) s n = events_of f s n.
Proof.
  intros Hl. unfold events_of. apply omap_ext. intros i _. unfold event_type, after.
  rewrite written_other; [done|]. eapply Forall_impl; [exact Hl|]. intros kv [_ Hk]. apply Hk.
Qed.

Lemma view_invisible l s f : invisible l s → view (after l f) s = view f s.
Proof.
  intros Hl. unfold view. assert (after l f ("wf" +:+ "/" +:+ ns +:+ "/" +:+ s) = f ("wf" +:+ "/" +:+ ns +:+ "/" +:+ s)) as ->.
  { unfold after. apply written_other. eapply Forall_impl; [exact Hl|]. by intros kv [Hk _]. }
  destruct (f _) as [j|]; [|done]. cbn [mbind option_bind]. destruct (of_json j) as [x|]; [|done]. cbn. by rewrite events_invisible.
Qed.

(** Keys of another kind, or of another run. *)
Lemma invisible_kind kind rest v s : segment kind → kind ≠ "wf" → kind ≠ "wfh" → invisible [(kind +:+ "/" +:+ rest, v)] s.
Proof. intros Hk H1 H2. apply Forall_singleton. split; [|intros i]; by apply kind_ne. Qed.
Lemma eventKey_inj s i s' i' : eventKey ns s i = eventKey ns s' i' → s = s' ∧ pad 20 i = pad 20 i'.
Proof.
  unfold eventKey. intros E. do 4 apply sapp_inv_l in E.
  by apply last_segment_inj in E; [|apply pad_segment..].
Qed.

(** *** The writes of the operations *)

Lemma run_suffix x : runKey ns (WorkflowId (Execution x)) (RunId (Execution x)) = "wf" +:+ "/" +:+ ns +:+ "/" +:+ suffix x.
Proof. apply runKey_eq. Qed.

Lemma invisible_run x v s : s ≠ suffix x → invisible [(runKey ns (WorkflowId (Execution x)) (RunId (Execution x)), v)] s.
Proof.
  intros Hs. apply Forall_singleton. rewrite run_suffix. cbn. split.
  - intros E. do 4 apply sapp_inv_l in E. done.
  - intros i. by apply (kind_ne "wf" "wfh").
Qed.
Lemma invisible_event x i v s : s ≠ suffix x → invisible [(histKey ns (WorkflowId (Execution x)) (RunId (Execution x)) i, v)] s.
Proof.
  intros Hs. apply Forall_singleton. rewrite histKey_eq. cbn. split.
  - by apply (kind_ne "wfh" "wf").
  - intros i' [E _]%eventKey_inj. done.
Qed.
Lemma invisible_app l1 l2 s : invisible l1 s → invisible l2 s → invisible (l1 ++ l2) s.
Proof. intros. by apply Forall_app. Qed.

Lemma invisible_append x ev s : s ≠ suffix x → invisible (append_writes ns x ev) s.
Proof.
  intros Hs. apply (invisible_app [_] [_]); [by apply invisible_run|by apply invisible_event].
Qed.
Lemma invisible_close x s : s ≠ suffix x → invisible (close_writes ns x) s.
Proof.
  intros Hs. apply (invisible_app [_] [_]); [|by apply invisible_run]. by apply (invisible_kind "wfopen").
Qed.
Lemma invisible_streak l s : streak_writes l → invisible l s.
Proof.
  intros Hl. eapply Forall_impl; [exact Hl|]. intros [k v] [r ->]. cbn. split; [|intros i]; by apply (kind_ne "fail").
Qed.
Lemma invisible_registry l s : registry_writes ns l → invisible l s.
Proof.
  intros Hl. eapply Forall_impl; [exact Hl|]. intros [k v] ->. cbn. split; [|intros i]; by apply (kind_ne "ns").
Qed.

(** The run row last written. *)
Lemma view_run x l f :
  after l f ("wf" +:+ "/" +:+ ns +:+ "/" +:+ suffix x) = Some (to_json x) →
  view (after l f) (suffix x) = Some (Status x, events_of (after l f) (suffix x) (HistoryLen x)).
Proof. intros E. unfold view. rewrite E. cbn [mbind option_bind]. by rewrite of_to. Qed.

Lemma events_next f s n ev :
  (0 ≤ n < 10 ^ 20 - 1)%Z → EventId ev = (n + 1)%Z →
  events_of (after [(eventKey ns s (n + 1), Some (to_json ev))] f) s (n + 1) = events_of f s n ++ [EventType ev].
Proof.
  intros Hn He. unfold events_of. rewrite seqZ_app by lia. rewrite omap_app. f_equal.
  - apply omap_ext. intros i Hi%elem_of_seqZ. unfold event_type, after. cbn. rewrite decide_False; [done|].
    intros [_ E]%eventKey_inj. apply pad_inj in E; lia.
  - replace (1 + n)%Z with (n + 1)%Z by lia. change (seqZ (n + 1) 1) with [Z.of_nat 0 + (n + 1)]%Z. cbn [omap list_omap].
    rewrite Z.add_0_l. assert (event_type (after [(eventKey ns s (n + 1), Some (to_json ev))] f) s (n + 1) = Some (EventType ev)) as ->; [|done].
    unfold event_type, after. cbn [written]. rewrite decide_True by done. cbn [mbind option_bind]. by rewrite of_to.
Qed.

Lemma view_append x ty a ev f :
  (0 ≤ HistoryLen x < 10 ^ 20 - 1)%Z → appended x ty a ev →
  view (after (append_writes ns x ev) f) (suffix x) = Some (Status x, events_of f (suffix x) (HistoryLen x) ++ [ty]).
Proof.
  intros Hn (He & Hty & _). set (x1 := wf_set_len (HistoryLen x + 1) x). change (suffix x) with (suffix x1) at 1.
  rewrite view_run.
  - cbn [Status x1 wf_set_len HistoryLen]. f_equal. f_equal. change (suffix x1) with (suffix x).
    unfold append_writes. rewrite histKey_eq. fold (suffix x). rewrite <- Hty, <- events_next by done.
    apply omap_ext. intros i _. unfold event_type, after. cbn. rewrite decide_False; [done|].
    intros E. symmetry in E. rewrite run_suffix in E. revert E. by apply (kind_ne "wf" "wfh").
  - unfold after, append_writes. cbn. by rewrite decide_True.
Qed.

Lemma events_close x f n : events_of (after (close_writes ns x) f) (suffix x) n = events_of f (suffix x) n.
Proof.
  unfold close_writes. apply omap_ext. intros i _. unfold event_type, after. cbn. rewrite !decide_False; [done| |].
  - intros E. symmetry in E. rewrite run_suffix in E. revert E. by apply (kind_ne "wf" "wfh").
  - intros E. symmetry in E. rewrite openKey_eq in E. revert E. by apply (kind_ne "wfopen" "wfh").
Qed.

Lemma view_close x f : view (after (close_writes ns x) f) (suffix x) = Some (Status x, events_of f (suffix x) (HistoryLen x)).
Proof.
  rewrite <- (events_close x). apply view_run. unfold after, close_writes. cbn. rewrite decide_False; [by rewrite decide_True|].
  rewrite openKey_eq. apply not_eq_sym. by apply (kind_ne "wfopen" "wf").
Qed.

End Views.

(** ** Refinement *)

Section Refinement.
Context `{Env} `{!SegmentRule} `{!NoFaults}.

(** The request names this run, and asks for nothing but the plain operation. *)
Definition targets (r : request) (ns : string) (ref : ExecutionRef) : Prop :=
  RunId ref ≠ "" ∧
  match r with
  | RStart ns' wf rid typ _ _ req _ _ pol =>
      ns' = ns ∧ wf = WorkflowId ref ∧ rid = RunId ref ∧ wf ≠ "" ∧ TypeName typ ≠ "" ∧ req = "" ∧ pol = ""
  | RSignal ns' wf rid _ _ _ | RTerminate ns' wf rid _ _ | RCancel ns' wf rid _ _ => ns' = ns ∧ wf = WorkflowId ref ∧ rid = RunId ref
  | _ => False
  end.

Definition is_start (r : request) : bool := match r with RStart _ _ _ _ _ _ _ _ _ _ => true | _ => false end.

(** The row at the run's key is that run's, with a counter in range. *)
Definition proper (w : world) (p : Principal) (ns : string) (ref : ExecutionRef) : Prop :=
  ∀ j x, row w p (runKey ns (WorkflowId ref) (RunId ref)) = Some j → of_json j = Some x →
    Execution x = ref ∧ (0 ≤ HistoryLen x < 2 ^ 63 - 2)%Z.

Definition ref_suffix (ref : ExecutionRef) : string := WorkflowId ref +:+ "/" +:+ RunId ref.

Definition subscribed (w : world) (p : Principal) (ns : string) (ref : ExecutionRef) : bool :=
  match row w p (runKey ns (WorkflowId ref) (RunId ref)) ≫= of_json (A := WorkflowExecution) with
  | Some x => HasSubscribers ns (TaskQueue x) kindWorkflow (w_disp w)
  | None => false
  end.

(** The runs of the namespace after a request: [s] moved to [a], the others stayed. *)
Definition moves (w w' : world) (p : Principal) (ns s : string) (a : option arun) : Prop :=
  view ns (row w' p) s = a ∧ ∀ s', s' ≠ s → view ns (row w' p) s' = view ns (row w p) s'.

Lemma moves_none w w' p ns s : (∀ k, row w' p k = row w p k) → moves w w' p ns s (view ns (row w p) s).
Proof. intros E. split; intros; by apply view_ext. Qed.

Lemma at_view w0 l w p ns s : at_ p w0 l w → view ns (row w p) s = view ns (after l (row w0 p)) s.
Proof. intros Ha. apply view_ext. intros k. by apply (at_row p w0 l w). Qed.

Lemma moves_at w0 l w p ns s a :
  at_ p w0 l w → view ns (after l (row w0 p)) s = a → (∀ s', s' ≠ s → invisible ns l s') → moves w0 w p ns s a.
Proof.
  intros Ha Hs Hi. split; [by rewrite (at_view w0 l)|]. intros s' Hs'. rewrite (at_view w0 l) by done. by apply view_invisible, Hi.
Qed.

Section Run.
Context (p : Principal) (ns : string) (w : world) (x : WorkflowExecution) (j : json).
Hypothesis Hns : ValidName ns = None.
Hypothesis Hp : Placeable p = None.
Hypothesis Hopen : w_closed w = false.
Hypothesis Hrid : RunId (Execution x) ≠ "".
Hypothesis Hrow : row w p (runKey ns (WorkflowId (Execution x)) (RunId (Execution x))) = Some j.
Hypothesis Hj : of_json j = Some x.
Hypothesis Hlen : (0 ≤ HistoryLen x < 2 ^ 63 - 2)%Z.
Hypothesis Hdec : events_decode p w.

Lemma run_here : has_run p ns w [] x.
Proof. split; [done|]. by exists j. Qed.

Lemma view_x : view ns (row w p) (suffix x) = Some (Status x, events_of ns (row w p) (suffix x) (HistoryLen x)).
Proof.
  unfold view. rewrite run_suffix in Hrow. rewrite Hrow. cbn [mbind option_bind]. by rewrite Hj.
Qed.

Lemma appended_moves w' ty a ev :
  appended x ty a ev → at_ p w (append_writes ns x ev ++ []) w' →
  moves w w' p ns (suffix x) (Some (Status x, events_of ns (row w p) (suffix x) (HistoryLen x) ++ [ty])).
Proof.
  intros Hev Ha. rewrite app_nil_r in Ha. eapply moves_at; [exact Ha| |intros; by apply invisible_append].
  eapply view_append; [lia|done].
Qed.

Lemma signal_moves name payload i :
  isTerminal (Status x) = false →
  wp (signalWorkflow p ns (WorkflowId (Execution x)) (RunId (Execution x)) name payload i)
    (λ _ w', moves w w' p ns (suffix x) (Some (Status x, events_of ns (row w p) (suffix x) (HistoryLen x) ++ [evtSignaled]))) w.
Proof.
  intros Ht. eapply wp_mono; [apply (signal_succeeds p ns Hns Hp w [] w x); [done|by apply Forall_nil|apply run_here|by apply at_start|done]|].
  intros [e|[]] w' Hw; [done|]. destruct Hw as (a & ev & Hev & Ha). by eapply appended_moves.
Qed.

Lemma terminated_moves y st ty a l w' :
  (0 ≤ HistoryLen y < 10 ^ 20 - 1)%Z → suffix y = suffix x →
  (∀ s, s ≠ suffix x → invisible ns l s) → (∃ z, terminated p ns w l y st ty a z w') →
  moves w w' p ns (suffix x) (Some (st, events_of ns (after l (row w p)) (suffix x) (HistoryLen y) ++ [ty])).
Proof.
  intros Hy Hs Hl (z & t & ev & lf & -> & Hev & Hlf & Ha). set (closed := wf_set_close st t y) in *.
  eapply moves_at; [exact Ha| |].
  - rewrite (view_ext ns (after lf (after (append_writes ns closed ev ++ close_writes ns closed ++ l) (row w p))))
      by (intros k; apply after_app).
    rewrite view_invisible by (by apply invisible_streak).
    rewrite (view_ext ns (after (append_writes ns closed ev) (after (close_writes ns closed) (after l (row w p))))).
    2: { intros k. rewrite after_app. unfold after. by rewrite written_app. }
    rewrite <- Hs. change (suffix y) with (suffix closed). rewrite (view_append ns closed ty a ev); [|done|done].
    by rewrite events_close.
  - intros s Hne. apply invisible_app; [by apply invisible_streak|]. apply invisible_app; [by apply invisible_append; rewrite <- Hs in Hne|].
    apply invisible_app; [by apply invisible_close; rewrite <- Hs in Hne|]. by apply Hl.
Qed.

Lemma terminate_moves r i :
  isTerminal (Status x) = false →
  wp (TerminateWorkflowWithReason p ns (WorkflowId (Execution x)) (RunId (Execution x)) r i)
    (λ _ w', moves w w' p ns (suffix x) (Some (TERMINATED, events_of ns (row w p) (suffix x) (HistoryLen x) ++ ["WORKFLOW_EXECUTION_TERMINATED"]))) w.
Proof.
  intros Ht. eapply wp_mono; [apply (terminal_succeeds p ns Hns Hp w [] w x); [apply run_here|by apply at_start|done]|].
  intros [e|y] w' Hw; [done|]. apply (terminated_moves x _ _ (reason_attrs r i) []); [lia|done|intros; by apply Forall_nil|by exists y].
Qed.

Lemma cancel_moves g r i :
  Inv g w → isTerminal (Status x) = false → Status x ≠ CANCELING →
  wp (CancelWorkflowWithReason p ns (WorkflowId (Execution x)) (RunId (Execution x)) r i)
    (λ _ w', moves w w' p ns (suffix x) (Some (
       if HasSubscribers ns (TaskQueue x) kindWorkflow (w_disp w)
       then (CANCELING, events_of ns (row w p) (suffix x) (HistoryLen x) ++ [evtCancelRequested])
       else (CANCELED, events_of ns (row w p) (suffix x) (HistoryLen x) ++ [evtCancelRequested; evtCanceled])))) w.
Proof.
  intros HI Ht Hc. eapply wp_mono; [apply (cancel_succeeds p ns Hns Hp g w [] w x); [done|apply run_here|by apply at_start|done|done]|].
  intros [e|y] w' Hw; [done|]. destruct Hw as (a & ev & Hev & Hw). rewrite app_nil_r in Hw. set (x1 := wf_set_len (HistoryLen x + 1) x) in Hw.
  assert (view ns (after (append_writes ns x ev) (row w p)) (suffix x) = Some (Status x, events_of ns (row w p) (suffix x) (HistoryLen x) ++ [evtCancelRequested])) as Hv
    by (eapply view_append; [lia|done]).
  assert (events_of ns (after (append_writes ns x ev) (row w p)) (suffix x) (HistoryLen x1) =
    events_of ns (row w p) (suffix x) (HistoryLen x) ++ [evtCancelRequested]) as He.
  { change (suffix x) with (suffix x1) in Hv at 1. rewrite (view_run ns x1) in Hv; [by injection Hv|].
    unfold after, append_writes. cbn. by rewrite decide_True. }
  destruct (HasSubscribers _ _ _ _).
  - set (x2 := wf_set_status CANCELING x1) in Hw. eapply moves_at; [exact Hw| |].
    + change (suffix x) with (suffix x2) at 1. rewrite (view_run ns x2); [|unfold after; cbn; by rewrite decide_True].
      f_equal. f_equal. rewrite <- He. change (suffix x2) with (suffix x). change (HistoryLen x2) with (HistoryLen x1).
      apply omap_ext. intros k _. unfold event_type, after. cbn [written]. rewrite decide_False; [done|].
      rewrite run_suffix. apply not_eq_sym. by apply (kind_ne "wf" "wfh").
    + intros s Hs. apply (invisible_app ns [_]); [by apply invisible_run|by apply invisible_append].
  - replace [evtCancelRequested; evtCanceled] with ([evtCancelRequested] ++ [evtCanceled]) by done. rewrite app_assoc, <- He.
    change (HistoryLen x1) with (HistoryLen x1). eapply (terminated_moves x1); [cbn; lia|done|intros; by apply invisible_append|exact Hw].
Qed.

End Run.

Lemma start_moves g p ns w ref typ q i sa memo :
  ValidName ns = None → Placeable p = None → w_closed w = false → Inv g w →
  TypeName typ ≠ "" → WorkflowId ref ≠ "" → RunId ref ≠ "" →
  wp (startWorkflowFull p ns (WorkflowId ref) (RunId ref) typ q i "" sa memo "")
    (λ _ w', moves w w' p ns (ref_suffix ref) (Some (RUNNING, [evtStarted]))) w.
Proof.
  intros Hns Hp Ho HI Hty Hwf Hrid. eapply wp_mono; [by apply (start_succeeds p ns Hns Hp g)|].
  intros [e|y] w' Hw; [done|]. destruct Hw as (x & ev & a & ln & Hx & Hst & Hlen & Hev & Hln & Ha).
  assert (suffix x = ref_suffix ref) as Hs by (unfold suffix; by rewrite Hx; destruct ref).
  match type of Ha with at_ _ _ (_ ++ ?l) _ => set (l0 := l) in Ha end. eapply moves_at; [exact Ha| |].
  - rewrite (view_ext ns (after (append_writes ns x ev) (after l0 (row w p)))) by (intros k; apply after_app).
    rewrite <- Hs, (view_append ns x evtStarted a); [|rewrite Hlen; lia|done]. by rewrite Hst, Hlen.
  - intros s Hne. rewrite <- Hs in Hne. apply invisible_app; [by apply invisible_append|].
    apply (invisible_app ns [_]).
    + cbn [WorkflowId RunId]. destruct ref as [wf rid]. cbn in *. replace wf with (WorkflowId (Execution x)) by (by rewrite Hx).
      replace rid with (RunId (Execution x)) by (by rewrite Hx). by apply invisible_run.
    + apply (invisible_app ns [_]); [by apply (invisible_kind ns "wfopen")|by apply invisible_registry].
Qed.

(** No run, or one the request cannot move: nothing changes. *)
Definition untouched (w : world) (p : Principal) (w' : world) : Prop := ∀ k, row w' p k = row w p k.

Lemma still_untouched w w' p : still w w' → untouched w p w'.
Proof. intros St k. by apply still_row. Qed.

Lemma wp_get_run (Q : err + WorkflowExecution → world → Prop) p ns ref w what :
  RunId ref ≠ "" →
  (∀ e w', still w w' → Q (inl e) w') →
  (∀ j x w', still w w' → row w p (runKey ns (WorkflowId ref) (RunId ref)) = Some j → of_json j = Some x → Q (inr x) w') →
  wp (must_find (DescribeWorkflow p ns (WorkflowId ref) (RunId ref)) what) Q w.
Proof.
  intros Hr He Hs. apply wp_must_find. unfold DescribeWorkflow. destruct (String.eqb_spec (RunId ref) "") as [|_]; [done|].
  apply wp_get; cbn [found]; eauto.
Qed.

Lemma stuck_moves p ns ref w r :
  targets r ns ref → is_start r = false →
  (∀ j x, row w p (runKey ns (WorkflowId ref) (RunId ref)) = Some j → of_json j = Some x →
     isTerminal (Status x) = true ∨ (Status x = CANCELING ∧ ∃ a b c d e, r = RCancel a b c d e)) →
  wp (serve p r) (λ _ w', untouched w p w') w.
Proof.
  intros [Hr Ht] Hns Hrow. destruct r; try done; destruct Ht as (-> & -> & ->); cbn [serve].
  - unfold signalWorkflow. wp_step. apply wp_get_run; [done|intros; by apply still_untouched|]. intros j x w' St Hj Hx.
    destruct (Hrow j x Hj Hx) as [->|(_ & ? & ? & ? & ? & ? & ?)]; [|done]. wp_step. by apply still_untouched.
  - unfold TerminateWorkflowWithReason, terminalTransition. wp_step. wp_step. apply wp_get_run; [done|intros; by apply still_untouched|].
    intros j x w' St Hj Hx. destruct (Hrow j x Hj Hx) as [->|(_ & ? & ? & ? & ? & ? & ?)]; [|done]. wp_step. wp_step. by apply still_untouched.
  - unfold CancelWorkflowWithReason. wp_step. wp_step. apply wp_get_run; [done|intros; by apply still_untouched|]. intros j x w' St Hj Hx.
    destruct (Hrow j x Hj Hx) as [->|(-> & _)]; [wp_step; wp_step; by apply still_untouched|].
    change (isTerminal CANCELING) with false. cbv iota. rewrite String.eqb_refl. wp_step. unfold disp_PushCancelRequest. do 3 wp_step.
    intros k. etrans; [|by apply (still_untouched w w' p)]. done.
Qed.

Lemma view_row w p ns ref :
  view ns (row w p) (ref_suffix ref) =
  (j ← row w p (runKey ns (WorkflowId ref) (RunId ref)); x ← of_json (A := WorkflowExecution) j;
   Some (Status x, events_of ns (row w p) (ref_suffix ref) (HistoryLen x))).
Proof. done. Qed.

Lemma serve_refines g p ns ref w r :
  Inv g w → w_closed w = false → ValidName ns = None → Placeable p = None → targets r ns ref → proper w p ns ref →
  wp (serve p r) (λ _ w', moves w w' p ns (ref_suffix ref)
    (machine (subscribed w p ns ref) r (view ns (row w p) (ref_suffix ref)))) w.
Proof.
  intros HI Ho Hns Hp Htg Hpr. pose proof Htg as [Hrid Ht]. destruct (is_start r) eqn:Hstart.
  { destruct r; try done. destruct Ht as (-> & -> & -> & Hwf & Hty & -> & ->). cbn [serve machine]. wp_step.
    eapply wp_mono; [by apply (start_moves g p ns w ref)|]. by intros [e|y] w' Hm; [|wp_step]. }
  assert (∀ m, machine (subscribed w p ns ref) r m = m → view ns (row w p) (ref_suffix ref) = m →
    wp (serve p r) (λ _ w', untouched w p w') w → wp (serve p r) (λ _ w', moves w w' p ns (ref_suffix ref)
      (machine (subscribed w p ns ref) r (view ns (row w p) (ref_suffix ref)))) w) as Hstay.
  { intros m Hm Hv Hw. eapply wp_mono; [exact Hw|]. intros ? w' Hu. rewrite Hv, Hm, <- Hv. by apply moves_none. }
  rewrite view_row in *. unfold subscribed in *.
  destruct (row w p (runKey ns (WorkflowId ref) (RunId ref))) as [j|] eqn:Hrow; cbn [mbind option_bind] in *.
  2: { apply (Hstay None); [by destruct r|done|]. apply (stuck_moves p ns ref); [done|done|]. by rewrite Hrow. }
  pose proof Hrow as Hrow'. rewrite runKey_eq in Hrow'.
  destruct (inv_run g w HI p ns _ j (ValidName_segment ns Hns) Hrow') as (x & Hj & _). rewrite Hj in *. cbn [mbind option_bind] in *.
  destruct (Hpr j x Hrow Hj) as [Hex Hlen].
  assert (suffix x = ref_suffix ref) as Hs by (unfold suffix; by rewrite Hex). rewrite <- Hs in *. rewrite <- Hex in *.
  destruct (isTerminal (Status x)) eqn:Hterm.
  { eapply Hstay; [|reflexivity|]; [destruct r; try done; cbn; by rewrite Hterm|].
    apply (stuck_moves p ns (Execution x)); [done|done|]. intros j' x' Hr' Hx'. left. congruence. }
  pose proof (Inv_events p g w HI) as Hdec. destruct r; try done; destruct Ht as (-> & -> & ->); cbn [serve machine]; rewrite Hterm.
  - by eapply signal_moves.
  - wp_step. eapply wp_mono; [by eapply terminate_moves|]. by intros [e|y] w' Hm; [|wp_step].
  - cbn [orb]. destruct (String.eqb_spec (Status x) CANCELING) as [Hc|Hc].
    + cbn [serve machine] in Hstay. rewrite Hterm, Hc in Hstay. cbn [orb] in Hstay. rewrite String.eqb_refl in Hstay. rewrite Hc.
      eapply Hstay; [|reflexivity|]; [done|]. apply (stuck_moves p ns (Execution x) w (RCancel ns _ _ _ _)); [done|done|].
      intros j' x' Hr' Hx'. right. split; [congruence|]. by do 5 eexists.
    + wp_step. eapply wp_mono; [by eapply cancel_moves|]. intros [e|y] w' Hm; [|wp_step]; by case_match.
Qed.


End Refinement.

Module MachineDemo.
Import System.Demo.
#[local] Existing Instance test_env.
#[local] Existing Instance test_segment_rule.
#[local] Instance test_no_faults : NoFaults.
Proof. by intros i. Defined.

Definition order_ref : ExecutionRef := {| WorkflowId := "order"; RunId := "r1" |}.
Definition cancel_order : request := RCancel "default" "order" "r1" "late" "ops".


End MachineDemo.
