(* ===== verification/DurableSpec.v ===== *)
(** Properties of the durable activity core: an activity is scheduled once per
    sequence number, a duplicate completion is a no-op, and a completion that
    nothing interrupts records its outcome and its event. *)

From Stdlib Require Import Ascii ZArith Lia.
From stdpp Require Import prelude strings gmap list_numbers.
From S2P Require Import Prelude GoStrings Json Types EngineTypes Env Principal Router Shard GoTime Temporal Dispatch Events World WorldFacts Failure Workflow Durable Commands Frames RunInv Reach System Lifecycle Machine.

Section Once.
Context `{Env} `{!SegmentRule}.

(** A row stays once it is there. *)
Definition keeps_row (p : Principal) (key : string) : relation world := λ w w', is_Some (row w p key) → is_Some (row w' p key).
#[local] Instance keeps_row_pre p key : PreOrder (keeps_row p key).
Proof. unfold keeps_row. split; [by intros w ?|]. intros w1 w2 w3 E1 E2 Hr. auto. Qed.

Lemma still_keeps_row p key w w' : still w w' → keeps_row p key w w'.
Proof. intros St. unfold keeps_row. by rewrite (still_row w w'). Qed.
Lemma put_keeps_row {A} `{Codec A} p key q k (v : A) : respects (keeps_row p key) (store_put q k v).
Proof.
  intros w. apply wp_put; [intros; by apply still_keeps_row|]. intros w' kind ns rest _ _ _ [Hrow _] Hr.
  rewrite Hrow. case_decide; [eauto|done].
Qed.
Lemma get_keeps_row {A} `{Codec A} p key q k : respects (keeps_row p key) (store_get (A := A) q k).
Proof. intros w. apply wp_get; intros; by apply still_keeps_row. Qed.
Lemma tables_keep_row {A} p key (m : W A) : keeps_tables m → respects (keeps_row p key) m.
Proof. intros Hm w. eapply wp_mono; [apply Hm|]. intros r w' St. unfold keeps_row. by rewrite (tables_row w w'). Qed.
Lemma list_keeps_row {A} `{Codec A} p key q kind ns s : engine_kind kind → respects (keeps_row p key) (listInto A q (kind +:+ "/" +:+ ns +:+ "/" +:+ s)).
Proof. intros Hk w. apply wp_listInto; [done|intros; by apply still_keeps_row..]. Qed.

#[local] Hint Resolve put_keeps_row get_keeps_row tables_keep_row : walk.
#[local] Hint Resolve keeps_ret keeps_gets keeps_throw keeps_time_now keeps_rand keeps_now keeps_newRunId
  keeps_emit keeps_log keeps_enqueue keeps_dispatch : walk.

Lemma describe_keeps_row p key q ns wf run : respects (keeps_row p key) (DescribeWorkflow q ns wf run).
Proof.
  unfold DescribeWorkflow. pose proof (λ A HA, @list_keeps_row A HA p key q "wf" ns (wf +:+ "/")) as Hl.
  assert (engine_kind "wf") by (by apply engine_kind_of). walk.
Qed.
#[local] Hint Resolve describe_keeps_row : walk.
Lemma append_keeps_row p key q ns wf run ty a : respects (keeps_row p key) (appendHistory q ns wf run ty a).
Proof. unfold appendHistory. walk. Qed.
#[local] Hint Resolve append_keeps_row : walk.
Lemma attempt_keeps_row p key q ns wf run rec b : respects (keeps_row p key) (dispatchActivityAttempt q ns wf run rec b).
Proof. unfold dispatchActivityAttempt, putWorkflowActivity. walk. Qed.
#[local] Hint Resolve attempt_keeps_row : walk.

(** A recorded activity is not scheduled again. *)
Lemma recorded_still p ns wf rid seq ty i q a b rp w :
  is_Some (row w p (wfActKey ns wf rid seq)) → (∀ j, row w p (wfActKey ns wf rid seq) = Some j → is_Some (of_json (A := workflowActivity) j)) →
  wp (applyScheduleActivity p ns wf rid seq ty i q a b rp) (λ _ w', still w w') w.
Proof.
  intros [j Hj] Hdec. unfold applyScheduleActivity. wp_step. unfold getWorkflowActivity. apply wp_get; [done|congruence|].
  intros w' j' x St _ _. by wp_step.
Qed.

(** A schedule that returns has recorded the activity. *)
Lemma schedule_records p ns wf rid seq ty i q a b rp w :
  wp (applyScheduleActivity p ns wf rid seq ty i q a b rp) (λ r w', r = inr tt → is_Some (row w' p (wfActKey ns wf rid seq))) w.
Proof.
  set (key := wfActKey ns wf rid seq). unfold applyScheduleActivity. wp_step. unfold getWorkflowActivity. apply wp_get; [done| |].
  - intros w1 St1 Hn. wp_step. eapply wp_mono with (Q := λ _ _, True); [by apply wp_intro|]. intros [e|q'] w2 _; [done|]. wp_step.
    unfold putWorkflowActivity. apply wp_put; [done|]. intros w3 kind n rest _ _ _ [Hrow _].
    assert (is_Some (row w3 p key)) as H3. { rewrite Hrow, decide_True by done. eauto. }
    match goal with |- wp ?m _ _ => assert (respects (keeps_row p key) m) as Hm by walk end.
    eapply wp_mono; [apply Hm|]. intros r w4 Hk _. by apply Hk.
  - intros w1 j x St Hj _. wp_step. intros _. rewrite (still_row w w1) by done. by exists j.
Qed.

End Once.

Section Theorems.
Context `{Env} `{!SegmentRule}.

(** (C20) Exactly once. In any reachable world, once a schedule of activity [seq] of
    a run has returned, scheduling that sequence number again - the duplicate a
    replayed workflow task produces, whatever else it carries - writes no row, mints no
    token and emits no event. *)
Theorem schedule_activity_once b ls p ns wf rid seq ty i q s h rp ty' i' q' s' h' rp' :
  Forall (label_ok false) ls → segment ns →
  let w := run b ls in
  let w1 := (applyScheduleActivity p ns wf rid seq ty i q s h rp w).1 in
  (applyScheduleActivity p ns wf rid seq ty i q s h rp w).2 = inr tt →
  still w1 (applyScheduleActivity p ns wf rid seq ty' i' q' s' h' rp' w1).1.
Proof.
  intros Hls Hns w w1 Hok. destruct (run_sys false b ls Hls) as [HI _]. fold w in HI.
  pose proof (wp_elim _ _ _ (schedule_records p ns wf rid seq ty i q s h rp w) Hok) as Hr. fold w1 in Hr.
  destruct (wp_elim _ _ _ (applyScheduleActivity_safe false p ns wf rid seq ty i q s h rp Hns w HI)) as [HI1 _]. fold w1 in HI1.
  apply (wp_next (applyScheduleActivity p ns wf rid seq ty' i' q' s' h' rp') (still w1)). apply recorded_still; [done|].
  intros j Hj. rewrite act_key in Hj. destruct (inv_act _ _ HI1 p _ j Hj) as [x Hx]. eauto.
Qed.

(** A duplicate completion is a no-op: when the activity's record is already
    terminal, completing it again with any result or failure changes no row,
    re-arms no timer and schedules no task, whatever fails. *)
Theorem duplicate_completion_ignored p ns wf rid seq result failure w j rec :
  row w p (wfActKey ns wf rid seq) = Some j → of_json j = Some rec → act_terminal rec = true →
  still w (completeWorkflowActivity p ns wf rid seq result failure w).1.
Proof.
  intros Hj Hrec Ht. apply (wp_next (completeWorkflowActivity p ns wf rid seq result failure) (still w)).
  unfold completeWorkflowActivity, getWorkflowActivity. wp_step. apply wp_get; [done|congruence|].
  intros w' j' rec' St Hj' Hrec'. assert (rec' = rec) as -> by congruence. rewrite Ht. by wp_step.
Qed.

End Theorems.

(** ** Completions that nothing interrupts *)

(** The timers a computation leaves alone. *)
Definition same_timers : relation world := λ w w', w_timers w' = w_timers w.
#[export] Instance same_timers_pre : PreOrder same_timers.
Proof. unfold same_timers. split; [by intros w|]. intros w1 w2 w3 E1 E2. congruence. Qed.

Section Timers.
Context `{Env} `{!SegmentRule}.
Lemma still_timers w w' : still w w' → same_timers w w'.
Proof. intros (_ & _ & _ & _ & _ & _ & _ & _ & E & _). exact E. Qed.
Lemma put_timers {A} `{Codec A} q key (v : A) : respects same_timers (store_put q key v).
Proof.
  intros w. apply wp_put; [intros; by apply still_timers|].
  intros w' kind n rest _ _ _ [_ (_ & _ & _ & _ & _ & _ & _ & E & _)]. exact E.
Qed.
Lemma get_timers {A} `{Codec A} q key : respects same_timers (store_get (A := A) q key).
Proof. intros w. apply wp_get; intros; by apply still_timers. Qed.
Lemma time_timers : respects same_timers time_now. Proof. by intros w. Qed.
Lemma log_timers l : respects same_timers (log l). Proof. by intros w. Qed.
Lemma fail_timers k : respects same_timers (fails_fail k).
Proof. intros w. unfold wp, fails_fail. by destruct (tracker_fail k (w_fails w)) as [[? ?] ?]. Qed.
Lemma emit_timers q e : respects same_timers (emit q e).
Proof. intros w. unfold wp, emit, broker_publish, mbind, M_bind. by destruct (String.eqb _ _). Qed.
#[local] Hint Resolve put_timers get_timers time_timers log_timers fail_timers emit_timers : walk.
Lemma recordFailure_timers q id r t : respects same_timers (recordFailure q id r t).
Proof. unfold recordFailure. walk. Qed.
End Timers.

Section Completion.
Context `{Env} `{!SegmentRule} `{!NoFaults} (p : Principal) (ns : string) (w : world) (x : WorkflowExecution) (rec : workflowActivity).
Hypothesis Hns : ValidName ns = None.
Hypothesis Hp : Placeable p = None.
Hypothesis Hopen : w_closed w = false.
Hypothesis Hdec : events_decode p w.
Hypothesis Hrun : has_run p ns w [] x.
Hypothesis Hlive : isTerminal (Status x) = false.
Abbreviation wf := (WorkflowId (Execution x)).
Abbreviation rid := (RunId (Execution x)).
Abbreviation key := (wfActKey ns (WorkflowId (Execution x)) (RunId (Execution x)) (wa_Seq rec)).
Hypothesis Hrec : ∃ j, row w p key = Some j ∧ of_json j = Some rec.
Hypothesis Hpending : act_terminal rec = false.

Lemma act_here : here ns key.
Proof. unfold wfActKey, wfActPrefix. rewrite !sapp_assoc. by apply here_key. Qed.
Lemma act_not_run : key ≠ runKey ns wf rid.
Proof. rewrite act_key. by apply (kind_not_run ns "wfact"). Qed.

(** The entry of [completeWorkflowActivity], up to the branch on the outcome. *)
Lemma completion_entry result failure (Q : unit → world → Prop) :
  (∀ w', still w w' → at_ p w [] w' →
     succeeds (match failure with
               | RNone => complete_activity p ns wf rid (wa_Seq rec) result (Some x) rec
               | _ => fail_activity p ns wf rid (wa_Seq rec) failure (Some x) rec
               end) w' Q) →
  succeeds (completeWorkflowActivity p ns wf rid (wa_Seq rec) result failure) w Q.
Proof.
  intros HQ. destruct Hrec as (j & Hj & Hx). unfold completeWorkflowActivity, getWorkflowActivity, succeeds. wp_step.
  pose proof (at_start p w Hopen) as A0. apply wp_get.
  - intros e w' _ [[]|(j' & Hj' & Hn)]; [apply (here_can p ns Hns Hp w [] w); [done|apply act_here]|congruence].
  - intros w' _ Hn. congruence.
  - intros w1 j' rec' St1 Hj' Hx'. assert (rec' = rec) as -> by congruence. rewrite Hpending.
    destruct Hrun as (Hrid & jr & Hjr & Hxr). cbn in Hjr. wp_step. wp_step. unfold DescribeWorkflow.
    destruct (String.eqb_spec rid "") as [|_]; [done|]. apply wp_get.
    + intros e w' _ [[]|(j2 & Hj2 & Hn)]; [apply (here_can p ns Hns Hp w [] w1); [|by apply here_key]|].
      * apply (at_moved p w [] [] w); [done|]. by apply still_moved.
      * rewrite (still_row w w1) in Hj2 by done. congruence.
    + intros w' _ Hn. rewrite (still_row w w1) in Hn by done. congruence.
    + intros w2 j2 y St2 Hj2 Hy. rewrite (still_row w w1) in Hj2 by done. assert (y = x) as -> by congruence. cbn [found].
      rewrite Hlive. assert (still w w2) as St by (by etrans). specialize (HQ w2 St). unfold succeeds in HQ.
      destruct failure; apply HQ; apply (at_moved p w [] [] w); first [done|by apply still_moved].
Qed.

(** What the completion leaves: the record, the event, and the streak cleared. *)
Definition completed (rec' : workflowActivity) (ty : string) (w' : world) : Prop :=
  ∃ a ev lf, appended x ty a ev ∧ streak_writes lf ∧ at_ p w (lf ++ append_writes ns x ev ++ [(key, Some (to_json rec'))]) w'.

Lemma act_event_writes v : event_writes [(key, v)].
Proof. apply Forall_singleton. left. cbn. rewrite act_key. apply (outside_key _ "wfact"); kinds. Qed.
Lemma streak_event_writes l : streak_writes l → event_writes l.
Proof. intros Hl. eapply Forall_impl; [exact Hl|]. intros [k v] [s Hs]. cbn in Hs. left. cbn. rewrite Hs. apply (outside_key _ "fail"); kinds. Qed.

Lemma run_after_streak y l l' : streak_writes l' → has_run p ns w l y → has_run p ns w (l' ++ l) y.
Proof.
  intros Hl Hr. induction Hl as [|[k v] l' [s Hs] Hl IH]; [done|]. cbn in *. apply has_run_other; [|done].
  rewrite Hs. by apply (kind_not_run ns "fail").
Qed.

Lemma run_after_act v l : has_run p ns w l x → has_run p ns w ((key, v) :: l) x.
Proof. intros Hr. apply has_run_other; [apply act_not_run|done]. Qed.

(** The end both terminal branches share: the event, then the next task. *)
Lemma completion_tail w1 l ty a e (m : W unit) :
  has_run p ns w l x → event_writes l → at_ p w l w1 →
  (∀ w' l', at_ p w l' w' → succeeds m w' (λ _ w', ∃ lf, streak_writes lf ∧ at_ p w (lf ++ l') w')) →
  succeeds (appendHistory p ns wf rid ty a;; emit p e;; m;; scheduleWorkflowTask p ns wf rid) w1
    (λ _ w', ∃ ev lf, appended x ty a ev ∧ streak_writes lf ∧ at_ p w (lf ++ append_writes ns x ev ++ l) w').
Proof.
  intros Hx Hl A1 Hm. pose proof Hx as [Hr _]. apply succ_bind.
  eapply succ_mono; [by apply (append_succeeds p ns Hns Hp w l w1 x)|]. intros ev w2 [Hev A2].
  eapply succ_idle; [apply idle_emit|exact A2|]. intros ? w3 A3. apply succ_bind. eapply succ_mono; [by apply Hm|].
  intros ? w4 (lf & Hlf & A4). set (x1 := wf_set_len (HistoryLen x + 1) x).
  eapply succ_mono; [apply (schedule_succeeds p ns Hns Hp w (lf ++ append_writes ns x ev ++ l) w4 x1); [done| | |done]|].
  - apply Forall_app. split; [by apply streak_event_writes|]. apply Forall_app. split; [apply append_event_writes|done].
  - apply run_after_streak; [done|]. by apply has_run_append.
  - intros ? w5 A5. by exists ev, lf.
Qed.

Lemma put_act_succeeds rec' w0 l w1 :
  wa_Seq rec' = wa_Seq rec → marshal_ok rec' = true → at_ p w0 l w1 →
  succeeds (putWorkflowActivity p ns wf rid rec') w1 (λ _ w', at_ p w0 ((key, Some (to_json rec')) :: l) w').
Proof. intros Hs Hok A1. unfold putWorkflowActivity. rewrite Hs. by apply (put_succeeds p ns Hns Hp); [apply act_here|..]. Qed.

Lemma activity_completes result :
  let rec' := wa_set wfActCompleted (wa_Attempt rec) result (wa_Failure rec) rec in
  marshal_ok rec' = true →
  succeeds (completeWorkflowActivity p ns wf rid (wa_Seq rec) result RNone) w (λ _ w', completed rec' evtActivityCompleted w').
Proof.
  intros rec' Hok. apply completion_entry. intros w1 _ A1. unfold complete_activity. fold rec'. apply succ_bind.
  eapply succ_mono; [by apply (put_act_succeeds rec' w [])|]. intros ? w2 A2.
  eapply succ_mono; [apply (completion_tail w2 [(key, Some (to_json rec'))])|].
  - by apply run_after_act.
  - apply act_event_writes.
  - exact A2.
  - intros w' l' A. by apply (clearFailure_succeeds p ns Hns Hp).
  - intros ? w3 (ev & lf & Hev & Hlf & A3). by eexists _, ev, lf.
Qed.

(** The policy in force, and whether it asks for another attempt. *)
Definition retries (failure : raw) : bool :=
  ShouldRetry (effectiveRetryPolicy (wa_RetryPolicy rec)) (Some (Decode failure)) (wrap32 (wa_Attempt rec)).

Lemma activity_fails result failure :
  let rec' := wa_set wfActFailed (wa_Attempt rec) (wa_Result rec) failure rec in
  failure ≠ RNone → retries failure = false → marshal_ok rec' = true →
  succeeds (completeWorkflowActivity p ns wf rid (wa_Seq rec) result failure) w (λ _ w', completed rec' evtActivityFailed w').
Proof.
  intros rec' Hf Hre Hok. apply completion_entry. intros w1 _ A1.
  replace (match failure with RNone => _ | _ => _ end) with (fail_activity p ns wf rid (wa_Seq rec) failure (Some x) rec) by (by destruct failure).
  unfold fail_activity. unfold retries in Hre. rewrite Hre. fold rec'. apply succ_bind.
  eapply succ_mono; [by apply (put_act_succeeds rec' w [])|]. intros ? w2 A2.
  eapply succ_mono; [apply (completion_tail w2 [(key, Some (to_json rec'))])|].
  - by apply run_after_act.
  - apply act_event_writes.
  - exact A2.
  - intros w' l' A. by apply (recordFailure_succeeds p ns Hns Hp).
  - intros ? w3 (ev & lf & Hev & Hlf & A3). by eexists _, ev, lf.
Qed.

(** What a retry leaves: the record with the next attempt, no event, and a timer. *)
Definition retrying (rec' : workflowActivity) (delay : Z) (w' : world) : Prop :=
  (∃ lf, streak_writes lf ∧ at_ p w ((key, Some (to_json rec')) :: lf) w') ∧
  w_timers w' = w_timers w ++ [{| rt_principal := p; rt_ns := ns; rt_wf := wf; rt_run := rid; rt_seq := wa_Seq rec; rt_delay := delay |}].

Lemma activity_retries result failure :
  let rec' := wa_set wfActScheduled (wa_Attempt rec + 1) (wa_Result rec) failure rec in
  let d := NextInterval (effectiveRetryPolicy (wa_RetryPolicy rec)) (wrap32 (wa_Attempt rec)) in
  failure ≠ RNone → retries failure = true → marshal_ok rec' = true →
  succeeds (completeWorkflowActivity p ns wf rid (wa_Seq rec) result failure) w (λ _ w', retrying rec' (Z.max 0 d) w').
Proof.
  intros rec' d Hf Hre Hok. apply completion_entry. intros w1 St A1.
  replace (match failure with RNone => _ | _ => _ end) with (fail_activity p ns wf rid (wa_Seq rec) failure (Some x) rec) by (by destruct failure).
  unfold fail_activity. unfold retries in Hre. rewrite Hre. fold rec'. fold d.
  assert (∀ A (m : W A) w (Q : A → world → Prop), succeeds m w Q → respects same_timers m → succeeds m w (λ a w', Q a w' ∧ same_timers w w')) as Hand.
  { intros A m w' Q Hm Ht. eapply wp_mono; [apply (wp_and _ _ _ _ Hm (Ht w'))|]. intros [e|a] w'' [HQ E]; [done|by split]. }
  apply succ_bind. eapply succ_mono; [apply Hand; [by apply (recordFailure_succeeds p ns Hns Hp w [] w1)|apply recordFailure_timers]|].
  intros ? w2 [(lf & Hlf & A2) T2]. rewrite app_nil_r in A2. apply succ_bind.
  eapply succ_mono; [apply Hand; [by apply (put_act_succeeds rec' w lf)|apply put_timers]|]. intros ? w3 [A3 T3]. apply succ_bind.
  eapply succ_mono; [apply Hand; [apply (idle_emit _ _ p)|apply emit_timers]|]. intros ? w4 [M4 T4].
  pose proof (at_moved p w _ [] w3 w4 A3 M4) as A4. unfold scheduleActivityRetry, succeeds. wp_step. split.
  - exists lf. split; [done|]. destruct A4 as [Ho [Hr Hc]]. by split.
  - pose proof (still_timers _ _ St) as T1. unfold same_timers in *. cbn. rewrite T4, T3, T2, T1. do 3 f_equal. unfold d. case_match; lia.
Qed.

(** The rows afterwards. *)
Lemma written_streak l k old : streak_writes l → (∀ s, k ≠ "fail" +:+ "/" +:+ s) → written l k old = old.
Proof.
  intros Hl Hk. apply written_other. eapply Forall_impl; [exact Hl|]. intros [k' v] [s E]. cbn in *. rewrite E. intros E'. by apply (Hk s).
Qed.
Lemma key_not_streak s : key ≠ "fail" +:+ "/" +:+ s.
Proof. rewrite act_key. by apply (kind_ne "wfact" "fail"). Qed.
Lemma key_not_event i : key ≠ histKey ns wf rid i.
Proof. rewrite act_key, histKey_eq. by apply (kind_ne "wfact" "wfh"). Qed.

Lemma completed_row rec' ty w' : completed rec' ty w' → row w' p key = Some (to_json rec').
Proof.
  intros (a & ev & lf & _ & Hlf & A). rewrite (at_row p _ _ _ _ A), written_app, written_streak; [|done|apply key_not_streak].
  unfold append_writes. cbn. rewrite decide_False by apply act_not_run.
  rewrite decide_False by apply key_not_event. by rewrite decide_True.
Qed.

Lemma key_invisible v s : invisible ns [(key, v)] s.
Proof. rewrite act_key. by apply (invisible_kind ns "wfact"). Qed.

Lemma completed_view rec' ty w' :
  (0 ≤ HistoryLen x < 2 ^ 63 - 1)%Z → completed rec' ty w' →
  view ns (row w' p) (suffix x) = Some (Status x, events_of ns (row w p) (suffix x) (HistoryLen x) ++ [ty]).
Proof.
  intros Hlen (a & ev & lf & Hev & Hlf & A). rewrite (at_view w _ w' p ns _ A).
  rewrite (view_ext ns (after lf (after (append_writes ns x ev ++ [(key, Some (to_json rec'))]) (row w p)))) by (intros k; apply after_app).
  rewrite view_invisible by (by apply invisible_streak).
  rewrite (view_ext ns (after (append_writes ns x ev) (after [(key, Some (to_json rec'))] (row w p)))) by (intros k; apply after_app).
  rewrite (view_append ns x ty a ev); [|lia|done]. rewrite events_invisible; [done|apply key_invisible].
Qed.

Lemma retrying_row rec' d w' : retrying rec' d w' → row w' p key = Some (to_json rec').
Proof. intros [(lf & _ & A) _]. rewrite (at_row p _ _ _ _ A). cbn. by rewrite decide_True. Qed.

Lemma retrying_view rec' d w' : retrying rec' d w' → view ns (row w' p) (suffix x) = view ns (row w p) (suffix x).
Proof.
  intros [(lf & Hlf & A) _]. rewrite (at_view w _ w' p ns _ A). apply view_invisible.
  apply (invisible_app ns [_]); [apply key_invisible|by apply invisible_streak].
Qed.

End Completion.

(** ** The outcome of an activity *)

Section Outcome.
Context `{Env} `{!SegmentRule} `{!NoFaults}.

(** The record after an answer: completed, failed for good, or up for another attempt. *)
Definition next_record (rec : workflowActivity) (result failure : raw) : workflowActivity :=
  match failure with
  | RNone => wa_set wfActCompleted (wa_Attempt rec) result (wa_Failure rec) rec
  | _ => if retries rec failure then wa_set wfActScheduled (wa_Attempt rec + 1) (wa_Result rec) failure rec
         else wa_set wfActFailed (wa_Attempt rec) (wa_Result rec) failure rec
  end.

(** The events it adds to the run's history. *)
Definition next_events (rec : workflowActivity) (failure : raw) : list string :=
  match failure with
  | RNone => [evtActivityCompleted]
  | _ => if retries rec failure then [] else [evtActivityFailed]
  end.

(** The timers it arms. *)
Definition next_timers (p : Principal) (ns : string) (x : WorkflowExecution) (rec : workflowActivity) (failure : raw) : list retry_timer :=
  match failure with
  | RNone => []
  | _ => if retries rec failure then
      [{| rt_principal := p; rt_ns := ns; rt_wf := WorkflowId (Execution x); rt_run := RunId (Execution x); rt_seq := wa_Seq rec;
          rt_delay := Z.max 0 (NextInterval (effectiveRetryPolicy (wa_RetryPolicy rec)) (wrap32 (wa_Attempt rec))) |}]
      else []
  end.

(** (C21) The outcome of an activity, when nothing fails. From any reachable world,
    an answer to a pending activity of an open run returns, and leaves the record
    completed with its result, or failed for good with a failure event, or - when
    the policy asks for another attempt - scheduled with the attempt counted, no
    event, and one timer armed with the backoff of that attempt. *)
Theorem activity_outcome b ls p ns x rec result failure :
  let w := run b ls in
  let key := wfActKey ns (WorkflowId (Execution x)) (RunId (Execution x)) (wa_Seq rec) in
  let m := completeWorkflowActivity p ns (WorkflowId (Execution x)) (RunId (Execution x)) (wa_Seq rec) result failure in
  Forall (label_ok false) ls → w_closed w = false → ValidName ns = None → Placeable p = None →
  stored w p ns x → RunId (Execution x) ≠ "" → isTerminal (Status x) = false → (0 ≤ HistoryLen x < 2 ^ 63 - 1)%Z →
  (∃ j, row w p key = Some j ∧ of_json j = Some rec) → act_terminal rec = false → marshal_ok (next_record rec result failure) = true →
  (m w).2 = inr tt ∧ row (m w).1 p key = Some (to_json (next_record rec result failure)) ∧
  view ns (row (m w).1 p) (suffix x) =
    Some (Status x, events_of ns (row w p) (suffix x) (HistoryLen x) ++ next_events rec failure) ∧
  (next_timers p ns x rec failure ≠ [] → w_timers (m w).1 = w_timers w ++ next_timers p ns x rec failure).
Proof.
  intros w key m Hls Ho Hns Hp (jr & Hjr & Hxr) Hrid Hlive Hlen Hrec Hpend Hok. destruct (run_sys false b ls Hls) as [HI _]. fold w in HI.
  pose proof (Inv_events p false w HI) as Hdec. assert (has_run p ns w [] x) as Hrun by (split; [done|by exists jr]).
  assert (∀ Q : unit → world → Prop, succeeds m w Q → (m w).2 = inr tt ∧ Q tt (m w).1) as Hs.
  { intros Q Hm. apply wp_elim in Hm. destruct (m w).2 as [e|[]]; done. }
  assert (view ns (row w p) (suffix x) = Some (Status x, events_of ns (row w p) (suffix x) (HistoryLen x))) as Hv by (by eapply view_x).
  unfold next_record, next_events in *.
  assert (∀ f, f ≠ RNone → failure = f → (m w).2 = inr tt ∧
    row (m w).1 p key = Some (to_json (if retries rec f then wa_set wfActScheduled (wa_Attempt rec + 1) (wa_Result rec) f rec
                                       else wa_set wfActFailed (wa_Attempt rec) (wa_Result rec) f rec)) ∧
    view ns (row (m w).1 p) (suffix x) =
      Some (Status x, events_of ns (row w p) (suffix x) (HistoryLen x) ++ (if retries rec f then [] else [evtActivityFailed])) ∧
    (next_timers p ns x rec f ≠ [] → w_timers (m w).1 = w_timers w ++ next_timers p ns x rec f)) as Hfail.
  { intros f Hf ->. unfold next_timers.
    assert (marshal_ok (if retries rec f then wa_set wfActScheduled (wa_Attempt rec + 1) (wa_Result rec) f rec
      else wa_set wfActFailed (wa_Attempt rec) (wa_Result rec) f rec) = true) as Hok' by (by destruct f).
    destruct (retries rec f) eqn:Hre.
    - destruct (Hs _ (activity_retries p ns w x rec Hns Hp Ho Hrun Hlive Hrec Hpend result f Hf Hre Hok')) as [E C].
      split_and!; [done|by eapply retrying_row|rewrite app_nil_r, <- Hv; by eapply retrying_view|intros _; destruct f; [done|apply C..]].
    - destruct (Hs _ (activity_fails p ns w x rec Hns Hp Ho Hdec Hrun Hlive Hrec Hpend result f Hf Hre Hok')) as [E C].
      split_and!; [done|by eapply completed_row|by eapply completed_view|intros Hn; by destruct f]. }
  destruct failure as [|f|]; [|by apply Hfail..].
  destruct (Hs _ (activity_completes p ns w x rec Hns Hp Ho Hdec Hrun Hlive Hrec Hpend result Hok)) as [E C].
  split_and!; [done|by eapply completed_row|by eapply completed_view|done].
Qed.

End Outcome.

Module ActivityDemo.
Import System.Demo Machine.MachineDemo.
#[local] Existing Instance test_env.
#[local] Existing Instance test_segment_rule.
#[local] Existing Instance test_no_faults.

Definition first_token : string := default "" (fst <$> head (map_to_list (d_wfByToken (w_disp (run true [start_order]))))).
Definition charge : command :=
  {| c_Kind := 2; c_Result := RNone; c_Failure := RNone; c_Seq := 1; c_ActivityType := "Charge"; c_WorkflowType := "";
     c_ChildWorkflowId := ""; c_Input := RNone; c_TaskQueue := ""; c_SearchAttrs := ∅; c_StartToCloseMs := 0;
     c_HeartbeatMs := 0; c_RetryPolicy := None |}.

(** The run is open with one activity out to a worker. *)
Definition charging : list label := [start_order; LWorkflowDone first_token [charge]].
Lemma charging_ok g : Forall (label_ok g) charging.
Proof. repeat constructor; by destruct g. Qed.

Definition charge_key : string := wfActKey "default" "order" "r1" 1.
Definition charge_row : json := default JNull (row (run true charging) acme charge_key).
Definition charge_rec : workflowActivity := default zero (of_json charge_row).

Lemma schedule_activity_once_witness :
  still (applyScheduleActivity acme "default" "order" "r1" 7 "Charge" RNone "" 0 0 None (run true charging)).1
    (applyScheduleActivity acme "default" "order" "r1" 7 "Refund" RNone "other" 5 5 None
       (applyScheduleActivity acme "default" "order" "r1" 7 "Charge" RNone "" 0 0 None (run true charging)).1).1.
Proof.
  apply (schedule_activity_once true charging acme "default" "order" "r1" 7 "Charge" RNone "" 0 0 None "Refund" RNone "other" 5 5 None);
    [apply charging_ok|done|by vm_compute].
Defined.

(** The charge, completed. *)
Definition charged : world := (completeWorkflowActivity acme "default" "order" "r1" 1 RNone RNone (run true charging)).1.
Definition charged_row : json := default JNull (row charged acme charge_key).
Definition charged_rec : workflowActivity := default zero (of_json charged_row).

Lemma duplicate_completion_ignored_witness :
  act_terminal charged_rec = true ∧
  still charged (completeWorkflowActivity acme "default" "order" "r1" 1 (RJson (JStr "again")) RNone charged).1.
Proof.
  split; [by vm_compute|].
  apply (duplicate_completion_ignored acme "default" "order" "r1" 1 (RJson (JStr "again")) RNone charged charged_row charged_rec);
    by vm_compute.
Defined.

(** A failure of the first attempt is retried. *)
Definition declined : raw := Encode (NewError "card declined" "" false []).
Lemma activity_outcome_witness :
  next_events charge_rec declined = [] ∧
  row (completeWorkflowActivity acme "default" "order" "r1" 1 RNone declined (run true charging)).1 acme charge_key =
    Some (to_json (next_record charge_rec RNone declined)).
Proof.
  split; [by vm_compute|].
  assert (order_ref = Execution (order_of charging)) as Hr by (by vm_compute).
  assert (1%Z = wa_Seq charge_rec) as Hs by (by vm_compute).
  assert (wfActKey "default" (WorkflowId (Execution (order_of charging))) (RunId (Execution (order_of charging))) (wa_Seq charge_rec) = charge_key)
    as Hk by (by rewrite <- Hr, <- Hs).
  pose proof (activity_outcome true charging acme "default" (order_of charging) charge_rec RNone declined) as Ho.
  cbv zeta in Ho. rewrite Hk, <- Hr, <- Hs in Ho. apply Ho.
  - apply charging_ok.
  - by vm_compute.
  - by vm_compute.
  - by vm_compute.
  - exists (order_row charging). rewrite <- Hr. split; by vm_compute.
  - by vm_compute.
  - by vm_compute.
  - assert (HistoryLen (order_of charging) = 3%Z) as -> by (by vm_compute). lia.
  - exists charge_row. split; by vm_compute.
  - by vm_compute.
  - by vm_compute.
Defined.

End ActivityDemo.
