(* ===== verification/StoreSpec.v ===== *)
(** Properties of the store facade, its replication, and the names and stamps it
    keeps; of the throttle of the failure log; and of the paging of a history. *)

From Stdlib Require Import Ascii ZArith Lia.
From stdpp Require Import prelude strings gmap sorting.
From S2P Require Import Prelude GoStrings Json Types EngineTypes Env Principal Router Shard GoTime Temporal Dispatch Events World WorldFacts Failure Workflow Durable Commands Frames RunInv Reach System Lifecycle Machine.

Section Store.
Context `{Env} `{!SegmentRule}.

(** What is put is what is read. When nothing fails, a value put under a key
    of a namespace the store serves is read back by the same tenant as it was,
    through the replicator and the JSON encoding, and no other row changes. *)
Theorem store_roundtrip {A} `{FullCodec A} `{!NoFaults} p key kind ns rest (v : A) w :
  NsFromKey key = Some (kind, ns, rest) → serves w p ns → marshal_ok v = true →
  let w' := (store_put p key v w).1 in
  (store_put p key v w).2 = inr tt ∧ (store_get (A := A) p key w').2 = inr (Some v) ∧
  ∀ q k, (q, k) ≠ (p, key) → row w' q k = row w q k.
Proof.
  intros Hk Hs Hv w'. assert (∀ x, serves x p ns → can x p key) as Hcan.
  { intros x Hx. split; [done|]. by exists kind, ns, rest. }
  assert (wp (store_put p key v) (λ r w1, r = inr tt ∧ serves w1 p ns ∧ row_put p key (Some (to_json v)) w w1) w) as Hput.
  { apply wp_put; [intros e w1 _ []; split; [by apply Hcan|done]|]. intros w1 k n r _ _ _ Hrow. split_and!; [done| |done].
    eapply serves_rest; [apply Hrow|done]. }
  apply wp_elim in Hput as (Hr & Hs' & [Hrow _]). fold w' in Hs', Hrow. split_and!; [done| |].
  - assert (wp (store_get (A := A) p key) (λ r _, r = inr (Some v)) w') as Hget; [|by apply wp_elim in Hget].
    apply wp_get.
    + intros e w1 _ [[]|(j & Hj & Hn)]; [by apply Hcan|]. rewrite Hrow, decide_True in Hj by done. apply (inj Some) in Hj as <-.
      by rewrite of_to in Hn.
    + intros w1 _ Hn. by rewrite Hrow, decide_True in Hn.
    + intros w1 j a _ Hj Ha. rewrite Hrow, decide_True in Hj by done. apply (inj Some) in Hj as <-. rewrite of_to in Ha by done. congruence.
  - intros q k Hne. rewrite Hrow, decide_False; [done|]. by intros [-> ->].
Qed.

(** Replication is transparent. A write proposed to the replicator and applied
    by its handler leaves the same shards and returns the same result as the
    write applied directly, whether or not the database fails under it. *)
Theorem replication_transparent p ns key v w :
  serves w p ns → is_Some (w_shards w !! (p, ns)) →
  let direct := Shard_Put p ns key v (with_repl None w) in
  (Shard_Put p ns key v w).2 = direct.2 ∧ w_shards (Shard_Put p ns key v w).1 = w_shards direct.1.
Proof.
  intros (Hc & Hn & Hp) Hs. unfold Shard_Put, replicate_frame, mbind, M_bind, gets. cbn [with_repl w_repl].
  destruct (w_repl w) as [rep|] eqn:Er; [|by destruct w; cbn in *; subst].
  unfold Propose, bump_repl, frame_handler, attempt, modify, mbind, M_bind. cbn [f_Principal f_Namespace f_Seq].
  rewrite parse_string by (by apply Placeable_Valid). unfold Manager_Get, applyFrame, shard_localPut, gets, mbind, M_bind.
  cbn [f_Op f_Key f_Value w_closed with_repl]. rewrite Hc, Hn, (Placeable_Valid p Hp), Hp. cbn.
  unfold has_shard. cbn. rewrite bool_decide_true by done. unfold db_op. cbn. by destruct (env_fault (w_ops w)).
Qed.

(** A tenant's name is a faithful key: printing a valid principal and parsing
    it gives it back, so two principals never share a text. *)
Theorem principal_roundtrip p q :
  Valid p = None → ParsePrincipal (Principal_String p) = inr p ∧ (Valid q = None → Principal_String q = Principal_String p → q = p).
Proof.
  intros Hp. split; [by apply parse_string|]. intros Hq E. apply parse_string in Hp, Hq. rewrite E, Hp in Hq. by injection Hq.
Qed.

End Store.

(** A stamp reads back as the second it was taken in, for every instant whose
    year prints in four digits. *)
Theorem timestamp_roundtrip t : four_digit_year t → parse_rfc3339 (format_rfc3339 t) = Some (t / Second * Second)%Z.
Proof. apply parse_format. Qed.

(** ** The failure log *)

(** [n] failures in a row: which of them report. *)
Fixpoint fail_times (n : nat) (key : string) (m : gmap string Z) : list bool :=
  match n with
  | 0 => []
  | S n => let '(_, report, m) := tracker_fail key m in report :: fail_times n key m
  end.

Definition report_count (l : list bool) : nat := length (filter (λ b, b = true) l).

Lemma fail_times_reports n : ∀ key m c, default 0%Z (m !! key) = Z.of_nat c →
  fail_times n key m = (λ i, shouldReport (Z.of_nat (c + i)) failReportThrottle) <$> seq 1 n.
Proof.
  induction n as [|n IH]; intros key m c Hc; [done|]. cbn [fail_times seq fmap list_fmap]. unfold tracker_fail. rewrite Hc.
  replace (Z.of_nat c + 1)%Z with (Z.of_nat (c + 1)) by lia. f_equal. rewrite (IH key _ (c + 1)).
  - rewrite <- (fmap_S_seq 1 n), <- list_fmap_compose. apply list_fmap_ext. intros i k _. cbn. f_equal. lia.
  - by rewrite lookup_insert_eq.
Qed.

Lemma report_count_app l1 l2 : report_count (l1 ++ l2) = report_count l1 + report_count l2.
Proof. unfold report_count. by rewrite filter_app, length_app. Qed.

Lemma reports_up_to n : 0 < n →
  report_count ((λ i, shouldReport (Z.of_nat i) failReportThrottle) <$> seq 1 n) = 1 + n / 60.
Proof.
  induction n as [|n IH]; [lia|]. intros _. destruct (decide (n = 0)) as [->|Hn]; [done|].
  rewrite seq_S, fmap_app, report_count_app, IH by lia. cbn [fmap list_fmap]. unfold report_count, shouldReport, failReportThrottle.
  change (1 + n) with (S n). destruct (Z.eqb_spec (Z.of_nat (S n)) 1); [lia|]. cbn [orb]. change (0 <? 60)%Z with true. cbn [andb].
  assert (Z.of_nat (S n) mod 60 = Z.of_nat (S n mod 60))%Z as -> by (by rewrite Nat2Z.inj_mod).
  pose proof (Nat.div_mod n 60 ltac:(lia)). pose proof (Nat.mod_upper_bound n 60 ltac:(lia)).
  pose proof (Nat.div_mod (S n) 60 ltac:(lia)). pose proof (Nat.mod_upper_bound (S n) 60 ltac:(lia)).
  destruct (Z.eqb_spec (Z.of_nat (S n mod 60)) 0) as [E|E].
  - rewrite filter_cons_True by done. cbn [length filter list_filter]. assert (n / 60 = S n / 60 - 1) by lia. lia.
  - rewrite filter_cons_False by done. cbn [length filter list_filter]. assert (n / 60 = S n / 60) by lia. lia.
Qed.

(** A failing identity is reported, and not flooded: of the first [n] failures
    of a streak exactly one in sixty after the first is written to the log, and
    after a success the count starts over, so the next failure reports again. *)
Theorem failure_log_throttled n key m :
  m !! key = None → 0 < n → report_count (fail_times n key m) = 1 + n / 60 ∧
  ∀ m', head (fail_times n key (tracker_ok key m').2) = Some true.
Proof.
  intros Hm Hn. split.
  - rewrite (fail_times_reports n key m 0) by (by rewrite Hm). by apply reports_up_to.
  - intros m'. rewrite (fail_times_reports n key _ 0); [by destruct n; [lia|]|]. cbn. by rewrite lookup_delete_eq.
Qed.

(** ** Pages of a history *)

(** Events in order. *)
Definition ev_lt (a b : HistoryEvent) : Prop := (EventId a < EventId b)%Z.

(** A client's walk: each page from the cursor the one before returned. *)
Fixpoint history_walk (fuel : nat) (after : Z) (size : nat) (all : list HistoryEvent) : list HistoryEvent :=
  match fuel with
  | 0 => []
  | S fuel =>
      let out := page_events after size false all in
      if (length out =? size)%nat then out ++ history_walk fuel (match last out with Some ev => EventId ev | None => 0%Z end) size all
      else out
  end.

Lemma page_events_after l1 l2 size :
  Forall (λ ev, (0 < EventId ev)%Z) (l1 ++ l2) → StronglySorted ev_lt (l1 ++ l2) →
  page_events (match last l1 with Some ev => EventId ev | None => 0%Z end) size false (l1 ++ l2) = take size l2.
Proof.
  intros Hpos Hs. unfold page_events. f_equal. apply Forall_app in Hpos as [Hp1 Hp2]. rewrite filter_app.
  rewrite (filter_none _ l1), (filter_all _ l2); [done| |].
  - apply Forall_forall. intros ev Hev. apply Z.ltb_lt. destruct (last l1) as [x|] eqn:E; [|by eapply Forall_forall in Hp2].
    apply last_Some in E as [l ->]. apply (StronglySorted_app_1_elem_of ev_lt _ _ x ev Hs); [set_solver|done].
  - apply Forall_forall. intros ev Hev. apply not_true_iff_false, Z.ltb_ge. destruct (last l1) as [x|] eqn:E.
    + apply last_Some in E as [l ->]. apply elem_of_app in Hev as [Hev|Hev]; [|by apply list_elem_of_singleton in Hev as ->].
      rewrite <- app_assoc in Hs. apply Z.lt_le_incl. apply (StronglySorted_app_1_elem_of ev_lt _ _ ev x Hs); [done|set_solver].
    + apply last_None in E as ->. by apply elem_of_nil in Hev.
Qed.

Lemma history_walk_from fuel : ∀ l1 l2 size,
  0 < size → length l2 < fuel → Forall (λ ev, (0 < EventId ev)%Z) (l1 ++ l2) →
  StronglySorted ev_lt (l1 ++ l2) →
  history_walk fuel (match last l1 with Some ev => EventId ev | None => 0%Z end) size (l1 ++ l2) = l2.
Proof.
  induction fuel as [|fuel IH]; intros l1 l2 size Hz Hf Hpos Hs; [lia|]. cbn [history_walk]. rewrite page_events_after by done.
  rewrite length_take. destruct (Nat.eqb_spec (size `min` length l2) size) as [E|E]; [|by rewrite take_ge by lia].
  rewrite <- (take_drop size l2) at 4. f_equal.
  rewrite <- (take_drop size l2) in Hpos, Hs |- *. rewrite app_assoc in Hpos, Hs |- *.
  assert (last (take size l2) = last (l1 ++ take size l2)) as El.
  { rewrite last_app. destruct (last (take size l2)) eqn:El; [done|]. apply last_None in El.
    apply (f_equal length) in El. rewrite length_take in El. cbn in El. lia. }
  rewrite take_app_length' by (rewrite length_take; lia). rewrite El. rewrite drop_app_length' by (rewrite length_take; lia).
  apply IH; [done| |done|done]. rewrite length_drop. lia.
Qed.

(** A history read in pages is the whole history: the pages a client gets by
    following the cursor, whatever the page size, join to the events in order,
    each once. *)
Theorem history_pages_complete size all :
  0 < size → Forall (λ ev, (0 < EventId ev)%Z) all → StronglySorted ev_lt all →
  history_walk (S (length all)) 0 size all = all.
Proof. intros Hz Hpos Hs. apply (history_walk_from (S (length all)) []); [done|lia|done|done]. Qed.

Module StoreDemo.
Import System.Demo Machine.MachineDemo.
#[local] Existing Instance test_env.
#[local] Existing Instance test_segment_rule.
#[local] Existing Instance test_no_faults.

Definition demo_key : string := idemKey "default" "order" "req-1".

Lemma store_roundtrip_witness :
  (store_get (A := string) acme demo_key (store_put acme demo_key "r1" (new_world true)).1).2 = inr (Some "r1").
Proof.
  apply (store_roundtrip acme demo_key "idem" "default" "order/req-1" "r1" (new_world true)); [done|by vm_compute|done].
Defined.

Definition one_shard : world := (Manager_Get acme "default" (new_world true)).1.

Lemma replication_transparent_witness :
  (Shard_Put acme "default" demo_key (JStr "r1") one_shard).2 = (Shard_Put acme "default" demo_key (JStr "r1") (with_repl None one_shard)).2.
Proof.
  apply (replication_transparent acme "default" demo_key (JStr "r1") one_shard); [by vm_compute|].
  exists ∅. by vm_compute.
Defined.

Lemma principal_roundtrip_witness : ParsePrincipal (Principal_String acme) = inr acme.
Proof. apply (principal_roundtrip acme acme). by vm_compute. Defined.

Lemma timestamp_roundtrip_witness :
  parse_rfc3339 (format_rfc3339 1767225600123456789) = Some (1767225600123456789 / Second * Second)%Z.
Proof. apply (timestamp_roundtrip 1767225600123456789). by vm_compute. Defined.

Lemma failure_log_throttled_witness : report_count (fail_times 61 "k" ∅) = 2.
Proof. apply (failure_log_throttled 61 "k" ∅); [done|lia]. Defined.

Definition three_events : list HistoryEvent :=
  (λ i, {| EventId := i; EventTime := ""; EventType := "E"; Attributes := ∅ |}) <$> [1; 2; 3]%Z.
Lemma history_pages_complete_witness : history_walk 4 0 2 three_events = three_events.
Proof. apply (history_pages_complete 2 three_events); [lia|by repeat constructor|by repeat constructor]. Defined.

Lemma page_walk_complete_witness : page_walk 3 "wf/default/" "" 1 {["wf/default/a" := JNull; "wg/default/b" := JNull]} =
  List "wf/default/" {["wf/default/a" := JNull; "wg/default/b" := JNull]}.
Proof. apply (page_walk_complete "wf/default/" 1); [|lia]. apply (good_slash "wf/default"). Defined.

End StoreDemo.
