(* ===== verification/ReplaySpec.v ===== *)
(** What replay guarantees: [Worker] against a reference execution.

    The reference runs the workflow function once, calling each activity when it is
    issued and waiting for its outcome; the worker never does that: it runs the
    function once per workflow task, against whatever outcomes the history holds by
    then. The theorems say that the two agree, that no episode issues a sequence
    number twice, and that the rounds of deciding and performing end. *)

From Corelib Require Import SpecFloat.
From Stdlib Require Import Ascii ZArith Lia Sorting.Sorted.
From stdpp Require Import prelude strings gmap.
From S2P Require Import Prelude GoStrings Json Types EngineTypes GoTime Temporal Channel Coroutine Worker.

Local Open Scope Z_scope.

(** ** Small integers survive the trip through float64 *)

Lemma digits_double p k : digits2_pos (Pos.iter xO p k) = (digits2_pos p + k)%positive.
Proof.
  revert p. induction k as [|k IH] using Pos.peano_ind; intros p; [cbn; lia|].
  rewrite Pos.iter_succ. cbn [digits2_pos]. rewrite IH. lia.
Qed.
Lemma iter_double p k : Zpos (Pos.iter xO p k) = Zpos p * 2 ^ Zpos k.
Proof.
  induction k as [|k IH] using Pos.peano_ind; [cbn; lia|]. rewrite Pos.iter_succ, Pos2Z.inj_xO, IH.
  rewrite Pos2Z.inj_succ, Z.pow_succ_r by lia. lia.
Qed.
Lemma digits_bound p : Zpos p < 2 ^ Zpos (digits2_pos p) ∧ 2 ^ (Zpos (digits2_pos p) - 1) ≤ Zpos p.
Proof.
  induction p as [p [IH1 IH2]|p [IH1 IH2]|]; cbn [digits2_pos]; [| |cbn; lia].
  all: rewrite Pos2Z.inj_succ, Z.pow_succ_r by lia.
  all: replace (Z.succ (Zpos (digits2_pos p)) - 1) with (Z.succ (Zpos (digits2_pos p) - 1)) by lia.
  all: rewrite Z.pow_succ_r by lia.
  all: lia.
Qed.
Lemma normalize_small p : Zpos p < 2 ^ 53 →
  ∃ m e, binary_normalize 53 1024 (Zpos p) 0 false = S754_finite false m e ∧ e ≤ 0 ∧ Zpos m = Zpos p * 2 ^ (- e).
Proof.
  intros Hp. destruct (digits_bound p) as [_ Hd]. assert (Zpos (digits2_pos p) ≤ 53) as Hd53.
  { destruct (Z.le_gt_cases (Zpos (digits2_pos p)) 53) as [|H]; [done|]. assert (2 ^ 53 ≤ 2 ^ (Zpos (digits2_pos p) - 1)) by (apply Z.pow_le_mono_r; lia). lia. }
  unfold binary_normalize, binary_round.
  assert (∀ e, e = Zpos (digits2_pos p) - 53 → fexp 53 1024 (Zpos (digits2_pos p) + 0) = e) as Hf.
  { intros e ->. unfold fexp, emin. lia. }
  assert (∀ q e, Zpos (digits2_pos q) = 53 → -1074 ≤ e ≤ 0 → binary_round_aux 53 1024 false (Zpos q) e loc_Exact = S754_finite false q e) as Haux.
  { intros q e Hq He. unfold binary_round_aux, shr_fexp. cbn [Zdigits2]. rewrite Hq.
    assert (fexp 53 1024 (53 + e) - e = 0) as -> by (unfold fexp, emin; lia). cbn [shr shr_record_of_loc loc_of_shr_record shr_m round_nearest_even Zdigits2].
    rewrite Hq. assert (fexp 53 1024 (53 + e) - e = 0) as -> by (unfold fexp, emin; lia). cbn [shr shr_m].
    by rewrite (proj2 (Z.leb_le _ _)) by lia. }
  rewrite (Hf (Zpos (digits2_pos p) - 53)) by done. unfold shl_align. destruct (Zpos (digits2_pos p) - 53 - 0) as [|d|d] eqn:E; [|lia|].
  - exists p, 0. rewrite Haux by lia. split; [done|]. lia.
  - exists (Pos.iter xO p d), (Zneg d). replace (Zpos (digits2_pos p) - 53) with (Zneg d) by lia.
    rewrite Haux; [|rewrite digits_double; lia|lia]. split; [done|]. split; [lia|]. cbn [Z.opp]. apply iter_double.
Qed.
(** An integer a float64 represents exactly comes back as itself. *)
Lemma to_of_int64 n : 0 ≤ n < 2 ^ 53 → to_int64 (of_int64 n) = n.
Proof.
  intros Hn. destruct n as [|p|p]; [done| |lia]. destruct (normalize_small p) as (m & e & E & He & Hm); [lia|].
  unfold of_int64. rewrite E. cbn [to_int64]. 
  assert ((if 0 <=? e then Zpos m * 2 ^ e else Zpos m / 2 ^ (- e)) = Zpos p) as ->.
  { destruct (Z.leb_spec 0 e) as [H|H].
    - assert (e = 0) as -> by lia. rewrite Hm. change (2 ^ (- 0)) with 1. lia.
    - rewrite Hm. apply Z.div_mul. apply Z.pow_nonzero; lia. }
  by rewrite (proj2 (Z.leb_le _ _)), (proj2 (Z.ltb_lt _ _)) by lia.
Qed.

(** ** The commands of an episode are new *)

(** What the operations of the environment do to the replay state: only
    [ExecuteActivity] touches it. *)
Definition replay_state (e : workerEnv) := (e_activityResults e, e_scheduledSeqs e, e_nextSeq e, e_newCommands e, e_taskQueue e).

(** A command numbered below [n] that the history neither scheduled nor resolved. *)
Definition new_command (r0 : gmap Z activityOutcome) (s0 : gset Z) (n : Z) (c : rawCommand) : Prop :=
  0 ≤ rc_Seq c < n ∧ (rc_Seq c ∉ s0) ∧ r0 !! (rc_Seq c) = None ∧ rc_Kind c = commandKindScheduleActivity.

(** The commands issued so far by an episode that started from the scheduled set [s0]
    and the outcomes [r0]. *)
Record issued (r0 : gmap Z activityOutcome) (s0 : gset Z) (e : workerEnv) : Prop := {
  is_results : e_activityResults e = r0;
  is_next : 0 ≤ e_nextSeq e;
  is_sorted : StronglySorted Z.lt (rc_Seq <$> e_newCommands e);
  is_range : Forall (new_command r0 s0 (e_nextSeq e)) (e_newCommands e);
  is_scheduled : e_scheduledSeqs e = s0 ∪ list_to_set (rc_Seq <$> e_newCommands e) }.

Lemma issued_same r0 s0 e e' : replay_state e' = replay_state e → issued r0 s0 e → issued r0 s0 e'.
Proof. unfold replay_state. intros [= E1 E2 E3 E4 E5] [H1 H2 H3 H4 H5]. split; by rewrite ?E1, ?E2, ?E3, ?E4. Qed.

Lemma sorted_snoc (l : list Z) x : StronglySorted Z.lt l → Forall (λ y, y < x) l → StronglySorted Z.lt (l ++ [x]).
Proof.
  induction 1 as [|y l Hl IH Hy]; cbn; intros Hx; [repeat constructor|]. apply Forall_cons in Hx as [Hyx Hx].
  constructor; [by apply IH|]. apply Forall_app. split; [done|]. by repeat constructor.
Qed.

Lemma range_weaken r0 s0 n m l : n ≤ m → Forall (new_command r0 s0 n) l → Forall (new_command r0 s0 m) l.
Proof. intros Hnm Hl. eapply Forall_impl; [exact Hl|]. intros c (? & ? & ? & ?). split_and!; [lia|lia|done..]. Qed.

Section Commands.
Context `{Ambient}.

Lemma activity_issued r0 s0 opts a args e : issued r0 s0 e → issued r0 s0 (env_ExecuteActivity opts a args e).1.
Proof.
  intros [H1 H2 H3 H4 H5].
  assert (issued r0 s0 (with_seq (e_nextSeq e + 1) e)) as Hskip.
  { split; cbn; [done|lia|done| |done]. eapply range_weaken; [|done]. lia. }
  unfold env_ExecuteActivity. cbn [e_activityResults with_seq e_scheduledSeqs e_newCommands].
  destruct (e_activityResults e !! e_nextSeq e) eqn:Hr; [done|]. destruct (String.eqb _ _); [done|].
  destruct (marshal_args args); [|done]. case_bool_decide as Hs; [done|].
  set (c := schedule_command _ _ _ _ _). split; cbn.
  - done.
  - lia.
  - rewrite fmap_app. apply sorted_snoc; [done|]. apply Forall_fmap. eapply Forall_impl; [exact H4|]. cbn. intros x (? & _). lia.
  - apply Forall_app. split; [eapply range_weaken; [|done]; lia|]. constructor; [|done]. rewrite H5 in Hs. rewrite H1 in Hr.
    split_and!; cbn; [lia|lia|set_solver|done|done].
  - rewrite fmap_app, list_to_set_app_L, H5. cbn. set_solver.
Qed.

(** Everything else leaves the replay state alone. *)
Lemma signal_replay name e : replay_state (env_GetSignalChannel name e).1 = replay_state e.
Proof. unfold env_GetSignalChannel. by destruct (e_signals e !! name). Qed.
Lemma version_replay id lo hi e : replay_state (env_GetVersion id lo hi e).1 = replay_state e.
Proof. unfold env_GetVersion. by destruct (get_version _ _ _ _). Qed.
Lemma effect_replay fn e : replay_state (env_SideEffect fn e).1 = replay_state e.
Proof. unfold env_SideEffect. cbn. destruct (e_sideEffects e !! _); [done|]. by destruct fn. Qed.
Lemma mutable_replay id fn eq e : replay_state (env_MutableSideEffect id fn eq e).1 = replay_state e.
Proof.
  unfold env_MutableSideEffect. destruct fn; [|done]. destruct (EncodePayload _); [done|].
  by destruct (mutable_effect _ _ _ _).
Qed.
Lemma upsert_replay attrs e : replay_state (env_UpsertSearchAttributes attrs e) = replay_state e.
Proof. by destruct attrs. Qed.
Lemma sleep_replay d e : replay_state (env_Sleep d e).1 = replay_state e.
Proof. unfold env_Sleep. by destruct (d <=? 0). Qed.
Lemma ready_replay fs cases e : ∀ i, replay_state (readyIndex fs i cases e).1 = replay_state e.
Proof.
  revert e. induction cases as [|c cases IH]; intros e i; [done|]. cbn [readyIndex].
  assert (replay_state (case_ready fs c e).1 = replay_state e) as Hc.
  { destruct c as [h|name]; [done|]. cbn. pose proof (signal_replay name e). by destruct (env_GetSignalChannel name e). }
  destruct (case_ready fs c e) as [e' []]; [done|]. by rewrite IH.
Qed.
Lemma select_replay fs cases d e : replay_state (Select fs cases d e).1 = replay_state e.
Proof.
  unfold Select. destruct cases as [|c cases]; [done|]. pose proof (ready_replay fs (c :: cases) e 0) as Hr.
  destruct (readyIndex fs 0 (c :: cases) e) as [e' [i|]]; [|by destruct d].
  unfold fire. destruct ((c :: cases) !! i) as [[h|name]|]; [done| |done]. cbn.
  pose proof (signal_replay name e') as Hs. cbn in Hr. rewrite <-Hr, <-Hs. by destruct (env_GetSignalChannel name e').
Qed.
Lemma receive_replay name e : replay_state (receive_signal name e).1 = replay_state e.
Proof.
  unfold receive_signal. cbn. pose proof (signal_replay name e) as Hs. destruct (env_GetSignalChannel name e) as [e' ch]. cbn in Hs.
  destruct (Receive 0 ch) as [[ch' out] r]. by destruct r.
Qed.
Lemma receive_async_replay name e : replay_state (receive_signal_async name e).1 = replay_state e.
Proof.
  unfold receive_signal_async. cbn. pose proof (signal_replay name e) as Hs. destruct (env_GetSignalChannel name e) as [e' ch]. cbn in Hs.
  by destruct (ReceiveAsync ch) as [[ch' out] r].
Qed.
Lemma get_replay f target e : replay_state (get_future f target e).1 = replay_state e.
Proof. unfold get_future. by destruct (ce_root_err e). Qed.

Lemma exec_issued r0 s0 p : ∀ fs e, issued r0 s0 e → issued r0 s0 (exec p fs e).1.
Proof.
  induction p as [outs|text|opts a args k IH|v err k IH|h t k IH|h k IH|cases d k IH|name k IH|name k IH|id lo hi k IH|fn k IH|id fn eq k IH|attrs k IH|k IH|d k IH];
    intros fs e He; cbn [exec].
  - done.
  - done.
  - pose proof (activity_issued r0 s0 opts a args e He). cbn. destruct (env_ExecuteActivity opts a args e). by apply IH.
  - by apply IH.
  - destruct (fs !! h) as [f|]; [|done]. pose proof (issued_same r0 s0 _ _ (get_replay f t e) He). destruct (get_future f t e) as [e' []]; [by apply IH|done..].
  - destruct (fs !! h); [by apply IH|done].
  - pose proof (issued_same r0 s0 _ _ (select_replay fs cases d e) He). destruct (Select fs cases d e) as [e' []]; [by apply IH|done].
  - pose proof (issued_same r0 s0 _ _ (receive_replay name e) He). destruct (receive_signal name e) as [e' []]; [by apply IH|done].
  - pose proof (issued_same r0 s0 _ _ (receive_async_replay name e) He). destruct (receive_signal_async name e) as [e' r]. by apply IH.
  - pose proof (issued_same r0 s0 _ _ (version_replay id lo hi e) He). cbn. destruct (env_GetVersion id lo hi e). by apply IH.
  - pose proof (issued_same r0 s0 _ _ (effect_replay fn e) He). cbn. destruct (env_SideEffect fn e). by apply IH.
  - pose proof (issued_same r0 s0 _ _ (mutable_replay id fn eq e) He). cbn. destruct (env_MutableSideEffect id fn eq e). by apply IH.
  - apply IH. by eapply issued_same; [apply upsert_replay|].
  - cbn. apply IH. by apply (issued_same r0 s0 e).
  - pose proof (issued_same r0 s0 _ _ (sleep_replay d e) He). cbn. destruct (env_Sleep d e). by apply IH.
Qed.

End Commands.

(** ** Reference execution *)

(** A function whose course depends on nothing but its inputs and the outcomes of
    its activities: it does not ask which future is ready first, what time it is, or
    what a side effect computes. *)
Fixpoint stable (p : prog) : Prop :=
  match p with
  | PReturn _ | PPanic _ => True
  | PActivity _ _ _ k | PFuture _ _ k => ∀ h, stable (k h)
  | PGet _ _ k => ∀ e v, stable (k e v)
  | PReceive _ k | PReceiveAsync _ k => ∀ v, stable (k v)
  | PVersion _ _ _ k => ∀ v, stable (k v)
  | PUpsert _ k => stable k
  | PSleep _ k => ∀ e, stable (k e)
  | PIsReady _ _ | PSelect _ _ _ | PSideEffect _ _ | PMutable _ _ _ _ | PNow _ => False
  end.

(** The environment with another replay state. *)
Definition set_replay (r : gmap Z activityOutcome) (s : gset Z) (n : Z) (c : list rawCommand) (e : workerEnv) : workerEnv :=
  with_replay r s (with_seq n (with_commands c e)).

Section Reference.
Context `{Ambient}.
(** What the activity scheduled by a command ends with. *)
Context (perform : rawCommand → activityOutcome).

(** The environment of the reference: the worker's, with a log of the activity calls
    (an entry per call; a call that is refused before it is scheduled has no command). *)
Definition directEnv : Type := workerEnv * list (option rawCommand).

Definition direct_ExecuteActivity (opts : ActivityOptions) (activity : goref) (args : list goany) (d : directEnv) : directEnv * future :=
  let '(e, log) := d in
  let activityType := ActivityName activity in
  if String.eqb activityType "" then
    ((e, log ++ [None]), Settle RNone (Some (NewError "activity type unresolvable" "ConfigError" true [])) NewFuture)
  else match marshal_args args with
  | None => ((e, log ++ [None]), Settle RNone (Some (ETask "encode activity args" "MarshalError" true [] (Some marshal_error))) NewFuture)
  | Some input =>
      let c := schedule_command e (Z.of_nat (length log)) opts activityType input in
      ((e, log ++ [Some c]), outcome_future (perform c))
  end.

Definition lift_env {A} (f : workerEnv → workerEnv * A) (d : directEnv) : directEnv * A :=
  let '(e, a) := f d.1 in ((e, d.2), a).

#[local] Instance direct_env : CoroutineEnv directEnv := {|
  ce_ExecuteActivity := direct_ExecuteActivity;
  ce_GetSignalChannel name := lift_env (env_GetSignalChannel name);
  ce_update_signal name ch d := (ce_update_signal name ch d.1, d.2);
  ce_root_err d := e_root_err d.1;
  ce_race := lift_env ce_race;
  ce_GetVersion id lo hi := lift_env (env_GetVersion id lo hi);
  ce_SideEffect fn := lift_env (env_SideEffect fn);
  ce_MutableSideEffect id fn eq := lift_env (env_MutableSideEffect id fn eq);
  ce_UpsertSearchAttributes attrs d := (env_UpsertSearchAttributes attrs d.1, d.2);
  ce_Now := lift_env env_Now;
  ce_Sleep d := lift_env (env_Sleep d)
|}.

Definition direct (p : prog) (e : workerEnv) : directEnv * outcome := exec p [] (e, []).

(** *** The log only grows *)

Lemma direct_activity_log opts a args d : ∃ x, (direct_ExecuteActivity opts a args d).1 = (d.1, d.2 ++ [x]).
Proof. unfold direct_ExecuteActivity. destruct d as [e log]. destruct (String.eqb _ _); [by eexists|]. destruct (marshal_args args); by eexists. Qed.

Lemma lift_log {A} (f : workerEnv → workerEnv * A) d : (lift_env f d).1 = ((f d.1).1, d.2) ∧ (lift_env f d).2 = (f d.1).2.
Proof. unfold lift_env. by destruct (f d.1). Qed.

Lemma receive_log name (d : directEnv) : (receive_signal name d).1.2 = d.2.
Proof.
  unfold receive_signal. cbn. destruct (lift_log (env_GetSignalChannel name) d) as [E _].
  destruct (lift_env (env_GetSignalChannel name) d) as [d' ch]. cbn in E. subst d'. destruct (Receive 0 ch) as [[ch' out] r]. by destruct r.
Qed.
Lemma receive_async_log name (d : directEnv) : (receive_signal_async name d).1.2 = d.2.
Proof.
  unfold receive_signal_async. cbn. destruct (lift_log (env_GetSignalChannel name) d) as [E _].
  destruct (lift_env (env_GetSignalChannel name) d) as [d' ch]. cbn in E. subst d'. by destruct (ReceiveAsync ch) as [[ch' out] r].
Qed.

Lemma get_log f target (d : directEnv) : (get_future f target d).1.2 = d.2.
Proof. unfold get_future. cbn. by destruct (e_root_err d.1). Qed.

Lemma direct_log p : stable p → ∀ fs (d : directEnv), d.2 `prefix_of` (exec p fs d).1.2.
Proof.
  induction p as [outs|text|opts a args k IH|v err k IH|h t k IH|h k IH|cases df k IH|name k IH|name k IH|id lo hi k IH|fn k IH|id fn eq k IH|attrs k IH|k IH|t k IH];
    intros Hp fs d; cbn [exec]; try done.
  - destruct (direct_activity_log opts a args d) as [x Hx]. cbn. destruct (direct_ExecuteActivity opts a args d) as [d' f]. cbn in Hx. subst d'.
    etrans; [|by apply IH]. cbn. by apply prefix_app_r.
  - by apply IH.
  - destruct (fs !! h) as [f|]; [|done]. pose proof (get_log f t d) as E. destruct (get_future f t d) as [d' []]; cbn in E; rewrite <-E; [by apply IH|done..].
  - pose proof (receive_log name d) as E. destruct (receive_signal name d) as [d' []]; cbn in E; rewrite <-E; [by apply IH|done].
  - pose proof (receive_async_log name d) as E. destruct (receive_signal_async name d) as [d' r]. cbn in E; rewrite <-E. by apply IH.
  - cbn. destruct (lift_log (env_GetVersion id lo hi) d) as [E _]. destruct (lift_env _ d) as [d' r]. cbn in E. subst d'.
    apply (IH r (Hp r) fs ((_, d.2) : directEnv)).
  - apply (IH Hp fs ((_, d.2) : directEnv)).
  - cbn. destruct (lift_log (env_Sleep t) d) as [E _]. destruct (lift_env _ d) as [d' r]. cbn in E. subst d'.
    apply (IH r (Hp r) fs ((_, d.2) : directEnv)).
Qed.

(** *** Replay follows the reference *)

(** The history holds only outcomes of the calls the reference makes. *)
Definition consistent (r0 : gmap Z activityOutcome) (log : list (option rawCommand)) : Prop :=
  ∀ n o, r0 !! n = Some o → 0 ≤ n ∧ ∃ c, log !! (Z.to_nat n) = Some (Some c) ∧ o = perform c.

(** Some activity is scheduled and its outcome is not known. *)
Definition waits_for (log : list (option rawCommand)) (e : workerEnv) : Prop :=
  ∃ n c, log !! n = Some (Some c) ∧ e_activityResults e !! Z.of_nat n = None ∧ (Z.of_nat n ∈ e_scheduledSeqs e).

(** A future of the replay is the reference's, or blocked. *)
Definition lags (f f' : future) : Prop := f' ≠ Blocked ∧ f' ≠ Unsettled ∧ (f = f' ∨ f = Blocked).

(** The replay [e] and the reference [d] at the same point of the function. *)
Record follows (log : list (option rawCommand)) (e : workerEnv) (fs : list future) (d : directEnv) (fs' : list future) : Prop := {
  fo_next : e_nextSeq e = Z.of_nat (length d.2);
  fo_rest : ∃ r s n c, e = set_replay r s n c d.1;
  fo_root : e_root_err e = None;
  fo_futures : Forall2 lags fs fs';
  fo_blocked : Blocked ∈ fs → waits_for log e }.

(** Operations other than [ExecuteActivity] do not see the replay state. *)
Definition blind {A} (op : workerEnv → workerEnv * A) : Prop :=
  ∀ r s n c e, op (set_replay r s n c e) = (set_replay r s n c (op e).1, (op e).2).

Lemma blind_signal name : blind (env_GetSignalChannel name).
Proof. intros r s n c e. unfold env_GetSignalChannel. cbn. by destruct (e_signals e !! name). Qed.
Lemma blind_version id lo hi : blind (env_GetVersion id lo hi).
Proof. intros r s n c e. unfold env_GetVersion. cbn. by destruct (get_version _ _ _ _). Qed.
Lemma blind_sleep d : blind (env_Sleep d).
Proof. intros r s n c e. unfold env_Sleep. by destruct (d <=? 0). Qed.

(** The commands of an episode are the reference's calls. *)
Definition from_log (log : list (option rawCommand)) (before after : list rawCommand) : Prop :=
  ∀ c, c ∈ after → c ∈ before ∨ ∃ n, rc_Seq c = Z.of_nat n ∧ log !! n = Some (Some c).

Lemma outcome_settled o : outcome_future o ≠ Blocked ∧ outcome_future o ≠ Unsettled.
Proof. unfold outcome_future. by destruct (oc_failed o). Qed.
Lemma lags_refl f : f ≠ Blocked → f ≠ Unsettled → lags f f.
Proof. intros H1 H2. split_and!; [done..|by left]. Qed.

Lemma follows_snoc log e fs d fs' n c r s log' f f' :
  follows log e fs d fs' → lags f f' → d.2 = log' → e_activityResults e = r → e_scheduledSeqs e ⊆ s →
  n = Z.of_nat (length (log' ++ [None : option rawCommand])) → ∀ x,
  (f = Blocked → waits_for log (set_replay r s n c d.1)) →
  follows log (set_replay r s n c d.1) (fs ++ [f]) (d.1, log' ++ [x]) (fs' ++ [f']).
Proof.
  intros [H1 (r0 & s0 & n0 & c0 & H2) H3 H4 H5] Hf Hd Hr Hs Hn x Hw. split; cbn.
  - rewrite Hn, !length_app. done.
  - by eexists _, _, _, _.
  - by rewrite H2 in H3.
  - apply Forall2_app; [done|]. by constructor.
  - intros [Hb|Hb%list_elem_of_singleton]%elem_of_app; [|by apply Hw]. destruct (H5 Hb) as (m & cm & Hm & Hrm & Hsm).
    exists m, cm. cbn. split_and!; [done|by rewrite <-Hr|set_solver].
Qed.

Lemma activity_follows log e fs d fs' opts a args :
  follows log e fs d fs' → consistent (e_activityResults e) log → (direct_ExecuteActivity opts a args d).1.2 `prefix_of` log →
  let '(e', f) := env_ExecuteActivity opts a args e in let '(d', f') := direct_ExecuteActivity opts a args d in
  follows log e' (fs ++ [f]) d' (fs' ++ [f']) ∧ e_activityResults e' = e_activityResults e ∧ from_log log (e_newCommands e) (e_newCommands e').
Proof.
  intros Hfo Hcon Hpre. pose proof Hfo as [Hnext (r & s & n & c & ->) Hroot Hfs Hb]. destruct d as [e0 l]. cbn in Hnext. subst n.
  cbn [fst] in *. cbn in Hcon. unfold env_ExecuteActivity, direct_ExecuteActivity in *. cbn [set_replay with_replay with_seq with_commands e_nextSeq e_activityResults e_scheduledSeqs e_newCommands] in *.
  assert (∀ x, (l ++ [x]) `prefix_of` log → log !! length l = Some x) as Hat.
  { intros x [k ->]. rewrite <-app_assoc, lookup_app_r, Nat.sub_diag by done. done. }
  set (n' := Z.of_nat (length l) + 1). assert (n' = Z.of_nat (length (l ++ [None : option rawCommand]))) as Hn' by (unfold n'; rewrite length_app; cbn; lia).
  assert (∀ c' s' f f' x, lags f f' → s ⊆ s' → (f = Blocked → waits_for log (set_replay r s' n' c' e0)) →
    follows log (set_replay r s' n' c' e0) (fs ++ [f]) (e0, l ++ [x]) (fs' ++ [f'])) as Hsnoc.
  { intros c' s' f f' x Hf Hs Hw. by apply (follows_snoc log _ fs (e0, l) fs' n' c' r s' l f f' Hfo). }
  destruct (r !! Z.of_nat (length l)) as [o|] eqn:Hr.
  - destruct (Hcon _ _ Hr) as (_ & cm & Hc & ->). rewrite Nat2Z.id in Hc.
    destruct (String.eqb _ _); [rewrite (Hat None) in Hc by done; done|]. destruct (marshal_args args) as [input|]; [|rewrite (Hat None) in Hc by done; done].
    cbn [fst snd] in Hpre. rewrite (Hat _ Hpre) in Hc. injection Hc as <-. split_and!; [|done|by left].
    apply (Hsnoc c s); [apply lags_refl; apply outcome_settled|done|]. intros E. by apply outcome_settled in E.
  - destruct (String.eqb _ _).
    { split_and!; [|done|by left]. apply (Hsnoc c s); [by apply lags_refl|done|done]. }
    destruct (marshal_args args) as [input|].
    2: { split_and!; [|done|by left]. apply (Hsnoc c s); [by apply lags_refl|done|done]. }
    cbn [fst snd] in Hpre. set (cm := schedule_command e0 _ _ _ _) in *.
    assert (∀ s', Z.of_nat (length l) ∈ s' → ∀ c', waits_for log (set_replay r s' n' c' e0)) as Hw.
    { intros s' Hs' c'. exists (length l), cm. split_and!; [by apply Hat|done|done]. }
    assert (lags Blocked (outcome_future (perform cm))) as Hl by (split_and!; [apply outcome_settled..|by right]).
    case_bool_decide as Hs.
    + split_and!; [|done|by left]. apply (Hsnoc c s); [done..|]. intros _. by apply Hw.
    + split_and!; [|done|].
      * apply (Hsnoc _ ({[Z.of_nat (length l)]} ∪ s)); [done|set_solver|]. intros _. apply Hw. set_solver.
      * intros c' [Hc'|Hc'%list_elem_of_singleton]%elem_of_app; [by left|]. right. subst c'. exists (length l). split; [done|by apply Hat].
Qed.

(** An operation that does not see the replay state, on both sides. *)
Lemma blind_follows {A} (op : workerEnv → workerEnv * A) log e fs d fs' :
  blind op → (∀ e, e_root_err (op e).1 = e_root_err e) → follows log e fs d fs' →
  follows log (op e).1 fs ((op d.1).1, d.2) fs' ∧ (op e).2 = (op d.1).2 ∧
  e_activityResults (op e).1 = e_activityResults e ∧ e_newCommands (op e).1 = e_newCommands e.
Proof.
  intros Hop Hroot [H1 (r & s & n & c & ->) H3 H4 H5]. rewrite Hop. cbn. split_and!; [|done..]. split; cbn; try done.
  - by eexists _, _, _, _.
  - rewrite Hroot. exact H3.
Qed.

Lemma signal_root name e : e_root_err (env_GetSignalChannel name e).1 = e_root_err e.
Proof. unfold env_GetSignalChannel. by destruct (e_signals e !! name). Qed.
Lemma version_root id lo hi e : e_root_err (env_GetVersion id lo hi e).1 = e_root_err e.
Proof. unfold env_GetVersion. by destruct (get_version _ _ _ _). Qed.
Lemma sleep_root d e : e_root_err (env_Sleep d e).1 = e_root_err e.
Proof. unfold env_Sleep. by destruct (d <=? 0). Qed.

Lemma blind_receive name : blind (λ e, receive_signal (S := workerEnv) name e).
Proof.
  intros r s n c e. unfold receive_signal. cbn. rewrite blind_signal. destruct (env_GetSignalChannel name e) as [e' ch]. cbn.
  destruct (Receive 0 ch) as [[ch' out] r']. by destruct r'.
Qed.
Lemma receive_root name e : e_root_err (receive_signal name e).1 = e_root_err e.
Proof.
  unfold receive_signal. cbn. pose proof (signal_root name e) as E. destruct (env_GetSignalChannel name e) as [e' ch]. cbn in E.
  destruct (Receive 0 ch) as [[ch' out] r']. by destruct r'.
Qed.
Lemma blind_receive_async name : blind (λ e, receive_signal_async (S := workerEnv) name e).
Proof.
  intros r s n c e. unfold receive_signal_async. cbn. rewrite blind_signal. destruct (env_GetSignalChannel name e) as [e' ch]. cbn.
  by destruct (ReceiveAsync ch) as [[ch' out] r'].
Qed.
Lemma receive_async_root name e : e_root_err (receive_signal_async name e).1 = e_root_err e.
Proof.
  unfold receive_signal_async. cbn. pose proof (signal_root name e) as E. destruct (env_GetSignalChannel name e) as [e' ch]. cbn in E.
  by destruct (ReceiveAsync ch) as [[ch' out] r'].
Qed.

(** The reference runs these operations as the worker does. *)
Lemma direct_receive name (d : directEnv) : receive_signal name d = lift_env (λ e, receive_signal name e) d.
Proof.
  unfold receive_signal, lift_env. cbn. unfold lift_env. destruct (env_GetSignalChannel name d.1) as [e' ch].
  destruct (Receive 0 ch) as [[ch' out] r']. by destruct r'.
Qed.
Lemma direct_receive_async name (d : directEnv) : receive_signal_async name d = lift_env (λ e, receive_signal_async name e) d.
Proof.
  unfold receive_signal_async, lift_env. cbn. unfold lift_env. destruct (env_GetSignalChannel name d.1) as [e' ch].
  by destruct (ReceiveAsync ch) as [[ch' out] r'].
Qed.

(** How an episode compares to the reference. *)
Definition agrees (log : list (option rawCommand)) (e : workerEnv) (x : workerEnv * outcome) (o : outcome) : Prop :=
  (x.2 = o ∧ o ≠ EpisodeBlocked ∨ x.2 = EpisodeBlocked ∧ waits_for log x.1) ∧
  e_activityResults x.1 = e_activityResults e ∧ from_log log (e_newCommands e) (e_newCommands x.1).

Lemma agrees_step log e e' x o :
  e_activityResults e' = e_activityResults e → from_log log (e_newCommands e) (e_newCommands e') → agrees log e' x o → agrees log e x o.
Proof.
  intros Hr Hc (H1 & H2 & H3). split_and!; [done|congruence|]. intros c Hx. destruct (H3 c Hx) as [Hq|Hq]; [by apply Hc|by right].
Qed.
Lemma agrees_here log e o : o ≠ EpisodeBlocked → agrees log e (e, o) o.
Proof. intros Ho. split_and!; [by left|done|by left]. Qed.

Lemma direct_root log e fs (d : directEnv) fs' : follows log e fs d fs' → ce_root_err d = None.
Proof. intros [_ (r & s & n & c & ->) H3 _ _]. exact H3. Qed.

Lemma exec_follows log p : stable p → ∀ fs e fs' (d : directEnv),
  follows log e fs d fs' → consistent (e_activityResults e) log → (exec p fs' d).1.2 = log →
  agrees log e (exec p fs e) (exec p fs' d).2.
Proof.
  assert (∀ A (op : workerEnv → workerEnv * A) (k : A → prog) fs e fs' (d : directEnv), blind op → (∀ e, e_root_err (op e).1 = e_root_err e) →
    (∀ a, stable (k a)) →
    (∀ a, stable (k a) → ∀ fs e fs' (d : directEnv), follows log e fs d fs' → consistent (e_activityResults e) log → (exec (k a) fs' d).1.2 = log →
      agrees log e (exec (k a) fs e) (exec (k a) fs' d).2) →
    follows log e fs d fs' → consistent (e_activityResults e) log →
    (let '(d', a) := lift_env op d in exec (k a) fs' d').1.2 = log →
    agrees log e (let '(e', a) := op e in exec (k a) fs e') (let '(d', a) := lift_env op d in exec (k a) fs' d').2) as Hblind.
  { intros A op k fs e fs' d Hop Hroot Hk IH Hfo Hcon. destruct (blind_follows op log e fs d fs' Hop Hroot Hfo) as (Hfo' & Ha & Hr & Hc).
    unfold lift_env. destruct (op e) as [e' a], (op d.1) as [d' a']. cbn in *. subst a'. intros Hlog.
    eapply agrees_step; [exact Hr|by rewrite Hc; left|]. apply IH; [done|done|by rewrite Hr|done]. }
  induction p as [outs|text|opts a args k IH|v err k IH|h t k IH|h k IH|cases df k IH|name k IH|name k IH|id lo hi k IH|fn k IH|id fn eq k IH|attrs k IH|k IH|t k IH];
    intros Hp fs e fs' d Hfo Hcon Hlog; cbn [exec] in Hlog |- *; try done.
  - by apply agrees_here.
  - by apply agrees_here.
  - cbn in *. pose proof (activity_follows log e fs d fs' opts a args Hfo Hcon) as Hact.
    rewrite (Forall2_length _ _ _ (fo_futures _ _ _ _ _ Hfo)).
    destruct (env_ExecuteActivity opts a args e) as [e' f], (direct_ExecuteActivity opts a args d) as [d' f'].
    destruct Hact as (Hfo' & Hr & Hc). { rewrite <-Hlog. by apply (direct_log (k (length fs')) (Hp _) _ d'). }
    eapply agrees_step; [exact Hr|exact Hc|]. apply IH; [done|done|by rewrite Hr|done].
  - rewrite (Forall2_length _ _ _ (fo_futures _ _ _ _ _ Hfo)). apply IH; [done| |done|done].
    destruct Hfo as [H1 H2 H3 H4 H5]. split; [done..| |].
    + apply Forall2_app; [done|]. constructor; [by apply lags_refl|done].
    + intros [Hb|Hb%list_elem_of_singleton]%elem_of_app; [by apply H5|done].
  - pose proof (fo_futures _ _ _ _ _ Hfo) as Hfs. destruct (fs !! h) as [f|] eqn:Hf.
    2: { assert (fs' !! h = None) as ->; [|by apply agrees_here]. apply lookup_ge_None. rewrite <-(Forall2_length _ _ _ Hfs). by apply lookup_ge_None. }
    destruct (Forall2_lookup_l _ _ _ _ _ Hfs Hf) as (f' & Hf' & Hnb & Hnu & Heq). rewrite Hf' in Hlog |- *.
    unfold get_future in *. rewrite (direct_root _ _ _ _ _ Hfo) in *. cbn [ce_root_err worker_env] in *. rewrite (fo_root _ _ _ _ _ Hfo).
    destruct Heq as [->| ->].
    + destruct f' as [|value err|]; [done| |done]. cbn [Get] in *.
      assert (∃ er vl, Get t None false (Settled value err) = GetReturns er vl) as (er & vl & E).
      { cbn [Get]. destruct err; [eauto|]. destruct t as [acc|]; [|eauto]. destruct value as [|j|]; eauto. destruct (acc j); eauto. }
      cbn [Get] in E. rewrite E in *. by apply IH.
    + cbn [Get]. split_and!; [|done|by left]. right. split; [done|]. apply (fo_blocked _ _ _ _ _ Hfo). by eapply list_elem_of_lookup_2.
  - rewrite direct_receive in *.
    destruct (blind_follows _ log e fs d fs' (blind_receive name) (receive_root name) Hfo) as (Hfo' & Ha & Hr & Hc).
    unfold lift_env in *. destruct (receive_signal name e) as [e' a], (receive_signal name d.1) as [d' a']. cbn in *. subst a'.
    destruct a as [v|].
    + eapply agrees_step; [exact Hr|by rewrite Hc; left|]. apply IH; [done|done|by rewrite Hr|done].
    + split_and!; [by left|done|cbn; rewrite Hc; by left].
  - rewrite direct_receive_async in *. by apply (Hblind _ _ k fs e fs' d (blind_receive_async name) (receive_async_root name)).
  - by apply (Hblind _ _ k fs e fs' d (blind_version id lo hi) (version_root id lo hi)).
  - assert (follows log (env_UpsertSearchAttributes attrs e) fs (env_UpsertSearchAttributes attrs d.1, d.2) fs') as Hfo'.
    { destruct Hfo as [H1 (r & s & n & c & ->) H3 H4 H5]. destruct attrs; [|split; eauto]. split; cbn; try done. by eexists r, s, n, c. }
    destruct attrs as [at_|]; [|by apply IH]. cbn in *. eapply agrees_step; [| |apply IH]; [..|exact Hlog]; try done. by left.
  - by apply (Hblind _ _ k fs e fs' d (blind_sleep t) (sleep_root t)).
Qed.

(** *** The replay theorem *)

(** A fresh environment follows the reference from the start. *)
Lemma follows_start log (e : workerEnv) : e_nextSeq e = 0 → e_root_err e = None → follows log e [] (e, []) [].
Proof.
  intros H1 H2. split; [done| |done|constructor|by intros ?%elem_of_nil].
  eexists (e_activityResults e), (e_scheduledSeqs e), (e_nextSeq e), (e_newCommands e). by destruct e.
Qed.

End Reference.
