(* ===== verification/Rounds.v ===== *)
(** The rounds of a workflow run: the worker decides on the history, the server
    records what it scheduled, activities are performed in any order and their
    outcomes are appended, and the worker decides again. The history is the server's
    ([HistoryEvent], as [workflowHistoryBytes] ships it), the worker is
    [dispatchWorkflowTask]; the theorems are about what the worker sends. *)

From Corelib Require Import SpecFloat.
From Stdlib Require Import Ascii ZArith Lia Sorting.Sorted.
From stdpp Require Import prelude strings gmap.
From S2P Require Import Prelude GoStrings Json Types EngineTypes GoTime Temporal Channel Coroutine World Workflow Durable Worker ReplaySpec.

Local Open Scope Z_scope.

(** ** The history crosses the wire *)

Definition view_event (ev : HistoryEvent) : histEvent :=
  {| he_EventId := EventId ev; he_EventType := EventType ev; he_Attributes := Attributes ev |}.

Lemma view_of_json ev : histEvent_of (to_json ev) = Some (view_event ev).
Proof.
  unfold histEvent_of, to_json, HistoryEvent_codec. cbn [as_obj mbind option_bind].
  rewrite (rd_fld _ "eventId" (EventId ev)); [|by assoc_solve|done]. cbn [mbind option_bind].
  rewrite (rd_fld _ "eventType" (EventType ev)); [|by assoc_solve|done]. cbn [mbind option_bind].
  rewrite (rd_fld_omit _ "attributes" (Attributes ev)); [done|by assoc_solve|apply marshal_always].
Qed.

Lemma parse_history events : parseHistory (RJson (to_json events)) = inr (view_event <$> events).
Proof.
  unfold to_json, list_codec, parseHistory. cbn [parseHistory].
  assert (mapM histEvent_of (to_json <$> events) = Some (view_event <$> events)) as ->; [|done].
  apply mapM_Some. apply Forall2_fmap. apply Forall_Forall2_diag, Forall_forall. intros ev _. apply view_of_json.
Qed.

(** ** The server's part *)

Definition server_event (i : Z) (ty : string) (a : gmap string json) : HistoryEvent :=
  {| EventId := i; EventTime := ""; EventType := ty; Attributes := a |}.

(** What [applyScheduleActivity] and [completeWorkflowActivity] append. *)
Definition scheduled_events (run : string) (i : Z) (c : rawCommand) : list HistoryEvent :=
  [server_event i Durable.evtActivityScheduled
     (attrs [("seq", JNum (rc_Seq c)); ("activityId", JStr (wfActivityID run (rc_Seq c))); ("activityType", JStr (rc_ActivityType c));
             ("input", to_json (rc_Input c)); ("taskQueue", JStr (rc_TaskQueue c)); ("retryPolicy", to_json (rc_RetryPolicy c)); ("attempt", JNum 1)]);
   server_event (i + 1) evtActivityStarted
     (attrs [("seq", JNum (rc_Seq c)); ("activityId", JStr (wfActivityID run (rc_Seq c))); ("attempt", JNum 1)])].
Definition outcome_event (run : string) (i : Z) (c : rawCommand) (r : activity_report) : HistoryEvent :=
  match r with
  | ReportCompleted b =>
      server_event i Durable.evtActivityCompleted
        (attrs [("seq", JNum (rc_Seq c)); ("activityId", JStr (wfActivityID run (rc_Seq c))); ("result", to_json b)])
  | ReportFailed b =>
      server_event i Durable.evtActivityFailed
        (attrs [("seq", JNum (rc_Seq c)); ("activityId", JStr (wfActivityID run (rc_Seq c))); ("failure", to_json b)])
  end.

(** A run between two workflow tasks: its history, the activities whose outcome is
    not recorded, and the command that closed it. *)
Record run_state := { rn_history : list HistoryEvent; rn_open : list rawCommand; rn_end : option rawCommand }.

Definition next_id (st : run_state) : Z := Z.of_nat (length (rn_history st)) + 1.
Definition is_schedule (c : rawCommand) : bool := rc_Kind c =? commandKindScheduleActivity.

(** The server applies one command. *)
Definition apply_decision (run : string) (st : run_state) (c : rawCommand) : run_state :=
  match rn_end st with
  | Some _ => st
  | None =>
      if is_schedule c then
        {| rn_history := rn_history st ++ scheduled_events run (next_id st) c; rn_open := rn_open st ++ [c]; rn_end := None |}
      else {| rn_history := rn_history st; rn_open := rn_open st; rn_end := Some c |}
  end.

(** The outcome of one activity is recorded. *)
Definition record_outcome (run : string) (act : rawCommand → activity_report) (st : run_state) (c : rawCommand) : run_state :=
  {| rn_history := rn_history st ++ [outcome_event run (next_id st) c (act c)];
     rn_open := filter (λ c', rc_Seq c' ≠ rc_Seq c) (rn_open st); rn_end := rn_end st |}.

Section Rounds.
Context `{Ambient}.
Variable (w : workerImpl) (id run ty : string) (act : rawCommand → activity_report).

Definition round_task (st : run_state) : WorkflowTask :=
  {| tk_token := ""; tk_workflowID := id; tk_runID := run; tk_workflowType := ty; tk_history := RJson (to_json (rn_history st)) |}.

Definition decide_run (st : run_state) : run_state :=
  match dispatchWorkflowTask w (round_task st) with
  | None => st
  | Some cmds => foldl (apply_decision run) st cmds
  end.

(** One round: a decision, then the outcomes of some of the open activities. *)
Definition run_round (choose : list rawCommand → list rawCommand) (st : run_state) : run_state :=
  match rn_end st with
  | Some _ => st
  | None =>
      let st := decide_run st in
      match rn_end st with
      | Some _ => st
      | None => foldl (record_outcome run act) st (choose (rn_open st))
      end
  end.

Definition started (input : json) : run_state :=
  {| rn_history := [server_event 1 "WORKFLOW_EXECUTION_STARTED" 
                    (attrs [("workflowType", JStr ty); ("taskQueue", JStr (wk_taskQueue w)); ("input", input)])]; rn_open := []; rn_end := None |}.

Fixpoint rounds (choose : nat → list rawCommand → list rawCommand) (input : json) (n : nat) : run_state :=
  match n with
  | 0%nat => started input
  | S n => run_round (choose n) (rounds choose input n)
  end.

(** ** Loading the history *)

Definition fresh : workerEnv :=
  newWorkerEnv {| in_WorkflowID := id; in_RunID := run; in_WorkflowType := ty; in_TaskQueue := wk_taskQueue w;
                  in_Namespace := wk_namespace w; in_Attempt := 1 |} (wk_taskQueue w).
Definition loaded (h : list HistoryEvent) : workerEnv := loadHistory fresh (view_event <$> h).

Definition report_outcome (r : activity_report) : activityOutcome :=
  match r with
  | ReportCompleted b => {| oc_failed := false; oc_result := b; oc_failure := RNone |}
  | ReportFailed b => {| oc_failed := true; oc_result := RNone; oc_failure := b |}
  end.
Definition report_bytes (r : activity_report) : raw := match r with ReportCompleted b | ReportFailed b => b end.
Definition perform (c : rawCommand) : activityOutcome := report_outcome (act c).

Lemma load_event_rest e ev : ∃ r s, load_event e ev = with_replay r s e.
Proof.
  assert (∀ e, with_replay (e_activityResults e) (e_scheduledSeqs e) e = e) as Hid by by intros [].
  unfold load_event. destruct (hist_seq ev) as [seq|]; [|by exists (e_activityResults e), (e_scheduledSeqs e)].
  destruct (String.eqb _ _); [by eexists _, _|]. destruct (String.eqb _ _); [by eexists _, _|]. destruct (String.eqb _ _); [by eexists _, _|].
  by exists (e_activityResults e), (e_scheduledSeqs e).
Qed.
Lemma load_rest evs : ∀ e, ∃ r s, loadHistory e evs = with_replay r s e.
Proof.
  induction evs as [|ev evs IH]; intros e.
  - exists (e_activityResults e), (e_scheduledSeqs e). by destruct e.
  - cbn. destruct (load_event_rest e ev) as (r & s & ->). destruct (IH (with_replay r s e)) as (r' & s' & E). unfold loadHistory in E. rewrite E.
    by exists r', s'.
Qed.

Lemma attrs_head k v l : attrs ((k, v) :: l) !! k = Some v.
Proof. apply lookup_insert_eq. Qed.
Lemma attrs_next k k' v l : k ≠ k' → attrs ((k, v) :: l) !! k' = attrs l !! k'.
Proof. apply lookup_insert_ne. Qed.

Lemma seq_of_attr i ty' n l : 0 ≤ n < 2 ^ 53 → hist_seq (view_event (server_event i ty' (attrs (("seq", JNum n) :: l)))) = Some n.
Proof.
  intros Hn. unfold hist_seq. cbn [he_Attributes view_event server_event Attributes]. rewrite attrs_head. cbn [mbind option_bind].
  assert (of_json (A := spec_float) (JNum n) = Some (of_int64 n)) as ->; [by destruct n|]. cbn [mbind option_bind]. by rewrite to_of_int64.
Qed.

Lemma load_scheduled e i c : 0 ≤ rc_Seq c < 2 ^ 53 →
  foldl load_event e (view_event <$> scheduled_events run i c) = with_replay (e_activityResults e) ({[rc_Seq c]} ∪ e_scheduledSeqs e) e.
Proof.
  intros Hn. unfold scheduled_events. cbn [fmap list_fmap foldl]. unfold load_event at 2. rewrite seq_of_attr by done. cbn [he_EventType view_event server_event EventType].
  rewrite String.eqb_refl. unfold load_event. by rewrite seq_of_attr by done.
Qed.
Lemma load_outcome e i c r : 0 ≤ rc_Seq c < 2 ^ 53 → (∃ j, report_bytes r = RJson j) →
  load_event e (view_event (outcome_event run i c r)) = with_replay (<[rc_Seq c := report_outcome r]> (e_activityResults e)) (e_scheduledSeqs e) e.
Proof.
  intros Hn [j Hj]. unfold load_event. destruct r as [b|b]; cbn in Hj; subst b; cbn [outcome_event]; rewrite seq_of_attr by done;
    cbn [he_EventType view_event server_event EventType]; cbn [String.eqb Ascii.eqb Bool.eqb Durable.evtActivityCompleted Durable.evtActivityFailed
      evtActivityScheduled evtActivityCompleted evtActivityFailed]; unfold rawAttr; cbn [he_Attributes view_event server_event Attributes];
    by rewrite !attrs_next, attrs_head by done.
Qed.

Lemma loaded_app h h' : loaded (h ++ h') = foldl load_event (loaded h) (view_event <$> h').
Proof. unfold loaded, loadHistory. by rewrite fmap_app, foldl_app. Qed.

(** The input stays the one of the first event. *)
Definition begins (input : json) (h : list HistoryEvent) : Prop := ∃ rest, h = rn_history (started input) ++ rest.
Lemma begins_app input h h' : begins input h → begins input (h ++ h').
Proof. intros [rest ->]. exists (rest ++ h'). by rewrite app_assoc. Qed.
Lemma begins_input input h : begins input h → workflowInputFromHistory (view_event <$> h) = RJson input.
Proof.
  intros [rest ->]. cbn [rn_history started app fmap list_fmap workflowInputFromHistory he_EventType view_event server_event EventType].
  rewrite String.eqb_refl. unfold rawAttr. cbn [he_Attributes view_event server_event Attributes]. by rewrite !attrs_next, attrs_head by done.
Qed.

(** The server applies schedule commands. *)
Lemma apply_schedules cmds : ∀ st, Forall (λ c, is_schedule c = true ∧ 0 ≤ rc_Seq c < 2 ^ 53) cmds → rn_end st = None →
  let st' := foldl (apply_decision run) st cmds in
  rn_end st' = None ∧ rn_open st' = rn_open st ++ cmds ∧ (∀ input, begins input (rn_history st) → begins input (rn_history st')) ∧
  loaded (rn_history st') = with_replay (e_activityResults (loaded (rn_history st)))
    (e_scheduledSeqs (loaded (rn_history st)) ∪ list_to_set (rc_Seq <$> cmds)) (loaded (rn_history st)).
Proof.
  induction cmds as [|c cmds IH]; intros st Hall Hend.
  - cbn. rewrite app_nil_r, union_empty_r_L. split_and!; [done..|]. by destruct (loaded _).
  - apply Forall_cons in Hall as [[Hk Hn] Hall]. cbn [foldl].
    set (st1 := {| rn_history := rn_history st ++ scheduled_events run (next_id st) c; rn_open := rn_open st ++ [c]; rn_end := None |}).
    assert (apply_decision run st c = st1) as -> by (unfold apply_decision; by rewrite Hend, Hk). destruct (IH st1 Hall eq_refl) as (H1 & H2 & H3 & H4).
    cbn zeta. split_and!; [done| | |].
    + rewrite H2. cbn. by rewrite <-app_assoc.
    + intros input Hb. apply H3. by apply begins_app.
    + rewrite H4. unfold st1. cbn [rn_history]. rewrite loaded_app, load_scheduled by done. unfold with_replay. cbn.
      f_equal. set_solver.
Qed.

(** ** The invariant of a run *)

Variable (full : string) (params : list param) (body : list argv → prog) (args : list argv) (input : json).
Hypothesis Hreg : workflowFn (wk_registry w) ty = Some (Func full params body).
Hypothesis Hargs : decodeWorkflowArgs (Func full params body) (RJson input) = Some args.
Hypothesis Hstable : stable (body args).
Hypothesis Hjson : ∀ c, ∃ j, report_bytes (act c) = RJson j.

(** The reference: the function run once, each activity performed when it is called. *)
Definition reference : directEnv * outcome := direct perform (body args) fresh.
Definition calls : list (option rawCommand) := reference.1.2.
Hypothesis Hsmall : Z.of_nat (length calls) < 2 ^ 53.

Record sound_run (st : run_state) : Prop := {
  so_begins : begins input (rn_history st);
  so_results : consistent perform (e_activityResults (loaded (rn_history st))) calls;
  so_open : ∀ c, c ∈ rn_open st → ∃ n, rc_Seq c = Z.of_nat n ∧ calls !! n = Some (Some c) ∧ e_activityResults (loaded (rn_history st)) !! rc_Seq c = None;
  so_all : ∀ n, n ∈ e_scheduledSeqs (loaded (rn_history st)) → e_activityResults (loaded (rn_history st)) !! n = None → ∃ c, c ∈ rn_open st ∧ rc_Seq c = n }.

Lemma loaded_follows h : follows calls (loaded h) [] (fresh, []) [].
Proof.
  destruct (load_rest (view_event <$> h) fresh) as (r & s & E). unfold loaded. rewrite E. split; [done| |done|constructor|by intros ?%elem_of_nil].
  by exists r, s, 0, [].
Qed.
Lemma loaded_issued h : issued (e_activityResults (loaded h)) (e_scheduledSeqs (loaded h)) (loaded h).
Proof.
  destruct (load_rest (view_event <$> h) fresh) as (r & s & E). unfold loaded. rewrite E.
  split; cbn; [done|done|constructor|constructor|by rewrite union_empty_r_L].
Qed.

Lemma calls_range n c : calls !! n = Some (Some c) → Z.of_nat n < 2 ^ 53.
Proof. intros Hc%lookup_lt_Some. lia. Qed.

(** What the worker answers. *)
Lemma dispatch_exec h : begins input h → ∀ st, rn_history st = h →
  dispatchWorkflowTask w (round_task st) =
    let '(e, o) := exec (body args) [] (loaded h) in episode_commands (e_newCommands e) <$> end_episode o.
Proof.
  intros Hb st <-. unfold dispatchWorkflowTask. cbn [tk_workflowType tk_history round_task]. rewrite Hreg, parse_history, (begins_input input) by done.
  rewrite Hargs. unfold runWorkflowEpisode. change (task_env w (round_task st) (view_event <$> rn_history st)) with (loaded (rn_history st)).
  destruct (exec (body args) [] (loaded (rn_history st))) as [e o]. done.
Qed.

(** The command that closes a run. *)
Definition closing (o : outcome) : option rawCommand :=
  ep ← end_episode o; match ep with EpisodeWaits => None | EpisodeError e => Some (failCommand e) | EpisodeResult r => Some (completeCommand r) end.

Lemma closing_commands o cmds c : o ≠ EpisodeBlocked → closing o = Some c →
  episode_commands cmds <$> end_episode o = Some (cmds ++ [c]) ∧ is_schedule c = false.
Proof.
  unfold closing. destruct o as [outs|text| |]; cbn; [|by intros _ [= <-]|done|done].
  destruct (invokeFunc outs) as [r [e|]]; by intros _ [= <-].
Qed.

(** A decision ends the run as the reference does, or leaves an activity to wait for. *)
Lemma decide_sound st c : sound_run st → rn_end st = None → closing reference.2 = Some c →
  let st' := decide_run st in
  rn_end st' = Some c ∨
  rn_end st' = None ∧ sound_run st' ∧ rn_open st' ≠ [] ∧ e_activityResults (loaded (rn_history st')) = e_activityResults (loaded (rn_history st)).
Proof.
  intros [Hb Hr Ho Ha] Hend Hclose. cbn zeta. unfold decide_run. rewrite (dispatch_exec (rn_history st) Hb st eq_refl).
  pose proof (exec_follows perform calls (body args) Hstable [] _ [] (fresh, []) (loaded_follows _) Hr eq_refl) as Hag.
  pose proof (exec_issued _ _ (body args) [] _ (loaded_issued (rn_history st))) as His.
  destruct (exec (body args) [] (loaded (rn_history st))) as [e o]. destruct Hag as (Hout & Hres & Hcmd). destruct His as [I1 I2 I3 I4 I5].
  cbn [fst snd] in *. change ((exec (body args) [] (fresh, [])).2) with reference.2 in Hout.
  assert (∀ c, c ∈ e_newCommands e → ∃ n, rc_Seq c = Z.of_nat n ∧ calls !! n = Some (Some c)) as Hnew.
  { intros c' Hc'. destruct (Hcmd c' Hc') as [Hn|Hn]; [|done]. destruct (load_rest (view_event <$> rn_history st) fresh) as (r & s & E).
    unfold loaded in Hn. rewrite E in Hn. by apply elem_of_nil in Hn. }
  assert (Forall (λ c, is_schedule c = true ∧ 0 ≤ rc_Seq c < 2 ^ 53) (e_newCommands e)) as Hsched.
  { apply Forall_forall. intros c' Hc'. rewrite Forall_forall in I4. destruct (I4 c' Hc') as (_ & _ & _ & Hk). unfold is_schedule. rewrite Hk.
    destruct (Hnew c' Hc') as (n & -> & Hn). split; [done|]. pose proof (calls_range _ _ Hn). lia. }
  destruct (apply_schedules _ st Hsched Hend) as (E1 & E2 & E3 & E4).
  destruct Hout as [[-> Hnb]|[-> Hwait]].
  - destruct (closing_commands _ (e_newCommands e) c Hnb Hclose) as [-> Hns]. rewrite foldl_app. cbn [foldl]. left.
    unfold apply_decision at 1. by rewrite E1, Hns.
  - cbn [end_episode fmap option_fmap option_map episode_commands]. right. split; [done|].
    assert (sound_run (foldl (apply_decision run) st (e_newCommands e))) as Hs'.
    { split; [by apply E3| | |]; rewrite E4; cbn; [done| |].
      - intros c'. rewrite E2. intros [Hc'|Hc']%elem_of_app; [by apply Ho|]. destruct (Hnew c' Hc') as (n & Hn & Hcn). exists n. split_and!; [done..|].
        rewrite Forall_forall in I4. by destruct (I4 c' Hc') as (_ & _ & Hnone & _).
      - intros n. rewrite E2. intros [Hn|Hn]%elem_of_union Hnone.
        + destruct (Ha n Hn Hnone) as (c' & Hc' & <-). exists c'. split; [|done]. apply elem_of_app. by left.
        + apply elem_of_list_to_set, list_elem_of_fmap in Hn as (c' & -> & Hc'). exists c'. split; [|done]. apply elem_of_app. by right. }
    split_and!; [done| |by rewrite E4]. destruct Hwait as (n & c' & Hn & Hnone & Hin). rewrite I5 in Hin. rewrite I1 in Hnone.
    destruct Hs' as [_ _ _ Ha']. rewrite E4 in Ha'. cbn in Ha'. destruct (Ha' _ Hin Hnone) as (c'' & Hc'' & _). by intros E; rewrite E in Hc''; apply elem_of_nil in Hc''.
Qed.

(** Recording the outcome of an open activity. *)
Lemma record_sound st c : sound_run st → c ∈ rn_open st →
  sound_run (record_outcome run act st c) ∧
  size (e_activityResults (loaded (rn_history (record_outcome run act st c)))) = S (size (e_activityResults (loaded (rn_history st)))).
Proof.
  intros [Hb Hr Ho Ha] Hc. destruct (Ho c Hc) as (n & Hn & Hcn & Hnone). pose proof (calls_range _ _ Hcn).
  assert (loaded (rn_history (record_outcome run act st c)) =
    with_replay (<[rc_Seq c := perform c]> (e_activityResults (loaded (rn_history st)))) (e_scheduledSeqs (loaded (rn_history st))) (loaded (rn_history st))) as E.
  { cbn [rn_history record_outcome]. rewrite loaded_app. cbn [fmap list_fmap foldl]. apply load_outcome; [lia|apply Hjson]. }
  rewrite E. cbn [e_activityResults with_replay]. split; [|by apply map_size_insert_None].
  split; [by apply begins_app| | |]; rewrite E; cbn [e_activityResults e_scheduledSeqs with_replay].
  - intros m o. rewrite lookup_insert_Some. intros [[<- <-]|[_ Hm]]; [|by apply Hr]. split; [lia|]. exists c. by rewrite Hn, Nat2Z.id.
  - intros c'. cbn [rn_open record_outcome]. intros [Hne Hc']%list_elem_of_filter. destruct (Ho c' Hc') as (m & Hm & Hcm & Hnm).
    exists m. split_and!; [done..|]. by rewrite lookup_insert_ne by congruence.
  - intros m Hm. rewrite lookup_insert_None. intros [Hm' Hne]. destruct (Ha m Hm Hm') as (c' & Hc' & <-). exists c'. split; [|done].
    cbn [rn_open record_outcome]. apply list_elem_of_filter. by split.
Qed.

Lemma records_sound l : ∀ st, sound_run st → (∀ c, c ∈ l → c ∈ rn_open st) → NoDup (rc_Seq <$> l) →
  let st' := foldl (record_outcome run act) st l in
  sound_run st' ∧ rn_end st' = rn_end st ∧
  size (e_activityResults (loaded (rn_history st'))) = (length l + size (e_activityResults (loaded (rn_history st))))%nat.
Proof.
  induction l as [|c l IH]; intros st Hst Hin Hnd; [done|]. cbn [foldl]. apply NoDup_cons in Hnd as [Hc Hnd].
  destruct (record_sound st c Hst) as [H1 H2]; [apply Hin; by left|]. destruct (IH (record_outcome run act st c) H1) as (H3 & H4 & H5); [|done|].
  - intros c' Hc'. cbn [rn_open record_outcome]. apply list_elem_of_filter. split; [|apply Hin; by right].
    intros E. apply Hc. rewrite <-E. by apply list_elem_of_fmap_2.
  - split_and!; [done|done|]. rewrite H5, H2. cbn. lia.
Qed.

Lemma results_bounded st : sound_run st → (size (e_activityResults (loaded (rn_history st))) ≤ length calls)%nat.
Proof.
  intros [_ Hr _ _]. set (m := e_activityResults _) in *. clearbody m. rewrite <-size_dom.
  transitivity (size (list_to_set (Z.of_nat <$> seq 0 (length calls)) : gset Z)).
  - apply subseteq_size. intros n (o & Ho)%elem_of_dom. destruct (Hr n o Ho) as (Hn & c & Hc & _). apply elem_of_list_to_set, list_elem_of_fmap.
    exists (Z.to_nat n). split; [by rewrite Z2Nat.id|]. apply elem_of_seq. apply lookup_lt_Some in Hc. lia.
  - rewrite size_list_to_set; [by rewrite length_fmap, length_seq|]. apply NoDup_fmap; [apply _|]. apply NoDup_seq.
Qed.

(** The environment performs activities in any order, at least one per round. *)
Definition fair (choose : nat → list rawCommand → list rawCommand) : Prop :=
  ∀ n l, (∀ c, c ∈ choose n l → c ∈ l) ∧ NoDup (rc_Seq <$> choose n l) ∧ (l ≠ [] → choose n l ≠ []).

Lemma loaded_started : loaded (rn_history (started input)) = fresh.
Proof.
  unfold loaded, loadHistory. cbn [rn_history started fmap list_fmap foldl]. unfold load_event, hist_seq.
  cbn [he_Attributes view_event server_event Attributes]. by rewrite !attrs_next by done.
Qed.
Lemma started_sound : sound_run (started input).
Proof.
  split; [by exists []| | |]; rewrite ?loaded_started; cbn [rn_open started].
  - intros n o Hn. change ((∅ : gmap Z activityOutcome) !! n = Some o) in Hn. by rewrite lookup_empty in Hn.
  - by intros c ?%elem_of_nil.
  - intros n Hn. set_solver.
Qed.

Lemma rounds_progress choose c : fair choose → closing reference.2 = Some c → ∀ n,
  rn_end (rounds choose input n) = Some c ∨
  rn_end (rounds choose input n) = None ∧ sound_run (rounds choose input n) ∧
  (n ≤ size (e_activityResults (loaded (rn_history (rounds choose input n)))))%nat.
Proof.
  intros Hfair Hclose. induction n as [|n IH].
  { right. split_and!; [done|apply started_sound|lia]. }
  cbn [rounds]. unfold run_round. destruct IH as [E|(E & Hst & Hsize)]; [left; by rewrite E|]. rewrite E.
  destruct (decide_sound _ c Hst E Hclose) as [E'|(E' & Hst' & Hopen & Hsame)]; [left; by rewrite E'|]. rewrite E'. right.
  destruct (Hfair n (rn_open (decide_run (rounds choose input n)))) as (F1 & F2 & F3).
  destruct (records_sound _ _ Hst' F1 F2) as (G1 & G2 & G3). split_and!; [by rewrite G2|done|]. rewrite G3, Hsame.
  specialize (F3 Hopen). destruct (choose n _); [done|]. cbn. lia.
Qed.

End Rounds.

(** ** Properties *)



(** No sequence number is used twice. Whatever the function, the history and
    the surrounding process, the answer to a workflow task is a run of schedule
    commands with strictly increasing numbers, none of which the history already
    scheduled or resolved, followed by at most one command that closes the run. *)
Theorem commands_fresh `{Ambient} w task cmds :
  dispatchWorkflowTask w task = Some cmds →
  ∃ new last, cmds = new ++ last ∧ StronglySorted Z.lt (rc_Seq <$> new) ∧
    (length last ≤ 1)%nat ∧ Forall (λ c, is_schedule c = false) last ∧
    ∀ events, parseHistory (tk_history task) = inr events →
      let e := task_env w task events in
      Forall (λ c, is_schedule c = true ∧ (rc_Seq c ∉ e_scheduledSeqs e) ∧ e_activityResults e !! rc_Seq c = None) new.
Proof.
  assert (∀ c, is_schedule c = false → [c] = [] ++ [c] ∧ StronglySorted Z.lt (rc_Seq <$> @nil rawCommand) ∧ (length [c] ≤ 1)%nat ∧ Forall (λ c, is_schedule c = false) [c]) as Hone.
  { intros c Hc. split_and!; [done|constructor|done|by repeat constructor]. }
  unfold dispatchWorkflowTask. destruct (workflowFn _ _) as [fn|].
  2: { intros [= <-]. exists [], []. split_and!; [done|constructor|cbn; lia|constructor|constructor]. }
  destruct (parseHistory (tk_history task)) as [err|events].
  { intros [= <-]. destruct (Hone (failCommand err)) as (? & ? & ? & ?); [done|]. exists [], [failCommand err]. by split_and!. }
  destruct (decodeWorkflowArgs fn _) as [args|], fn as [|full params body].
  2: { unfold runWorkflowEpisode. pose proof (exec_issued (e_activityResults (task_env w task events)) (e_scheduledSeqs (task_env w task events)) (body args) [] (task_env w task events)) as His.
    destruct (exec (body args) [] (task_env w task events)) as [e o]. cbn [drainCommands]. destruct His as [_ _ I3 I4 _].
    { unfold task_env. destruct (load_rest events (newWorkerEnv {| in_WorkflowID := tk_workflowID task; in_RunID := tk_runID task; in_WorkflowType := tk_workflowType task;
        in_TaskQueue := wk_taskQueue w; in_Namespace := wk_namespace w; in_Attempt := 1 |} (wk_taskQueue w))) as (r & s & ->).
      split; cbn; [done|done|constructor|constructor|by rewrite union_empty_r_L]. }
    destruct (end_episode o) as [ep|]; [|done]. cbn. intros [= <-].
    exists (e_newCommands e), (match ep with EpisodeWaits => [] | EpisodeError er => [failCommand er] | EpisodeResult r => [completeCommand r] end).
    split_and!; [by destruct ep; cbn; rewrite ?app_nil_r|done|by destruct ep; cbn; lia|by destruct ep; repeat constructor|].
    intros events' [= <-]. eapply Forall_impl; [exact I4|]. intros c (_ & H1 & H2 & H3). unfold is_schedule. by rewrite H3. }
  all: intros [= <-]; destruct (Hone (failCommand args_error)) as (? & ? & ? & ?); [done|]; exists [], [failCommand args_error]; by split_and!.
Qed.

(** ** Activities *)

(** An activity worker always reports, and always JSON. *)
Lemma activity_reports_json w task : ∃ j, report_bytes (dispatchActivityTask w task) = RJson j.
Proof.
  unfold dispatchActivityTask, report_result, encodeFailure, Encode. destruct (activityFn _ _) as [fn|]; [|by eexists].
  destruct (decodeActivityArgs fn (ak_input task)) as [args|], fn as [|full params body]; try by eexists.
  destruct (body args) as [outs|text]; [|by eexists]. destruct (invokeFunc outs) as [[| |] [e|]]; by eexists.
Qed.

(** Why an activity cannot be performed, whatever the attempt. *)
Definition hopeless (w : workerImpl) (task : ActivityTask) : Prop :=
  match activityFn (wk_registry w) (ak_activityType task) with
  | None | Some NotFunc => True
  | Some (Func full params body) =>
      match decodeActivityArgs (Func full params body) (ak_input task) with
      | None => True
      | Some args => match body args with
                     | ActPanics _ => True
                     | ActReturns outs => invokeFunc outs = (AnyBad, None)
                     end
      end
  end.

(** A hopeless activity is not retried. When the type is not registered, the
    input does not decode, the function panics or its result does not marshal, the
    worker reports a failure that the server decodes as non-retryable under every
    policy and at every attempt. *)
Theorem hopeless_not_retried w task p n : hopeless w task →
  ∃ b, dispatchActivityTask w task = ReportFailed b ∧ ShouldRetry p (Some (Decode b)) n = false.
Proof.
  assert (∀ m c, ShouldRetry p (Some (Decode (encodeFailure (Some (NewError m c true []))))) n = false) as Hno.
  { intros m c. unfold encodeFailure. rewrite Decode_Encode. unfold ShouldRetry. destruct (_ && _); [done|]. cbn. done. }
  unfold hopeless, dispatchActivityTask. destruct (activityFn _ _) as [[|full params body]|]; [intros _; eexists; split; [|apply Hno]; done| |intros _; eexists; split; [|apply Hno]; done].
  destruct (decodeActivityArgs _ _) as [args|]; [|intros _; eexists; split; [|apply Hno]; done].
  destruct (body args) as [outs|text]; [|intros _; eexists; split; [|apply Hno]; done].
  unfold report_result. intros ->. eexists; split; [|apply Hno]; done.
Qed.

(** ** A run, evaluated *)

Module OrderDemo.

#[local] Instance quiet : Ambient := {| amb_now _ := 0; amb_value _ := AnyNil; amb_race _ := false |}.

Definition anything : json → bool := λ _, true.
Definition ctx_param : param := {| pm_context := true; pm_accepts := anything |}.
Definition any_param : param := {| pm_context := false; pm_accepts := anything |}.

(** Charge and ship in parallel, then send a receipt for what the charge answered. *)
Definition order (args : list argv) : prog :=
  let ctx := Some (WithActivityOptions [] no_options) in
  ExecuteActivity ctx (RefFunc "shop.Charge") [AnyJson (JNum 5)] (λ charge,
  ExecuteActivity ctx (RefString "ship") [] (λ ship,
  PGet ship None (λ err _,
  PGet charge (Some anything) (λ err' v,
  ExecuteActivity ctx (RefString "receipt") [AnyJson (default JNull v)] (λ receipt,
  PGet receipt (Some anything) (λ err'' r,
  PReturn [OutVal (AnyJson (default JNull r)); OutErr err'']))))))%nat.

Definition charge_fn : gofn activity_end := Func "shop.Charge" [ctx_param; any_param] (λ _, ActReturns [OutVal (AnyJson (JStr "tx-1")); OutErr None]).
Definition ship_fn : gofn activity_end := Func "shop.ship" [ctx_param] (λ _, ActReturns [OutErr (Some (EPlain "no stock"))]).
Definition receipt_fn : gofn activity_end :=
  Func "shop.receipt" [ctx_param; any_param] (λ args, ActReturns [OutVal (match args with [_; ArgJson j] => AnyJson j | _ => AnyNil end)]).
Definition order_fn : gofn prog := Func "shop.Order" [ctx_param; any_param] order.

Definition shop : registry :=
  default newRegistry (r ← registerWorkflow (Some order_fn) "" false newRegistry; r ← registerActivity (Some charge_fn) "" r;
    r ← registerActivity (Some ship_fn) "" r; registerActivity (Some receipt_fn) "" r).
Definition shop_worker : workerImpl := {| wk_taskQueue := "default"; wk_namespace := "default"; wk_registry := shop |}.

(** The activity worker of the same process. *)
Definition activity_task (c : rawCommand) : ActivityTask :=
  {| ak_token := ""; ak_workflowID := "order"; ak_runID := "r1"; ak_activityID := ""; ak_activityType := rc_ActivityType c;
     ak_input := rc_Input c; ak_scheduledTimeMs := 0; ak_startToCloseTimeoutMs := rc_StartToCloseMs c; ak_heartbeatTimeoutMs := rc_HeartbeatMs c |}.
Definition shop_act (c : rawCommand) : activity_report := dispatchActivityTask shop_worker (activity_task c).

(** The newest activity first, one per round. *)
Definition last_first (_ : nat) (l : list rawCommand) : list rawCommand := match last l with Some c => [c] | None => [] end.
Lemma last_first_fair : fair last_first.
Proof.
  intros n l. unfold last_first. destruct (last l) as [c|] eqn:E.
  - split_and!; [|apply NoDup_singleton|done]. intros c' ->%list_elem_of_singleton. by apply last_Some_elem_of.
  - apply last_None in E as ->. split_and!; [done|constructor|done].
Qed.

Definition order_input : json := JArr [JNum 7].
Definition order_args : list argv := [ArgContext; ArgJson (JNum 7)].
Lemma order_stable : stable (order order_args).
Proof. repeat intros ?; exact I. Qed.

Definition receipt_cmd : rawCommand := completeCommand (AnyJson (JStr "tx-1")).


(** After the first decision and the outcome of the shipment. *)
Definition one_round : run_state := rounds shop_worker "order" "r1" "Order" shop_act last_first order_input 1.


Lemma commands_fresh_witness :
  ∃ new last, default [] (dispatchWorkflowTask shop_worker (round_task "order" "r1" "Order" (started shop_worker "Order" order_input))) = new ++ last ∧
    StronglySorted Z.lt (rc_Seq <$> new) ∧ (length last ≤ 1)%nat ∧ Forall (λ c, is_schedule c = false) last ∧
    ∀ events, parseHistory (tk_history (round_task "order" "r1" "Order" (started shop_worker "Order" order_input))) = inr events →
      let e := task_env shop_worker (round_task "order" "r1" "Order" (started shop_worker "Order" order_input)) events in
      Forall (λ c, is_schedule c = true ∧ (rc_Seq c ∉ e_scheduledSeqs e) ∧ e_activityResults e !! rc_Seq c = None) new.
Proof.
  apply (commands_fresh shop_worker (round_task "order" "r1" "Order" (started shop_worker "Order" order_input))). by vm_compute.
Defined.

Definition refund_task : ActivityTask := activity_task (failCommand (EPlain "")).
Lemma hopeless_not_retried_witness :
  ∃ b, dispatchActivityTask shop_worker refund_task = ReportFailed b ∧ ShouldRetry DefaultRetryPolicy (Some (Decode b)) 1 = false.
Proof. apply (hopeless_not_retried shop_worker refund_task DefaultRetryPolicy 1). by vm_compute. Defined.

End OrderDemo.

(** ** What replay does not cover *)

Section Limits.
Context `{Ambient}.
Variable (w : workerImpl) (id run ty : string) (full : string) (params : list param) (body : list argv → prog) (args : list argv) (input : json).
Hypothesis Hreg : workflowFn (wk_registry w) ty = Some (Func full params body).
Hypothesis Hargs : decodeWorkflowArgs (Func full params body) (RJson input) = Some args.

Lemma loaded_fields h : e_nextSeq (loaded w id run ty h) = 0 ∧ e_root_err (loaded w id run ty h) = None ∧ e_signals (loaded w id run ty h) = ∅.
Proof. unfold loaded. destruct (load_rest (view_event <$> h) (fresh w id run ty)) as (r & s & ->). done. Qed.

(** A selector over an activity that is not finished, in any history. *)
Lemma selector_parks c a l k st :
  begins w ty input (rn_history st) → body args = ExecuteActivity (Some c) a l (λ h, PSelect [CaseFuture h] false (k h)) →
  a ≠ RefNil → ActivityName a ≠ "" → is_Some (marshal_args l) → e_activityResults (loaded w id run ty (rn_history st)) !! 0 = None →
  dispatchWorkflowTask w (round_task id run ty st) = None.
Proof using Hreg Hargs.
  intros Hb Hbody Ha Hname [j Hj] Hnone. rewrite (dispatch_exec w id run ty full params body args input Hreg Hargs _ Hb st eq_refl), Hbody.
  destruct (loaded_fields (rn_history st)) as (Hn & Hroot & _). set (e := loaded w id run ty (rn_history st)) in *. clearbody e.
  assert (∃ e', env_ExecuteActivity (activityOptions c) a l e = (e', Blocked) ∧ e_root_err e' = None) as (e' & He' & Hroot').
  { unfold env_ExecuteActivity. cbn [e_activityResults with_seq e_scheduledSeqs]. rewrite Hn, Hnone, (proj2 (String.eqb_neq _ _) Hname), Hj.
    case_bool_decide; by eexists. }
  assert (exec (ExecuteActivity (Some c) a l (λ h, PSelect [CaseFuture h] false (k h))) [] e = (e', Parked)) as E; [|by rewrite E].
  destruct a; [done|..]; cbn [ExecuteActivity exec]; cbn [ce_ExecuteActivity worker_env]; rewrite He'; cbn; by rewrite Hroot'.
Qed.

(** A signal that was delivered to the run, or not. *)
Lemma receive_parks name k st : begins w ty input (rn_history st) → body args = PReceive name k →
  dispatchWorkflowTask w (round_task id run ty st) = None.
Proof using Hreg Hargs.
  intros Hb Hbody. rewrite (dispatch_exec w id run ty full params body args input Hreg Hargs _ Hb st eq_refl), Hbody.
  destruct (loaded_fields (rn_history st)) as (_ & Hroot & Hsig). set (e := loaded w id run ty (rn_history st)) in *. clearbody e.
  cbn [exec]. unfold receive_signal. cbn. unfold env_GetSignalChannel. rewrite Hsig, lookup_empty. cbn. by rewrite Hroot.
Qed.

End Limits.


Module LimitsDemo.
Import OrderDemo.
#[local] Existing Instance quiet.

Definition one_fn (body : list argv → prog) : workerImpl :=
  {| wk_taskQueue := "default"; wk_namespace := "default";
     wk_registry := {| r_workflows := {["F" := Func "m.F" [ctx_param] body]}; r_activities := ∅ |} |}.

(** The usual idiom: wait for an activity with a selector. *)
Definition selecting (_ : list argv) : prog :=
  ExecuteActivity (Some []) (RefString "charge") [] (λ h, PSelect [CaseFuture h] false (λ _, PGet h None (λ err _, PReturn [OutErr err]))).


(** A selector that did return depends on what the history holds by then: the same
    number names two activities. *)
Definition race_fn (_ : list argv) : prog :=
  ExecuteActivity (Some []) (RefString "slow") [] (λ slow,
  ExecuteActivity (Some []) (RefString "fast") [] (λ fast,
  ExecuteActivity (Some []) (RefString "tick") [] (λ tick,
  PGet tick None (λ _ _,
  PSelect [CaseFuture slow; CaseFuture fast] false (λ f,
  ExecuteActivity (Some []) (RefString (match f with FiredFuture 0 => "after-slow" | _ => "after-fast" end)) [] (λ h,
  PGet h None (λ err _, PReturn [OutErr err]))))))).
Definition done_event (n : Z) : HistoryEvent :=
  server_event 0 Durable.evtActivityCompleted (attrs [("seq", JNum n); ("activityId", JStr ""); ("result", JNull)]).
Definition history_of (ns : list Z) : run_state :=
  {| rn_history := rn_history (started (one_fn race_fn) "F" JNull) ++ (done_event <$> ns); rn_open := []; rn_end := None |}.
Definition fourth (ns : list Z) : option string :=
  cmds ← dispatchWorkflowTask (one_fn race_fn) (round_task "wf" "r1" "F" (history_of ns));
  c ← list_find (λ c, rc_Seq c = 3) cmds; Some (rc_ActivityType c.2).

Example selector_replay_diverges : fourth [2; 1] = Some "after-fast" ∧ fourth [2; 1; 0] = Some "after-slow".
Proof. by vm_compute. Qed.

(** [SideEffect] runs again at every task: the value it gave before is gone. *)
Definition draw_fn (_ : list argv) : prog :=
  SideEffect (Some []) true (λ h, PGet h (Some anything) (λ _ v,
  ExecuteActivity (Some []) (RefString (match v with Some (JStr s) => s | _ => "none" end)) [] (λ a, PGet a None (λ err _, PReturn [OutErr err])))).
Definition drawing (s : string) : Ambient := {| amb_now _ := 0; amb_value _ := AnyJson (JStr s); amb_race _ := false |}.
Definition first_type (s : string) : option string :=
  cmds ← dispatchWorkflowTask (H := drawing s) (one_fn draw_fn) (round_task "wf" "r1" "F" (started (one_fn draw_fn) "F" JNull));
  c ← head cmds; Some (rc_ActivityType c).
Example side_effect_runs_again : first_type "a" = Some "a" ∧ first_type "b" = Some "b".
Proof. by vm_compute. Qed.

End LimitsDemo.
