(* ===== verification/Stub.v ===== *)
(** The test environment: [StubEnv] of [pkg/sdk/workflow/stub.go], the other
    implementation of [CoroutineEnv]. Tests queue responses per activity name; the
    stub settles each call at once with the next of them. The last theorem says what
    such a test proves: the function behaves the same in the reference execution in
    which its activities end with those responses, hence under replay. *)

From Corelib Require Import SpecFloat.
From Stdlib Require Import Ascii ZArith Lia.
From stdpp Require Import prelude strings gmap.
From S2P Require Import Prelude GoStrings Json Types EngineTypes GoTime Temporal Channel Coroutine Worker ReplaySpec.

Local Open Scope Z_scope.

Record stubActivityResponse := { sr_value : goany; sr_err : option goerror }.
Record stubChildWorkflowResponse := { sc_value : goany; sc_err : option goerror; sc_workflowID : string; sc_runID : string }.

Record StubEnv := {
  st_clock : Z;
  st_autoAdvance : Z;
  st_activities : gmap string (list stubActivityResponse);
  st_childWorkflows : gmap string (list stubChildWorkflowResponse);
  st_signals : gmap string chanImpl;
  st_root_err : option goerror;
  st_info : Info;
  st_versions : gmap string Z;
  st_sideEffects : list (goerror + raw);
  st_sideEffectIdx : nat;
  st_mutables : gmap string raw;
  st_upserts : list (gmap string json);
  st_draws : nat }.

Definition stub_info : Info :=
  {| in_WorkflowID := "stub-wf"; in_RunID := "stub-run"; in_WorkflowType := "StubWorkflow"; in_TaskQueue := "stub-queue";
     in_Namespace := "default"; in_Attempt := 1 |}.
(** [time.Date(2026, 1, 1, ...)], in nanoseconds. *)
Definition stub_epoch : Z := 1767225600 * Second.
Definition NewStubEnv : StubEnv :=
  {| st_clock := stub_epoch; st_autoAdvance := 0; st_activities := ∅; st_childWorkflows := ∅; st_signals := ∅; st_root_err := None;
     st_info := stub_info; st_versions := ∅; st_sideEffects := []; st_sideEffectIdx := 0; st_mutables := ∅; st_upserts := []; st_draws := 0 |}.

(** The fields an operation changes. *)
Definition sw_clock (c : Z) (s : StubEnv) : StubEnv :=
  {| st_clock := c; st_autoAdvance := st_autoAdvance s; st_activities := st_activities s; st_childWorkflows := st_childWorkflows s;
     st_signals := st_signals s; st_root_err := st_root_err s; st_info := st_info s; st_versions := st_versions s; st_sideEffects := st_sideEffects s;
     st_sideEffectIdx := st_sideEffectIdx s; st_mutables := st_mutables s; st_upserts := st_upserts s; st_draws := st_draws s |}.
Definition sw_advance (d : Z) (s : StubEnv) : StubEnv :=
  {| st_clock := st_clock s; st_autoAdvance := d; st_activities := st_activities s; st_childWorkflows := st_childWorkflows s;
     st_signals := st_signals s; st_root_err := st_root_err s; st_info := st_info s; st_versions := st_versions s; st_sideEffects := st_sideEffects s;
     st_sideEffectIdx := st_sideEffectIdx s; st_mutables := st_mutables s; st_upserts := st_upserts s; st_draws := st_draws s |}.
Definition sw_responses (a : gmap string (list stubActivityResponse)) (c : gmap string (list stubChildWorkflowResponse)) (s : StubEnv) : StubEnv :=
  {| st_clock := st_clock s; st_autoAdvance := st_autoAdvance s; st_activities := a; st_childWorkflows := c;
     st_signals := st_signals s; st_root_err := st_root_err s; st_info := st_info s; st_versions := st_versions s; st_sideEffects := st_sideEffects s;
     st_sideEffectIdx := st_sideEffectIdx s; st_mutables := st_mutables s; st_upserts := st_upserts s; st_draws := st_draws s |}.
Definition sw_signals (m : gmap string chanImpl) (s : StubEnv) : StubEnv :=
  {| st_clock := st_clock s; st_autoAdvance := st_autoAdvance s; st_activities := st_activities s; st_childWorkflows := st_childWorkflows s;
     st_signals := m; st_root_err := st_root_err s; st_info := st_info s; st_versions := st_versions s; st_sideEffects := st_sideEffects s;
     st_sideEffectIdx := st_sideEffectIdx s; st_mutables := st_mutables s; st_upserts := st_upserts s; st_draws := st_draws s |}.
Definition sw_root (e : option goerror) (i : Info) (s : StubEnv) : StubEnv :=
  {| st_clock := st_clock s; st_autoAdvance := st_autoAdvance s; st_activities := st_activities s; st_childWorkflows := st_childWorkflows s;
     st_signals := st_signals s; st_root_err := e; st_info := i; st_versions := st_versions s; st_sideEffects := st_sideEffects s;
     st_sideEffectIdx := st_sideEffectIdx s; st_mutables := st_mutables s; st_upserts := st_upserts s; st_draws := st_draws s |}.
Definition sw_versions (m : gmap string Z) (s : StubEnv) : StubEnv :=
  {| st_clock := st_clock s; st_autoAdvance := st_autoAdvance s; st_activities := st_activities s; st_childWorkflows := st_childWorkflows s;
     st_signals := st_signals s; st_root_err := st_root_err s; st_info := st_info s; st_versions := m; st_sideEffects := st_sideEffects s;
     st_sideEffectIdx := st_sideEffectIdx s; st_mutables := st_mutables s; st_upserts := st_upserts s; st_draws := st_draws s |}.
Definition sw_effects (l : list (goerror + raw)) (i : nat) (m : gmap string raw) (draws : nat) (s : StubEnv) : StubEnv :=
  {| st_clock := st_clock s; st_autoAdvance := st_autoAdvance s; st_activities := st_activities s; st_childWorkflows := st_childWorkflows s;
     st_signals := st_signals s; st_root_err := st_root_err s; st_info := st_info s; st_versions := st_versions s; st_sideEffects := l;
     st_sideEffectIdx := i; st_mutables := m; st_upserts := st_upserts s; st_draws := draws |}.
Definition sw_upserts (l : list (gmap string json)) (s : StubEnv) : StubEnv :=
  {| st_clock := st_clock s; st_autoAdvance := st_autoAdvance s; st_activities := st_activities s; st_childWorkflows := st_childWorkflows s;
     st_signals := st_signals s; st_root_err := st_root_err s; st_info := st_info s; st_versions := st_versions s; st_sideEffects := st_sideEffects s;
     st_sideEffectIdx := st_sideEffectIdx s; st_mutables := st_mutables s; st_upserts := l; st_draws := st_draws s |}.

(** ** Setting up a test *)

(** [OnActivity(a).Return(v, err)]. *)
Definition OnActivity_Return (a : goref) (v : goany) (err : option goerror) (s : StubEnv) : StubEnv :=
  let name := ActivityName a in
  sw_responses (<[name := default [] (st_activities s !! name) ++ [{| sr_value := v; sr_err := err |}]]> (st_activities s)) (st_childWorkflows s) s.

(** [OnChildWorkflow(c).Return(v, err)]. *)
Definition OnChildWorkflow_Return (a : goref) (v : goany) (err : option goerror) (s : StubEnv) : StubEnv :=
  let name := ActivityName a in
  let q := default [] (st_childWorkflows s !! name) in
  let idx := itoa (Z.of_nat (length q)) in
  sw_responses (st_activities s)
    (<[name := q ++ [{| sc_value := v; sc_err := err; sc_workflowID := name +:+ "-stub-" +:+ idx; sc_runID := name +:+ "-run-" +:+ idx |}]]>
       (st_childWorkflows s)) s.

Definition stub_GetSignalChannel (name : string) (s : StubEnv) : StubEnv * chanImpl :=
  match st_signals s !! name with
  | Some ch => (s, ch)
  | None => let ch := newChan name 1024 in (sw_signals (<[name := ch]> (st_signals s)) s, ch)
  end.
Definition SignalAsync (name : string) (v : goany) (s : StubEnv) : StubEnv :=
  let '(s, ch) := stub_GetSignalChannel name s in
  match EncodePayload v with
  | inl _ => s
  | inr payload => sw_signals (<[name := (signal_async payload ch).1]> (st_signals s)) s
  end.
Definition AdvanceClock (d : Z) (s : StubEnv) : StubEnv := sw_clock (st_clock s + d) s.
Definition SetAutoAdvance (d : Z) (s : StubEnv) : StubEnv := sw_advance d s.
Definition stub_Cancel (s : StubEnv) : StubEnv :=
  sw_root (Some (default (NewCanceledError []) (st_root_err s))) (st_info s) s.
Definition SetInfo (i : Info) (s : StubEnv) : StubEnv := sw_root (st_root_err s) i s.

(** ** The environment *)

Definition stub_Now (s : StubEnv) : StubEnv * Z :=
  let s := if 0 <? st_autoAdvance s then sw_clock (st_clock s + st_autoAdvance s) s else s in (s, st_clock s).
Definition stub_Sleep (d : Z) (s : StubEnv) : StubEnv * option goerror :=
  match st_root_err s with
  | Some e => (s, Some e)
  | None => (AdvanceClock d s, None)
  end.

(** An error that is no [*Error] is wrapped into one. *)
Definition stub_error (e : goerror) : goerror :=
  match AsError e with
  | Some _ => e
  | None => ETask (error_text e) CodeApplication false [] (Some e)
  end.
Definition stub_future (r : stubActivityResponse) : future :=
  match EncodePayload (sr_value r) with
  | inl e => Settle RNone (Some (ETask (error_text e) CodeApplication true [] (Some e))) NewFuture
  | inr payload => Settle payload (stub_error <$> sr_err r) NewFuture
  end.
(** The next response for a name; none queued is [(nil, nil)]. *)
Definition next_response (name : string) (s : StubEnv) : StubEnv * stubActivityResponse :=
  match st_activities s !! name with
  | Some (r :: q) => (sw_responses (<[name := q]> (st_activities s)) (st_childWorkflows s) s, r)
  | _ => (s, {| sr_value := AnyNil; sr_err := None |})
  end.
Definition stub_ExecuteActivity (opts : ActivityOptions) (activity : goref) (args : list goany) (s : StubEnv) : StubEnv * future :=
  let '(s, r) := next_response (ActivityName activity) s in (s, stub_future r).

(** [ExecuteChildWorkflow]: the result future and the execution future. *)
Definition execution_json (wf run : string) : json := JObj (fld "workflow_id" wf ++ fld_omit "run_id" run).
Definition stub_ExecuteChildWorkflow (child : goref) (s : StubEnv) : StubEnv * (future * future) :=
  let name := ActivityName child in
  let '(s, r) := match st_childWorkflows s !! name with
                 | Some (r :: q) => (sw_responses (st_activities s) (<[name := q]> (st_childWorkflows s)) s, r)
                 | _ => (s, {| sc_value := AnyNil; sc_err := None; sc_workflowID := ""; sc_runID := "" |})
                 end in
  let '(wf, run) := if String.eqb (sc_workflowID r) "" then (name +:+ "-stub", name +:+ "-run") else (sc_workflowID r, sc_runID r) in
  let execution := Settle (RJson (execution_json wf run)) None NewFuture in
  let result := match EncodePayload (sc_value r) with
                | inl e => Settle RNone (Some (ETask (error_text e) CodeApplication true [] (Some e))) NewFuture
                | inr payload => Settle payload (sc_err r) NewFuture
                end in
  (s, (result, execution)).

Definition stub_GetVersion (id : string) (lo hi : Z) (s : StubEnv) : StubEnv * Z :=
  let '(m, v) := get_version (st_versions s) id lo hi in (sw_versions m s, v).
Definition stub_UpsertSearchAttributes (attrs : option (gmap string json)) (s : StubEnv) : StubEnv :=
  match attrs with
  | None => s
  | Some a => sw_upserts (st_upserts s ++ [a]) s
  end.

Section Ambient.
Context `{Ambient}.

(** Unlike the worker's, these call a nil function, which panics; the callers of
    this model pass [fn = true]. *)
Definition stub_SideEffect (fn : bool) (s : StubEnv) : StubEnv * (goerror + raw) :=
  let idx := st_sideEffectIdx s in
  match st_sideEffects s !! idx with
  | Some rec => (sw_effects (st_sideEffects s) (idx + 1) (st_mutables s) (st_draws s) s, rec)
  | None =>
      let r := EncodePayload (amb_value (st_draws s)) in
      (sw_effects (st_sideEffects s ++ [r]) (idx + 1) (st_mutables s) (st_draws s + 1) s, r)
  end.
Definition stub_MutableSideEffect (id : string) (fn : bool) (eq : option (json → json → bool)) (s : StubEnv) : StubEnv * (goerror + raw) :=
  match EncodePayload (amb_value (st_draws s)) with
  | inl err => (sw_effects (st_sideEffects s) (st_sideEffectIdx s) (st_mutables s) (st_draws s + 1) s, inl err)
  | inr bytes =>
      let '(m, b) := mutable_effect (st_mutables s) id eq bytes in
      (sw_effects (st_sideEffects s) (st_sideEffectIdx s) m (st_draws s + 1) s, inr b)
  end.

#[export] Instance stub_env : CoroutineEnv StubEnv := {|
  ce_ExecuteActivity := stub_ExecuteActivity;
  ce_GetSignalChannel := stub_GetSignalChannel;
  ce_update_signal name ch s := sw_signals (<[name := ch]> (st_signals s)) s;
  ce_root_err := st_root_err;
  ce_race s := (sw_effects (st_sideEffects s) (st_sideEffectIdx s) (st_mutables s) (st_draws s + 1) s, amb_race (st_draws s));
  ce_GetVersion := stub_GetVersion;
  ce_SideEffect := stub_SideEffect;
  ce_MutableSideEffect := stub_MutableSideEffect;
  ce_UpsertSearchAttributes := stub_UpsertSearchAttributes;
  ce_Now := stub_Now;
  ce_Sleep := stub_Sleep
|}.

End Ambient.

(** ** Observing the calls of a run *)

(** Any environment with a log of its activity calls. *)
Section Ghost.
Context {S G : Type} `{CoroutineEnv S} (note : ActivityOptions → goref → list goany → S → G).

Definition lift_ghost {A} (f : S → S * A) (d : S * list G) : (S * list G) * A := let '(s, a) := f d.1 in ((s, d.2), a).

Definition ghost_env : CoroutineEnv (S * list G) := {|
  ce_ExecuteActivity opts a args d := let '(s, f) := ce_ExecuteActivity opts a args d.1 in ((s, d.2 ++ [note opts a args d.1]), f);
  ce_GetSignalChannel name := lift_ghost (ce_GetSignalChannel name);
  ce_update_signal name ch d := (ce_update_signal name ch d.1, d.2);
  ce_root_err d := ce_root_err d.1;
  ce_race := lift_ghost ce_race;
  ce_GetVersion id lo hi := lift_ghost (ce_GetVersion id lo hi);
  ce_SideEffect fn := lift_ghost (ce_SideEffect fn);
  ce_MutableSideEffect id fn eq := lift_ghost (ce_MutableSideEffect id fn eq);
  ce_UpsertSearchAttributes attrs d := (ce_UpsertSearchAttributes attrs d.1, d.2);
  ce_Now := lift_ghost ce_Now;
  ce_Sleep d := lift_ghost (ce_Sleep d)
|}.
#[local] Existing Instance ghost_env.

Lemma ghost_receive name (d : S * list G) : receive_signal name d = lift_ghost (receive_signal name) d.
Proof.
  unfold receive_signal, lift_ghost. cbn. unfold lift_ghost. destruct (ce_GetSignalChannel name d.1) as [s ch].
  destruct (Receive 0 ch) as [[ch' out] r]. by destruct r.
Qed.
Lemma ghost_receive_async name (d : S * list G) : receive_signal_async name d = lift_ghost (receive_signal_async name) d.
Proof.
  unfold receive_signal_async, lift_ghost. cbn. unfold lift_ghost. destruct (ce_GetSignalChannel name d.1) as [s ch].
  by destruct (ReceiveAsync ch) as [[ch' out] r].
Qed.
Lemma ghost_get f target (d : S * list G) : get_future f target d = lift_ghost (get_future f target) d.
Proof.
  unfold get_future, lift_ghost. cbn. destruct (ce_root_err d.1); [|by destruct d]. unfold lift_ghost. by destruct (ce_race d.1).
Qed.

(** Erasing the log of a stable function's run gives the run, and the log only grows. *)
Lemma ghost_exec p : stable p → ∀ fs (d : S * list G),
  (exec p fs d).1.1 = (exec p fs d.1).1 ∧ (exec p fs d).2 = (exec p fs d.1).2 ∧ d.2 `prefix_of` (exec p fs d).1.2.
Proof.
  assert (∀ A (op : S → S * A) (k : A → prog) fs (d : S * list G),
    (∀ a fs (d : S * list G), (exec (k a) fs d).1.1 = (exec (k a) fs d.1).1 ∧ (exec (k a) fs d).2 = (exec (k a) fs d.1).2 ∧ d.2 `prefix_of` (exec (k a) fs d).1.2) →
    let x := (let '(d', a) := lift_ghost op d in exec (k a) fs d') in let y := (let '(s, a) := op d.1 in exec (k a) fs s) in
    x.1.1 = y.1 ∧ x.2 = y.2 ∧ d.2 `prefix_of` x.1.2) as Hop.
  { intros A op k fs d IH. unfold lift_ghost. destruct (op d.1) as [s a]. apply (IH a fs (s, d.2)). }
  induction p as [outs|text|opts a args k IH|v err k IH|h t k IH|h k IH|cases df k IH|name k IH|name k IH|id lo hi k IH|fn k IH|id fn eq k IH|attrs k IH|k IH|t k IH];
    intros Hp fs d; cbn [exec]; try done.
  - cbn. destruct (ce_ExecuteActivity opts a args d.1) as [s f]. destruct (IH (length fs) (Hp _) (fs ++ [f]) (s, d.2 ++ [note opts a args d.1])) as (H1 & H2 & H3).
    split_and!; [done..|]. etrans; [|exact H3]. by apply prefix_app_r.
  - by apply IH.
  - destruct (fs !! h) as [f|]; [|done]. rewrite ghost_get. unfold lift_ghost. destruct (get_future f t d.1) as [s []]; [|done..].
    by apply (IH _ _ (Hp _ _) fs (s, d.2)).
  - rewrite ghost_receive. unfold lift_ghost. destruct (receive_signal name d.1) as [s []]; [|done]. by apply (IH _ (Hp _) fs (s, d.2)).
  - rewrite ghost_receive_async. unfold lift_ghost. destruct (receive_signal_async name d.1) as [s v]. by apply (IH _ (Hp _) fs (s, d.2)).
  - apply (Hop _ (ce_GetVersion id lo hi) k fs d). intros; by apply IH.
  - by apply (IH Hp fs (_, d.2)).
  - apply (Hop _ (ce_Sleep t) k fs d). intros; by apply IH.
Qed.

End Ghost.

(** ** A test predicts the reference *)

(** Every activity call of the function can be scheduled: it has a name, and its
    arguments marshal. *)
Fixpoint callable (p : prog) : Prop :=
  match p with
  | PReturn _ | PPanic _ => True
  | PActivity _ a args k => ActivityName a ≠ "" ∧ is_Some (marshal_args args) ∧ ∀ h, callable (k h)
  | PFuture _ _ k => ∀ h, callable (k h)
  | PGet _ _ k => ∀ e v, callable (k e v)
  | PIsReady _ k => ∀ b, callable (k b)
  | PSelect _ _ k => ∀ f, callable (k f)
  | PReceive _ k | PReceiveAsync _ k => ∀ v, callable (k v)
  | PVersion _ _ _ k | PNow k => ∀ v, callable (k v)
  | PSideEffect _ k | PMutable _ _ _ k => ∀ r, callable (k r)
  | PUpsert _ k => callable k
  | PSleep _ k => ∀ e, callable (k e)
  end.

(** A response that an activity worker could send: its value marshals, and its error
    is one the failure envelope carries. *)
Definition faithful (r : stubActivityResponse) : bool :=
  match sr_value r with AnyBad => false | _ => true end && match sr_err r with Some e => wire e | None => true end.

(** The outcome that activity would record. *)
Definition response_outcome (r : stubActivityResponse) : activityOutcome :=
  match sr_err r with
  | Some e => {| oc_failed := true; oc_result := RNone; oc_failure := Encode e |}
  | None => {| oc_failed := false; oc_result := match EncodePayload (sr_value r) with inr p => p | inl _ => RNone end; oc_failure := RNone |}
  end.
Definition as_responded (log : list stubActivityResponse) (c : rawCommand) : activityOutcome :=
  response_outcome (default {| sr_value := AnyNil; sr_err := None |} (log !! Z.to_nat (rc_Seq c))).

(** Settled alike, up to a payload an error hides. *)
Definition same_future (f f' : future) : Prop :=
  f = f' ∨ ∃ v v' e, f = Settled v (Some e) ∧ f' = Settled v' (Some e).

Lemma wire_stub_error e : wire e = true → stub_error e = e.
Proof. by destruct e. Qed.
Lemma response_same r : faithful r = true → same_future (stub_future r) (outcome_future (response_outcome r)).
Proof.
  unfold faithful. intros [Hv He]%andb_true_iff. unfold stub_future, response_outcome, outcome_future.
  destruct (sr_err r) as [e|]; cbn [oc_failed oc_failure oc_result fmap option_fmap option_map].
  - right. rewrite Decode_Encode, from_to_wire, wire_stub_error by done. destruct (sr_value r); [by eexists _, _, _..|done].
  - left. by destruct (sr_value r).
Qed.
Lemma same_get t f f' : same_future f f' → Get t None false f = Get t None false f'.
Proof. by intros [->|(v & v' & e & -> & ->)]. Qed.

Section Predict.
Context `{Ambient}.

Definition response_to (opts : ActivityOptions) (a : goref) (args : list goany) (s : StubEnv) : stubActivityResponse :=
  (next_response (ActivityName a) s).2.
#[local] Hint Extern 0 (CoroutineEnv (StubEnv * list stubActivityResponse)) => exact (ghost_env response_to) : typeclass_instances.

(** The responses a test consumes, in order. *)
Definition consumed (p : prog) (s : StubEnv) : list stubActivityResponse := (exec p [] (s, [])).1.2.

Context (log : list stubActivityResponse).
#[local] Hint Extern 0 (CoroutineEnv directEnv) => exact (direct_env (as_responded log)) : typeclass_instances.

(** The two environments answer alike on what they share. *)
Record alike (s : StubEnv) (e : workerEnv) : Prop := {
  al_versions : st_versions s = e_versions e;
  al_signals : st_signals s = e_signals e;
  al_stub : st_root_err s = None;
  al_worker : e_root_err e = None }.

Lemma signal_alike name s e : alike s e →
  let x := stub_GetSignalChannel name s in let y := env_GetSignalChannel name e in alike x.1 y.1 ∧ x.2 = y.2.
Proof.
  intros [H1 H2 H3 H4]. unfold stub_GetSignalChannel, env_GetSignalChannel. rewrite H2. destruct (e_signals e !! name); [done|].
  split; [|done]. by split; cbn; rewrite ?H2.
Qed.
Lemma update_alike name ch s e : alike s e → alike (sw_signals (<[name := ch]> (st_signals s)) s) (with_signals (<[name := ch]> (e_signals e)) e).
Proof. intros [H1 H2 H3 H4]. by split; cbn; rewrite ?H2. Qed.
Lemma receive_alike name s e : alike s e →
  let x := receive_signal name s in let y := receive_signal name e in alike x.1 y.1 ∧ x.2 = y.2.
Proof.
  intros Hal. unfold receive_signal. cbn. destruct (signal_alike name s e Hal) as [Hal' Hch]. destruct (stub_GetSignalChannel name s) as [s' ch], (env_GetSignalChannel name e) as [e' ch'].
  cbn in *. subst ch'. destruct (Receive 0 ch) as [[ch' out] r]. destruct r; cbn; [by split; [apply update_alike|]|done|].
  by rewrite (al_stub _ _ Hal'), (al_worker _ _ Hal').
Qed.
Lemma receive_async_alike name s e : alike s e →
  let x := receive_signal_async name s in let y := receive_signal_async name e in alike x.1 y.1 ∧ x.2 = y.2.
Proof.
  intros Hal. unfold receive_signal_async. cbn. destruct (signal_alike name s e Hal) as [Hal' Hch]. destruct (stub_GetSignalChannel name s) as [s' ch], (env_GetSignalChannel name e) as [e' ch'].
  cbn in *. subst ch'. destruct (ReceiveAsync ch) as [[ch' out] r]. by split; [apply update_alike|].
Qed.
Lemma version_alike id lo hi s e : alike s e →
  let x := stub_GetVersion id lo hi s in let y := env_GetVersion id lo hi e in alike x.1 y.1 ∧ x.2 = y.2.
Proof.
  intros [H1 H2 H3 H4]. unfold stub_GetVersion, env_GetVersion. rewrite H1. destruct (get_version _ _ _ _). by split.
Qed.
Lemma sleep_alike d s e : alike s e → let x := stub_Sleep d s in let y := env_Sleep d e in alike x.1 y.1 ∧ x.2 = y.2.
Proof. intros [H1 H2 H3 H4]. unfold stub_Sleep, env_Sleep. rewrite H3, H4. by destruct (d <=? 0). Qed.
Lemma upsert_alike attrs s e : alike s e → alike (stub_UpsertSearchAttributes attrs s) (env_UpsertSearchAttributes attrs e).
Proof. intros [H1 H2 H3 H4]. by destruct attrs. Qed.

Lemma next_alike name s e : alike s e → alike (next_response name s).1 e.
Proof. intros [H1 H2 H3 H4]. unfold next_response. by destruct (st_activities s !! name) as [[|r q]|]. Qed.

Lemma logged_activity opts a args (s : StubEnv * list stubActivityResponse) :
  ce_ExecuteActivity opts a args s = let '(s', r) := next_response (ActivityName a) s.1 in ((s', s.2 ++ [r]), stub_future r).
Proof. cbn. unfold stub_ExecuteActivity, response_to. by destruct (next_response (ActivityName a) s.1). Qed.

Lemma exec_mirrors p : stable p → callable p → ∀ fs (s : StubEnv * list stubActivityResponse) fs' (d : directEnv),
  alike s.1 d.1 → length s.2 = length d.2 → Forall2 same_future fs fs' →
  (exec p fs s).1.2 = log → forallb faithful log = true →
  (exec p fs s).2 = (exec p fs' d).2.
Proof.
  assert (∀ A (op : StubEnv → StubEnv * A) (op' : workerEnv → workerEnv * A) (k : A → prog) fs (s : StubEnv * list stubActivityResponse) fs' (d : directEnv),
    (∀ s e, alike s e → alike (op s).1 (op' e).1 ∧ (op s).2 = (op' e).2) →
    (∀ a fs (s : StubEnv * list stubActivityResponse) fs' (d : directEnv), alike s.1 d.1 → length s.2 = length d.2 → Forall2 same_future fs fs' →
      (exec (k a) fs s).1.2 = log → forallb faithful log = true → (exec (k a) fs s).2 = (exec (k a) fs' d).2) →
    alike s.1 d.1 → length s.2 = length d.2 → Forall2 same_future fs fs' →
    (let '(s', a) := lift_ghost op s in exec (k a) fs s').1.2 = log → forallb faithful log = true →
    (let '(s', a) := lift_ghost op s in exec (k a) fs s').2 = (let '(d', a) := lift_env op' d in exec (k a) fs' d').2) as Hop.
  { intros A op op' k fs s fs' d Hal IH H1 H2 H3. destruct (Hal s.1 d.1 H1) as [H4 H5]. unfold lift_ghost, lift_env.
    destruct (op s.1) as [s' a], (op' d.1) as [d' a']. cbn in *. subst a'. intros H6 H7. by apply (IH a fs (s', s.2) fs' (d', d.2)). }
  induction p as [outs|text|opts a args k IH|v err k IH|h t k IH|h k IH|cases df k IH|name k IH|name k IH|id lo hi k IH|fn k IH|id fn eq k IH|attrs k IH|k IH|t k IH];
    intros Hp Hc fs s fs' d Hal Hlen Hfs Hlog Hok; cbn [exec] in Hlog |- *; try done.
  - destruct Hc as (Hname & [input Hargs] & Hc). rewrite logged_activity in Hlog |- *.
    change (ce_ExecuteActivity opts a args d) with (direct_ExecuteActivity (as_responded log) opts a args d). unfold direct_ExecuteActivity. pose proof (next_alike (ActivityName a) s.1 d.1 Hal) as Hal'.
    destruct (next_response (ActivityName a) s.1) as [s' r]. cbn [fst snd] in *. destruct d as [e l].
    rewrite (proj2 (String.eqb_neq _ _) Hname), Hargs. set (c := schedule_command e _ opts _ input).
    destruct (ghost_exec response_to (k (length fs)) (Hp _) (fs ++ [stub_future r]) (s', s.2 ++ [r])) as (_ & _ & Hpre). rewrite Hlog in Hpre.
    assert (log !! length l = Some r) as Hr. { destruct Hpre as [t ->]. cbn in Hlen. rewrite <-Hlen. cbn [snd]. by rewrite <-app_assoc, lookup_app_r, Nat.sub_diag by done. }
    assert (as_responded log c = response_outcome r) as ->. { unfold as_responded, c. cbn [rc_Seq schedule_command]. by rewrite Nat2Z.id, Hr. }
    rewrite (Forall2_length _ _ _ Hfs) in Hlog |- *. apply IH; [done|done|done| | |done|done].
    + cbn in Hlen |- *. rewrite !length_app. by rewrite Hlen.
    + apply Forall2_app; [done|]. constructor; [|done]. apply response_same. rewrite forallb_forall in Hok. apply Hok. apply list_elem_of_In.
      by eapply list_elem_of_lookup_2.
  - rewrite (Forall2_length _ _ _ Hfs). rewrite (Forall2_length _ _ _ Hfs) in Hlog. apply IH; try done. apply Forall2_app; [done|]. by repeat constructor.
  - destruct (fs !! h) as [f|] eqn:Hf.
    2: { assert (fs' !! h = None) as ->; [|done]. apply lookup_ge_None. rewrite <-(Forall2_length _ _ _ Hfs). by apply lookup_ge_None. }
    destruct (Forall2_lookup_l _ _ _ _ _ Hfs Hf) as (f' & -> & Hsame). unfold get_future in *.
    change (ce_root_err s) with (st_root_err s.1) in *. change (ce_root_err d) with (e_root_err d.1).
    rewrite (al_stub _ _ Hal) in Hlog |- *. rewrite (al_worker _ _ Hal), <-(same_get t f f') by done.
    destruct (Get t None false f) as [er vl| |]; [|done..]. by apply IH.
  - rewrite (ghost_receive response_to) in Hlog |- *. rewrite direct_receive. unfold lift_ghost, lift_env in *. destruct (receive_alike name s.1 d.1 Hal) as [Hal' Hv].
    destruct (receive_signal name s.1) as [s' a], (receive_signal name d.1) as [d' a']. cbn in Hal', Hv. subst a'. destruct a as [v|]; [|done].
    by apply (IH v (Hp _) (Hc _) fs (s', s.2) fs' (d', d.2)).
  - rewrite (ghost_receive_async response_to) in Hlog |- *. rewrite direct_receive_async. apply (Hop _ (receive_signal_async name) (λ e, receive_signal_async name e) k); try done.
    + intros; by apply receive_async_alike.
    + intros; by apply IH.
  - apply (Hop _ (stub_GetVersion id lo hi) (env_GetVersion id lo hi) k); try done; [intros; by apply version_alike|intros; by apply IH].
  - apply (IH Hp Hc fs (_, s.2) fs' (_, d.2)); try done. by apply upsert_alike.
  - apply (Hop _ (stub_Sleep t) (env_Sleep t) k); try done; [intros; by apply sleep_alike|intros; by apply IH].
Qed.

End Predict.


(** ** The order of [OrderDemo], tested *)

Module StubDemo.

#[local] Instance calm : Ambient := {| amb_now _ := 0; amb_value _ := AnyNil; amb_race _ := false |}.

(** Charge; on a declined card answer with the error's code, else with the charge. *)
Definition checkout : prog :=
  ExecuteActivity (Some []) (RefFunc "shop.Charge") [AnyJson (JNum 5)] (λ h,
  PGet h (Some (λ _, true)) (λ err v,
  match err with
  | Some e => PReturn [OutVal (AnyJson (JStr (code_of e)))]
  | None => PReturn [OutVal (AnyJson (default JNull v))]
  end)).

Definition declined : StubEnv := OnActivity_Return (RefString "Charge") AnyNil (Some (NewError "card declined" "Declined" true [])) NewStubEnv.
Definition production : workerEnv := newWorkerEnv stub_info "stub-queue".


Example declined_answer : (exec checkout [] declined).2 = Returned [OutVal (AnyJson (JStr "Declined"))].
Proof. by vm_compute. Qed.

End StubDemo.
