(* ===== verification/Cluster.v ===== *)
(** Where the worker and the server meet: the deliveries the transport decodes
    ([pkg/sdk/client/worker_transport.go]), the commands and the retry policies that
    cross the wire, and a whole run of the two sides against each other, evaluated. *)

From Corelib Require Import SpecFloat.
From Stdlib Require Import Ascii ZArith Lia.
From stdpp Require Import prelude strings gmap.
From S2P Require Import Prelude GoStrings Base64 Json Types EngineTypes Env Texts Principal Router Shard GoTime Temporal Channel Coroutine Dispatch Events World Failure Workflow Durable Commands Surface Zap Worker ReplaySpec Rounds.

Local Open Scope Z_scope.

(** ** Deliveries *)

Section Deliveries.
Context `{Env}.

(** The bytes of a string member; [env_parse] is the JSON they denote. *)
Definition decodeWorkflowDelivery (body : json) : option WorkflowTask :=
  o ← as_obj body; token ← rd o "task_token"; wf ← rd o "workflow_id"; run ← rd o "run_id"; ty ← rd o "workflow_type_name"; hist ← rd o "history";
  if String.eqb token "" then None
  else Some {| tk_token := token; tk_workflowID := wf; tk_runID := run; tk_workflowType := ty; tk_history := env_parse hist |}.

Definition decodeActivityDelivery (body : json) : option ActivityTask :=
  o ← as_obj body; token ← rd o "task_token"; wf ← rd o "workflow_id"; run ← rd o "run_id"; id ← rd o "activity_id"; ty ← rd o "activity_type_name";
  input ← rd o "input"; at_ ← rd o "scheduled_time_ms"; sc ← rd o "start_to_close_timeout_ms"; hb ← rd o "heartbeat_timeout_ms";
  if String.eqb token "" then None
  else Some {| ak_token := token; ak_workflowID := wf; ak_runID := run; ak_activityID := id; ak_activityType := ty; ak_input := env_parse input;
               ak_scheduledTimeMs := at_; ak_startToCloseTimeoutMs := sc; ak_heartbeatTimeoutMs := hb |}.

(** The tasks as the server holds them. *)
Definition workflow_task (t : pendingWorkflowTask) : WorkflowTask :=
  {| tk_token := wt_token t; tk_workflowID := wt_workflowID t; tk_runID := wt_runID t; tk_workflowType := wt_workflowType t; tk_history := wt_input t |}.
Definition activity_task_of (t : pendingActivityTask) : ActivityTask :=
  {| ak_token := at_token t; ak_workflowID := at_workflowID t; ak_runID := at_runID t; ak_activityID := at_activityID t;
     ak_activityType := at_activityType t; ak_input := at_input t; ak_scheduledTimeMs := at_scheduledAt t / Millisecond;
     ak_startToCloseTimeoutMs := at_startToCloseMs t; ak_heartbeatTimeoutMs := at_heartbeatMs t |}.

(** A delivered task is the task that was dispatched: what the worker decodes from
    the push body is the server's pending task, token, identity, type and payload,
    when the payload's text denotes the payload. *)
Theorem delivery_roundtrip t a :
  wt_token t ≠ "" → env_parse (env_bytes (wt_input t)) = wt_input t →
  at_token a ≠ "" → env_parse (env_bytes (at_input a)) = at_input a →
  decodeWorkflowDelivery (encodeWorkflowTaskDelivery t) = Some (workflow_task t) ∧
  decodeActivityDelivery (encodeActivityTaskDelivery a) = Some (activity_task_of a).
Proof.
  intros Ht Hh Ha Hi. split.
  - unfold decodeWorkflowDelivery, encodeWorkflowTaskDelivery. cbn [as_obj mbind option_bind]. repeat rd_solve.
    by rewrite (proj2 (String.eqb_neq _ _) Ht), Hh.
  - unfold decodeActivityDelivery, encodeActivityTaskDelivery. cbn [as_obj mbind option_bind]. repeat rd_solve.
    by rewrite (proj2 (String.eqb_neq _ _) Ha), Hi.
Qed.

End Deliveries.

(** ** Commands *)

(** A command as the server's envelope decodes it: the members have the same names on
    both sides, and the members the worker does not write are left at zero. *)
Definition to_command (c : rawCommand) : command :=
  {| c_Kind := rc_Kind c; c_Result := rc_Result c; c_Failure := rc_Failure c; c_Seq := rc_Seq c; c_ActivityType := rc_ActivityType c;
     c_WorkflowType := ""; c_ChildWorkflowId := ""; c_Input := rc_Input c; c_TaskQueue := rc_TaskQueue c; c_SearchAttrs := ∅;
     c_StartToCloseMs := rc_StartToCloseMs c; c_HeartbeatMs := rc_HeartbeatMs c; c_RetryPolicy := rc_RetryPolicy c |}.

(** A number of a machine width. *)
Definition fits (bits n : Z) : Prop := - 2 ^ (bits - 1) ≤ n < 2 ^ (bits - 1).
(** A command as Go can hold it; a coefficient that is no number does not marshal. *)
Record sendable (c : rawCommand) : Prop := {
  sd_kind : fits 8 (rc_Kind c); sd_seq : fits 64 (rc_Seq c); sd_stc : fits 64 (rc_StartToCloseMs c); sd_hb : fits 64 (rc_HeartbeatMs c);
  sd_retry p : rc_RetryPolicy c = Some p →
    fits 64 (rj_InitialIntervalMs p) ∧ fits 64 (rj_MaximumIntervalMs p) ∧ fits 32 (rj_MaximumAttempts p) ∧ marshal_ok (rj_BackoffCoefficient p) = true }.

Section Batches.
Context `{JsonText}.

Lemma assoc_bytes k k' r :
  assoc k (bytes_fld k' r) = if String.eqb k' k then (match r with RNone => None | _ => Some (JStr (EncodeToString (env_bytes r))) end) else None.
Proof. destruct r; cbn; by destruct (String.eqb k' k). Qed.
Lemma bytes_back o k r :
  assoc k o = match r with RNone => None | _ => Some (JStr (EncodeToString (env_bytes r))) end → bytes_member o k = r.
Proof.
  unfold bytes_member. intros ->. assert (r ≠ RNone → match DecodeString (EncodeToString (env_bytes r)) with Some "" | None => RNone | Some b => env_parse b end = r) as Hr.
  { intros Hr. rewrite base64_roundtrip. pose proof (text_nonempty r Hr). destruct (env_bytes r) eqn:E; [done|]. by rewrite <-E, text_parse. }
  destruct r; [done|by apply Hr..].
Qed.
Lemma int_back b o k n : assoc k o = Some (JNum n) ∨ n = 0 ∧ assoc k o = None → fits b n → int_member b o k = n.
Proof.
  unfold int_member. intros [->|[-> ->]] [H1 H2]; [|done].
  by rewrite (proj2 (Z.leb_le _ _) H1), (proj2 (Z.ltb_lt _ _) H2).
Qed.
Lemma omitted_int o k n : assoc k o = (if is_empty n then None else Some (to_json n)) → assoc k o = Some (JNum n) ∨ n = 0 ∧ assoc k o = None.
Proof. intros ->. cbn [is_empty Z_codec]. destruct (Z.eqb_spec n 0); [by right|by left]. Qed.
Lemma lax_back {A} `{CodecLaws A} o k (a : A) : assoc k o = (if is_empty a then None else Some (to_json a)) → marshal_ok a = true → lax o k = a.
Proof. intros Ha Hm. unfold lax. by rewrite (rd_fld_omit o k a Ha Hm). Qed.

(** The members of a command and of a policy, each under its own name. *)
Ltac member_solve :=
  rewrite ?assoc_app, ?assoc_fld, ?assoc_fld_omit, ?assoc_bytes; cbn [String.eqb Ascii.eqb Bool.eqb andb];
  first [ reflexivity | by repeat match goal with |- context [is_empty ?a] => destruct (is_empty a) | |- context [match ?r with RNone => _ | _ => _ end] => destruct r end ].

Lemma texts_back o k (l : list string) :
  assoc k o = (if is_empty l then None else Some (to_json l)) → (match any o k with JArr l => lax_text <$> l | _ => [] end) = l.
Proof.
  unfold any. intros ->. destruct l as [|s l]; [done|]. cbn [is_empty list_codec]. unfold to_json at 1. cbn [list_codec default from_option id].
  rewrite <-list_fmap_compose. by apply list_fmap_id.
Qed.

Lemma policy_back p : fits 64 (rj_InitialIntervalMs p) → fits 64 (rj_MaximumIntervalMs p) → fits 32 (rj_MaximumAttempts p) →
  marshal_ok (rj_BackoffCoefficient p) = true → lax_retry (to_json p) = Some p.
Proof.
  destruct p as [i b m a t]. cbn [rj_InitialIntervalMs rj_MaximumIntervalMs rj_MaximumAttempts rj_BackoffCoefficient]. intros H1 H2 H3 H4.
  unfold to_json, RetryPolicyJSON_codec, lax_retry. cbn [rj_InitialIntervalMs rj_MaximumIntervalMs rj_MaximumAttempts rj_BackoffCoefficient rj_NonRetryableErrorTypes]. f_equal. f_equal.
  - apply int_back; [apply omitted_int; member_solve|done].
  - apply lax_back; [member_solve|done].
  - apply int_back; [apply omitted_int; member_solve|done].
  - apply int_back; [apply omitted_int; member_solve|done].
  - apply texts_back. member_solve.
Qed.

Lemma command_back c : sendable c → command_of (command_json c) = to_command c.
Proof.
  intros [Hk Hs Hst Hh Hr]. unfold command_of, to_command, command_json, obj. f_equal.
  - apply int_back; [left; member_solve|done].
  - apply bytes_back. member_solve.
  - apply bytes_back. member_solve.
  - apply int_back; [apply omitted_int; member_solve|done].
  - apply lax_back; [member_solve|done].
  - unfold lax, rd. assert (assoc "workflowType" _ = None) as ->; [member_solve|done].
  - unfold lax, rd. assert (assoc "childWorkflowId" _ = None) as ->; [member_solve|done].
  - apply bytes_back. member_solve.
  - apply lax_back; [member_solve|done].
  - unfold attributes, any. assert (assoc "searchAttrs" _ = None) as ->; [member_solve|done].
  - apply int_back; [apply omitted_int; member_solve|done].
  - apply int_back; [apply omitted_int; member_solve|done].
  - assert (assoc "retryPolicy" _ = if is_empty (rc_RetryPolicy c) then None else Some (to_json (rc_RetryPolicy c))) as ->; [member_solve|].
    destruct (rc_RetryPolicy c) as [p|]; [|done]. destruct (Hr p eq_refl) as (? & ? & ? & ?). by apply policy_back.
Qed.

(** (C15) The commands of a worker reach the server as it issued them: decoding the batch
    that was marshalled gives back every command with its kind, sequence number, payloads,
    timeouts and retry policy, base64 and omitted members included. *)
Theorem commands_cross_wire cmds : Forall sendable cmds → commands_of (marshalCommands cmds) = to_command <$> cmds.
Proof.
  intros Hc. unfold marshalCommands. assert (forallb (λ c, marshal_ok (rc_RetryPolicy c)) cmds = true) as ->.
  { apply forallb_forall. intros c Hin%list_elem_of_In. rewrite Forall_forall in Hc. destruct (Hc c Hin) as [_ _ _ _ Hr].
    destruct (rc_RetryPolicy c) as [p|]; [|done]. cbn. by destruct (Hr p eq_refl) as (_ & _ & _ & ?). }
  cbn [commands_of]. change (any _ "cmds") with (JArr (command_json <$> cmds)). cbn [fmap list_fmap].
  induction Hc as [|c cmds Hc _ IH]; [done|]. cbn. by rewrite command_back, IH.
Qed.
End Batches.

Module WireDemo.
#[local] Existing Instance text_env.
#[local] Existing Instance text_env_text.

Definition charge : rawCommand :=
  {| rc_Kind := commandKindScheduleActivity; rc_Result := RNone; rc_Failure := RNone; rc_Seq := 1; rc_ActivityType := "Charge";
     rc_Input := RJson (JArr [JStr "card"]); rc_TaskQueue := "orders"; rc_StartToCloseMs := 1500; rc_HeartbeatMs := 0;
     rc_RetryPolicy := Some {| rj_InitialIntervalMs := 100; rj_BackoffCoefficient := float_two; rj_MaximumIntervalMs := 0; rj_MaximumAttempts := 3;
                               rj_NonRetryableErrorTypes := ["Refused"] |} |}.
Definition done_command : rawCommand := completeCommand (AnyJson (JStr "paid")).
Lemma charge_sendable : Forall sendable [charge; done_command].
Proof.
  apply Forall_cons. split; [|apply Forall_singleton]; split; unfold fits; try done.
  intros p [= <-]. cbn. split_and!; lia || done.
Qed.
Lemma commands_cross_wire_witness :
  c_ActivityType <$> commands_of (marshalCommands [charge; done_command]) = ["Charge"; ""] ∧
  commands_of (marshalCommands [charge; done_command]) = [to_command charge; to_command done_command].
Proof. split; [by vm_compute|]. exact (commands_cross_wire [charge; done_command] charge_sendable). Defined.

(** A coefficient that is no number takes the whole batch with it. *)
Example batch_lost :
  commands_of (marshalCommands [done_command;
    {| rc_Kind := commandKindScheduleActivity; rc_Result := RNone; rc_Failure := RNone; rc_Seq := 1; rc_ActivityType := "Charge"; rc_Input := RNone;
       rc_TaskQueue := ""; rc_StartToCloseMs := 0; rc_HeartbeatMs := 0;
       rc_RetryPolicy := Some {| rj_InitialIntervalMs := 0; rj_BackoffCoefficient := S754_infinity false; rj_MaximumIntervalMs := 0; rj_MaximumAttempts := 0;
                                 rj_NonRetryableErrorTypes := [] |} |}]) = [].
Proof. by vm_compute. Qed.
End WireDemo.

(** ** Retry policies *)

(** A duration the wire's milliseconds carry exactly. *)
Definition whole_ms (d : Z) : Prop := d = Millisecond * Z.quot d Millisecond ∧ - 2 ^ 63 ≤ d < 2 ^ 63.

Lemma ms_roundtrip d : whole_ms d → wrap64 (Milliseconds d * Millisecond) = d.
Proof.
  intros [E Hd]. unfold Milliseconds. rewrite Z.mul_comm, <-E. unfold wrap64. rewrite Z.mod_small by lia. lia.
Qed.

(** The policy a workflow sets is the policy the server applies: with intervals in
    whole milliseconds, the policy attached to an activity call is, after the wire and
    the server's defaults, the normalized policy, and only its attempts, when not
    limited, are cut to the server's ten. *)
Theorem policy_crosses_wire p :
  whole_ms (InitialInterval p) → whole_ms (MaximumInterval p) →
  let eff := effectiveRetryPolicy (retryPolicyJSON (Some p)) in let own := Normalize (Some p) in
  InitialInterval eff = InitialInterval own ∧ BackoffCoefficient eff = BackoffCoefficient own ∧
  MaximumInterval eff = MaximumInterval own ∧ NonRetryableErrorTypes eff = NonRetryableErrorTypes own ∧
  tp_MaximumAttempts eff = (if 0 <? tp_MaximumAttempts p then tp_MaximumAttempts p else defaultMaxActivityAttempts).
Proof.
  intros Hi Hm. unfold effectiveRetryPolicy, retryPolicyJSON. cbn [rj_InitialIntervalMs rj_MaximumIntervalMs rj_BackoffCoefficient rj_MaximumAttempts rj_NonRetryableErrorTypes].
  rewrite !ms_roundtrip by done. destruct p as [ii bc mi ma ne]. cbn [InitialInterval BackoffCoefficient MaximumInterval tp_MaximumAttempts NonRetryableErrorTypes Normalize].
  split_and!; [done..|]. destruct (Z.ltb_spec ma 0), (Z.ltb_spec 0 ma); cbn; try lia; destruct (Z.leb_spec ma 0); lia || done.
Qed.

Definition patient : temporalRetryPolicy :=
  {| InitialInterval := 1500 * Millisecond; BackoffCoefficient := float_two; MaximumInterval := 60 * Second; tp_MaximumAttempts := 0; NonRetryableErrorTypes := [] |}.
Lemma policy_crosses_wire_witness :
  whole_ms (InitialInterval patient) ∧ tp_MaximumAttempts (effectiveRetryPolicy (retryPolicyJSON (Some patient))) = 10.
Proof.
  assert (whole_ms (InitialInterval patient)) as Hi by (split; [done|by vm_compute]). split; [exact Hi|].
  apply (policy_crosses_wire patient Hi). split; [done|by vm_compute].
Defined.

(** Below a millisecond the policy is lost: half a millisecond becomes zero, and zero
    the default of one second. *)
Example eager_policy_is_slow :
  let p := {| InitialInterval := Millisecond / 2; BackoffCoefficient := float_two; MaximumInterval := Second; tp_MaximumAttempts := 3; NonRetryableErrorTypes := [] |} in
  NextInterval (Normalize (Some p)) 1 = Millisecond / 2 ∧ NextInterval (effectiveRetryPolicy (retryPolicyJSON (Some p))) 1 = Second.
Proof. by vm_compute. Qed.

(** ** A run of both sides *)

Section Turns.
Context `{Env} `{Ambient}.

(** A worker takes a pending task, decides or performs it, and responds. *)
Definition workflow_turn (wk : workerImpl) (w : world) : world :=
  match head (map_to_list (d_wfByToken (w_disp w))) with
  | Some (token, t) =>
      match dispatchWorkflowTask wk (workflow_task t) with
      | Some cmds => (respondWorkflowHandler token (to_command <$> cmds) w).1
      | None => w
      end
  | None => w
  end.
Definition activity_turn (wk : workerImpl) (w : world) : world :=
  match head (map_to_list (d_actByToken (w_disp w))) with
  | Some (token, t) =>
      match dispatchActivityTask wk (activity_task_of t) with
      | ReportCompleted b => (respondActivityCompletedHandler token b w).1
      | ReportFailed b => (respondActivityFailedHandler token b w).1
      end
  | None => w
  end.
Definition timer_turn (w : world) : world :=
  match w_timers w with
  | t :: ts => (fire_retry t (with_timers ts w)).1
  | [] => w
  end.
Fixpoint turns (n : nat) (wk : workerImpl) (w : world) : world :=
  match n with 0%nat => w | S n => turns n wk (timer_turn (activity_turn wk (workflow_turn wk w))) end.

End Turns.

Module ClusterDemo.
Import OrderDemo.
#[local] Existing Instance quiet.
#[local] Existing Instance test_env.

Definition acme : Principal := {| Org := "acme"; Project := ""; User := "" |}.
Definition ordered : world :=
  (StartWorkflow acme "default" "order" "r1" {| TypeName := "Order" |} "default" order_input (new_world true)).1.
Definition after (n : nat) : world := turns n shop_worker ordered.
Definition history (w : world) : list HistoryEvent := match (listInto HistoryEvent acme (histPrefix "default" "order" "r1") w).2 with inr l => l | inl _ => [] end.
Definition status (w : world) : option string :=
  match (DescribeWorkflow acme "default" "order" "r1" w).2 with inr (Some x) => Some (Status x) | _ => None end.

(** Two workers of one process carry the order of [OrderDemo] through the engine: the
    shipment fails ten times and is given up, the charge and the receipt succeed. *)
Example order_runs_to_completion :
  status (after 14) = Some COMPLETED ∧
  filter (λ t, t ≠ Durable.evtActivityStarted) (EventType <$> history (after 14)) =
    ["WORKFLOW_EXECUTION_STARTED"; "ACTIVITY_TASK_SCHEDULED"; "ACTIVITY_TASK_SCHEDULED"; "ACTIVITY_TASK_FAILED"; "ACTIVITY_TASK_COMPLETED";
     "ACTIVITY_TASK_SCHEDULED"; "ACTIVITY_TASK_COMPLETED"; "WORKFLOW_EXECUTION_COMPLETED"] ∧
  length (filter (λ t, t = Durable.evtActivityStarted) (EventType <$> history (after 14))) = 12%nat.
Proof. by vm_compute. Qed.

End ClusterDemo.
