(* ===== verification/WorkerWire.v ===== *)
(** The worker's side of the wire ([client/worker_transport.go], [inproc/inproc.go]): the
    calls a worker makes, the callbacks pushed tasks arrive at, and what both come to at the
    server. *)

From Corelib Require Import SpecFloat.
From Stdlib Require Import Ascii ZArith Lia.
From stdpp Require Import prelude strings gmap.
From S2P Require Import Prelude GoStrings Base64 Json Types EngineTypes Env Principal GoTime Temporal Dispatch Events World WorldFacts Workflow Durable Commands Admin Surface Zap Channel Coroutine Worker Client Frames RunInv Creates Upkeep Reach Serves ZapSpec ClientSpec Cluster.

Local Open Scope Z_scope.

(** ** Requests *)

Definition OpcodeDeliverWorkflowTask : Z := 0xB0.
Definition OpcodeDeliverActivityTask : Z := 0xB1.

(** [PollWorkflowTaskRequest] and, without a build id, [PollActivityTaskRequest]. *)
Record PollTaskRequest := { pq_Namespace : string; pq_TaskQueueName : string; pq_TaskQueueKind : Z; pq_Identity : string; pq_WorkerBuildID : string }.
Definition poll_members (req : PollTaskRequest) : list (string * json) :=
  fld "namespace" (pq_Namespace req) ++ fld "task_queue" (pq_TaskQueueName req) ++ fld_omit "task_queue_kind" (pq_TaskQueueKind req) ++
  fld_omit "identity" (pq_Identity req).

Record TimeoutsJSON := { tj_WorkflowExecutionMs : Z; tj_WorkflowRunMs : Z; tj_WorkflowTaskMs : Z }.
Record StartChildWorkflowRequest := {
  cr_Namespace : string; cr_ParentID : string; cr_ParentRunID : string; cr_WorkflowID : string; cr_WorkflowType : string; cr_TaskQueue : string;
  cr_Input : list goany; cr_RetryPolicy : option RetryPolicyJSON; cr_Timeouts : TimeoutsJSON }.
Definition timeouts_json (t : TimeoutsJSON) : json :=
  JObj (fld_omit "workflow_execution_ms" (tj_WorkflowExecutionMs t) ++ fld_omit "workflow_run_ms" (tj_WorkflowRunMs t) ++ fld_omit "workflow_task_ms" (tj_WorkflowTaskMs t)).
(** [None]: the input or the policy does not marshal. *)
Definition child_request (r : StartChildWorkflowRequest) : option json :=
  input ← list_fld "input" (cr_Input r);
  if marshal_ok (cr_RetryPolicy r) then
    Some (JObj (fld "namespace" (cr_Namespace r) ++ fld "parent_id" (cr_ParentID r) ++ fld_omit "parent_run_id" (cr_ParentRunID r) ++
                fld "workflow_id" (cr_WorkflowID r) ++ fld "workflow_type" (cr_WorkflowType r) ++ fld "task_queue" (cr_TaskQueue r) ++ input ++
                fld_omit "retry_policy" (cr_RetryPolicy r) ++ [("timeouts", timeouts_json (cr_Timeouts r))]))
  else None.

Section Calls.
Context {S : Type} `{Transport S}.

(** A call and the reading of its envelope ([parseEnvelope] and what follows it). *)
Definition worker_trip {R} (opcode : Z) (body : json) (z : R) (read : json → option R) : M S client_error R := λ s,
  match transport_Call opcode (PBody (RJson body)) s with
  | (s, inl why) => (s, inl (CCall why))
  | (s, inr e) =>
      if negb (ev_status e =? 0) && negb (ev_status e =? 200) then (s, inl (CStatus (ev_status e) (ev_error e)))
      else match ev_body e with
           | RNone => (s, inr z)
           | RBad => (s, inl CDecode)
           | RJson j => match read j with Some r => (s, inr r) | None => (s, inl CDecode) end
           end
  end.
Definition sub_id_of (j : json) : option string := o ← as_obj j; rd o "subscription_id".

Definition SubscribeWorkflowTasks (req : PollTaskRequest) : M S client_error string :=
  worker_trip op_SubscribeWorkflowTasks (JObj (poll_members req ++ fld_omit "worker_build_id" (pq_WorkerBuildID req))) "" sub_id_of.
Definition SubscribeActivityTasks (req : PollTaskRequest) : M S client_error string :=
  worker_trip op_SubscribeActivityTasks (JObj (poll_members req)) "" sub_id_of.
(** Only the transport can fail: the answer is not looked at. *)
Definition call_only (opcode : Z) (p : payload) : M S client_error unit := λ s,
  match transport_Call opcode p s with (s, inl why) => (s, inl (CCall why)) | (s, inr _) => (s, inr tt) end.
Definition worker_Unsubscribe (subID : string) : M S client_error unit :=
  call_only op_UnsubscribeTasks (PBody (RJson (JObj (fld "subscription_id" subID)))).
Definition RespondWorkflowTaskCompleted (token : string) (commands : raw) : M S client_error unit :=
  call_only op_RespondWorkflowTaskCompleted (PFramed token commands).
Definition RespondActivityTaskCompleted (token : string) (result : raw) : M S client_error unit :=
  call_only op_RespondActivityTaskCompleted (PFramed token result).
Definition RespondActivityTaskFailed (token : string) (failure : raw) : M S client_error unit :=
  call_only op_RespondActivityTaskFailed (PFramed token failure).
(** [flag] is what the frame of the answer holds at the place of the cancel flag. *)
Definition RecordActivityTaskHeartbeat (flag : envelope → bool) (token : string) (details : raw) : M S client_error bool := λ s,
  match transport_Call op_RecordActivityTaskHeartbeat (PFramed token details) s with
  | (s, inl why) => (s, inl (CCall why))
  | (s, inr e) => (s, inr (flag e))
  end.
Definition StartChildWorkflow (r : StartChildWorkflowRequest) : M S client_error string :=
  match child_request r with
  | None => throw CMarshal
  | Some body => worker_trip op_StartChildWorkflow body "" (λ j, o ← as_obj j; rd o "run_id")
  end.

Lemma worker_trip_eq {R} c opcode body (z : R) read s : ci_closed c = false → worker_trip opcode body z read s = roundTrip c opcode (Some body) z read s.
Proof. intros Hc. unfold worker_trip, roundTrip. by rewrite Hc. Qed.
End Calls.

(** ** Callbacks *)

(** One connection: the worker whose callback each opcode reaches, and what each worker's
    transport has installed ([Handle] is last-write-wins). *)
Record hub (T : Type) := { hb_handlers : gmap Z nat; hb_callbacks : gmap (nat * Z) T; hb_installed : gset (nat * Z) }.
Arguments hb_handlers {T} _.
Arguments hb_callbacks {T} _.
Arguments hb_installed {T} _.

Section Hub.
Context {T : Type}.
(** [OnWorkflowTask] and [OnActivityTask] of worker [i]. *)
Definition on_task (op : Z) (i : nat) (fn : T) (h : hub T) : hub T :=
  {| hb_handlers := if decide ((i, op) ∈ hb_installed h) then hb_handlers h else <[op := i]> (hb_handlers h);
     hb_callbacks := <[(i, op) := fn]> (hb_callbacks h); hb_installed := {[(i, op)]} ∪ hb_installed h |}.
(** The callback a push reaches. *)
Definition reaches_callback (op : Z) (h : hub T) : option T := i ← hb_handlers h !! op; hb_callbacks h !! (i, op).
Definition no_workers : hub T := {| hb_handlers := ∅; hb_callbacks := ∅; hb_installed := ∅ |}.

(** Workers that start one after the other on one connection: every push reaches the last
    of them, whatever queue it was subscribed for. *)
Lemma last_worker_takes_all op (l : list (nat * T)) i fn :
  i ∉ l.*1 → reaches_callback op (foldl (λ h x, on_task op x.1 x.2 h) no_workers (l ++ [(i, fn)])) = Some fn.
Proof.
  intros Hi. rewrite foldl_app. cbn [foldl]. set (h := foldl _ _ l).
  assert ((i, op) ∉ hb_installed h) as Hn.
  { assert (∀ l h0, (i, op) ∉ hb_installed h0 → i ∉ l.*1 → (i, op) ∉ hb_installed (foldl (λ (h : hub T) x, on_task op x.1 x.2 h) h0 l)) as Hl.
    { clear. induction l as [|[j g] l IH]; intros h0 H0 Hi; [done|]. cbn [foldl]. rewrite fmap_cons, not_elem_of_cons in Hi. destruct Hi as [Hne Hi].
      apply IH; [|done]. cbn. rewrite elem_of_union, elem_of_singleton. cbn in Hne. naive_solver. }
    apply Hl; [apply not_elem_of_empty|done]. }
  unfold reaches_callback, on_task. cbn. rewrite decide_False by done. rewrite lookup_insert_eq. cbn. by rewrite lookup_insert_eq.
Qed.
End Hub.

(** ** The calls at the server *)

Section Reach.
Context `{Env} (wording : err → string) (defaultNS : string) (validator : option (string → string)) (requireID : bool).
Context (from : string) (token : TokenSource) (during : server → server) (p : Principal).
Hypothesis token_works : ∀ why, token ≠ Some (inl why).
Hypothesis admitted : scope validator requireID (authed token []) = inr p.

#[local] Instance wlink : Transport server := zapTransport wording defaultNS validator requireID from token during.

(** What a subscription of a worker does to the server. *)
Definition subscription_of (kind : taskKind) (req : PollTaskRequest) (s : server) : server :=
  let r := env_rand (w_rand (sv_world s)) in
  let '(w, now) := nowRFC3339 (rand_draw (sv_world s)).1 in
  {| sv_world := with_disp (Subscribe r from (pq_Namespace req) (pq_TaskQueueName req) kind (w_disp (sv_world s))).2 w;
     sv_workers :=
       (worker_Register (match now with inr t => t | inl _ => "" end)
          {| wk_Identity := set_if_empty (pq_Identity req) from; wk_Namespace := pq_Namespace req; wk_TaskQueue := pq_TaskQueueName req;
             wk_SDKName := ""; wk_SDKVersion := ""; wk_LastHeartbeat := ""; wk_FirstSeen := "" |} (sv_workers s)).2 |}.
(** The answer of a call whose response is not looked at. *)
Definition uploaded {A} (m : W A) : M server client_error unit := λ s,
  let '(w, r) := m (sv_world s) in
  ({| sv_world := w; sv_workers := sv_workers s |}, match r with inl _ => inl (CCall "handler failed") | inr _ => inr tt end).

Lemma call_peer op fn o s :
  opcode_of (FrameBody op (PBody RNone)).2 = op → zapHandlers wording defaultNS validator requireID op = Some (wrapPeer validator requireID fn) →
  assoc "auth_token" o = None →
  transport_Call op (PBody (RJson (JObj o))) s =
  match (r ← fn p from (authed token o); mret (envelope_of r)) s with
  | (s, inl _) => (s, inl "handler failed")
  | (s, inr (Responds e)) => (s, inr e)
  | (s, inr (Pends tok ch)) =>
      match (o ← in_world (opQueryWorkflow_end wording tok ch); mret (envelope_of o)) (during s) with
      | (s, inr (Responds e)) => (s, inr e)
      | (s, _) => (s, inl "handler failed")
      end
  end.
Proof.
  intros Hop Hh Ho. unfold transport_Call, wlink, zapTransport, zap_Call.
  assert (attach token (PBody (RJson (JObj o))) = inr (PBody (RJson (JObj (authed token o))))) as ->.
  { unfold attach, authed. destruct token as [[why|tok]|]; [by destruct (token_works why)| |done]. by case_match. }
  unfold FrameBody. cbn [FrameBody snd] in Hop. rewrite Hop, Hh. unfold frame_of, wrapPeer. cbn [request_of].
  by rewrite (scope_authed validator requireID token p token_works admitted).
Qed.

Definition poll_object (kind : taskKind) (req : PollTaskRequest) : list (string * json) :=
  poll_members req ++ match kind with kindWorkflow => fld_omit "worker_build_id" (pq_WorkerBuildID req) | _ => [] end.
Lemma poll_read kind req :
  pq_Namespace req ≠ "" → pq_TaskQueueName req ≠ "" →
  let o := authed token (poll_object kind req) in
  assoc "auth_token" (poll_object kind req) = None ∧ ns_of defaultNS o = pq_Namespace req ∧ strOr o "task_queue" (str o "taskQueue") = pq_TaskQueueName req ∧
  strOr o "identity" from = set_if_empty (pq_Identity req) from ∧ str o "sdk_name" = "" ∧ str o "sdk_version" = "".
Proof.
  intros Hn Hq o. subst o. unfold ns_of, strOr, str, poll_object. rewrite !assoc_authed by done. unfold poll_members.
  rewrite !assoc_app, !assoc_fld, !assoc_fld_omit. cbn [assoc String.eqb Ascii.eqb Bool.eqb andb].
  destruct kind; rewrite ?assoc_fld_omit; cbn [assoc String.eqb Ascii.eqb Bool.eqb andb];
    change (to_json (pq_Namespace req)) with (JStr (pq_Namespace req)); change (to_json (pq_TaskQueueName req)) with (JStr (pq_TaskQueueName req));
    cbn -[String.eqb]; rewrite ?(proj2 (String.eqb_neq _ _) Hn), ?(proj2 (String.eqb_neq _ _) Hq);
    split_and!; try done; unfold set_if_empty; by destruct (pq_Identity req).
Qed.

Lemma trip_subscribe kind op req s :
  from ≠ "" → pq_Namespace req ≠ "" → pq_TaskQueueName req ≠ "" →
  opcode_of (FrameBody op (PBody RNone)).2 = op →
  zapHandlers wording defaultNS validator requireID op = Some (wrapPeer validator requireID (λ _, opSubscribe defaultNS kind)) →
  worker_trip op (JObj (poll_object kind req)) "" sub_id_of s = (subscription_of kind req s, inr (newRandID (env_rand (w_rand (sv_world s))))).
Proof.
  intros Hf Hn Hq Hop Hh. destruct (poll_read kind req Hn Hq) as (Ho & Ens & Eq & Eid & En & Ev). unfold worker_trip. rewrite (call_peer op _ _ s Hop Hh Ho).
  unfold opSubscribe. rewrite Ens, Eq, Eid, En, Ev.
  assert (disp_Subscribe from (pq_Namespace req) (pq_TaskQueueName req) kind (sv_world s) =
          (with_disp (Subscribe (env_rand (w_rand (sv_world s))) from (pq_Namespace req) (pq_TaskQueueName req) kind (w_disp (sv_world s))).2 (rand_draw (sv_world s)).1,
           inr (Some (newRandID (env_rand (w_rand (sv_world s))))))) as Es.
  { unfold disp_Subscribe, Subscribe. cbn [rand_draw]. by rewrite !(proj2 (String.eqb_neq _ _)). }
  unfold mbind, M_bind, in_world at 1. rewrite Es. done.
Qed.

(** An answer in the worker's own frame. *)
Lemma call_respond op (f : string → raw → W ack) tok b s :
  opcode_of (FrameBody op (PBody RNone)).2 = op → zapHandlers wording defaultNS validator requireID op = Some (respond_with wording f) →
  call_only op (PFramed tok b) s = uploaded (f tok b) s.
Proof.
  intros Hop Hh. unfold call_only, uploaded, transport_Call, wlink, zapTransport, zap_Call.
  assert (attach token (PFramed tok b) = inr (PFramed tok b)) as -> by (by destruct token as [[]|]).
  unfold FrameBody. cbn [FrameBody snd] in Hop. rewrite Hop, Hh. unfold respond_with, frame_of, decodeRespondFrame, mbind, M_bind, in_world.
  by destruct (f tok b (sv_world s)) as [w []].
Qed.

(** (C13) A worker's calls are the dispatcher's and the engine's: over the connection of a
    worker whose token the server accepts, subscribing registers the worker's peer for its
    namespace and queue, under the id that is answered, and hands it the tasks that wait;
    unsubscribing removes exactly that subscription; the commands of a workflow task and
    the result or failure of an activity are applied under the task's token, and the worker
    is told of success even when the server knows no such token; a heartbeat changes
    nothing; and starting a child through this call always fails with status 501. *)
Theorem worker_calls_reach_engine req s sub tok cmds out flag child :
  from ≠ "" → pq_Namespace req ≠ "" → pq_TaskQueueName req ≠ "" → sub ≠ "" → child_request child ≠ None →
  SubscribeWorkflowTasks req s = (subscription_of kindWorkflow req s, inr (newRandID (env_rand (w_rand (sv_world s))))) ∧
  SubscribeActivityTasks req s = (subscription_of kindActivity req s, inr (newRandID (env_rand (w_rand (sv_world s))))) ∧
  worker_Unsubscribe sub s = ({| sv_world := next (LWorker (OpUnsubscribe sub)) (sv_world s); sv_workers := sv_workers s |}, inr tt) ∧
  RespondWorkflowTaskCompleted tok cmds s = uploaded (respondWorkflowHandler tok (commands_of cmds)) s ∧
  RespondActivityTaskCompleted tok out s = uploaded (respond_activity tok out RNone) s ∧
  RespondActivityTaskFailed tok out s = uploaded (respond_activity tok RNone out) s ∧
  RecordActivityTaskHeartbeat flag tok out s = (s, inr (flag (objectAck "" 200))) ∧
  StartChildWorkflow child s = (s, inl (CStatus 501 "start_child_workflow: not yet implemented")).
Proof.
  intros Hf Hn Hq Hs Hc. split_and!.
  - by apply (trip_subscribe kindWorkflow).
  - pose proof (trip_subscribe kindActivity op_SubscribeActivityTasks req s Hf Hn Hq eq_refl eq_refl) as E. unfold poll_object in E.
    rewrite app_nil_r in E. exact E.
  - unfold worker_Unsubscribe, call_only.
    rewrite (call_peer op_UnsubscribeTasks (λ p _ req, in_world (opUnsubscribe req)) (fld "subscription_id" sub) s eq_refl eq_refl eq_refl).
    unfold opUnsubscribe. assert (strOr (authed token (fld "subscription_id" sub)) "subscription_id" (str (authed token (fld "subscription_id" sub)) "subscriptionId") = sub) as ->.
    { unfold strOr, str. rewrite !assoc_authed by done. by destruct sub. }
    by destruct s.
  - exact (call_respond op_RespondWorkflowTaskCompleted (λ t b, respondWorkflowHandler t (commands_of b)) tok cmds s eq_refl eq_refl).
  - exact (call_respond op_RespondActivityTaskCompleted respondActivityCompletedHandler tok out s eq_refl eq_refl).
  - exact (call_respond op_RespondActivityTaskFailed respondActivityFailedHandler tok out s eq_refl eq_refl).
  - unfold RecordActivityTaskHeartbeat, transport_Call, wlink, zapTransport, zap_Call.
    assert (attach token (PFramed tok out) = inr (PFramed tok out)) as -> by (by destruct token as [[]|]). done.
  - unfold StartChildWorkflow. destruct (child_request child) as [j|] eqn:Ej; [|done].
    assert (∃ o, j = JObj o ∧ assoc "auth_token" o = None) as (o & -> & Ho).
    { revert Ej. unfold child_request. destruct (list_fld "input" _) as [i|] eqn:Ei; [|done]. cbn [mbind option_bind]. destruct (marshal_ok _); [|done].
      intros [= <-]. eexists. split; [done|]. cbn [assoc String.eqb Ascii.eqb Bool.eqb andb].
      rewrite assoc_app, assoc_fld_omit. cbn [assoc String.eqb Ascii.eqb Bool.eqb andb].
      by rewrite !assoc_app, assoc_fld_omit, (assoc_list_fld _ _ _ _ Ei). }
    unfold worker_trip.
    rewrite (call_peer op_StartChildWorkflow (λ _ _ _, in_world (declines 501 "start_child_workflow: not yet implemented")) _ s eq_refl eq_refl Ho).
    by destruct s.
Qed.
End Reach.

(** ** Child workflows *)

(** [ExecuteChildWorkflow] of the replay environment: the result and the execution of the
    child are two futures, and a goroutine starts the child and waits half a second. What
    the call needs of the environment are the fields of [child_env]. *)
Record child_env := { ce_Namespace : string; ce_WorkflowID : string; ce_RunID : string; ce_TaskQueue : string; ce_connected : bool }.
Inductive child_phase := ChildCalling (r : StartChildWorkflowRequest) | ChildLinked (exec : raw) | ChildOver.
Record child_call := { cc_result : future; cc_execution : future; cc_phase : child_phase }.
Definition child_settled (e : goerror) : child_call :=
  {| cc_result := Settle RNone (Some e) NewFuture; cc_execution := Settle RNone (Some e) NewFuture; cc_phase := ChildOver |}.
Definition no_timeouts : TimeoutsJSON := {| tj_WorkflowExecutionMs := 0; tj_WorkflowRunMs := 0; tj_WorkflowTaskMs := 0 |}.
Definition child_order (e : child_env) (childType : string) (args : list goany) (now : Z) : StartChildWorkflowRequest :=
  {| cr_Namespace := ce_Namespace e; cr_ParentID := ce_WorkflowID e; cr_ParentRunID := ce_RunID e;
     cr_WorkflowID := ce_WorkflowID e +:+ "-child-" +:+ childType +:+ "-" +:+ itoa now;
     cr_WorkflowType := childType; cr_TaskQueue := ce_TaskQueue e; cr_Input := args; cr_RetryPolicy := None; cr_Timeouts := no_timeouts |}.
Definition env_ExecuteChildWorkflow (e : child_env) (child : goref) (args : list goany) (now : Z) : child_call :=
  if negb (ce_connected e) then child_settled (NewError "worker: nil transport; cannot dispatch child" "ConfigError" true [])
  else let childType := ActivityName child in
       if String.eqb childType "" then child_settled (NewError "child workflow type unresolvable" "ConfigError" true [])
       else {| cc_result := NewFuture; cc_execution := NewFuture; cc_phase := ChildCalling (child_order e childType args now) |}.
(** [workflow.ExecuteChildWorkflow]. *)
Definition ExecuteChildWorkflow (ctx : option Context_) (e : child_env) (child : goref) (args : list goany) (now : Z) : child_call :=
  match ctx, child with
  | None, _ => child_settled errNilContext
  | _, RefNil => child_settled (NewError "nil childWorkflow" CodeApplication true [])
  | _, _ => env_ExecuteChildWorkflow e child args now
  end.

(** What the goroutine sees next: the answer to its call, a cancelled root scope or run,
    or the end of its wait. *)
Inductive child_event := ChildAnswered (r : client_error + string) | ChildCancelled (e : goerror) | ChildElapsed.
Definition transport_failed (cause : string) : goerror := ETask "start child workflow" "TransportError" false [] (Some (EPlain cause)).
Definition child_exec (runID : string) : raw := RJson (JObj (fld "workflow_id" runID ++ fld_omit "run_id" runID)).
Definition child_step (text : client_error → string) (v : child_event) (c : child_call) : option child_call :=
  match cc_phase c, v with
  | ChildCalling _, ChildAnswered (inl e) =>
      Some {| cc_result := Settle RNone (Some (transport_failed (text e))) (cc_result c);
              cc_execution := Settle RNone (Some (transport_failed (text e))) (cc_execution c); cc_phase := ChildOver |}
  | ChildCalling _, ChildAnswered (inr run) =>
      Some {| cc_result := cc_result c; cc_execution := Settle (child_exec run) None (cc_execution c); cc_phase := ChildLinked (child_exec run) |}
  | ChildLinked _, ChildCancelled e => Some {| cc_result := Settle RNone (Some e) (cc_result c); cc_execution := cc_execution c; cc_phase := ChildOver |}
  | ChildLinked exec, ChildElapsed => Some {| cc_result := Settle exec None (cc_result c); cc_execution := cc_execution c; cc_phase := ChildOver |}
  | _, _ => None
  end.

(** Where a server starts the child, its result is never the child's: it is the link to the
    run, or the cancellation of the parent. *)
Lemma child_result text e child args now run v c c' :
  cc_phase (env_ExecuteChildWorkflow e child args now) = ChildCalling c →
  (child_step text (ChildAnswered (inr run)) (env_ExecuteChildWorkflow e child args now) ≫= child_step text v) = Some c' →
  cc_execution c' = Settled (child_exec run) None ∧ cc_phase c' = ChildOver ∧
  (v = ChildElapsed ∧ cc_result c' = Settled (child_exec run) None ∨ ∃ e, v = ChildCancelled e ∧ cc_result c' = Settled RNone (Some e)).
Proof.
  unfold env_ExecuteChildWorkflow, child_step. destruct (negb _); [done|]. destruct (String.eqb _ _); [done|]. cbn. intros [= <-].
  destruct v; [done|..]; intros [= <-]; cbn; eauto 6.
Qed.

(** ** The in-process transport *)

(** [inproc.Transport]: the dispatcher it calls, if it was given one, and whether it was
    closed. A handler may answer no message. *)
Section Inproc.
Context {S : Type}.
Definition Dispatcher : Type := Z → message → M S string (option envelope).
Record inproc := { ip_dispatcher : option Dispatcher; ip_closed : bool }.
Definition NewTransport (d : option Dispatcher) : inproc := {| ip_dispatcher := d; ip_closed := false |}.
Definition inproc_Close (t : inproc) : inproc := {| ip_dispatcher := ip_dispatcher t; ip_closed := true |}.
Definition inproc_Call (t : inproc) (opcode : Z) (p : payload) : M S string envelope :=
  if ip_closed t then throw "hanzo/tasks/inproc: transport closed"
  else match ip_dispatcher t with
       | None => throw "hanzo/tasks/inproc: nil dispatcher"
       | Some dispatch =>
           o ← dispatch opcode (frame_of p);
           match o with Some e => mret e | None => throw "hanzo/tasks/inproc: handler returned nil response" end
       end.
Definition inproc_NewClient (d : option Dispatcher) (opts : Options) : option (inproc * (client_error + clientImpl)) :=
  if op_injected opts then None
  else Some (NewTransport d, Dial (λ _, false) {| op_Address := set_if_empty (op_Address opts) "inproc://frontend"; op_Namespace := op_Namespace opts;
                                                  op_Identity := op_Identity opts; op_injected := true |}).
Lemma inproc_never_dials d opts : op_injected opts = false → ∃ t c, inproc_NewClient d opts = Some (t, inr c) ∧ ip_closed t = false ∧ ci_closed c = false.
Proof. intros E. unfold inproc_NewClient. rewrite E. by do 2 eexists. Qed.
End Inproc.

(** The dispatcher that looks an opcode up in the server's table. *)
Section InprocServer.
Context `{Env} (wording : err → string) (defaultNS : string) (validator : option (string → string)) (requireID : bool) (from : string) (during : server → server).
Definition table_Dispatch : Dispatcher (S := server) := λ opcode msg s,
  match zapHandlers wording defaultNS validator requireID opcode with
  | None => (s, inl "no handler")
  | Some h =>
      match h from msg s with
      | (s, inl _) => (s, inl "handler failed")
      | (s, inr (Responds e)) => (s, inr (Some e))
      | (s, inr (Pends tok ch)) =>
          match (o ← in_world (opQueryWorkflow_end wording tok ch); mret (envelope_of o)) (during s) with
          | (s, inr (Responds e)) => (s, inr (Some e))
          | (s, _) => (s, inl "handler failed")
          end
      end
  end.

(** An open in-process transport answers every opcode of one byte as the network does for
    a client without a token source. *)
Lemma inproc_as_network opcode p s :
  0 ≤ opcode < 256 →
  inproc_Call (NewTransport (Some table_Dispatch)) opcode p s = zap_Call wording defaultNS validator requireID from None during opcode p s.
Proof.
  intros Hb. unfold inproc_Call, NewTransport, zap_Call, attach. cbn [ip_closed ip_dispatcher FrameBody].
  assert (opcode_of (Z.land (opcode ≪ 8) 65535) = opcode) as ->.
  { unfold opcode_of. change 65535 with (Z.ones 16). rewrite Z.land_ones by lia. rewrite Z.shiftl_mul_pow2, Z.mod_small by lia.
    rewrite Z.shiftr_div_pow2 by lia. by rewrite Z.div_mul by lia. }
  unfold table_Dispatch, mbind, M_bind. destruct (zapHandlers _ _ _ _ opcode) as [h|]; [|done].
  destruct (h from (frame_of p) s) as [s' [|[e|tok ch]]]; [done..|]. unfold in_world.
  by destruct (opQueryWorkflow_end _ _ _ _) as [w [|[]]].
Qed.
End InprocServer.

Module WireDemo.
Import ClientSpec.ClientDemo.
#[local] Existing Instance test_env.
#[local] Existing Instance wire.

Definition till : PollTaskRequest :=
  {| pq_Namespace := "default"; pq_TaskQueueName := "orders"; pq_TaskQueueKind := 0; pq_Identity := "till"; pq_WorkerBuildID := "" |}.
Definition listening : server := (SubscribeWorkflowTasks till fresh_server).1.
Definition ordered : server := (ExecuteWorkflow shop order_options order_fn order_args listening).1.
Definition task_token : string := default "" (fst <$> head (map_to_list (d_wfByToken (w_disp (sv_world ordered))))).
Definition close_run : raw := RJson (JObj [("cmds", JArr [JObj [("kind", JNum 0)]])]).
Definition closed : server := (RespondWorkflowTaskCompleted task_token close_run ordered).1.
Definition part : StartChildWorkflowRequest :=
  {| cr_Namespace := "default"; cr_ParentID := "order"; cr_ParentRunID := ""; cr_WorkflowID := "part"; cr_WorkflowType := "Part"; cr_TaskQueue := "orders";
     cr_Input := [AnyJson (JNum 1)]; cr_RetryPolicy := None; cr_Timeouts := {| tj_WorkflowExecutionMs := 0; tj_WorkflowRunMs := 0; tj_WorkflowTaskMs := 0 |} |}.
Definition status_at (s : server) : option string :=
  match (Workflow.DescribeWorkflow acme "default" "order" "" (sv_world s)).2 with inr (Some wf) => Some (Status wf) | _ => None end.
Lemma worker_calls_reach_engine_witness :
  pu_peer <$> d_sent (w_disp (sv_world ordered)) = ["client"] ∧ (status_at ordered, status_at closed) = (Some RUNNING, Some COMPLETED) ∧
  RespondWorkflowTaskCompleted task_token close_run ordered = uploaded (respondWorkflowHandler task_token (commands_of close_run)) ordered.
Proof.
  split; [by vm_compute|]. split; [by vm_compute|].
  exact (proj1 (proj2 (proj2 (proj2 (worker_calls_reach_engine word "default" verifier true "client" token still acme token_answers acme_admitted
           till ordered "sub" task_token close_run RNone (λ _, true) part ltac:(by vm_compute) ltac:(by vm_compute) ltac:(by vm_compute)
           ltac:(by vm_compute) ltac:(by vm_compute)))))).
Defined.

(** An answer under a token nobody holds is reported as a success. *)
Example stale_answer_succeeds : (RespondWorkflowTaskCompleted task_token close_run closed).2 = inr tt ∧ (RespondActivityTaskCompleted "no-such-task" RNone closed).2 = inr tt.
Proof. by vm_compute. Qed.
End WireDemo.
