(* ===== verification/Pool.v ===== *)
(** The life of a worker ([worker/worker.go], [worker/pollers.go]): starting and stopping
    once, the tasks the transport delivers, the goroutine of each task and the semaphore the
    workflow tasks share. The goroutines interleave: a step of the pool is a step of one of
    them, and [pool_step] is partial where the step is not enabled. *)

From Corelib Require Import SpecFloat.
From Stdlib Require Import Ascii ZArith Lia.
From stdpp Require Import prelude strings gmap.
From S2P Require Import Prelude GoStrings Base64 Json Types EngineTypes Env GoTime Temporal Channel Coroutine Worker.

Local Open Scope Z_scope.

(** ** Settings *)

(** [worker.Options], without the logger. *)
Record WorkerOptions := {
  wo_MaxConcurrentActivityExecutionSize : Z; wo_MaxConcurrentWorkflowTaskPollers : Z; wo_MaxConcurrentWorkflowTaskExecutionSize : Z;
  wo_MaxConcurrentLocalActivityExecutionSize : Z; wo_WorkerActivitiesPerSecond : spec_float; wo_WorkerLocalActivitiesPerSecond : spec_float;
  wo_TaskQueueActivitiesPerSecond : spec_float; wo_EnableSessionWorker : bool; wo_Identity : string }.
Definition defaultActivityPollers : Z := 8.
Definition defaultWorkflowPollers : Z := 4.

(** [defaultIdentity]; [host] is what the system answers, if anything. *)
Definition defaultIdentity (host : option string) (pid : Z) : string :=
  (match host with None | Some "" => "hanzo-tasks-worker" | Some h => h end) +:+ "@" +:+ itoa pid.
Definition positive_rate (r : spec_float) : bool := SFltb (S754_zero false) r.

(** ** Tasks in flight *)

Inductive ptask := PWorkflow (t : WorkflowTask) | PActivity (t : ActivityTask).
(** Where the goroutine of a task is: before the semaphore, before [n] limiters, or in the
    registered function. *)
Inductive job_phase := AtSemaphore | AtLimiter (n : nat) | InFunction.
#[export] Instance job_phase_eq_dec : EqDecision job_phase.
Proof. solve_decision. Defined.
(** What was sent for a task, if the goroutine got that far. *)
Inductive answer := ACommands (cmds : list rawCommand) | AReport (r : activity_report) | AGaveUp.

Inductive start_phase := NotStarted | SubscribingWorkflow | SubscribingActivity | Started (err : option string).

Record pool := {
  po_worker : workerImpl; po_identity : string; po_opts : WorkerOptions;
  po_transport : bool;                    (* the client has a transport *)
  po_execSem : option nat;                (* the capacity of [workflowExecSem] *)
  po_limiters : nat;                      (* how many of the two limiters exist *)
  po_sem : nat;                           (* how much of the semaphore is taken *)
  po_start : start_phase; po_workflowSubID : string; po_activitySubID : string;
  po_stopped : bool;                      (* [stopCh] is closed *)
  po_unsubscribed : list string;
  po_passed : list ptask;                 (* past the check of [stopped], before [wg.Add] *)
  po_jobs : list (ptask * job_phase);         (* counted by [wg] *)
  po_dropped : list ptask; po_ended : list (ptask * answer) }.

Definition count_true (l : list bool) : nat := length (filter (λ b, b = true) l).
(** [New]; [client] is the transport, identity and namespace of the client. *)
Definition New (host : option string) (pid : Z) (transport : bool) (c_identity c_namespace : string) (taskQueue : string) (o : WorkerOptions) (r : registry) : pool :=
  let identity := if String.eqb (wo_Identity o) "" then c_identity else wo_Identity o in
  let identity := if String.eqb identity "" then defaultIdentity host pid else identity in
  {| po_worker := {| wk_taskQueue := taskQueue; wk_namespace := if String.eqb c_namespace "" then "default" else c_namespace; wk_registry := r |};
     po_identity := identity;
     po_opts := {| wo_MaxConcurrentActivityExecutionSize :=
                     if wo_MaxConcurrentActivityExecutionSize o <=? 0 then defaultActivityPollers else wo_MaxConcurrentActivityExecutionSize o;
                   wo_MaxConcurrentWorkflowTaskPollers :=
                     if wo_MaxConcurrentWorkflowTaskPollers o <=? 0 then defaultWorkflowPollers else wo_MaxConcurrentWorkflowTaskPollers o;
                   wo_MaxConcurrentWorkflowTaskExecutionSize := wo_MaxConcurrentWorkflowTaskExecutionSize o;
                   wo_MaxConcurrentLocalActivityExecutionSize := wo_MaxConcurrentLocalActivityExecutionSize o;
                   wo_WorkerActivitiesPerSecond := wo_WorkerActivitiesPerSecond o; wo_WorkerLocalActivitiesPerSecond := wo_WorkerLocalActivitiesPerSecond o;
                   wo_TaskQueueActivitiesPerSecond := wo_TaskQueueActivitiesPerSecond o; wo_EnableSessionWorker := wo_EnableSessionWorker o;
                   wo_Identity := wo_Identity o |};
     po_transport := transport;
     po_execSem := if 0 <? wo_MaxConcurrentWorkflowTaskExecutionSize o then Some (Z.to_nat (wo_MaxConcurrentWorkflowTaskExecutionSize o)) else None;
     po_limiters := count_true [positive_rate (wo_WorkerActivitiesPerSecond o); positive_rate (wo_TaskQueueActivitiesPerSecond o)];
     po_sem := 0; po_start := NotStarted; po_workflowSubID := ""; po_activitySubID := ""; po_stopped := false; po_unsubscribed := [];
     po_passed := []; po_jobs := []; po_dropped := []; po_ended := [] |}.

Definition with_start (st : start_phase) (wf act : string) (s : pool) : pool :=
  {| po_worker := po_worker s; po_identity := po_identity s; po_opts := po_opts s; po_transport := po_transport s; po_execSem := po_execSem s; po_limiters := po_limiters s;
     po_sem := po_sem s; po_start := st; po_workflowSubID := wf; po_activitySubID := act; po_stopped := po_stopped s; po_unsubscribed := po_unsubscribed s;
     po_passed := po_passed s; po_jobs := po_jobs s; po_dropped := po_dropped s; po_ended := po_ended s |}.
Definition with_tasks (sem : nat) (passed : list ptask) (jobs : list (ptask * job_phase)) (dropped : list ptask) (ended : list (ptask * answer)) (s : pool) : pool :=
  {| po_worker := po_worker s; po_identity := po_identity s; po_opts := po_opts s; po_transport := po_transport s; po_execSem := po_execSem s; po_limiters := po_limiters s;
     po_sem := sem; po_start := po_start s; po_workflowSubID := po_workflowSubID s; po_activitySubID := po_activitySubID s; po_stopped := po_stopped s;
     po_unsubscribed := po_unsubscribed s; po_passed := passed; po_jobs := jobs; po_dropped := dropped; po_ended := ended |}.
Definition with_stop (s : pool) : pool :=
  {| po_worker := po_worker s; po_identity := po_identity s; po_opts := po_opts s; po_transport := po_transport s; po_execSem := po_execSem s; po_limiters := po_limiters s;
     po_sem := po_sem s; po_start := po_start s; po_workflowSubID := ""; po_activitySubID := ""; po_stopped := true;
     po_unsubscribed := po_unsubscribed s ++ (if po_transport s then filter (λ i, i ≠ "") [po_workflowSubID s; po_activitySubID s] else []);
     po_passed := po_passed s; po_jobs := po_jobs s; po_dropped := po_dropped s; po_ended := po_ended s |}.

(** ** Start and stop *)

(** [Start], once: its checks; the callbacks are in place when it subscribes. *)
Definition Start (s : pool) : pool :=
  match po_start s with
  | NotStarted =>
      with_start (if negb (po_transport s) then Started (Some "hanzo/tasks/worker: Client has no transport (dial with a real Transport)")
                  else if String.eqb (wk_taskQueue (po_worker s)) "" then Started (Some "hanzo/tasks/worker: taskQueue is required")
                  else SubscribingWorkflow) (po_workflowSubID s) (po_activitySubID s) s
  | _ => s
  end.
(** The two calls of [startSubscriptions], each with its answer. *)
Definition subscription_answer (r : string + string) (s : pool) : option pool :=
  match po_start s, r with
  | (SubscribingWorkflow | SubscribingActivity), inl why => Some (with_start (Started (Some ("hanzo/tasks/worker: subscribe: " +:+ why))) (po_workflowSubID s) (po_activitySubID s) s)
  | SubscribingWorkflow, inr id => Some (with_start SubscribingActivity id (po_activitySubID s) s)
  | SubscribingActivity, inr id => Some (with_start (Started None) (po_workflowSubID s) id s)
  | _, _ => None
  end.
(** [Stop] up to its wait, once. *)
Definition Stop (s : pool) : pool := if po_stopped s then s else with_stop s.
(** The wait of [Stop] is over. *)
Definition stop_returns (s : pool) : bool := po_stopped s && bool_decide (po_jobs s = []).
(** [Run] after [Start] has returned, up to the wait of its [Stop]; [None]: it blocks. *)
Definition Run (interrupted : bool) (s : pool) : option (option string * pool) :=
  match po_start s with
  | Started (Some why) => Some (Some why, s)
  | Started None => if interrupted || po_stopped s then Some (None, Stop s) else None
  | _ => None
  end.

(** ** A task *)

Definition push_task (t : ptask) (s : pool) : pool :=
  if po_stopped s then with_tasks (po_sem s) (po_passed s) (po_jobs s) (po_dropped s ++ [t]) (po_ended s) s
  else with_tasks (po_sem s) (po_passed s ++ [t]) (po_jobs s) (po_dropped s) (po_ended s) s.

Definition first_phase (s : pool) (t : ptask) : job_phase :=
  match t with
  | PWorkflow _ => match po_execSem s with Some _ => AtSemaphore | None => InFunction end
  | PActivity _ => match po_limiters s with O => InFunction | n => AtLimiter n end
  end.
(** [wg.Add(1)] and the goroutine. *)
Definition spawn (i : nat) (s : pool) : option pool :=
  t ← po_passed s !! i;
  Some (with_tasks (po_sem s) (delete i (po_passed s)) (po_jobs s ++ [(t, first_phase s t)]) (po_dropped s) (po_ended s) s).

Definition sem_free (s : pool) : bool := match po_execSem s with Some cap => (po_sem s <? cap)%nat | None => true end.
(** The goroutine goes on: past the semaphore when it is free, past a limiter. *)
Definition proceed (i : nat) (s : pool) : option pool :=
  j ← po_jobs s !! i;
  match j with
  | (t, AtSemaphore) => if sem_free s then Some (with_tasks (po_sem s + 1) (po_passed s) (<[i := (t, InFunction)]> (po_jobs s)) (po_dropped s) (po_ended s) s) else None
  | (t, AtLimiter n) =>
      Some (with_tasks (po_sem s) (po_passed s) (<[i := (t, match n with S (S k) => AtLimiter (S k) | _ => InFunction end)]> (po_jobs s)) (po_dropped s) (po_ended s) s)
  | (_, InFunction) => None
  end.
(** It returns early: the worker is stopping. *)
Definition leave_early (i : nat) (s : pool) : option pool :=
  j ← po_jobs s !! i;
  match j with
  | (t, InFunction) => None
  | (t, _) => if po_stopped s then Some (with_tasks (po_sem s) (po_passed s) (delete i (po_jobs s)) (po_dropped s) (po_ended s ++ [(t, AGaveUp)]) s) else None
  end.

Section Steps.
Context `{Ambient}.

(** What the registered function leads to; [None]: it does not come back. *)
Definition answer_of (w : workerImpl) (t : ptask) : option answer :=
  match t with
  | PWorkflow t => ACommands <$> dispatchWorkflowTask w t
  | PActivity t => Some (AReport (dispatchActivityTask w t))
  end.
(** The function has returned and its answer was sent; the deferred calls give the
    semaphore back and leave the group. *)
Definition finish (i : nat) (s : pool) : option pool :=
  j ← po_jobs s !! i;
  match j with
  | (t, InFunction) =>
      a ← answer_of (po_worker s) t;
      let sem := match t, po_execSem s with PWorkflow _, Some _ => (po_sem s - 1)%nat | _, _ => po_sem s end in
      Some (with_tasks sem (po_passed s) (delete i (po_jobs s)) (po_dropped s) (po_ended s ++ [(t, a)]) s)
  | _ => None
  end.

Inductive plabel :=
| PStart | PSubscription (r : string + string) | PStop | PDeliver (t : ptask)
| PSpawn (i : nat) | PProceed (i : nat) | PGiveUp (i : nat) | PFinish (i : nat).
Definition pool_step (l : plabel) (s : pool) : option pool :=
  match l with
  | PStart => Some (Start s)
  | PSubscription r => subscription_answer r s
  | PStop => Some (Stop s)
  | PDeliver t => Some (push_task t s)
  | PSpawn i => spawn i s
  | PProceed i => proceed i s
  | PGiveUp i => leave_early i s
  | PFinish i => finish i s
  end.
Fixpoint pool_run (ls : list plabel) (s : pool) : option pool :=
  match ls with [] => Some s | l :: ls => s' ← pool_step l s; pool_run ls s' end.
End Steps.

(** ** Sums over the jobs *)

Lemma sum_delete {A} (f : A → nat) l i x : l !! i = Some x → (sum_list_with f (delete i l) + f x = sum_list_with f l)%nat.
Proof. revert i. induction l as [|a l IH]; intros [|i]; simpl; intros E; simplify_eq; [lia|]. specialize (IH i E). simpl. lia. Qed.

Definition runs_workflow (j : ptask * job_phase) : nat := match j with (PWorkflow _, InFunction) => 1 | _ => 0 end.
(** The workflow tasks in their functions. *)
Definition running (s : pool) : nat := sum_list_with runs_workflow (po_jobs s).
Definition phase_left (j : ptask * job_phase) : nat := match j.2 with InFunction => 1 | AtSemaphore => 2 | AtLimiter n => n + 2 end.
(** The steps the tasks in flight can still take. *)
Definition work (s : pool) : nat := (length (po_passed s) * (po_limiters s + 3) + sum_list_with phase_left (po_jobs s))%nat.
Definition job_ok (s : pool) (j : ptask * job_phase) : Prop := match j with (PActivity _, AtSemaphore) | (PWorkflow _, AtLimiter _) => False | _ => True end.
Definition live_tasks (s : pool) : list ptask := po_passed s ++ (po_jobs s).*1.
Definition delivered (ls : list plabel) : list ptask := omap (λ l, match l with PDeliver t => Some t | _ => None end) ls.
Definition internal (l : plabel) : Prop := match l with PSpawn _ | PProceed _ | PGiveUp _ | PFinish _ => True | _ => False end.

Section Inv.
Context `{Ambient}.

(** Every task that was delivered is in one place; the semaphore counts the workflow tasks
    in their functions; what was sent for a task is what its function leads to; only a
    stopping worker turns a task away. *)
Record PoolInv (given : list ptask) (s : pool) : Prop := {
  pi_sem : ∀ cap, po_execSem s = Some cap → po_sem s = running s ∧ (running s ≤ cap)%nat;
  pi_phase : Forall (job_ok s) (po_jobs s);
  pi_tasks : given ≡ₚ po_dropped s ++ po_passed s ++ (po_jobs s).*1 ++ (po_ended s).*1;
  pi_open : po_stopped s = false → po_dropped s = [] ∧ Forall (λ e, e.2 ≠ AGaveUp) (po_ended s);
  pi_answers : Forall (λ e, e.2 = AGaveUp ∨ answer_of (po_worker s) e.1 = Some e.2) (po_ended s) }.

Lemma answers_given w t a : answer_of w t = Some a → a ≠ AGaveUp.
Proof. destruct t; cbn; [|by intros [= <-]]. destruct (dispatchWorkflowTask w t); [by intros [= <-]|done]. Qed.

Lemma delete_moves {A B} (l : list (A * B)) i x : l !! i = Some x → l.*1 ≡ₚ x.1 :: (delete i l).*1.
Proof. intros E. rewrite <-fmap_cons. apply fmap_Permutation. by apply delete_Permutation. Qed.
Lemma insert_keeps {A B} (l : list (A * B)) i x y : l !! i = Some (x, y) → ∀ y', (<[i := (x, y')]> l).*1 = l.*1.
Proof. revert i. induction l as [|a l IH]; intros [|i]; cbn; intros E y'; simplify_eq; [done|]. by rewrite (IH i E). Qed.

Lemma new_inv host pid tr ci cn q o r : PoolInv [] (New host pid tr ci cn q o r).
Proof. split; cbn; try done. intros cap _. split; [done|]. unfold running. cbn. lia. Qed.

Lemma spawn_inv given i s s' : PoolInv given s → spawn i s = Some s' → PoolInv given s'.
Proof.
  intros [Hs Hp Ht Ho Ha]. unfold spawn. destruct (po_passed s !! i) as [t|] eqn:E; [|done]. intros [= <-].
  assert (runs_workflow (t, first_phase s t) = 0 ∨ po_execSem s = None)%nat as Hr.
  { unfold first_phase. destruct t; [destruct (po_execSem s); [by left|by right]|by left]. }
  split; cbn.
  - intros cap Hc. destruct (Hs cap Hc) as [E1 E2]. unfold running in *. cbn. rewrite sum_list_with_app. cbn [sum_list_with]. destruct Hr as [->|Hn]; [lia|congruence].
  - apply Forall_app. split; [done|]. apply Forall_singleton. unfold first_phase. destruct t; [by destruct (po_execSem s)|by destruct (po_limiters s)].
  - rewrite Ht, fmap_app. cbn. rewrite (delete_Permutation _ _ _ E) at 1. solve_Permutation.
  - done.
  - done.
Qed.
Lemma proceed_inv given i s s' : PoolInv given s → proceed i s = Some s' → PoolInv given s'.
Proof.
  intros [Hs Hp Ht Ho Ha]. unfold proceed. destruct (po_jobs s !! i) as [[t ph]|] eqn:E; [|done]. cbn [mbind option_bind].
  pose proof (Forall_lookup_1 _ _ _ _ Hp E) as Hj.
  destruct ph as [|n|]; [| |done].
  - destruct (sem_free s) eqn:Ef; [|done]. intros [= <-]. destruct t as [t|t]; [|done]. split; cbn.
    + intros cap Hc. destruct (Hs cap Hc) as [E1 E2]. unfold running in *. cbn. pose proof (sum_insert runs_workflow _ _ _ (PWorkflow t, InFunction) E) as Hi. cbn in Hi.
      unfold sem_free in Ef. rewrite Hc in Ef. apply Nat.ltb_lt in Ef. lia.
    + by apply Forall_insert.
    + by rewrite (insert_keeps _ _ _ _ E).
    + done.
    + done.
  - intros [= <-]. destruct t as [t|t]; [done|]. split; cbn.
    + intros cap Hc. destruct (Hs cap Hc) as [E1 E2]. unfold running in *. cbn.
      pose proof (sum_insert runs_workflow _ _ _ (PActivity t, match n with S (S k) => AtLimiter (S k) | _ => InFunction end) E) as Hi. cbn in Hi. lia.
    + apply Forall_insert; [done|]. by destruct n as [|[]].
    + by rewrite (insert_keeps _ _ _ _ E).
    + done.
    + done.
Qed.
Lemma give_up_inv given i s s' : PoolInv given s → leave_early i s = Some s' → PoolInv given s'.
Proof.
  intros [Hs Hp Ht Ho Ha]. unfold leave_early. destruct (po_jobs s !! i) as [[t ph]|] eqn:E; [|done]. cbn [mbind option_bind].
  destruct (decide (ph = InFunction)) as [->|Hph]; [done|]. destruct (po_stopped s) eqn:Est; [|by destruct ph].
  intros Hx. assert (s' = with_tasks (po_sem s) (po_passed s) (delete i (po_jobs s)) (po_dropped s) (po_ended s ++ [(t, AGaveUp)]) s) as -> by (by destruct ph; simplify_eq).
  split; cbn.
  - intros cap Hc. destruct (Hs cap Hc) as [E1 E2]. unfold running in *. cbn. pose proof (sum_delete runs_workflow _ _ _ E) as Hi.
    assert (runs_workflow (t, ph) = 0)%nat as Hz by (by destruct t, ph). lia.
  - by apply Forall_delete.
  - rewrite Ht, fmap_app, (delete_moves _ _ _ E). cbn. solve_Permutation.
  - congruence.
  - apply Forall_app. split; [done|]. apply Forall_singleton. by left.
Qed.
Lemma finish_inv given i s s' : PoolInv given s → finish i s = Some s' → PoolInv given s'.
Proof.
  intros [Hs Hp Ht Ho Ha]. unfold finish. destruct (po_jobs s !! i) as [[t ph]|] eqn:E; [|done]. cbn [mbind option_bind].
  destruct ph; [done..|]. destruct (answer_of (po_worker s) t) as [a|] eqn:Ea; [|done]. intros [= <-]. split; cbn.
  - intros cap Hc. destruct (Hs cap Hc) as [E1 E2]. rewrite Hc. unfold running in *. cbn. pose proof (sum_delete runs_workflow _ _ _ E) as Hi. destruct t; cbn in Hi; lia.
  - by apply Forall_delete.
  - rewrite Ht, fmap_app, (delete_moves _ _ _ E). cbn. solve_Permutation.
  - intros Hst. destruct (Ho Hst) as [Hd He]. split; [done|]. apply Forall_app. split; [done|]. apply Forall_singleton. by eapply answers_given.
  - apply Forall_app. split; [done|]. apply Forall_singleton. by right.
Qed.

Lemma pool_step_inv given l s s' : PoolInv given s → pool_step l s = Some s' → PoolInv (given ++ delivered [l]) s'.
Proof.
  intros Hi. destruct l; cbn [pool_step delivered omap list_omap]; rewrite ?app_nil_r.
  - intros [= <-]. unfold Start. destruct (po_start s); destruct Hi; by split.
  - unfold subscription_answer. intros Hx. assert (∃ st a b, s' = with_start st a b s) as (st & a & b & ->) by (destruct (po_start s), r; simplify_eq; by do 3 eexists).
    destruct Hi. by split.
  - intros [= <-]. unfold Stop. destruct (po_stopped s) eqn:Est; [done|]. destruct Hi as [Hs Hp Ht Ho Ha]. by split.
  - intros [= <-]. destruct Hi as [Hs Hp Ht Ho Ha]. unfold push_task. destruct (po_stopped s) eqn:Est; split; cbn; try done; try congruence; try by (rewrite Ht; solve_Permutation).
    intros _. by apply Ho.
  - by apply spawn_inv.
  - by apply proceed_inv.
  - by apply give_up_inv.
  - by apply finish_inv.
Qed.
Lemma pool_run_inv ls : ∀ given s s', PoolInv given s → pool_run ls s = Some s' → PoolInv (given ++ delivered ls) s'.
Proof.
  induction ls as [|l ls IH]; intros given s s' Hi; cbn [pool_run]; [intros [= <-]; by rewrite app_nil_r|].
  destruct (pool_step l s) as [s1|] eqn:E; [|done]. cbn [mbind option_bind]. intros Hr. pose proof (IH _ _ _ (pool_step_inv _ _ _ _ Hi E) Hr) as Hx.
  assert (given ++ delivered (l :: ls) = (given ++ delivered [l]) ++ delivered ls) as ->; [|done].
  rewrite <-app_assoc. by destruct l.
Qed.

Lemma step_cap l s s' : pool_step l s = Some s' → po_execSem s' = po_execSem s.
Proof.
  destruct l; cbn [pool_step]; unfold Start, subscription_answer, Stop, push_task, spawn, proceed, leave_early, finish, mbind, option_bind;
    repeat case_match; intros; simplify_eq; done.
Qed.
Lemma run_cap ls s s' : pool_run ls s = Some s' → po_execSem s' = po_execSem s.
Proof.
  revert s. induction ls as [|l ls IH]; intros s; cbn [pool_run]; [by intros [= <-]|]. destruct (pool_step l s) as [s1|] eqn:E; [|done].
  cbn [mbind option_bind]. intros Hr. rewrite (IH _ Hr). by eapply step_cap.
Qed.

(** (C35) A worker loses no task and keeps its cap: from its construction on, in every
    interleaving of deliveries, starts, stops and goroutines, each task that was delivered
    is exactly once among those turned away, about to be counted, in flight, and ended;
    until the worker is stopped none is turned away and none ends without an answer; what
    is answered is what the registered function leads to; and with a cap on workflow tasks
    no more than that many are in their functions at once. *)
Theorem pool_accounts host pid tr ci cn q o r ls s :
  pool_run ls (New host pid tr ci cn q o r) = Some s →
  (0 < wo_MaxConcurrentWorkflowTaskExecutionSize o → Z.of_nat (running s) ≤ wo_MaxConcurrentWorkflowTaskExecutionSize o) ∧
  delivered ls ≡ₚ po_dropped s ++ po_passed s ++ (po_jobs s).*1 ++ (po_ended s).*1 ∧
  (po_stopped s = false → po_dropped s = [] ∧ Forall (λ e, e.2 ≠ AGaveUp) (po_ended s)) ∧
  Forall (λ e, e.2 = AGaveUp ∨ answer_of (po_worker s) e.1 = Some e.2) (po_ended s).
Proof.
  intros Hr. pose proof (pool_run_inv _ _ _ _ (new_inv host pid tr ci cn q o r) Hr) as [Hs _ Ht Ho Ha]. split_and!; [|done..].
  intros Hc. assert (po_execSem s = Some (Z.to_nat (wo_MaxConcurrentWorkflowTaskExecutionSize o))) as Hcap.
  { rewrite (run_cap _ _ _ Hr). cbn. by rewrite (proj2 (Z.ltb_lt _ _) Hc). }
  destruct (Hs _ Hcap) as [_ Hle]. lia.
Qed.

(** ** Draining *)

Lemma step_stopping l s s' : po_stopped s = true → internal l → pool_step l s = Some s' →
  po_stopped s' = true ∧ po_worker s' = po_worker s ∧ po_limiters s' = po_limiters s ∧ live_tasks s' ⊆ live_tasks s ∧ (work s' < work s)%nat.
Proof.
  intros Hst Hl. unfold work, live_tasks. destruct l as [| | | |i|i|i|i]; try done; cbn [pool_step].
  - unfold spawn. destruct (po_passed s !! i) as [t|] eqn:E; [|done]. intros [= <-]. cbn. split_and!; try done.
    + rewrite fmap_app. cbn. rewrite (delete_Permutation _ _ _ E) at 2. set_solver.
    + rewrite sum_list_with_app, length_delete by (by eexists). cbn [sum_list_with].
      assert (phase_left (t, first_phase s t) ≤ po_limiters s + 2)%nat by (unfold phase_left, first_phase; cbn; repeat case_match; simplify_eq; lia).
      apply lookup_lt_Some in E. destruct (length (po_passed s)) as [|n]; [lia|]. cbn [pred]. rewrite Nat.sub_succ, Nat.sub_0_r. lia.
  - unfold proceed. destruct (po_jobs s !! i) as [[t ph]|] eqn:E; [|done]. cbn [mbind option_bind].
    destruct ph as [|n|]; [destruct (sem_free s); [|done]| |done]; intros [= <-]; cbn; rewrite (insert_keeps _ _ _ _ E); split_and!; try done.
    + pose proof (sum_insert phase_left _ _ _ (t, InFunction) E) as Hi. cbn in Hi |- *. lia.
    + pose proof (sum_insert phase_left _ _ _ (t, match n with S (S k) => AtLimiter (S k) | _ => InFunction end) E) as Hi.
      revert Hi. unfold phase_left at 2 4. cbn [snd]. destruct n as [|[|k]]; lia.
  - unfold leave_early. destruct (po_jobs s !! i) as [[t ph]|] eqn:E; [|done]. cbn [mbind option_bind]. rewrite Hst.
    destruct ph as [|n|]; [| |done]; intros [= <-]; cbn; split_and!; try done; try (rewrite (delete_moves _ _ _ E); set_solver);
      pose proof (sum_delete phase_left _ _ _ E) as Hi; cbn in Hi |- *; lia.
  - unfold finish. destruct (po_jobs s !! i) as [[t ph]|] eqn:E; [|done]. cbn [mbind option_bind]. destruct ph; [done..|].
    destruct (answer_of (po_worker s) t); [|done]. intros [= <-]. cbn. split_and!; try done; [rewrite (delete_moves _ _ _ E); set_solver|].
    pose proof (sum_delete phase_left _ _ _ E) as Hi. cbn in Hi |- *. lia.
Qed.
Lemma drain_progress s : po_stopped s = true → live_tasks s ≠ [] → (∀ t, t ∈ live_tasks s → answer_of (po_worker s) t ≠ None) →
  ∃ l s', internal l ∧ pool_step l s = Some s'.
Proof.
  intros Hst Hl Ha. unfold live_tasks in *. destruct (po_jobs s) as [|[t ph] jobs] eqn:Ej.
  - destruct (po_passed s) as [|t l] eqn:Ep; [done|]. exists (PSpawn 0). cbn. unfold spawn. rewrite Ep. by eexists.
  - destruct (decide (ph = InFunction)) as [->|Hph].
    + specialize (Ha t ltac:(set_solver)). destruct (answer_of (po_worker s) t) as [a|] eqn:Ea; [|done]. exists (PFinish 0). cbn. unfold finish. rewrite Ej. cbn.
      rewrite Ea. by eexists.
    + exists (PGiveUp 0). cbn. unfold leave_early. rewrite Ej. cbn. rewrite Hst. destruct ph; [by eexists..|done].
Qed.

(** Stopping comes to an end: once the worker is stopped, the goroutines can take only
    so many steps more, however they interleave; and when the functions of the tasks still
    in flight come back, they can all be ended, so that the wait of [Stop] is over. *)
Theorem stop_drains s :
  po_stopped s = true → (∀ t, t ∈ live_tasks s → answer_of (po_worker s) t ≠ None) →
  (∀ ls s', Forall internal ls → pool_run ls s = Some s' → (length ls ≤ work s)%nat) ∧
  ∃ ls s', Forall internal ls ∧ pool_run ls s = Some s' ∧ live_tasks s' = [] ∧ stop_returns s' = true.
Proof.
  intros Hst Ha. split.
  - clear Ha. intros ls. revert s Hst. induction ls as [|l ls IH]; intros s Hst s' Hf; cbn [pool_run length]; [lia|]. apply Forall_cons in Hf as [Hl Hf].
    destruct (pool_step l s) as [s1|] eqn:E; [|done]. cbn [mbind option_bind]. intros Hr. destruct (step_stopping _ _ _ Hst Hl E) as (H1 & _ & _ & _ & Hw).
    pose proof (IH s1 H1 s' Hf Hr). lia.
  - remember (work s) as n eqn:En. revert s Hst Ha En. induction (lt_wf n) as [n _ IH]. intros s Hst Ha ->.
    destruct (decide (live_tasks s = [])) as [Hl|Hl].
    + exists [], s. split_and!; try done. unfold stop_returns. rewrite Hst. unfold live_tasks in Hl. apply app_eq_nil in Hl as [_ Hl].
      apply fmap_nil_inv in Hl. by rewrite bool_decide_eq_true_2.
    + destruct (drain_progress s Hst Hl Ha) as (l & s1 & Hil & E). destruct (step_stopping _ _ _ Hst Hil E) as (H1 & Hwk & _ & Hsub & Hw).
      destruct (IH (work s1) Hw s1 H1) as (ls & s' & Hf & Hr & Hn & Hret); [intros t Ht; rewrite Hwk; by apply Ha, Hsub|done|].
      exists (l :: ls), s'. split_and!; try done; [by apply Forall_cons|]. cbn. by rewrite E.
Qed.
End Inv.

Module PoolDemo.
#[local] Instance idle : Ambient := {| amb_now _ := 0; amb_value _ := AnyNil; amb_race _ := false |}.

Definition options (cap : Z) : WorkerOptions :=
  {| wo_MaxConcurrentActivityExecutionSize := 1; wo_MaxConcurrentWorkflowTaskPollers := 0; wo_MaxConcurrentWorkflowTaskExecutionSize := cap;
     wo_MaxConcurrentLocalActivityExecutionSize := 0; wo_WorkerActivitiesPerSecond := S754_zero false; wo_WorkerLocalActivitiesPerSecond := S754_zero false;
     wo_TaskQueueActivitiesPerSecond := S754_zero false; wo_EnableSessionWorker := false; wo_Identity := "" |}.
Definition fresh (cap : Z) : pool := New (Some "till") 7 true "" "" "orders" (options cap) newRegistry.
Definition wf (n : string) : ptask := PWorkflow {| tk_token := n; tk_workflowID := n; tk_runID := ""; tk_workflowType := "Order"; tk_history := RNone |}.
Definition act (n : string) : ptask :=
  PActivity {| ak_token := n; ak_workflowID := n; ak_runID := ""; ak_activityID := ""; ak_activityType := "Pay"; ak_input := RNone;
               ak_scheduledTimeMs := 0; ak_startToCloseTimeoutMs := 0; ak_heartbeatTimeoutMs := 0 |}.
Definition after (ls : list plabel) (s : pool) : pool := default s (pool_run ls s).

(** Two tasks under a cap of one: the second waits. *)
Definition two : list plabel :=
  [PStart; PSubscription (inr "s1"); PSubscription (inr "s2"); PDeliver (wf "a"); PDeliver (wf "b"); PSpawn 0; PSpawn 0; PProceed 0].
Definition busy : pool := after two (fresh 1).
Lemma pool_accounts_witness :
  (po_identity busy, po_jobs busy) = ("till@7", [(wf "a", InFunction); (wf "b", AtSemaphore)]) ∧ pool_run [PProceed 1] busy = None ∧
  Z.of_nat (running busy) ≤ 1 ∧ delivered two ≡ₚ po_dropped busy ++ po_passed busy ++ (po_jobs busy).*1 ++ (po_ended busy).*1.
Proof.
  split; [by vm_compute|]. split; [by vm_compute|].
  destruct (pool_accounts (Some "till") 7 true "" "" "orders" (options 1) newRegistry two busy ltac:(by vm_compute)) as (Hc & Ht & _).
  split; [by apply Hc|exact Ht].
Defined.

Definition stopping : pool := after [PStop; PDeliver (wf "c")] busy.
Lemma stop_drains_witness :
  (po_unsubscribed stopping, po_dropped stopping, stop_returns stopping) = (["s1"; "s2"], [wf "c"], false) ∧
  ∃ ls s', Forall internal ls ∧ pool_run ls stopping = Some s' ∧ live_tasks s' = [] ∧ stop_returns s' = true.
Proof.
  split; [by vm_compute|].
  refine (proj2 (stop_drains stopping eq_refl _)). intros t Ht.
  assert (t = wf "a" ∨ t = wf "b") as [-> | ->] by (change (live_tasks stopping) with [wf "a"; wf "b"] in Ht; set_solver); by vm_compute.
Defined.

(** Nothing counts the activities: three run under an execution size of one. *)
Example activities_uncapped :
  length (filter (λ j, j.2 = InFunction) (po_jobs (after [PDeliver (act "a"); PDeliver (act "b"); PDeliver (act "c"); PSpawn 0; PSpawn 0; PSpawn 0] (fresh 1)))) = 3%nat.
Proof. by vm_compute. Qed.

(** A delivery that looked before the stop is counted after it: the wait is over and the
    task runs all the same. *)
Example stop_returns_early :
  let s := after [PDeliver (wf "a"); PStop] (fresh 0) in
  (stop_returns s, stop_returns (after [PSpawn 0] s)) = (true, false).
Proof. by vm_compute. Qed.

(** A stop during the start leaves a subscription behind. *)
Example stop_during_start :
  let s := after [PStart; PSubscription (inr "s1"); PStop; PSubscription (inr "s2")] (fresh 0) in
  (po_unsubscribed s, po_activitySubID s, po_unsubscribed (after [PStop] s)) = (["s1"], "s2", ["s1"]).
Proof. by vm_compute. Qed.
End PoolDemo.
