(* ===== verification/Quasar.v ===== *)
(** The consensus driver ([replication/quasar/quasar.go]): frames become blocks of a
    consensus engine of another module, each node votes for what it proposes and for what
    it receives, and applies what its engine accepts. The nodes are joined by the in-process
    hub, which delivers a broadcast to one peer after the other before it returns. *)

From Corelib Require Import SpecFloat.
From Stdlib Require Import Ascii ZArith Lia.
From stdpp Require Import prelude strings gmap.
From S2P Require Import Prelude GoStrings Base64 Sha256 Json Types EngineTypes Env Texts Principal World.

Local Open Scope Z_scope.

(** ** The engine *)

(** [consensus.ID] and [consensus.NodeID]: 32 and 20 bytes. *)
Definition ID : Type := list Z.
Definition VoterID : Type := list Z.
Definition GenesisID : ID := replicate 32 0.
Definition no_voter : VoterID := replicate 20 0.

(** What the driver calls of [consensus.Engine]; the boolean is the absence of an error. *)
Class Engine (E : Type) := {
  eng_Add : ID → ID → Z → string → E → E * bool;
  eng_RecordVote : ID → Z → VoterID → string → E → E * bool;
  eng_IsAccepted : ID → E → bool;
  VoteCommit : Z
}.

(** ** Frames *)

Definition frame_value (f : Frame) `{Env} : string := if String.eqb (f_Op f) "del" then "" else env_bytes (RJson (f_Value f)).
Definition frame_json `{Env} (f : Frame) : json :=
  JObj (fld "principal" (f_Principal f) ++ fld "ns" (f_Namespace f) ++ [("seq", JNum (f_Seq f))] ++ fld "op" (f_Op f) ++ fld "key" (f_Key f) ++
        (let v := frame_value f in if String.eqb v "" then [] else [("val", JStr (EncodeToString v))])).
(** [json.Unmarshal] of a payload into a frame. *)
Definition read_frame `{Env} (payload : string) : option Frame :=
  match env_parse payload with
  | RJson (JObj o) =>
      p ← rd o "principal"; ns ← rd o "ns"; op ← rd o "op"; key ← rd o "key";
      seq ← match assoc "seq" o with None => Some 0 | Some (JNum n) => if (0 <=? n) && (n <? 2 ^ 64) then Some n else None | _ => None end;
      v ← match assoc "val" o with
          | None => Some JNull
          | Some (JStr s) => b ← DecodeString s; match env_parse b with RJson j => Some j | RNone => Some JNull | RBad => None end
          | _ => None
          end;
      Some {| f_Principal := p; f_Namespace := ns; f_Seq := seq; f_Op := op; f_Key := key; f_Value := v |}
  | _ => None
  end.
Definition frameID (f : Frame) (body : string) : ID := Sum256_bytes (big_endian 8 (f_Seq f) ++ bytes_of body).
Definition FrameKey (f : Frame) : string := f_Principal f +:+ "/" +:+ f_Namespace f +:+ "/" +:+ f_Key f.

(** ** A node *)

Inductive Decision_ := DecisionAccept | DecisionReject | DecisionTimeout.

(** [QuasarReplicator]: [X] is what the handlers work on; their errors are dropped. *)
Record replica (E X : Type) := {
  q_engine : E; q_handlers : list (Frame → X → X); q_pending : gmap ID Frame; q_height : Z; q_parent : ID; q_closed : bool;
  q_accepted : Z; q_timeouts : Z; q_state : X }.
Arguments q_engine {E X} _.
Arguments q_handlers {E X} _.
Arguments q_pending {E X} _.
Arguments q_height {E X} _.
Arguments q_parent {E X} _.
Arguments q_closed {E X} _.
Arguments q_accepted {E X} _.
Arguments q_timeouts {E X} _.
Arguments q_state {E X} _.

Section Node.
Context {E X : Type} `{Engine E} `{Env}.
Abbreviation node := (replica E X).

(** [NewQuasar]; [start] builds and starts the engine of the library for a threshold and
    a sample size, [params] is what it recommends for a number of validators. *)
Definition NewQuasar (params : nat → Z * Z) (start : Z → Z → option E) (nodeID : string) (transport : bool) (validators : list string) (x : X) : string + node :=
  if String.eqb nodeID "" then inl "quasar: NodeID required"
  else if negb transport then inl "quasar: Transport required"
  else
    let '(alpha, k) := params (length validators) in
    match start (if alpha <? 1 then 1 else alpha) k with
    | None => inl "quasar: start engine"
    | Some e => inr {| q_engine := e; q_handlers := []; q_pending := ∅; q_height := 0; q_parent := GenesisID; q_closed := false;
                       q_accepted := 0; q_timeouts := 0; q_state := x |}
    end.

Definition q_with (e : E) (pending : gmap ID Frame) (height : Z) (n : node) : node :=
  {| q_engine := e; q_handlers := q_handlers n; q_pending := pending; q_height := height; q_parent := q_parent n; q_closed := q_closed n;
     q_accepted := q_accepted n; q_timeouts := q_timeouts n; q_state := q_state n |}.
Definition q_Subscribe (h : Frame → X → X) (n : node) : node :=
  {| q_engine := q_engine n; q_handlers := q_handlers n ++ [h]; q_pending := q_pending n; q_height := q_height n; q_parent := q_parent n; q_closed := q_closed n;
     q_accepted := q_accepted n; q_timeouts := q_timeouts n; q_state := q_state n |}.
Definition applyAccepted (f : Frame) (hs : list (Frame → X → X)) (x : X) : X := foldl (λ x h, h f x) x hs.
(** Accepted: apply, advance the parent, count, forget the proposal. *)
Definition accept (f : Frame) (id : ID) (n : node) : node :=
  {| q_engine := q_engine n; q_handlers := q_handlers n; q_pending := delete id (q_pending n); q_height := q_height n; q_parent := id; q_closed := q_closed n;
     q_accepted := q_accepted n + 1; q_timeouts := q_timeouts n; q_state := applyAccepted f (q_handlers n) (q_state n) |}.
Definition time_out (id : ID) (n : node) : node :=
  {| q_engine := q_engine n; q_handlers := q_handlers n; q_pending := delete id (q_pending n); q_height := q_height n; q_parent := q_parent n; q_closed := q_closed n;
     q_accepted := q_accepted n; q_timeouts := q_timeouts n + 1; q_state := q_state n |}.
(** The looks at the engine before the deadline; nothing else moves it meanwhile. *)
Definition polled (looks : nat) (id : ID) (n : node) : bool := (0 <? looks)%nat && eng_IsAccepted id (q_engine n).

(** [handleFrame]: the errors of the engine are dropped. *)
Definition handleFrame (looks : nat) (payload : string) (n : node) : node :=
  match read_frame payload with
  | None => n
  | Some f =>
      let id := frameID f payload in
      let e := (eng_Add id (q_parent n) (f_Seq f) payload (q_engine n)).1 in
      let e := (eng_RecordVote id VoteCommit no_voter "" e).1 in
      let n := q_with e (q_pending n) (q_height n) n in
      if polled looks id n then accept f id n else n
  end.
(** [handleVote]: 32 bytes of block, 20 of voter, one of type, the signature. *)
Definition handleVote (payload : list Z) (sig_of : list Z → string) (n : node) : node :=
  if (length payload <? 53)%nat then n
  else q_with (eng_RecordVote (take 32 payload) (default 0 (payload !! 52%nat)) (take 20 (drop 32 payload)) (sig_of (drop 53 payload)) (q_engine n)).1
         (q_pending n) (q_height n) n.

(** ** The hub *)

(** [MemoryTransport.Broadcast]: every node but the sender handles the payload. *)
Definition Broadcast (i : nat) (looks : nat → nat) (payload : string) (c : list node) : list node :=
  imap (λ j n, if decide (j = i) then n else handleFrame (looks j) payload n) c.

(** [Propose] at node [i]; [looks] is how often each node finds the time to look. Node
    [i] answers with its decision and the frame as it was proposed. *)
Definition sequenced (f : Frame) (n : node) : Frame :=
  if f_Seq f =? 0 then {| f_Principal := f_Principal f; f_Namespace := f_Namespace f; f_Seq := (q_height n + 1) mod 2 ^ 64; f_Op := f_Op f; f_Key := f_Key f; f_Value := f_Value f |} else f.
Definition next_height (f : Frame) (n : node) : Z := if f_Seq f =? 0 then (q_height n + 1) mod 2 ^ 64 else q_height n.
Definition quasar_Propose (i : nat) (looks : nat → nat) (f : Frame) (c : list node) : option (list node * Frame * Decision_) :=
  n ← c !! i;
  let f' := sequenced f n in
  let body := env_bytes (RJson (frame_json f')) in
  let id := frameID f' body in
  let '(e, ok) := eng_Add id (q_parent n) (f_Seq f') body (q_engine n) in
  if negb ok then Some (<[i := q_with e (q_pending n) (next_height f n) n]> c, f', DecisionReject)
  else
    let e := (eng_RecordVote id VoteCommit no_voter "" e).1 in
    let n := q_with e (<[id := f']> (q_pending n)) (next_height f n) n in
    let c := Broadcast i looks body (<[i := n]> c) in
    if polled (looks i) id n then Some (<[i := accept f' id n]> c, f', DecisionAccept)
    else Some (<[i := time_out id n]> c, f', DecisionTimeout).

(** Proposals one after the other, each by one of the nodes, with the frames that were
    accepted. *)
Fixpoint proposals (ps : list (nat * Frame)) (looks : nat → nat) (c : list node) : option (list node * list Frame * list Decision_) :=
  match ps with
  | [] => Some (c, [], [])
  | (i, f) :: ps =>
      r ← quasar_Propose i looks f c;
      let '(c, f', d) := r in
      rest ← proposals ps looks c;
      let '(c, fs, ds) := rest in
      Some (c, match d with DecisionAccept => f' :: fs | _ => fs end, d :: ds)
  end.
End Node.

(** ** Payloads *)

(** A sequence number of 64 bits; a deletion carries no value. *)
Definition frame_ok (f : Frame) : Prop := 0 ≤ f_Seq f < 2 ^ 64 ∧ (f_Op f = "del" → f_Value f = JNull).

Lemma read_frame_json `{JsonText} f : frame_ok f → read_frame (env_bytes (RJson (frame_json f))) = Some f.
Proof.
  intros [Hs Hv]. unfold read_frame. rewrite text_parse. unfold frame_json. destruct f as [p ns seq op key v]. cbn [f_Principal f_Namespace f_Seq f_Op f_Key f_Value] in *.
  set (val := frame_value _). set (o := _ ++ _).
  assert (rd o "principal" = Some p ∧ rd o "ns" = Some ns ∧ rd o "op" = Some op ∧ rd o "key" = Some key ∧ assoc "seq" o = Some (JNum seq) ∧
          assoc "val" o = if String.eqb val "" then None else Some (JStr (EncodeToString val))) as (-> & -> & -> & -> & -> & ->).
  { subst o. by destruct (String.eqb val ""). }
  cbn [mbind option_bind]. rewrite (proj2 (Z.leb_le _ _)), (proj2 (Z.ltb_lt _ _)) by lia. cbn [andb mbind option_bind].
  subst val. unfold frame_value. cbn [f_Op f_Value]. destruct (String.eqb_spec op "del") as [->|Hop].
  - cbn. by rewrite (Hv eq_refl).
  - assert (env_bytes (RJson v) ≠ "") as Hb by (by apply text_nonempty). rewrite (proj2 (String.eqb_neq _ _) Hb), base64_roundtrip.
    cbn [mbind option_bind]. by rewrite text_parse.
Qed.

(** ** Agreement *)

Section Agree.
Context {E X : Type} `{Engine E} `{JsonText}.
Abbreviation node := (replica E X).

(** What the nodes have in common. *)
Definition view (n : node) : E * ID * list (Frame → X → X) * X := (q_engine n, q_parent n, q_handlers n, q_state n).
Definition lockstep (v : E * ID * list (Frame → X → X) * X) (c : list node) : Prop := Forall (λ n, view n = v) c.

Lemma sequenced_ok f (n : node) : frame_ok f → frame_ok (sequenced f n).
Proof. intros [Hs Hv]. unfold sequenced. destruct (f_Seq f =? 0); [|done]. split; [|done]. cbn [f_Seq]. apply Z.mod_pos_bound. lia. Qed.

(** One block at one node, as the node and its peers treat it alike. *)
Definition decided (f : Frame) (v : E * ID * list (Frame → X → X) * X) : (E * ID * list (Frame → X → X) * X) * bool :=
  let '(e, par, hs, x) := v in
  let body := env_bytes (RJson (frame_json f)) in let id := frameID f body in
  let e := (eng_RecordVote id VoteCommit no_voter "" (eng_Add id par (f_Seq f) body e).1).1 in
  if eng_IsAccepted id e then ((e, id, hs, applyAccepted f hs x), true) else ((e, par, hs, x), false).

Lemma handle_decided looks f (n : node) : (0 < looks)%nat → frame_ok f →
  view (handleFrame looks (env_bytes (RJson (frame_json f))) n) = (decided f (view n)).1.
Proof.
  intros Hl Hf. unfold handleFrame. rewrite read_frame_json by done. unfold decided, view, polled. rewrite (proj2 (Nat.ltb_lt _ _) Hl).
  cbn [q_with q_engine q_parent q_handlers q_state andb]. by destruct (eng_IsAccepted _ _).
Qed.

(** The engine of a node that refuses a block is as it was. *)
Definition refuses_cleanly : Prop := ∀ id par h body (e e' : E), eng_Add id par h body e = (e', false) → e' = e.

Lemma propose_lockstep v i looks f c c' f' d :
  refuses_cleanly → (∀ j, 0 < looks j)%nat → frame_ok f → lockstep v c → quasar_Propose i looks f c = Some (c', f', d) →
  match d with
  | DecisionReject => lockstep v c'
  | DecisionAccept => decided f' v = ((decided f' v).1, true) ∧ lockstep (decided f' v).1 c'
  | DecisionTimeout => decided f' v = ((decided f' v).1, false) ∧ lockstep (decided f' v).1 c'
  end.
Proof.
  intros Hr Hl Hf Hc. unfold quasar_Propose. destruct (c !! i) as [n|] eqn:En; [|done]. cbn [mbind option_bind].
  pose proof (Forall_lookup_1 _ _ _ _ Hc En) as Hv. cbn in Hv.
  destruct (eng_Add _ _ _ _ _) as [e ok] eqn:Ea. destruct ok; cbn [negb].
  2: { intros [= <- <- <-]. apply Hr in Ea. subst e. apply Forall_insert; [done|]. by rewrite <-Hv. }
  set (g := sequenced f n) in *. assert (frame_ok g) as Hg by (by apply sequenced_ok).
  set (body := env_bytes (RJson (frame_json g))) in *. set (id := frameID g body) in *.
  set (m := q_with _ _ _ n). assert (decided g v = if polled (looks i) id m then (view (accept g id m), true) else (view (time_out id m), false)) as Hd.
  { rewrite <-Hv. unfold decided, polled, view. fold body id. rewrite Ea, (proj2 (Nat.ltb_lt _ _) (Hl i)). by destruct (eng_IsAccepted _ _). }
  assert (∀ n', view n' = (decided g v).1 → lockstep (decided g v).1 (<[i := n']> (Broadcast i looks body (<[i := m]> c)))) as Hb.
  { intros n' Hn'. apply Forall_lookup_2. intros j k Hk. destruct (decide (j = i)) as [->|Hj].
    - apply list_lookup_insert_Some in Hk as [(_ & -> & _)|[? _]]; done.
    - rewrite list_lookup_insert_ne in Hk by done. unfold Broadcast in Hk. rewrite list_lookup_imap, list_lookup_insert_ne in Hk by done.
      destruct (c !! j) as [nj|] eqn:Ej; [|done]. cbn in Hk. rewrite decide_False in Hk by done. injection Hk as <-.
      cbn. subst body. rewrite handle_decided by done. by rewrite (Forall_lookup_1 _ _ _ _ Hc Ej). }
  destruct (polled (looks i) id m); intros [= <- <- <-]; (split; [by rewrite Hd|apply Hb; by rewrite Hd]).
Qed.

End Agree.

(** ** Votes *)

(** The votes an engine has for a block, and its threshold. *)
Section Votes.
Context {E X : Type} `{Engine E} `{JsonText} (voters : ID → E → gset VoterID) (alpha : nat).
Abbreviation node := (replica E X).
Hypothesis vote_counts : ∀ id id' t v sig e, voters id' (eng_RecordVote id t v sig e).1 ⊆ voters id' e ∪ {[v]}.
Hypothesis add_counts : ∀ id id' par h body e, voters id' (eng_Add id par h body e).1 ⊆ voters id' e.
Hypothesis threshold : ∀ id e, eng_IsAccepted id e = true → (alpha ≤ size (voters id e))%nat.

(** Nobody but the nameless voter has voted. *)
Definition unheard (n : node) : Prop := ∀ id, voters id (q_engine n) ⊆ {[no_voter]}.

Lemma unheard_vote (n : node) e pending height id par h body :
  unheard n → e = (eng_RecordVote id VoteCommit no_voter "" (eng_Add id par h body (q_engine n)).1).1 → unheard (q_with e pending height n).
Proof. intros Hn -> id'. cbn. etrans; [apply vote_counts|]. specialize (Hn id'). specialize (add_counts id id' par h body (q_engine n)). set_solver. Qed.
Lemma unheard_polled looks id (n : node) : (1 < alpha)%nat → unheard n → polled looks id n = false.
Proof.
  intros Ha Hn. unfold polled. destruct (eng_IsAccepted id (q_engine n)) eqn:Ex; [|by rewrite andb_false_r]. apply threshold in Ex.
  pose proof (subseteq_size _ _ (Hn id)) as Hs. rewrite size_singleton in Hs. lia.
Qed.
Lemma unheard_handle looks payload (n : node) : (1 < alpha)%nat → unheard n → unheard (handleFrame looks payload n) ∧ q_state (handleFrame looks payload n) = q_state n.
Proof.
  intros Ha Hn. unfold handleFrame. destruct (read_frame payload) as [f|]; [|done]. set (m := q_with _ _ _ _).
  assert (unheard m) as Hm by (by eapply unheard_vote). by rewrite unheard_polled.
Qed.
Lemma unheard_propose i looks f c c' f' d : (1 < alpha)%nat → Forall unheard c → quasar_Propose i looks f c = Some (c', f', d) →
  Forall unheard c' ∧ d ≠ DecisionAccept ∧ q_state <$> c' = q_state <$> c.
Proof.
  intros Ha Hc. unfold quasar_Propose. destruct (c !! i) as [n|] eqn:En; [|done]. cbn [mbind option_bind].
  pose proof (Forall_lookup_1 _ _ _ _ Hc En) as Hn. destruct (eng_Add _ _ _ _ _) as [e ok] eqn:Ea. destruct ok; cbn [negb].
  2: { intros [= <- <- <-]. split_and!; [|done|].
       - apply Forall_insert; [done|]. intros id. cbn. pose proof (add_counts (frameID (sequenced f n) (env_bytes (RJson (frame_json (sequenced f n))))) id (q_parent n) (f_Seq (sequenced f n)) (env_bytes (RJson (frame_json (sequenced f n)))) (q_engine n)) as Hx. rewrite Ea in Hx. specialize (Hn id). set_solver.
       - rewrite list_fmap_insert. apply list_insert_id. by rewrite list_lookup_fmap, En. }
  set (m := q_with _ _ _ n). assert (unheard m) as Hm by (eapply unheard_vote; [done|]; by rewrite Ea).
  rewrite unheard_polled by done. intros [= <- <- <-]. split_and!; [|done|].
  - apply Forall_lookup_2. intros j k Hk. destruct (decide (j = i)) as [->|Hj].
    + by apply list_lookup_insert_Some in Hk as [(_ & <- & _)|[? _]].
    + rewrite list_lookup_insert_ne in Hk by done. unfold Broadcast in Hk. rewrite list_lookup_imap, list_lookup_insert_ne in Hk by done.
      destruct (c !! j) as [nj|] eqn:Ej; [|done]. cbn in Hk. rewrite decide_False in Hk by done. injection Hk as <-.
      apply unheard_handle; [done|]. by apply (Forall_lookup_1 _ _ _ _ Hc Ej).
  - apply list_eq. intros j. rewrite !list_lookup_fmap. destruct (decide (j = i)) as [->|Hj].
    + rewrite list_lookup_insert_eq; [by rewrite En|]. unfold Broadcast. rewrite length_imap, length_insert. by eapply lookup_lt_Some.
    + rewrite list_lookup_insert_ne by done. unfold Broadcast. rewrite list_lookup_imap, list_lookup_insert_ne by done.
      destruct (c !! j) as [nj|] eqn:Ej; [|done]. cbn. rewrite decide_False by done. f_equal. apply unheard_handle; [done|]. by apply (Forall_lookup_1 _ _ _ _ Hc Ej).
Qed.

(** (C27) With a threshold above one nothing is ever decided: no node sends its vote to
    another and all of them vote under one and the same name, so when the engines ask for
    two voters no proposal of any node is accepted, and no write reaches any shard. *)
Theorem quasar_never_decides ps looks c c' fs ds :
  (1 < alpha)%nat → Forall unheard c → proposals ps looks c = Some (c', fs, ds) →
  fs = [] ∧ Forall (λ d, d ≠ DecisionAccept) ds ∧ q_state <$> c' = q_state <$> c.
Proof.
  intros Ha. revert c c' fs ds. induction ps as [|[i f] ps IH]; intros c c' fs ds Hc; cbn [proposals]; [by intros [= <- <- <-]|].
  destruct (quasar_Propose i looks f c) as [[[c1 f'] d]|] eqn:E1; [|done]. cbn [mbind option_bind].
  destruct (proposals ps looks c1) as [[[c2 fs2] ds2]|] eqn:E2; [|done]. cbn [mbind option_bind]. intros [= <- <- <-].
  destruct (unheard_propose _ _ _ _ _ _ _ Ha Hc E1) as (Hc1 & Hd & Hs). destruct (IH _ _ _ _ Hc1 E2) as (-> & Hf & Hs2).
  split_and!; [by destruct d|by apply Forall_cons|congruence].
Qed.
End Votes.

Module QuasarDemo.
#[local] Existing Instance text_env.
#[local] Existing Instance text_env_text.

(** An engine that accepts a block it knows when [alpha] voters have voted for it. *)
Record ballots := { b_known : gset ID; b_votes : gmap ID (gset VoterID) }.
Definition votes_for (id : ID) (b : ballots) : gset VoterID := default ∅ (b_votes b !! id).
Definition no_ballots : ballots := {| b_known := ∅; b_votes := ∅ |}.
Definition ballot_box (alpha : nat) : Engine ballots := {|
  eng_Add id _ _ _ b := ({| b_known := {[id]} ∪ b_known b; b_votes := b_votes b |}, true);
  eng_RecordVote id _ v _ b := ({| b_known := b_known b; b_votes := <[id := {[v]} ∪ votes_for id b]> (b_votes b) |}, true);
  eng_IsAccepted id b := bool_decide (id ∈ b_known b) && (alpha <=? size (votes_for id b))%nat;
  VoteCommit := 2 |}.

(** Every replica writes to its own shards. *)
Definition apply_world (f : Frame) (w : world) : world := (frame_handler f w).1.
Definition fresh_replica : replica ballots world :=
  match NewQuasar (λ _, (1, 1)) (λ _ _, Some no_ballots) "node" true ["a"; "b"; "c"] (new_world true) with
  | inr n => q_Subscribe apply_world n
  | inl _ => {| q_engine := no_ballots; q_handlers := []; q_pending := ∅; q_height := 0; q_parent := []; q_closed := true; q_accepted := 0; q_timeouts := 0; q_state := new_world true |}
  end.
Definition three : list (replica ballots world) := replicate 3 fresh_replica.
Definition put (k : string) (v : Z) : Frame := {| f_Principal := Principal_String (tenant "acme"); f_Namespace := "default"; f_Seq := 0; f_Op := "put"; f_Key := k; f_Value := JNum v |}.
Definition plan : list (nat * Frame) := [(0, put "a" 1); (2, put "a" 2); (1, put "b" 3)]%nat.
Definition once (j : nat) : nat := 1.
Definition outcome_at (alpha : nat) : option (list (replica ballots world) * list Frame * list Decision_) := proposals (H := ballot_box alpha) plan once three.
Definition nodes_at (alpha : nat) : list (replica ballots world) := match outcome_at alpha with Some (c, _, _) => c | None => [] end.
Definition row_at (k : string) (n : replica ballots world) : option json := shard_table (tenant "acme") "default" (q_state n) !! k.

Lemma clean alpha : refuses_cleanly (H := ballot_box alpha).
Proof. done. Qed.
Lemma once_looks j : (0 < once j)%nat.
Proof. unfold once. lia. Qed.
Lemma plan_ok : Forall (λ q, frame_ok q.2) plan.
Proof. repeat (apply Forall_cons; split; [by split|]). by apply Forall_nil. Qed.
Lemma alike : lockstep (no_ballots, GenesisID, [apply_world], new_world true) three.
Proof. by repeat (apply Forall_cons; split; [done|]). Qed.

Lemma runs_at : bool_decide (is_Some (outcome_at 1)) && bool_decide (is_Some (outcome_at 2)) = true.
Proof. by vm_compute. Qed.
Lemma outcome1 : is_Some (outcome_at 1).
Proof. exact (bool_decide_eq_true_1 _ (proj1 (andb_prop _ _ runs_at))). Qed.
Lemma outcome2 : is_Some (outcome_at 2).
Proof. exact (bool_decide_eq_true_1 _ (proj2 (andb_prop _ _ runs_at))). Qed.

Lemma box_votes alpha id id' t v sig (e : ballots) : votes_for id' (eng_RecordVote (Engine := ballot_box alpha) id t v sig e).1 ⊆ votes_for id' e ∪ {[v]}.
Proof. cbn. unfold votes_for. cbn. destruct (decide (id = id')) as [->|Hne]; [rewrite lookup_insert_eq; cbn; set_solver|rewrite lookup_insert_ne by done; set_solver]. Qed.
Lemma box_adds alpha id id' par h body (e : ballots) : votes_for id' (eng_Add (Engine := ballot_box alpha) id par h body e).1 ⊆ votes_for id' e.
Proof. done. Qed.
Lemma box_alpha alpha id (e : ballots) : eng_IsAccepted (Engine := ballot_box alpha) id e = true → (alpha ≤ size (votes_for id e))%nat.
Proof. cbn. intros [_ Hx]%andb_prop. by apply Nat.leb_le. Qed.
Lemma silent : Forall (unheard votes_for) three.
Proof. repeat (apply Forall_cons; split; [by intros id|]). by apply Forall_nil. Qed.
Lemma quasar_never_decides_witness :
  ∃ c' fs ds, outcome_at 2 = Some (c', fs, ds) ∧ (fs = [] ∧ Forall (λ d, d ≠ DecisionAccept) ds ∧ q_state <$> c' = q_state <$> three).
Proof.
  destruct outcome2 as [[[c' fs] ds] Ep]. exists c', fs, ds. split; [exact Ep|].
  exact (quasar_never_decides (H := ballot_box 2) votes_for 2 (box_votes 2) (box_adds 2) (box_alpha 2) plan once three c' fs ds ltac:(lia) silent Ep).
Defined.
End QuasarDemo.
