(* ===== verification/TaskClient.v ===== *)
(** The embedded task client ([pkg/tasks/client.go]): recurring and one-shot tasks, run by
    the server when there is one that takes them and by this process otherwise. *)

From Corelib Require Import SpecFloat.
From Stdlib Require Import Ascii ZArith Lia.
From stdpp Require Import prelude strings gmap.
From S2P Require Import Prelude GoStrings Base64 Json Types EngineTypes Env Principal GoTime Temporal GoDuration Dispatch Events World WorldFacts Workflow Schedules Admin Surface Zap Channel Coroutine Worker Client Frames RunInv Reach Serves ClientSpec.

Local Open Scope Z_scope.

(** ** [time.Duration.String] *)

Fixpoint fmtFrac (prec : nat) (v : Z) (out : string) (print : bool) : string * Z :=
  match prec with
  | O => (if print then "." +:+ out else out, v)
  | S prec =>
      let print := print || negb (v mod 10 =? 0) in
      fmtFrac prec (v / 10) (if print then itoa (v mod 10) +:+ out else out) print
  end.
Definition with_frac (prec : nat) (u : Z) (unit : string) : string := let '(frac, v) := fmtFrac prec u "" false in itoa v +:+ frac +:+ unit.
Definition Duration_String (d : Z) : string :=
  let u := Z.abs d in
  let text :=
    if u =? 0 then "0s"
    else if u <? Microsecond then itoa u +:+ "ns"
    else if u <? Millisecond then with_frac 3 u "µs"
    else if u <? Second then with_frac 6 u "ms"
    else
      let '(frac, v) := fmtFrac 9 u "" false in
      let secs := itoa (v mod 60) +:+ frac +:+ "s" in
      let m := v / 60 in
      if m =? 0 then secs
      else let mins := itoa (m mod 60) +:+ "m" +:+ secs in
           let h := m / 60 in if h =? 0 then mins else itoa h +:+ "h" +:+ mins in
  if d <? 0 then "-" +:+ text else text.

Example durations :
  Duration_String <$> [0; 17; 1500; 2 * Millisecond; 30 * Second; 90 * Second; 24 * Hour; 1500 * Millisecond; - (5 * Minute)] =
  ["0s"; "17ns"; "1.5µs"; "2ms"; "30s"; "1m30s"; "24h0m0s"; "1.5s"; "-5m0s"].
Proof. by vm_compute. Qed.
Example durations_back :
  (λ d, ParseDuration (Duration_String d)) <$> [0; 17; 1500; 2 * Millisecond; 30 * Second; 90 * Second; 24 * Hour; 1500 * Millisecond; - (5 * Minute)] =
  Some <$> [0; 17; 1500; 2 * Millisecond; 30 * Second; 90 * Second; 24 * Hour; 1500 * Millisecond; - (5 * Minute)].
Proof. by vm_compute. Qed.

(** ** The client *)

Inductive cadence := Every (d : Z) | Cron (expr : string).
(** A goroutine of a local schedule; [ru_live] until its context is cancelled. *)
Record runner := { ru_name : string; ru_cadence : cadence; ru_live : bool }.
Record taskClient := {
  tc_zapAddr : string;
  tc_handler : bool;                         (* a handler is set *)
  tc_schedules : gmap string nat;            (* the cancel function of each local schedule *)
  tc_runners : list runner;
  tc_zap : option (option string);           (* [zapOnce]: not run, or its error *)
  tc_direct : list (string * goany);         (* tasks handed to the handler *)
  tc_panicked : bool }.                      (* a goroutine died, and the process with it *)
Definition New (zapAddr : string) (handler : bool) : taskClient :=
  {| tc_zapAddr := zapAddr; tc_handler := handler; tc_schedules := ∅; tc_runners := []; tc_zap := None; tc_direct := []; tc_panicked := false |}.

Definition with_local (sch : gmap string nat) (rs : list runner) (panicked : bool) (c : taskClient) : taskClient :=
  {| tc_zapAddr := tc_zapAddr c; tc_handler := tc_handler c; tc_schedules := sch; tc_runners := rs; tc_zap := tc_zap c; tc_direct := tc_direct c; tc_panicked := panicked |}.
Definition with_zap (z : option (option string)) (direct : list (string * goany)) (c : taskClient) : taskClient :=
  {| tc_zapAddr := tc_zapAddr c; tc_handler := tc_handler c; tc_schedules := tc_schedules c; tc_runners := tc_runners c; tc_zap := z; tc_direct := direct; tc_panicked := tc_panicked c |}.

(** [SetDefault] and [Default]; [addr] is the environment's [TASKS_ZAP]. *)
Definition Default (addr : string) (installed : option taskClient) : taskClient := match installed with Some c => c | None => New addr false end.

Definition cancelled (r : runner) : runner := {| ru_name := ru_name r; ru_cadence := ru_cadence r; ru_live := false |}.
(** [old()], then a goroutine of its own; a ticker of no positive interval panics in it. *)
Definition add_local (name : string) (k : cadence) (c : taskClient) : taskClient :=
  let rs := match tc_schedules c !! name with Some i => alter cancelled i (tc_runners c) | None => tc_runners c end in
  with_local (<[name := length rs]> (tc_schedules c)) (rs ++ [{| ru_name := name; ru_cadence := k; ru_live := true |}])
    (tc_panicked c || match k with Every d => d <=? 0 | Cron _ => false end) c.
Definition addLocalInterval (name : string) (d : Z) (c : taskClient) : taskClient := add_local name (Every d) c.
Definition addLocalCron `{Env} (name expr : string) (c : taskClient) : taskClient :=
  match env_cron expr with None => c | Some _ => add_local name (Cron expr) c end.
(** [Stop]: every canceller is called and forgotten. *)
Definition Stop (c : taskClient) : taskClient :=
  with_local ∅ (foldr (alter cancelled) (tc_runners c) (map_to_list (tc_schedules c)).*2) (tc_panicked c) c.
Definition execDirect (taskType : string) (payload : goany) (c : taskClient) : taskClient :=
  if tc_handler c then with_zap (tc_zap c) (tc_direct c ++ [(taskType, payload)]) c else c.

Section Durable.
Context `{Env} {S : Type} `{Transport S}.
(** Whether the node reaches an address. *)
Context (connects : string → bool).

Definition connectZAP (c : taskClient) : taskClient * option string :=
  match tc_zap c with
  | Some e => (c, e)
  | None => let e := if connects (tc_zapAddr c) then None else Some ("taskqueue: zap connect " +:+ tc_zapAddr c) in (with_zap (Some e) (tc_direct c) c, e)
  end.
(** [callDurable]; the body is [None] when it does not marshal. *)
Definition callDurable (op : Z) (body : option json) (c : taskClient) (s : S) : taskClient * S * option string :=
  let '(c, e) := connectZAP c in
  match e, body with
  | Some why, _ => (c, s, Some why)
  | None, None => (c, s, Some "taskqueue: marshal")
  | None, Some b =>
      match transport_Call op (PBody (RJson b)) s with
      | (s, inl why) => (c, s, Some ("taskqueue: zap call: " +:+ why))
      | (s, inr e) => (c, s, if negb (ev_status e =? 0) && negb (ev_status e =? 200) then Some ("taskqueue: zap status: " +:+ ev_error e) else None)
      end
  end.

Definition submit_body (taskType : string) (payload : json) : json :=
  JObj [("input", payload); ("namespace", JStr "default"); ("task_queue", JStr "ats"); ("workflow_type", JStr taskType)].
Definition submitZAP (taskType : string) (payload : goany) := callDurable op_StartWorkflow (submit_body taskType <$> marshal_any payload).
Definition scheduleEnvelope (name : string) (spec : json) : json :=
  JObj [("namespace", JStr "default");
        ("schedule", JObj [("action", JObj [("task_queue", JStr "ats"); ("workflow_type", JStr name)]); ("spec", spec)]);
        ("schedule_id", JStr name)].
Definition scheduleIntervalZAP (name : string) (d : Z) :=
  callDurable op_CreateSchedule (Some (scheduleEnvelope name (JObj [("interval", JArr [JObj [("interval", JStr (Duration_String d))]])]))).
Definition scheduleCronZAP (name expr : string) :=
  callDurable op_CreateSchedule (Some (scheduleEnvelope name (JObj [("cron", JArr [JStr expr])]))).

(** The server first, if there is one; this process otherwise. *)
Definition add_either (durable : taskClient → S → taskClient * S * option string) (loc : taskClient → taskClient) (c : taskClient) (s : S) : taskClient * S :=
  if String.eqb (tc_zapAddr c) "" then (loc c, s)
  else match durable c s with (c, s, None) => (c, s) | (c, s, Some _) => (loc c, s) end.
Definition addInterval (name : string) (d : Z) := add_either (scheduleIntervalZAP name d) (addLocalInterval name d).
Definition addCron (name expr : string) := add_either (scheduleCronZAP name expr) (addLocalCron name expr).

Inductive add_error := EmptySchedule | NotASchedule.
Definition Add (name spec : string) (c : taskClient) (s : S) : taskClient * S * option add_error :=
  let spec := trim_space spec in
  if String.eqb spec "" then (c, s, Some EmptySchedule)
  else match ParseDuration spec with
       | Some d => (addInterval name d c s, None)
       | None => match env_cron spec with
                 | None => (c, s, Some NotASchedule)
                 | Some _ => (addCron name spec c s, None)
                 end
       end.
Definition Now (taskType : string) (payload : goany) (c : taskClient) (s : S) : taskClient * S :=
  if String.eqb (tc_zapAddr c) "" then (execDirect taskType payload c, s)
  else match submitZAP taskType payload c s with
       | (c, s, None) => (c, s)
       | (c, s, Some _) => (execDirect taskType payload c, s)
       end.
End Durable.

(** ** Local schedules *)

(** The runners that are live are those of the table, each under its own name. *)
Record runners_ok (c : taskClient) : Prop := {
  ro_live : ∀ i r, tc_runners c !! i = Some r → ru_live r = true ↔ tc_schedules c !! ru_name r = Some i;
  ro_named : ∀ name i, tc_schedules c !! name = Some i → ∃ r, tc_runners c !! i = Some r ∧ ru_name r = name }.

Lemma lookup_cancel (j i : nat) (rs : list runner) : (alter cancelled j rs : list runner) !! i = if decide (i = j) then cancelled <$> rs !! i else rs !! i.
Proof. destruct (decide (i = j)) as [->|Hij]; [apply list_lookup_alter_eq|by apply list_lookup_alter_ne]. Qed.
Lemma lookup_cancel_all (l : list nat) (i : nat) (rs : list runner) : foldr (alter cancelled) rs l !! i = if decide (i ∈ l) then cancelled <$> rs !! i else rs !! i.
Proof.
  induction l as [|j l IH]; cbn [foldr]; [by rewrite decide_False by apply not_elem_of_nil|]. rewrite lookup_cancel, IH.
  destruct (decide (i = j)) as [->|Hij].
  - rewrite (decide_True _ _ (list_elem_of_here j l)). destruct (decide (j ∈ l)); [|done]. by destruct (rs !! j).
  - destruct (decide (i ∈ l)) as [Hl|Hl]; [by rewrite decide_True by (by apply list_elem_of_further)|]. rewrite decide_False; [done|]. rewrite elem_of_cons. tauto.
Qed.

Lemma add_local_ok name k c : runners_ok c → runners_ok (add_local name k c).
Proof.
  intros [Hl Hn]. unfold add_local. set (rs := match _ with Some i => _ | None => _ end).
  assert (∀ i r, rs !! i = Some r → ∃ r0, tc_runners c !! i = Some r0 ∧ ru_name r = ru_name r0 ∧
            ru_live r = if decide (tc_schedules c !! name = Some i) then false else ru_live r0) as Hrs.
  { intros i r. subst rs. destruct (tc_schedules c !! name) as [j|] eqn:Ej; [|intros Hr; by exists r].
    rewrite lookup_cancel. destruct (decide (i = j)) as [->|Hij].
    - destruct (tc_runners c !! j) as [r0|]; [|done]. intros [= <-]. exists r0. by rewrite decide_True.
    - intros Hr. exists r. rewrite decide_False by congruence. done. }
  assert (length rs = length (tc_runners c)) as Hlen by (subst rs; case_match; by rewrite ?length_alter).
  split; cbn [with_local tc_runners tc_schedules].
  - intros i r Hr. apply lookup_app_Some in Hr as [Hr|[Hge Hr]].
    + destruct (Hrs _ _ Hr) as (r0 & H0 & En & Eli). rewrite Eli, En. pose proof (lookup_lt_Some _ _ _ Hr) as Hlt.
      destruct (decide (ru_name r0 = name)) as [E|Hne].
      * rewrite E, lookup_insert_eq. split; [|intros [= <-]; lia]. intros Hx. destruct (decide _) as [|Hd]; [done|]. destruct Hd. rewrite <-E. by apply (Hl i r0).
      * rewrite lookup_insert_ne by done. rewrite decide_False; [by apply Hl|]. intros Hx. destruct (Hn _ _ Hx) as (r1 & H1 & E1). congruence.
    + apply list_lookup_singleton_Some in Hr as [Hi <-]. cbn. rewrite lookup_insert_eq. split; [intros _; f_equal; lia|done].
  - intros name' i. destruct (decide (name' = name)) as [->|Hne].
    + rewrite lookup_insert_eq. intros [= <-]. eexists. rewrite lookup_app_r by lia. rewrite Nat.sub_diag. by split.
    + rewrite lookup_insert_ne by done. intros Hx. destruct (Hn _ _ Hx) as (r & Hr & En).
      assert (is_Some (rs !! i)) as [r' Hr'] by (apply lookup_lt_is_Some; rewrite Hlen; by eapply lookup_lt_Some).
      destruct (Hrs _ _ Hr') as (r0 & H0 & E0 & _). exists r'. split; [by apply lookup_app_l_Some|congruence].
Qed.
Lemma stop_ok c : runners_ok c → runners_ok (Stop c) ∧ Forall (λ r, ru_live r = false) (tc_runners (Stop c)).
Proof.
  intros [Hl Hn]. assert (∀ i r, tc_runners (Stop c) !! i = Some r → ru_live r = false) as Hd.
  { intros i r. cbn. rewrite lookup_cancel_all. destruct (decide _) as [|Hni].
    - destruct (tc_runners c !! i); [|done]. by intros [= <-].
    - intros Hr. apply not_true_is_false. intros Hx%(Hl i r Hr). destruct Hni. apply list_elem_of_fmap. exists (ru_name r, i). split; [done|]. by apply elem_of_map_to_list. }
  split; [|by apply Forall_lookup_2].
  split; cbn [Stop with_local tc_schedules]; [|done]. intros i r Hr. rewrite (Hd i r Hr), lookup_empty. done.
Qed.

Section Local.
Context `{Env} {S : Type} `{Transport S} (connects : string → bool).

Inductive tc_op := OpAdd (name spec : string) | OpNow (taskType : string) (payload : goany) | OpStop.
Definition tc_step (x : taskClient * S) (o : tc_op) : taskClient * S :=
  match o with
  | OpAdd name spec => (Add connects name spec x.1 x.2).1
  | OpNow ty payload => Now connects ty payload x.1 x.2
  | OpStop => (Stop x.1, x.2)
  end.

Lemma callDurable_local op body c s : runners_ok c → runners_ok (callDurable connects op body c s).1.1.
Proof. intros [Hl Hn]. unfold callDurable, connectZAP. repeat case_match; simplify_eq; by split. Qed.
Lemma add_either_ok durable loc c s : runners_ok c → (∀ c s, runners_ok c → runners_ok (durable c s).1.1) → (∀ c, runners_ok c → runners_ok (loc c)) →
  runners_ok (add_either (S := S) durable loc c s).1.
Proof. intros Hc Hd Hl. unfold add_either. case_match; [by apply Hl|]. specialize (Hd c s Hc). destruct (durable c s) as [[c' s'] [e|]]; [by apply Hl|done]. Qed.
Lemma tc_step_ok x o : runners_ok x.1 → runners_ok (tc_step x o).1.
Proof.
  intros Hx. destruct o as [name spec|ty payload|]; cbn [tc_step].
  - unfold Add. repeat case_match; try done; apply add_either_ok; try done; intros; try (by apply callDurable_local).
    + by apply add_local_ok.
    + unfold addLocalCron. case_match; [by apply add_local_ok|done].
  - unfold Now, execDirect. case_match; [case_match; [|done]; destruct Hx; by split|].
    pose proof (callDurable_local op_StartWorkflow (submit_body ty <$> marshal_any payload) x.1 x.2 Hx) as Hs. unfold submitZAP.
    destruct (callDurable _ _ _ _ _) as [[c' s'] [e|]]; [|done]. cbn in Hs. case_match; [destruct Hs; by split|done].
  - by apply stop_ok.
Qed.

(** One runner per name: after any calls of the client, a name has at most one local
    schedule still running, the one that was added last without being taken by the server,
    and stopping leaves none. *)
Theorem one_runner_per_name zapAddr handler s ops i j r r' :
  let c := (foldl tc_step (New zapAddr handler, s) ops).1 in
  tc_runners c !! i = Some r → tc_runners c !! j = Some r' →
  (ru_live r = true → ru_live r' = true → ru_name r = ru_name r' → i = j) ∧
  (ru_live r = true ↔ tc_schedules c !! ru_name r = Some i) ∧
  Forall (λ r, ru_live r = false) (tc_runners (Stop c)).
Proof.
  intros c Hi Hj. assert (runners_ok c) as Hc.
  { subst c. assert (runners_ok (New zapAddr handler, s).1) as Hnew by (by split). revert Hnew. generalize (New zapAddr handler, s). clear Hi Hj.
    induction ops as [|o ops IH]; intros x Hx; cbn [foldl]; [done|]. by apply IH, tc_step_ok. }
  split_and!; [|by apply Hc|by apply stop_ok].
  intros Hr Hr' En. apply (ro_live c Hc i r Hi) in Hr. apply (ro_live c Hc j r' Hj) in Hr'. rewrite En, Hr' in Hr. by simplify_eq.
Qed.
End Local.

(** ** The server *)

Section Server.
Context `{Env} (wording : err → string) (defaultNS : string) (validator : option (string → string)) (requireID : bool) (from : string) (during : server → server).
Context (connects : string → bool).
#[local] Instance tlink : Transport server := zapTransport wording defaultNS validator requireID from None during.

(** The schedule the server receives. *)
Definition task_schedule (name : string) (spec : Types.ScheduleSpec) : Types.Schedule :=
  {| ScheduleId := name; sc_Namespace := "default"; Spec := spec;
     Action := {| sa_WorkflowType := {| TypeName := name |}; sa_TaskQueue := "ats"; sa_Input := JNull |};
     State := {| Paused := false; Note := "" |}; Types.Info := zero |}.
Definition interval_spec (d : Z) : Types.ScheduleSpec := {| CronString := []; IntervalList := [{| Interval := Duration_String d; Phase := "" |}] |}.
Definition cron_spec (expr : string) : Types.ScheduleSpec := {| CronString := [expr]; IntervalList := [] |}.
(** A call of the engine by the client, and what is done when it fails. *)
Definition durable_or {A} (m : W A) (otherwise : taskClient → taskClient) (c : taskClient) (s : server) : taskClient * server :=
  let '(w, r) := m (sv_world s) in
  (match r with inr _ => c | inl _ => otherwise c end, {| sv_world := w; sv_workers := sv_workers s |}).

Lemma callDurable_wrapped {A} p op fn o c s code (f : A → json) m :
  scope validator requireID [] = inr p → tc_zap c = Some None →
  opcode_of (FrameBody op (PBody RNone)).2 = op → zapHandlers wording defaultNS validator requireID op = Some (wrap validator requireID fn) →
  assoc "auth_token" o = None → fn p o (sv_world s) = give_or wording code f m (sv_world s) → (code =? 0) = false → (code =? 200) = false →
  ∃ why, callDurable connects op (Some (JObj o)) c s =
    (c, {| sv_world := (m (sv_world s)).1; sv_workers := sv_workers s |}, match (m (sv_world s)).2 with inr _ => None | inl _ => Some why end).
Proof.
  intros Hp Hc Hop Hh Ho Hf H0 H2. unfold callDurable, connectZAP. rewrite Hc.
  pose proof (call_wrapped wording defaultNS validator requireID from None during p ltac:(done) Hp op fn o s Hop Hh Ho) as Ec.
  change (link wording defaultNS validator requireID from None during) with tlink in Ec. rewrite Ec.
  change (authed None o) with o. rewrite Hf. unfold give_or, run_op, attempt, mbind, M_bind.
  destruct (m (sv_world s)) as [w [e|a]]; [|by exists ""]. destruct e; cbn; rewrite ?H0, ?H2; by eexists.
Qed.
Lemma callDurable_refused why op h o c s :
  scope validator requireID [] = inl why → tc_zap c = Some None →
  opcode_of (FrameBody op (PBody RNone)).2 = op → zapHandlers wording defaultNS validator requireID op = Some (wrap validator requireID h) →
  assoc "auth_token" o = None → ∃ why', callDurable connects op (Some (JObj o)) c s = (c, s, Some why').
Proof.
  intros Hp Hc Hop Hh Ho. unfold callDurable, connectZAP. rewrite Hc. unfold transport_Call, tlink, zapTransport, zap_Call. cbn [attach].
  unfold FrameBody. cbn [FrameBody snd] in Hop. rewrite Hop, Hh. unfold wrap, wrapPeer. cbn [frame_of request_of].
  assert (scope validator requireID o = inl why) as ->; [|by eexists].
  rewrite <-Hp. unfold scope, str. by rewrite Ho.
Qed.

Lemma start_request_read p taskType j :
  opStartWorkflow wording defaultNS p [("input", j); ("namespace", JStr "default"); ("task_queue", JStr "ats"); ("workflow_type", JStr taskType)] =
  give_or wording 400 run_ref (startWorkflowFull p "default" "" "" {| TypeName := taskType |} "ats" j "" ∅ JNull "").
Proof.
  unfold opStartWorkflow. set (o := [_; _; _; _]). assert (strOr o "workflow_type" (str (obj (any o "workflowType")) "name") = taskType) as -> by (by destruct taskType).
  assert (attributes o "search_attributes" = ∅) as -> by done. reflexivity.
Qed.
Lemma schedule_request_read p name spec sp :
  name ≠ "" → Spec (scheduleFromSDK [("schedule", JObj [("spec", spec)])] "") = sp →
  opCreateSchedule wording defaultNS p [("namespace", JStr "default");
      ("schedule", JObj [("action", JObj [("task_queue", JStr "ats"); ("workflow_type", JStr name)]); ("spec", spec)]); ("schedule_id", JStr name)] =
  give_or wording 400 (λ _, scheduleSDK (task_schedule name sp)) (Schedules.CreateSchedule p (task_schedule name sp)).
Proof.
  intros Hn <-. unfold opCreateSchedule. set (o := [_; _; _]). assert (scheduleFromSDK o defaultNS = task_schedule name (Spec (scheduleFromSDK [("schedule", JObj [("spec", spec)])] ""))) as ->.
  { unfold scheduleFromSDK, task_schedule. by destruct name. }
  cbn [ScheduleId task_schedule]. by rewrite (proj2 (String.eqb_neq _ _) Hn).
Qed.

(** (C36) A task is run once, by the server or by this process: with a connection, a
    one-shot task is the start of a run of its type on the queue of the client, with the
    payload as its input, and when the engine refuses it the handler gets it instead; a
    recurring task is the schedule of its name with the interval or crontab it was given,
    and when the engine refuses that a local runner is started; and a server that requires
    an identity takes none of them, for this client sends no token. *)
Theorem task_runs_once c s taskType payload j name d expr :
  tc_zapAddr c ≠ "" → tc_zap c = Some None → marshal_any payload = Some j → name ≠ "" →
  match scope validator requireID [] with
  | inr p =>
      Now connects taskType payload c s =
        durable_or (startWorkflowFull p "default" "" "" {| TypeName := taskType |} "ats" j "" ∅ JNull "") (execDirect taskType payload) c s ∧
      addInterval connects name d c s = durable_or (Schedules.CreateSchedule p (task_schedule name (interval_spec d))) (addLocalInterval name d) c s ∧
      addCron connects name expr c s = durable_or (Schedules.CreateSchedule p (task_schedule name (cron_spec expr))) (addLocalCron name expr) c s
  | inl _ =>
      Now connects taskType payload c s = (execDirect taskType payload c, s) ∧
      addInterval connects name d c s = (addLocalInterval name d c, s) ∧ addCron connects name expr c s = (addLocalCron name expr c, s)
  end.
Proof.
  intros Ha Hc Hj Hn. unfold Now, addInterval, addCron, add_either, submitZAP, scheduleIntervalZAP, scheduleCronZAP. rewrite (proj2 (String.eqb_neq _ _) Ha), Hj.
  cbn [fmap option_fmap option_map]. unfold submit_body, scheduleEnvelope, durable_or. destruct (scope validator requireID []) as [why|p] eqn:Hp.
  - split_and!;
      [destruct (callDurable_refused why op_StartWorkflow (opStartWorkflow wording defaultNS)
                   [("input", j); ("namespace", JStr "default"); ("task_queue", JStr "ats"); ("workflow_type", JStr taskType)] c s Hp Hc eq_refl eq_refl eq_refl) as [y ->]
      |match goal with |- context [callDurable _ _ (Some (JObj ?o)) _ _] => destruct (callDurable_refused why op_CreateSchedule (opCreateSchedule wording defaultNS) o c s Hp Hc eq_refl eq_refl eq_refl) as [y ->] end..]; done.
  - split_and!.
    + match goal with |- context [callDurable _ _ (Some (JObj ?o)) _ _] =>
        destruct (callDurable_wrapped p op_StartWorkflow (opStartWorkflow wording defaultNS) o c s 400 run_ref
          (startWorkflowFull p "default" "" "" {| TypeName := taskType |} "ats" j "" ∅ JNull "") Hp Hc eq_refl eq_refl eq_refl) as [y ->] end;
        [|done..|by destruct (startWorkflowFull _ _ _ _ _ _ _ _ _ _ _ _) as [w []]].
      exact (f_equal (λ m, m (sv_world s)) (start_request_read p taskType j)).
    + match goal with |- context [callDurable _ _ (Some (JObj ?o)) _ _] =>
        destruct (callDurable_wrapped p op_CreateSchedule (opCreateSchedule wording defaultNS) o c s 400 (λ _, scheduleSDK (task_schedule name (interval_spec d)))
          (Schedules.CreateSchedule p (task_schedule name (interval_spec d))) Hp Hc eq_refl eq_refl eq_refl) as [y ->] end;
        [|done..|by destruct (Schedules.CreateSchedule _ _ _) as [w []]].
      exact (f_equal (λ m, m (sv_world s)) (schedule_request_read p name (JObj [("interval", JArr [JObj [("interval", JStr (Duration_String d))]])]) (interval_spec d) Hn eq_refl)).
    + match goal with |- context [callDurable _ _ (Some (JObj ?o)) _ _] =>
        destruct (callDurable_wrapped p op_CreateSchedule (opCreateSchedule wording defaultNS) o c s 400 (λ _, scheduleSDK (task_schedule name (cron_spec expr)))
          (Schedules.CreateSchedule p (task_schedule name (cron_spec expr))) Hp Hc eq_refl eq_refl eq_refl) as [y ->] end;
        [|done..|by destruct (Schedules.CreateSchedule _ _ _) as [w []]].
      exact (f_equal (λ m, m (sv_world s)) (schedule_request_read p name (JObj [("cron", JArr [JStr expr])]) (cron_spec expr) Hn eq_refl)).
Qed.
End Server.

Module TaskDemo.
#[local] Existing Instance test_env.

Definition word (e : err) : string := "error".
Definition same (s : server) : server := s.
Definition fresh_server : server := {| sv_world := new_world true; sv_workers := newWorkerRegistry |}.
Definition near (a : string) : bool := true.
Definition open_wire : Transport server := zapTransport word "default" None false "tasks-sdk" None same.
Definition shut_wire : Transport server := zapTransport word "default" (Some (λ tok, tok)) true "tasks-sdk" None same.

Definition connected : taskClient := (connectZAP near (New "localhost:9999" true)).1.
Definition order_payload : goany := AnyJson (JObj [("id", JNum 7)]).
Definition runs_of (w : world) : list string := (λ wf, TypeName (Type_ wf)) <$> match (Workflow.ListWorkflows root "default" w).2 with inr l => l | inl _ => [] end.
Lemma task_runs_once_witness :
  runs_of (sv_world (Now (H0 := open_wire) near "settle" order_payload connected fresh_server).2) = ["settle"] ∧
  Now (H0 := open_wire) near "settle" order_payload connected fresh_server =
    durable_or (startWorkflowFull root "default" "" "" {| TypeName := "settle" |} "ats" (JObj [("id", JNum 7)]) "" ∅ JNull "") (execDirect "settle" order_payload) connected fresh_server.
Proof.
  split; [by vm_compute|].
  exact (proj1 (task_runs_once word "default" None false "tasks-sdk" same near connected fresh_server "settle" order_payload (JObj [("id", JNum 7)]) "settle" (30 * Second) "@daily"
           ltac:(by vm_compute) eq_refl eq_refl ltac:(by vm_compute))).
Defined.

(** Where an identity is required the handler runs every task. *)
Example refused_runs_here :
  tc_direct (Now (H0 := shut_wire) near "settle" order_payload connected fresh_server).1 = [("settle", order_payload)].
Proof. by vm_compute. Qed.

Definition locally (ops : list tc_op) : taskClient := (foldl (tc_step (H0 := open_wire) near) (New "" true, fresh_server) ops).1.
Definition twice : list tc_op := [OpAdd "settle" "30s"; OpAdd "settle" "1m"].
Lemma one_runner_per_name_witness :
  tc_runners (locally twice) =
    [{| ru_name := "settle"; ru_cadence := Every (30 * Second); ru_live := false |}; {| ru_name := "settle"; ru_cadence := Every Minute; ru_live := true |}] ∧
  Forall (λ r, ru_live r = false) (tc_runners (Stop (locally twice))).
Proof.
  split; [by vm_compute|].
  exact (proj2 (proj2 (one_runner_per_name (H0 := open_wire) near "" true fresh_server twice 0 1
           {| ru_name := "settle"; ru_cadence := Every (30 * Second); ru_live := false |} {| ru_name := "settle"; ru_cadence := Every Minute; ru_live := true |} eq_refl eq_refl))).
Defined.

(** A duration that is not positive stops the process. *)
Example zero_interval_panics : tc_panicked (locally [OpAdd "settle" "0s"]) = true.
Proof. by vm_compute. Qed.

(** A schedule the server takes leaves the local runner of that name running. *)
Example both_run :
  let c := (Add (H0 := shut_wire) near "settle" "30s" (New "localhost:9999" true) fresh_server).1.1 in
  let '(c, s) := (Add (H0 := open_wire) near "settle" "30s" c fresh_server).1 in
  (ru_live <$> tc_runners c, ScheduleId <$> match (Schedules.ListSchedules root "default" (sv_world s)).2 with inr l => l | inl _ => [] end) = ([true], ["settle"]).
Proof. by vm_compute. Qed.
End TaskDemo.
