(* ===== verification/Auth.v ===== *)
(** Who is asking over HTTP ([pkg/auth], and the mux of [cmd/tasksd/main.go]): the middleware
    that makes a request's identity out of its token, the routes that have it and the ones
    that do not. The verifier and the names of the identity headers are another module's. *)

From Corelib Require Import SpecFloat.
From Stdlib Require Import Ascii ZArith Lia.
From stdpp Require Import prelude strings gmap.
From S2P Require Import Prelude GoStrings Base64 Json Types EngineTypes Env Principal Routing World WorldFacts Workflow Admin Surface Mcp Reach Serves SurfaceSpec.

Local Open Scope Z_scope.

(** ** The middleware *)

Abbreviation headers := (gmap string string).
(** What [edge.Verifier.Verify] answers: the effective organization, the project, the user
    and the email of the claims. *)
Record Claims := { cl_org : string; cl_project : string; cl_user : string; cl_email : string }.
(** [edge.Strip] and [edge.Apply]. *)
Class Edge := {
  edge_Strip : headers → headers;
  edge_Apply : Claims → headers → headers
}.
(** The names the strip removes: it looks at the others only. *)
Class EdgeRule `{Edge} := {
  edge_names : gset string;
  strip_forgets h h' : (∀ k, k ∉ edge_names → h !! k = h' !! k) → edge_Strip h = edge_Strip h'
}.

(** The values of the context. *)
Record identity := { OrgID : string; ProjectID : string; UserID : string; UserEmail : string }.
Definition WithIdentity (org project user email : string) : identity := {| OrgID := org; ProjectID := project; UserID := user; UserEmail := email |}.
Definition nobody : identity := WithIdentity "" "" "" "".

Definition claimed (verify : option (headers → option Claims)) (h : headers) : option Claims := v ← verify; v h.
Definition RequireIdentity {A} `{Edge} (verify : option (headers → option Claims)) (require : bool) (refused : A) (next : identity → headers → A) (h : headers) : A :=
  let h := edge_Strip h in
  match claimed verify h with
  | Some c => if require && String.eqb (cl_org c) "" then refused else next (WithIdentity (cl_org c) (cl_project c) (cl_user c) (cl_email c)) (edge_Apply c h)
  | None => if require then refused else next nobody h
  end.

(** ** The policy *)

Record JWTConfig := { jc_JWKSURL : string; jc_Issuer : string; jc_Issuers : list string; jc_Audience : string; jc_TTL : Z }.
Definition add_issuer (l : list string) (iss : string) : list string :=
  let iss := trim_space iss in if String.eqb iss "" then l else if bool_decide (iss ∈ l) then l else l ++ [iss].
(** [NewValidator]: no verifier, or the keys, issuers and audiences it is built with. *)
Definition NewValidator (c : JWTConfig) : option (string * list string * list string * Z) :=
  if String.eqb (jc_JWKSURL c) "" then None
  else Some (jc_JWKSURL c, foldl add_issuer [] (jc_Issuer c :: jc_Issuers c), if String.eqb (jc_Audience c) "" then [] else [jc_Audience c], jc_TTL c).

(** No empty issuer is trusted, each is named once, and exactly the given ones are. *)
Lemma validator_issuers c url issuers aud ttl :
  NewValidator c = Some (url, issuers, aud, ttl) →
  NoDup issuers ∧ ∀ i, i ∈ issuers ↔ i ≠ "" ∧ ∃ g, g ∈ jc_Issuer c :: jc_Issuers c ∧ trim_space g = i.
Proof.
  unfold NewValidator. case_match; [done|]. intros [= _ <- _ _].
  assert (∀ l acc, NoDup acc → NoDup (foldl add_issuer acc l) ∧
            ∀ i, i ∈ foldl add_issuer acc l ↔ i ∈ acc ∨ i ≠ "" ∧ ∃ g, g ∈ l ∧ trim_space g = i) as Hf.
  { induction l as [|g l IH]; intros acc Ha; cbn [foldl]; [split; [done|]; set_solver|].
    assert (NoDup (add_issuer acc g)) as Hn.
    { unfold add_issuer. repeat case_match; try done. apply NoDup_app. split; [done|]. split; [|apply NoDup_singleton].
      intros x Hx ->%list_elem_of_singleton. apply bool_decide_eq_false in H1. done. }
    destruct (IH _ Hn) as [Hd He]. split; [done|]. intros i. rewrite He. unfold add_issuer.
    destruct (String.eqb_spec (trim_space g) "") as [E|E]; [set_solver|]. case_bool_decide; [set_solver|]. rewrite elem_of_app, list_elem_of_singleton. set_solver. }
  destruct (Hf (jc_Issuer c :: jc_Issuers c) [] (NoDup_nil_2)) as [Hd He]. split; [done|]. intros i. rewrite He. set_solver.
Qed.

(** ** The cluster's own routes *)

(** What [Embedded] keeps of its replicator and its router. *)
Record cluster := { ce_NodeID : string; ce_repl : option (string * (Z * Z * Z)); ce_router : option (list NodeID); ce_open : Z }.
Definition replicatorKind (r : option (string * (Z * Z * Z))) : string := match r with None => "none" | Some (k, _) => k end.
Definition stats_json (s : Z * Z * Z) : json :=
  let '(a, r, t) := s in JObj (("accepted", JNum a) :: ("rejected", JNum r) :: (if t =? 0 then [] else [("timeouts", JNum t)])).
Definition clusterStatus (rq : call) (c : cluster) : answer :=
  match cl_method rq with
  | GET => ok (JObj ([("nodeId", JStr (ce_NodeID c)); ("openShards", JNum (ce_open c)); ("replicator", JStr (replicatorKind (ce_repl c))); ("shardCount", JNum (ce_open c))] ++
                     match ce_repl c with None => [] | Some (_, s) => [("stats", stats_json s)] end ++
                     match ce_router c with None => [] | Some vs => [("validators", JArr (JStr <$> vs))] end))
  | _ => absent
  end.
Definition clusterHealth (rq : call) (c : cluster) : answer :=
  match cl_method rq with
  | GET => match ce_repl c with
           | None => {| an_status := 503; an_ctype := ctypeJSON; an_nosniff := false; an_body := render (one "status" (JStr "down")) |}
           | Some _ => ok (one "status" (JStr "ok"))
           end
  | _ => absent
  end.

(** ** The front door *)

Inductive served := Served (r : reply) | Streams (org : string) | Page | Redirected (to : string).

Section Door.
Context `{Env} `{Edge} (wording : err → string) (getenv : string → string) (workers : workerRegistry).
Context (verify : option (headers → option Claims)) (requireID : bool) (defaultNS : string) (c : cluster).

Definition identity_required : W served :=
  mret (Served (Answers (plain 401 ("{" +:+ quote "error" +:+ ":" +:+ quote "identity required" +:+ "," +:+ quote "code" +:+ ":401}")))).
Definition answered (a : answer) : W served := mret (Served (Answers a)).
Definition under (pre path : string) : bool := match strip_prefix pre path with Some _ => true | None => false end.

(** A pattern of the mux: served as it is, or behind the middleware. *)
Inductive route := Open (m : W served) | Guarded (next : identity → W served).
(** The longest pattern that fits a path, past the mux's own cleaning of it. *)
Definition pattern (rq : call) (first : raw) (path : string) : route :=
  if bool_decide (path ∈ ["/healthz"; "/v1/tasks/health"]) then Open (answered (ok (JObj [("namespace", JStr defaultNS); ("service", JStr "tasks"); ("status", JStr "ok")])))
  else if String.eqb path "/v1/tasks/settings" then Open (r ← HTTPHandler wording getenv workers rq (tenant "") path; mret (Served r))
  else if String.eqb path "/v1/tasks/cluster" then Open (answered (clusterStatus rq c))
  else if String.eqb path "/v1/tasks/cluster/health" then Open (answered (clusterHealth rq c))
  else if String.eqb path "/v1/tasks/mcp" then Guarded (λ i, a ← mcp wording rq first (tenant (OrgID i)); mret (Served (Answers a)))
  else if String.eqb path "/v1/tasks/events" then Guarded (λ i, mret (Streams (OrgID i)))
  else if under "/v1/tasks/" path then Guarded (λ i, r ← HTTPHandler wording getenv workers rq (tenant (OrgID i)) path; mret (Served r))
  else if bool_decide (path ∈ ["/v1/tasks"; "/_/tasks"]) then Open (mret (Redirected (path +:+ "/")))
  else if under "/_/tasks/" path then Open (mret Page)
  else if String.eqb path "/" then Open (mret (Redirected "/_/tasks/")) else Open (answered absent).
Definition buildHTTP (rq : call) (first : raw) (h : headers) (path : string) : W served :=
  match pattern rq first path with
  | Open m => m
  | Guarded next => RequireIdentity verify requireID identity_required (λ i _, next i) h
  end.

(** The paths anybody is answered at. *)
Definition public (path : string) : bool :=
  bool_decide (path ∈ ["/healthz"; "/v1/tasks/health"; "/v1/tasks/settings"; "/v1/tasks/cluster"; "/v1/tasks/cluster/health"]) || negb (under "/v1/tasks/" path).

(** The organization the token of a request gives. *)
Definition token_org (h : headers) : string := match claimed verify (edge_Strip h) with Some k => cl_org k | None => "" end.

Lemma then_pure {A B} (m : W A) (f : A → B) w : ((x ← m; mret (f x)) w).1 = (m w).1.
Proof. unfold mbind, M_bind. by destruct (m w) as [w' []]. Qed.
Lemma guarded_only `{!SegmentRule} rq first path next : pattern rq first path = Guarded next →
  public path = false ∧ ∀ i w q k, q ≠ tenant (OrgID i) → row (next i w).1 q k = row w q k.
Proof.
  unfold pattern, public. repeat (case_match; [try done|]); try done; intros [= <-]; (split; [|intros i w q k Hq; rewrite ?then_pure; first [by apply mcp_only|by apply http_only|done]]).
  - by match goal with E : String.eqb path _ = true |- _ => apply String.eqb_eq in E; subst path end.
  - by match goal with E : String.eqb path _ = true |- _ => apply String.eqb_eq in E; subst path end.
  - rewrite orb_false_iff. split; [|done].
    apply bool_decide_eq_false. repeat match goal with E : String.eqb path _ = false |- _ => apply String.eqb_neq in E | E : bool_decide _ = false |- _ => apply bool_decide_eq_false in E end.
    set_solver.
Qed.
Lemma open_still rq first path m w : pattern rq first path = Open m → public path = true ∧ (m w).1 = w.
Proof.
  unfold pattern, public. repeat (case_match; [try done|]); try done; intros [= <-]; rewrite ?then_pure;
    try match goal with E : String.eqb path _ = true |- _ => apply String.eqb_eq in E; subst path end; try done.
  all: split; [|try done]; try (by rewrite orb_true_r).
  - match goal with E : bool_decide (path ∈ _) = true |- _ => apply bool_decide_eq_true in E end. by rewrite bool_decide_eq_true_2 by set_solver.
  - by vm_compute.
  - unfold HTTPHandler. cbn. unfold settings, refuse, reply_with. by destruct (cl_method rq).
Qed.

End Door.

Module DoorDemo.
#[local] Existing Instance test_env.
#[local] Existing Instance test_segment_rule.

Definition word (e : err) : string := "error".
Definition no_settings (k : string) : string := "".
#[local] Instance estate : Edge := {|
  edge_Strip h := delete "X-Org-Id" (delete "X-User-Id" h);
  edge_Apply k h := <["X-Org-Id" := cl_org k]> (<["X-User-Id" := cl_user k]> h) |}.
#[local] Program Instance estate_rule : EdgeRule := {| edge_names := {["X-Org-Id"; "X-User-Id"]} |}.
Next Obligation.
  intros h h' Hh. cbn. apply map_eq. intros k. destruct (decide (k = "X-Org-Id")) as [->|H1]; [by rewrite !lookup_delete_eq|]. rewrite !(lookup_delete_ne _ "X-Org-Id") by done.
  destruct (decide (k = "X-User-Id")) as [->|H2]; [by rewrite !lookup_delete_eq|]. rewrite !lookup_delete_ne by done. apply Hh. set_solver.
Qed.
(** A verifier that takes the token for the organization. *)
Definition reads_token : option (headers → option Claims) :=
  Some (λ h, tok ← h !! "Authorization"; Some {| cl_org := tok; cl_project := ""; cl_user := "u"; cl_email := "" |}).
Definition solo : cluster := {| ce_NodeID := "n1"; ce_repl := Some ("local", (0, 0, 0)); ce_router := Some ["n1"]; ce_open := 1 |}.
Definition door := buildHTTP word no_settings newWorkerRegistry reads_token true "default" solo.
Definition post_run : call :=
  {| cl_method := POST; cl_query := []; cl_unread := false;
     cl_body := RJson (JObj [("workflowId", JStr "order"); ("workflowType", JObj [("name", JStr "Order")]); ("taskQueue", JObj [("name", JStr "orders")])]) |}.
Definition spoofed : headers := {["X-Org-Id" := "globex"]}.
Definition signed : headers := {["Authorization" := "acme"; "X-Org-Id" := "globex"]}.
Definition runs_path : string := "/v1/tasks/namespaces/default/workflows".
Definition runs (p : Principal) (w : world) : list string := (λ wf, WorkflowId (Execution wf)) <$> match (Workflow.ListWorkflows p "default" w).2 with inr l => l | inl _ => [] end.
Definition after_post : world := (door post_run RNone signed runs_path (new_world true)).1.


(** The settings of an organization's issuers. *)
Example issuers : NewValidator {| jc_JWKSURL := "https://hanzo.id/jwks"; jc_Issuer := "https://hanzo.id"; jc_Issuers := [""; " https://lux.id "; "https://hanzo.id"]; jc_Audience := ""; jc_TTL := 0 |} =
  Some ("https://hanzo.id/jwks", ["https://hanzo.id"; "https://lux.id"], [], 0).
Proof. by vm_compute. Qed.
End DoorDemo.
