(* ===== verification/Embedded.v ===== *)
(** The process ([embed.go]): bringing the engine up over a data directory, its ZAP
    listeners and which of them a push goes out on, the second listener that asks for an
    identity, shutting down, the in-process calls of a host, and the migration route. *)

From Corelib Require Import SpecFloat.
From Stdlib Require Import Ascii ZArith Lia.
From stdpp Require Import prelude strings gmap.
From S2P Require Import Prelude GoStrings Base64 Json Types EngineTypes Env Principal Shard GoTime Temporal Dispatch Events World WorldFacts Failure Workflow Durable Activities Schedules Admin Surface Zap Mcp Migration Reach Serves ZapSpec Commands Frames RunInv Creates Upkeep.

Local Open Scope Z_scope.

Record EmbedConfig := { ec_Address : string; ec_Namespace : string; ec_validator : option (string → string); ec_RequireIdentity : bool; ec_Replicator : option string }.

(** A listener: whom it asks for an identity, and the peers connected to it. *)
Record listener := { ln_validator : option (string → string); ln_require : bool; ln_peers : list string }.
Record embedded := { em_cfg : EmbedConfig; em_nodes : list listener; em_ticking : bool; em_repl : option string; em_server : server }.

Definition sunPath : nat := 108.
(** [checkAddress]; [unix] is [zap.Network]'s verdict. *)
Definition checkAddress (unix : string → bool) (addr : string) : bool := negb (unix addr) || (String.length addr <? sunPath)%nat.

Inductive embed_error := EAddress | EStore | ENamespace (e : err) | EStart | ERecover (e : err) | ENoValidator.

Section Process.
Context `{Env} (wording : err → string) (unix : string → bool).

(** [Embed] over what the data directory holds; [opens] and [starts] are the store's and
    the node's own successes. *)
Definition Embed (opens starts : bool) (cfg : EmbedConfig) (disk : world) : embed_error + embedded :=
  let ns := set_if_empty (ec_Namespace cfg) "default" in
  if negb (checkAddress unix (ec_Address cfg)) then inl EAddress
  else if negb opens then inl EStore
  else match Workflow.namespace root ns (restart true disk) with
       | (_, inl e) => inl (ENamespace e)
       | (w, inr _) =>
           if negb starts then inl EStart
           else match Recover root w with
                | (_, inl e) => inl (ERecover e)
                | (w, inr _) =>
                    inr {| em_cfg := {| ec_Address := ec_Address cfg; ec_Namespace := ns; ec_validator := ec_validator cfg;
                                        ec_RequireIdentity := ec_RequireIdentity cfg; ec_Replicator := ec_Replicator cfg |};
                           em_nodes := [{| ln_validator := ec_validator cfg; ln_require := ec_RequireIdentity cfg; ln_peers := [] |}]; em_ticking := true;
                           em_repl := Some (default "local" (ec_Replicator cfg)); em_server := {| sv_world := w; sv_workers := newWorkerRegistry |} |}
                end
       end.
Definition Address (e : option embedded) : string := match e with None => "" | Some e => ec_Address (em_cfg e) end.

Definition with_nodes (l : list listener) (e : embedded) : embedded :=
  {| em_cfg := em_cfg e; em_nodes := l; em_ticking := em_ticking e; em_repl := em_repl e; em_server := em_server e |}.
Definition with_server (s : server) (e : embedded) : embedded :=
  {| em_cfg := em_cfg e; em_nodes := em_nodes e; em_ticking := em_ticking e; em_repl := em_repl e; em_server := s |}.

Definition ServeGated (starts : bool) (addr : string) (validator : option (string → string)) (e : embedded) : embedded * option embed_error :=
  match validator with
  | None => (e, Some ENoValidator)
  | Some _ =>
      if negb (checkAddress unix addr) then (e, Some EAddress)
      else if negb starts then (e, Some EStart)
      else (with_nodes (em_nodes e ++ [{| ln_validator := validator; ln_require := true; ln_peers := [] |}]) e, None)
  end.

Definition close_store (w : world) : world :=
  {| w_shards := w_shards w; w_closed := true; w_repl := w_repl w; w_disp := w_disp w; w_broker := w_broker w; w_events := w_events w;
     w_cancelling := w_cancelling w; w_fails := w_fails w; w_log := w_log w; w_timers := w_timers w; w_clock := w_clock w; w_rand := w_rand w; w_ops := w_ops w |}.
Definition Stop (e : embedded) : embedded :=
  {| em_cfg := em_cfg e; em_nodes := []; em_ticking := false; em_repl := None;
     em_server := {| sv_world := close_store (sv_world (em_server e)); sv_workers := sv_workers (em_server e) |} |}.

(** [en.disp.send]: the first listener that has the peer. *)
Definition push_to (peer : string) (e : embedded) : option nat := fst <$> list_find (λ l, peer ∈ ln_peers l) (em_nodes e).

(** A message that arrives on a listener; [None]: no such listener or opcode. *)
Definition on_message (i : nat) (op : Z) (from : string) (msg : message) (e : embedded) : option (embedded * (err + response)) :=
  l ← em_nodes e !! i;
  h ← zapHandlers wording (ec_Namespace (em_cfg e)) (ln_validator l) (ln_require l) op;
  let '(s, r) := h from msg (em_server e) in Some (with_server s e, r).

(** The calls of a host in the same process. *)
Definition RegisterWorker (now : string) (x : Worker) (e : embedded) : embedded :=
  with_server {| sv_world := sv_world (em_server e); sv_workers := (worker_Register now x (sv_workers (em_server e))).2 |} e.
Definition ActivitiesPageForOrg (org ns cursor : string) (pageSize : Z) : W (list StandaloneActivity * string) := ListActivities (tenant org) ns cursor pageSize.
Definition ActivitiesForOrg (org ns : string) : W (list StandaloneActivity) := r ← ActivitiesPageForOrg org ns "" 0; mret r.1.
Definition CancelActivityForOrg (org ns activityID runID reason identity : string) : W unit := CancelActivity (tenant org) ns activityID runID reason identity.

(** [migrate]: a refusal, or the job; [first] is the first document of the body. *)
Definition migrate (file_bytes : table → Z) (rq : call) (first : raw) (org ns : string) (c : coordinator) : coordinator * (answer + Job) :=
  match cl_method rq with
  | POST =>
      if String.eqb ns "" then (c, inl (plain 400 "namespace required"))
      else match (if cl_unread rq then None else match first with RJson j => o ← as_obj j; rd o "toNode" | _ => None end) with
           | None => (c, inl (plain 400 (wording ErrDecode)))
           | Some to =>
               match Migrate wording file_bytes
                       {| jb_ID := ""; jb_Principal := Principal_String (tenant org); jb_Namespace := ns; jb_From := ""; jb_To := to; jb_Status := ""; jb_Error := "";
                          jb_Bytes := 0; jb_StartedAt := None; jb_FinishedAt := None |} c with
               | (c, inl e) => (c, inl (plain 500 (err_text wording e)))
               | (c, inr (_, Some e)) => (c, inl (plain 500 (err_text wording e)))
               | (c, inr (j, None)) => (c, inr j)
               end
           end
  | _ => (c, inl absent)
  end.

(** ** The life of a process *)

Inductive em_op := OpGate (starts : bool) (addr : string) (validator : option (string → string)) | OpJoin (i : nat) (peer : string) | OpLeave (i : nat) (peer : string)
| OpMessage (i : nat) (op : Z) (from : string) (msg : message) | OpShut.
Definition set_peers (f : list string → list string) (l : listener) : listener := {| ln_validator := ln_validator l; ln_require := ln_require l; ln_peers := f (ln_peers l) |}.
Definition em_step (e : embedded) (o : em_op) : embedded :=
  match o with
  | OpGate starts addr v => (ServeGated starts addr v e).1
  | OpJoin i peer => with_nodes (alter (set_peers (λ l, l ++ [peer])) i (em_nodes e)) e
  | OpLeave i peer => with_nodes (alter (set_peers (filter (λ p, p ≠ peer))) i (em_nodes e)) e
  | OpMessage i op from msg => match on_message i op from msg e with Some (e, _) => e | None => e end
  | OpShut => Stop e
  end.

(** A listener asks what the configuration says, or for an identity every time. *)
Definition guarded (cfg : EmbedConfig) (l : listener) : Prop :=
  ln_validator l = ec_validator cfg ∧ ln_require l = ec_RequireIdentity cfg ∨ is_Some (ln_validator l) ∧ ln_require l = true.
Lemma em_step_guarded cfg e o : em_cfg e = cfg → Forall (guarded cfg) (em_nodes e) → em_cfg (em_step e o) = cfg ∧ Forall (guarded cfg) (em_nodes (em_step e o)).
Proof.
  intros Hc Hn. destruct o as [starts addr v|i peer|i peer|i op from msg|]; cbn [em_step].
  - unfold ServeGated. repeat case_match; try done. split; [done|]. cbn. apply Forall_app. split; [done|]. apply Forall_singleton. right. split; [by eexists|done].
  - split; [done|]. cbn. apply Forall_alter; [done|]. intros l _ Hl. exact Hl.
  - split; [done|]. cbn. apply Forall_alter; [done|]. intros l _ Hl. exact Hl.
  - unfold on_message. destruct (em_nodes e !! i); [|done]. cbn [mbind option_bind]. destruct (zapHandlers _ _ _ _ _) as [h|]; [|done]. cbn [mbind option_bind].
    by destruct (h from msg (em_server e)).
  - by split.
Qed.
Lemma em_run_guarded cfg ops : ∀ e, em_cfg e = cfg ∧ Forall (guarded cfg) (em_nodes e) → Forall (guarded cfg) (em_nodes (foldl em_step e ops)).
Proof. induction ops as [|o ops IH]; intros e [Hc Hn]; cbn [foldl]; [done|]. by apply IH, em_step_guarded. Qed.

(** A process keeps its doors: from its start on, whatever listeners are added, peers
    come and go, messages are served and however often it is shut down, every listener
    either follows the configuration or asks for an identity; on one that does, a message
    whose token gives no organization is refused and changes nothing, except where a task
    token admits it; a push goes to a listener the peer is on, before which none has it,
    and to none exactly when no listener has it; and after a shutdown nothing is served. *)
Theorem process_keeps_doors opens starts cfg disk e0 ops :
  Embed opens starts cfg disk = inr e0 →
  let e := foldl em_step e0 ops in
  Forall (guarded (em_cfg e0)) (em_nodes e) ∧
  (∀ i l org_of op from msg e' r, em_nodes e !! i = Some l → ln_validator l = Some org_of → ln_require l = true → worker_answer op = false →
     str (request_of msg) "auth_token" = "" ∨ org_of (trim_prefix (str (request_of msg) "auth_token") "Bearer ") = "" →
     on_message i op from msg e = Some (e', r) → em_server e' = em_server e ∧ ∃ why, r = inr (Responds {| ev_body := RNone; ev_status := 401; ev_error := why |})) ∧
  (∀ peer, match push_to peer e with
           | Some i => (∃ l, em_nodes e !! i = Some l ∧ peer ∈ ln_peers l) ∧ ∀ j l, (j < i)%nat → em_nodes e !! j = Some l → peer ∉ ln_peers l
           | None => ∀ l, l ∈ em_nodes e → peer ∉ ln_peers l
           end) ∧
  (∀ i op from msg peer, on_message i op from msg (Stop e) = None ∧ push_to peer (Stop e) = None).
Proof.
  intros He e. split_and!.
  - assert (em_cfg e0 = em_cfg e0 ∧ Forall (guarded (em_cfg e0)) (em_nodes e0)) as H0.
    { split; [done|]. revert He. unfold Embed. repeat case_match; try done. intros [= <-]. cbn. apply Forall_singleton. by left. }
    subst e. by apply em_run_guarded.
  - intros i l org_of op from msg e' r Hl Hv Hr Hop Htok. unfold on_message. rewrite Hl. cbn [mbind option_bind].
    destruct (zapHandlers _ _ _ _ _) as [h|] eqn:Eh; [|done]. cbn [mbind option_bind].
    destruct (unidentified_refused wording (ec_Namespace (em_cfg e)) (ln_validator l) (ln_require l) org_of op h from msg (em_server e) Hv Hr Eh Hop Htok) as [why ->].
    intros [= <- <-]. split; [done|by eexists].
  - intros peer. unfold push_to. destruct (list_find _ _) as [[i l]|] eqn:Ef; cbn.
    + apply list_find_Some in Ef as (Hl & Hp & Hj). split; [by exists l|]. intros j l' Hlt Hl'. by eapply Hj.
    + apply list_find_None in Ef. by apply Forall_forall.
  - done.
Qed.
End Process.

(** ** What a start brings back *)

Section Boot.
Context `{Env} `{!SegmentRule} (unix : string → bool).

(** The tasks with the dispatcher and the timers are the root tenant's. *)
Definition roots_only (w : world) : Prop := tokens_in (λ p _, p = root) (w_disp w) ∧ Forall (λ t, rt_principal t = root) (w_timers w).
Definition keeps_roots : relation world := λ w w', roots_only w → roots_only w'.

Lemma roots_same w w' : w_disp w' = w_disp w → w_timers w' = w_timers w → keeps_roots w w'.
Proof. intros E1 E2 [P1 P2]. split; [by rewrite E1|by rewrite E2]. Qed.
Lemma roots_wrote p ns f w w' : wrote p ns f w w' → keeps_roots w w'.
Proof. intros [_ (_ & Ed & _ & _ & _ & _ & _ & Et & _)]. by apply roots_same. Qed.
Lemma roots_steps : Steps keeps_roots root (λ _, True) (λ _, True).
Proof.
  split.
  - unfold keeps_roots. split; [by intros w ?|]. intros w1 w2 w3 H1 H2 Hh. auto.
  - intros w w' [_ (_ & Ed & _ & _ & _ & _ & _ & Et & _)]. by apply roots_same.
  - intros key kind ns rest v w w' _ _. apply roots_wrote.
  - intros key kind ns rest w w' _ _. apply roots_wrote.
  - intros w w' _ Ed Et _. by apply roots_same.
  - intros o w Hm [P1 P2]. split; [|done]. apply dstep_tokens; [|done]. destruct o; cbn in *; tauto.
  - intros t w Hp _ [P1 P2]. split; [done|]. cbn. apply Forall_app. split; [done|]. by apply Forall_singleton.
  - intros ns wf run t w _ [P1 P2]. by split.
  - intros k w [P1 P2]. by split.
Qed.
Lemma boot_resp R ns : Steps R root (λ _, True) (λ _, True) → respects R (Workflow.namespace root ns;; Recover root).
Proof.
  intros HR. pose proof (st_pre _ _ _ _ HR) as Hpre. apply (resp_bind R); [by apply (resp_namespace R root _ _ HR)|]. intros _.
  unfold Recover, ListNamespaces. apply (resp_bind R); [by apply (resp_listInto R root _ _ HR)|]. intros l. apply (resp_for_each R). intros n _.
  by apply (resp_recover_namespace R root _ _ HR).
Qed.

(** (C24) A start brings back the root tenant's work and nobody else's: whatever runs and
    activities of organizations were in flight when the process ended, after the next start
    no task and no timer of theirs exists, and none of their rows was touched. *)
Theorem start_recovers_root_only opens starts cfg disk e :
  Embed unix opens starts cfg disk = inr e →
  roots_only (sv_world (em_server e)) ∧ ∀ q k, q ≠ root → row (sv_world (em_server e)) q k = row disk q k.
Proof.
  unfold Embed. set (ns := set_if_empty _ _). repeat (case_match; [done|]).
  destruct (Workflow.namespace root ns (restart true disk)) as [w1 [|n1]] eqn:E1; [done|]. destruct starts; [|done]. cbn [negb].
  destruct (Recover root w1) as [w2 [|[]]] eqn:E2; [done|]. intros [= <-]. cbn [em_server sv_world].
  assert (((Workflow.namespace root ns;; Recover root) (restart true disk)).1 = w2) as Ew.
  { unfold mbind, M_bind. by rewrite E1, E2. }
  rewrite <-Ew. split.
  - apply (respects_world keeps_roots _ (restart true disk) (boot_resp _ ns roots_steps)). by split; [split; apply map_Forall_empty|].
  - intros q k Hq. rewrite (respects_world (only root) _ (restart true disk) (boot_resp _ ns (only_steps root)) q k Hq). by apply tables_row.
Qed.
End Boot.

Module EmbeddedDemo.
#[local] Existing Instance test_env.
#[local] Existing Instance test_segment_rule.

Definition word (e : err) : string := "error".
Definition is_path (a : string) : bool := match a with String "/" _ => true | _ => false end.
Definition reads_org (tok : string) : string := tok.
Definition config : EmbedConfig := {| ec_Address := ":9999"; ec_Namespace := ""; ec_validator := None; ec_RequireIdentity := false; ec_Replicator := None |}.
Definition nothing_on : embedded :=
  {| em_cfg := config; em_nodes := []; em_ticking := false; em_repl := None; em_server := {| sv_world := new_world true; sv_workers := newWorkerRegistry |} |}.
Definition up (disk : world) : embedded := match Embed is_path true true config disk with inr e => e | inl _ => nothing_on end.
Definition gate : list em_op := [OpGate true ":9998" (Some reads_org); OpJoin 1 "worker"].
Definition open_doors : embedded := foldl (em_step word is_path) (up (new_world true)) gate.
Definition bare : message := MEnvelope (RJson (JObj [("namespace", JStr "default"); ("workflow_id", JStr "order")])).

Lemma up_of disk : match Embed is_path true true config disk with inr _ => true | inl _ => false end = true → Embed is_path true true config disk = inr (up disk).
Proof. unfold up. by destruct (Embed _ _ _ _ disk). Qed.
Lemma up_starts : Embed is_path true true config (new_world true) = inr (up (new_world true)).
Proof. apply up_of. by vm_compute. Qed.
Lemma process_keeps_doors_witness :
  (ln_require <$> em_nodes open_doors, push_to "worker" open_doors, push_to "stranger" open_doors) = ([false; true], Some 1%nat, None) ∧
  ∀ i op from msg peer, on_message word i op from msg (Stop open_doors) = None ∧ push_to peer (Stop open_doors) = None.
Proof.
  split; [by vm_compute|].
  exact (proj2 (proj2 (proj2 (process_keeps_doors word is_path true true config (new_world true) (up (new_world true)) gate up_starts)))).
Defined.

Definition two_runs : world :=
  (startWorkflowFull root "default" "own" "" {| TypeName := "Order" |} "orders" JNull "" ∅ JNull ""
    (startWorkflowFull (tenant "acme") "default" "order" "" {| TypeName := "Order" |} "orders" JNull "" ∅ JNull "" (new_world true)).1).1.
Definition tasks_in (w : world) : list (string * string) := (λ t, (Principal_String (wt_principal t), wt_workflowID t)) <$> (map_to_list (d_wfByToken (w_disp w))).*2.
Lemma up_again : Embed is_path true true config two_runs = inr (up two_runs).
Proof. apply up_of. by vm_compute. Qed.
(** Two runs are open when the process ends, one of an organization and one of the root
    tenant; the next process has a task for the root's run only. *)
Lemma start_recovers_root_only_witness :
  (length (tasks_in two_runs), tasks_in (sv_world (em_server (up two_runs)))) = (2%nat, [(Principal_String root, "own")]) ∧
  roots_only (sv_world (em_server (up two_runs))).
Proof.
  split; [by vm_compute|].
  exact (proj1 (start_recovers_root_only is_path true true config two_runs (up two_runs) up_again)).
Defined.
End EmbeddedDemo.
